(* ===== verification/_CoqProject ===== *)
-Q . S2P
Prelude.v
Common.v
Crypto.v
Cursor.v
Codec.v
SortedArray.v
State.v
Apply.v
Mempool.v
Econ.v
Buffers.v
Chain.v
Accept.v
Ledger.v
Agreement.v
Unique.v
Consensus.v
ConsensusFacts.v
Inclusion.v
Slots.v
Text.v
Files.v
Store.v
Net.v
NetFacts.v
Dial.v
Config.v
Platform.v
Node.v
Rpc.v
NodeFacts.v
Replicas.v
Boot.v
Sync.v
Round.v
Wallet.v
Cli.v
RpcFacts.v
WalletFacts.v
Loops.v
Lifecycle.v
Locks.v
