(* ===== verification/Prelude.v ===== *)
(** * AgentChain: a verification of the node and its wallet

    AgentChain is a proof-of-stake ledger in C. The sources named below are the
    files of the repository's [src/] directory. This library models what the node
    decides (what bytes mean, what a transaction does, which transactions wait,
    which blocks the chain accepts, how validators vote) and how it talks: frames
    and connections between peers, synchronisation, the JSON-RPC server, and the
    command line with its wallet, down to the bytes on the streams.

    ** The program and how its parts interact

    - [common.c]: byte arrays, big-endian integers, hex, integer square root.
    - [crypto.c]: wrappers over libsodium; a VRF made of signatures.
    - [codec.c]: transactions, blocks and votes as bytes, through bounded cursors.
    - [state.c]: accounts and names in sorted arrays, the state root, the snapshot
      file, and [ac_state_apply_tx], the transition of one transaction.
    - [mempool.c]: the pool of pending transactions, checked against the state.
    - [chain.c]: the chain on disk (one file per block, a state snapshot, a meta
      file), its indexes, the fee and reward rules, sortition, and the two entry
      points [ac_chain_accept_block] and [ac_chain_build_block], which run
      [ac_state_apply_tx] on the state and roll it back on rejection.
    - [consensus.c]: a table of pending proposals filled by messages and by the
      leader's own slot, deferred voting by priority, and sealing, which hands a
      block with its votes to [ac_chain_accept_block] and clears the pool.
    - [net.c]: framed messages over TCP, a table of peers with bounded outbound
      queues, the HELLO handshake with its gossip of neighbours, and dispatch of
      messages to callbacks, each gossiped message once.
    - [node.c]: the key and genesis files, the callbacks by which network, consensus,
      pool and chain meet, and the start and stop of the node.
    - [rpc.c]: an HTTP server with twelve JSON methods over chain, pool and network;
      a submitted transaction goes to the pool and from there to the network.
    - [main.c], [mainnet.h]: the commands. [node] configures and starts a node,
      [send], [bond] and [unbond] build, sign and submit transactions by RPC.

    ** The files

    - [Prelude]: machine integers with explicit wrap-around, byte lists and fixed
      arrays, the class [CmpLaws] of three-way comparisons, shared list lemmas,
      the arithmetic and length tactics.
    - [Common], [Crypto], [Codec], [State], [Mempool]: the C files of the same
      names. [Apply] is [ac_state_apply_tx]. [Cursor] holds the codec's cursors as
      a reader monad, [SortedArray] the bisection and memmove loops of [state.c]
      for any key, with their refinement to finite maps.
    - [Econ]: rewards, base fee and sortition of [chain.c]. [Buffers]: the copies of
      the sortition in [consensus.c], and the growth of the index arrays. [Chain]: the
      store of [chain.c], files, indexes, liveness map and epoch seeds. [Accept]:
      genesis, opening, acceptance and building. [Ledger]: the chain as a transition
      system, restarts included. [Agreement]: two chains of one genesis. [Unique]: no
      transaction is on a chain twice.
    - [Consensus]: the structs and handlers of [consensus.c]; [ConsensusFacts]:
      their properties. [Inclusion]: from the pool into a block. [Slots]: the timer
      thread, with the clock as input.
    - [Text]: C strings, decimal numbers and the JSON searches of [rpc.c] and
      [main.c]. [Files]: the file helpers of [common.c]. [Store]: the data directory
      of a chain, file by file and write by write, over [Files].
    - [Net]: [net.c] but for connecting; [NetFacts]: its properties. [Dial]:
      dialling, the connector, the reader thread.
    - [Platform]: clock, sleeping, log and random generator of [common.c], [crypto.c]
      and [portable.h].
    - [Config]: key file, genesis file, options and the [genesis] command. [Node]:
      the callbacks of [node.c] over the class [NetWorld], through which the network
      sees the node it is part of; [callbacks_ok] is what it asks of callbacks, and
      [NodeFacts.node_callbacks_ok] discharges it. [Rpc]: [rpc.c]. [NodeFacts]: the
      node as a transition system. [Replicas]: two such nodes. [Boot]: the [node]
      command and a node's start. [Sync]: catching up. [Round]: validators at one tip
      through a slot. [Wallet]: the client commands of [main.c]; [Cli]: its use of curl,
      usage, help and version. [RpcFacts] and
      [WalletFacts]: the protocol between client and server.
    - [Loops]: the accept loops of [net.c] and [rpc.c] and the connector's loop.
      [Lifecycle]: the objects, threads, sockets and slots of a node from its start to
      its stop. [Locks]: the mutexes its threads take, as skeletons of their code.

    Definitions keep the names of the C functions; a part of a long function has a
    name of its own ([apply_transfer], [commit_loop], ...). A C struct is a Record,
    an enum an Inductive, an array with its length a list, a pointer into an array
    an index. A [-1] or NULL result is [None] or an error value. A call that
    mutates returns the new value. The decoders that index the buffer by hand
    return [OOB] when they would read outside it, so that memory safety is a
    theorem and not a convention of the model.

    ** What stands outside

    - libsodium is the class [Crypto.Sodium] with the documented behaviour in
      [SodiumLaws] (hashing by parts, signing then verifying, layout of a secret
      key). No hardness is assumed: where a theorem speaks of conflicting
      signatures it exhibits them. [ToySodium] is an instance that satisfies the
      laws; the witnesses use it.
    - [long double] is the class [Econ.LongDouble]: the mantissa width of the
      platform and the result of an overflowing conversion.
    - Clocks, random bytes and the success of each file write are arguments ([env_t],
      [cenv_t]); [malloc] and [realloc] succeed. Operations that hold a mutex are one step;
      the leader's slot routine, which builds before it locks, is two. The handshake
      is two as well, as the identity is set after the table's mutex is released; so is
      the test and the noting of a gossiped message ([NodeFacts.gossip_race]), though
      [Net.dispatch_message] runs them one after the other. The stop of the network is
      one step, a condition of [Lifecycle.clean_shutdown].
    - The Windows build differs in what the model can see at three places: a file is
      removed before it is replaced (the argument [win32] of [Files] and [Store]), the
      home directory has a second variable ([Boot.vars_t]), and sleeping takes 32 bits
      ([Platform]). The record of files of [Chain], over which the theorems on the ledger
      are stated, is that of a build where a failed replacement keeps the old file.
    - A socket is a list of what its reads or writes return ([recv_ev], [send_ev]):
      pieces of any size, interruptions, failures. The connection of the native client and
      what its two sends take are inputs too ([Wallet.post_io]). Name resolution and connecting
      are a function ([connect_t]), curl is another ([rpc_call]), files other than
      the chain's are a store by path ([fs_t]). [snprintf] into a buffer cuts at its
      size, as the code relies on.
    - [chain_fits c] bounds the sizes (fewer than 2^32 accounts and names, the
      width of the snapshot's counters), which memory bounds in practice.

    ** What the theorems show

    - Ledger. [Ledger.ledger_reachable]: the blocks on disk of every reachable chain
      form one hash-linked sequence with growing slots ending in the tip, whatever
      was submitted, whichever writes failed and however often it was restarted, also
      after writes that failed.
      [Ledger.reopen_restores] and [Unique.reachable_tx_find]: what is on disk is the
      chain, and the index finds exactly what the blocks hold, where each transaction
      is at most once.
      [Store.crash_recovery]: whatever point of the writes of a block a crash hits,
      the directory opens as the chain before or after it, or with its new state; on
      Windows a file may be missing instead.
    - Agreement. [Replicas.nodes_agree]: two nodes of one genesis hold the same blocks
      at the heights both have, or a validator signed two blocks of the first height
      where they differ, and its two votes are evidence that slashes its stake.
    - Acceptance. [Accept.accept_ok_iff] states the acceptance rule as a predicate,
      [accept_ok_extends] and [accept_reject_no_effect] its effects,
      [accept_quorum_intersection] the safety argument of the commit rule, and
      [build_then_accept] that a leader's block is what validators recompute.
    - Execution. The theorems of [Apply]: admission as an equivalence, conservation
      of supply, replay protection, exact fees, the effect of a transfer and of a
      failing body, the type invariant.
    - State and codec. Finite-map refinement, snapshots and blocks round-trip and
      are canonical, decoders are memory safe on any input, roots and signed
      messages are unambiguous.
    - Mempool. Capacity, order by tip and uniqueness, at whatever slots; what an add displaces.
    - Consensus. [ConsensusFacts.consensus_safe]: any interleaving of messages and
      phases keeps the chain and the pending table sound; what a counted vote has
      passed; how the vote lock moves; agreement of the choice; what sealing does.
      [Slots.slot_loop_schedule]: which phase of which slot runs when, and that the
      engine is moved by these phases and nothing else;
      [Slots.seal_phase_seals]: a block with a quorum is sealed by its slot's end.
      [Round.round_finalises]: validators at one tip that hear a leader's proposal and
      the committee's votes all end the slot with that block, one height up.
      [Inclusion.tx_confirmed]: what waits high enough in a leader's pool is in the
      block it builds, and found there when the block is accepted.
    - Node. [NodeFacts.node_safe]: any messages, connections, timer phases and RPC
      requests, in any order, keep the ledger's invariant and every bound of the
      tables and queues. [Sync.sync_round]: a node that fell behind asks, is served
      and ends at the blocks of its peer. [Boot.first_run_joins_mainnet]: from a bare
      home directory to a node on the main network, and the same node again.
      [Loops.listener_admits]: who connects gets a slot and a HELLO; the loops of the
      threads refine the node's transitions ([Loops.server_loops]).
    - Threads. [Lifecycle.clean_shutdown]: after a stop nothing of the node is left.
      [Locks.no_deadlock]: mutual exclusion, one order of the mutexes, no deadlock.
    - Network. [Dial.connection_delivers]: what one end frames the other dispatches,
      whatever the fragmentation; [Dial.connector_connects]: seeds are connected;
      [NetFacts.newest_connection_wins], with any steps of other threads but a second
      handshake of the peer in the middle, [NetFacts.gossip_once], HELLO round trips
      and a memory-safe parser, exact queue accounting.
    - Clients. [WalletFacts.wallet_submits]: the [send] command, the server and the
      two byte streams between them put exactly the intended, validly signed
      transfer before the pool, when the client's sends are whole. [RpcFacts.rpc_lists_complete]: no listing is cut.
      [Cli.https_client]: what the client makes of a run of curl.
      [Cli.help_defaults]: the defaults of the help are those of the node.
      [Config.genesis_file_roundtrip], [Config.key_file_roundtrip] and
      [Files.write_atomic_safe]: files are read back as written, and a crash leaves
      the old or the new one (or, on Windows, none).
    - Arithmetic. The integer square root is exact and terminates; base fee and
      emission bounds.

    Where the code does not do what it means to, the behaviour is a lemma too:
    [Apply.self_transfer_destroys], [Apply.self_slash_mints],
    [Apply.clamped_fee_still_tipped], [Apply.wrapped_price_admits],
    [State.state_root_separator_ambiguous], [Mempool.mempool_fee_wraps],
    [Econ.next_base_fee_wraps], [Accept.repeated_signer_finalises],
    [Accept.internal_error_keeps_new_state], [Accept.build_gas_underestimates],
    [ConsensusFacts.validator_votes_twice_at_one_height],
    [ConsensusFacts.forged_signer_blocks_sealing],
    [ConsensusFacts.wrong_height_vote_blocks_sealing], [Ledger.crash_between_saves],
    [NetFacts.interleaved_handshakes_duplicate], [NodeFacts.announcement_suppressed],
    [NodeFacts.early_vote_lost],
    [Dial.redial_evicts_live_connection], [Sync.request_truncates],
    [WalletFacts.long_host_over_read], [Boot.port_wraps],
    [Store.crash_during_genesis], [Platform.win32_wakes_before_genesis],
    [Cli.curl_killed_is_success], [Cli.curl_request_cut],
    [Lifecycle.port_in_use_faults], [Lifecycle.dial_during_stop_leaks],
    [Locks.rpc_sends_under_chain_lock], [Store.win32_crash_loses_chain],
    [WalletFacts.short_send_no_answer], [Mempool.added_slot_not_compared],
    [NodeFacts.gossip_race]. The hypotheses of the general theorems exclude
    just these cases.

    ** Bounds and fuel

    A loop that is not structural is [while_fuel], whose fuel is a binary number, so
    that a large bound costs nothing when the loop stops early. The bisection loops
    of [SortedArray] and [Chain] get one turn more than the array has elements, the
    doubling of a capacity in [State] 64 turns, and the square root loops 2^33
    turns, proved enough for every 64-bit argument by [Common.isqrt_floor]. The
    decoders recurse on counts read from the input, the scans on list structure.
    Socket loops recurse on the events of the socket, thread loops on the turns they
    are given; printing a 64-bit number gets the twenty digits it can have, and the
    scans for a header line or a genesis line as many turns as there are characters.

    ** Not modelled

    What an operating-system call does inside: socket options, name resolution, and the
    wrappers of [portable.h] that rename one call each; their results are inputs. The
    wording of error messages. Loss of data a disk has not been told to keep.
    Memory exhaustion: [malloc] and [realloc] succeed, but for [Locks], whose skeletons
    have the returns for it too. The tests and the deployment scripts. *)

From stdpp Require Export base tactics gmap list sorting countable.
From Stdlib Require Export ZArith Lia.
From Stdlib Require Import StrictProp.
From Stdlib Require Export Strings.Byte.
From stdpp Require Export strings.

Open Scope Z_scope.

(** ** Machine integers

    A [w]-bit unsigned integer is a [Z]; every C operation that can wrap is
    written with the wrap of its type around it. *)

Declare Scope cint_scope.
Delimit Scope cint_scope with C.

Abbreviation U8  := (2 ^ 8).
Abbreviation U16 := (2 ^ 16).
Abbreviation U32 := (2 ^ 32).
Abbreviation U64 := (2 ^ 64).
Abbreviation UINT64_MAX := (2 ^ 64 - 1).

Definition u8  (z : Z) : Z := z mod U8.
Definition u16 (z : Z) : Z := z mod U16.
Definition u32 (z : Z) : Z := z mod U32.
Definition u64 (z : Z) : Z := z mod U64.

(** The value of a 64-bit pattern read as a two's complement [int64_t]. *)
Definition i64 (z : Z) : Z :=
  let w := z mod U64 in if w <? 2 ^ 63 then w else w - U64.

Notation "a ⊕ b" := (u64 (a + b)) (at level 50, left associativity) : cint_scope.
Notation "a ⊖ b" := (u64 (a - b)) (at level 50, left associativity) : cint_scope.
Notation "a ⊗ b" := (u64 (a * b)) (at level 40, left associativity) : cint_scope.

Open Scope cint_scope.

Definition is_u8  (z : Z) : Prop := 0 <= z < U8.
Definition is_u16 (z : Z) : Prop := 0 <= z < U16.
Definition is_u32 (z : Z) : Prop := 0 <= z < U32.
Definition is_u64 (z : Z) : Prop := 0 <= z < U64.

(** Arithmetic with the widths unfolded. *)
Ltac widths :=
  unfold is_u8, is_u16, is_u32, is_u64, u8, u16, u32, u64 in *;
  change (2 ^ 8) with 256 in *; change (2 ^ 16) with 65536 in *;
  change (2 ^ 32) with 4294967296 in *;
  change (2 ^ 63) with 9223372036854775808 in *;
  change (2 ^ 64) with 18446744073709551616 in *.
Ltac warith := widths; Z.to_euclidean_division_equations; lia.

Lemma u64_range z : is_u64 (u64 z).
Proof. warith. Qed.
Lemma u64_id z : is_u64 z → u64 z = z.
Proof. intros; warith. Qed.
Lemma u64_idemp z : u64 (u64 z) = u64 z.
Proof. apply u64_id, u64_range. Qed.
Lemma u32_range z : is_u32 (u32 z).
Proof. warith. Qed.

(** ** Hint databases of the development

    [codec]: reader/writer laws; [wf]: type invariants. *)
Create HintDb codec discriminated.
Create HintDb wf discriminated.
Create Rewrite HintDb len.
#[export] Hint Resolve u64_range u32_range : wf.

(** ** Bytes *)

#[export] Instance byte_eq_dec : EqDecision byte := Byte.byte_eq_dec.

Definition byte_val (x : byte) : Z := Z.of_N (Byte.to_N x).
Definition byte_of (z : Z) : byte :=
  match Byte.of_N (Z.to_N (u8 z)) with Some x => x | None => x00 end.

Lemma byte_val_range x : is_u8 (byte_val x).
Proof.
  unfold byte_val, is_u8. pose proof (Byte.to_N_bounded x). split; [lia|].
  change U8 with 256. lia.
Qed.

Lemma byte_val_of z : byte_val (byte_of z) = u8 z.
Proof.
  unfold byte_val, byte_of. destruct (Byte.of_N (Z.to_N (u8 z))) as [x|] eqn:E.
  - apply Byte.to_of_N in E. rewrite E. warith.
  - apply Byte.of_N_None_iff in E. warith.
Qed.

Lemma byte_of_val x : byte_of (byte_val x) = x.
Proof.
  unfold byte_of. pose proof (byte_val_range x).
  replace (Z.to_N (u8 (byte_val x))) with (Byte.to_N x).
  - by rewrite Byte.of_to_N.
  - unfold byte_val in *. warith.
Qed.

#[export] Instance byte_val_inj : Inj (=) (=) byte_val.
Proof. intros x y H. by rewrite <- (byte_of_val x), H, byte_of_val. Qed.

#[export] Instance byte_countable : Countable byte :=
  inj_countable Byte.to_N Byte.of_N Byte.of_to_N.

(** ** Fixed-size byte arrays

    A C struct holding [uint8_t b\[n\]] always has exactly [n] bytes; the
    length is part of the type, and the field that records it is proof
    irrelevant by conversion. *)

Definition sIs_true (x : bool) : SProp := if x then sUnit else sEmpty.

Lemma sIs_true_elim x : sIs_true x → x = true.
Proof. destruct x; [done | intros H; destruct (sEmpty_ind (λ _, False) H)]. Qed.

Record bytes (n : nat) := mkBytes {
  b : list byte;
  b_wf : sIs_true (Nat.eqb (length b) n)
}.
Arguments mkBytes {n} _ _.
Arguments b {n} _.
Arguments b_wf {n} _.

Lemma b_length {n} (x : bytes n) : length (b x) = n.
Proof. apply Nat.eqb_eq, sIs_true_elim, (b_wf x). Qed.

Lemma bytes_eq {n} (x y : bytes n) : b x = b y → x = y.
Proof. destruct x, y; simpl; intros ->; done. Qed.

#[export] Instance bytes_eq_dec n : EqDecision (bytes n).
Proof.
  intros x y. destruct (decide (b x = b y)) as [H|H].
  - left. by apply bytes_eq.
  - right. intros ->. done.
Defined.

(** [bytes_of n l] is what a [memcpy] of [n] bytes into a zeroed buffer leaves
    when the source holds [l]. *)
Definition pad (n : nat) (l : list byte) : list byte := resize n x00 l.

Lemma pad_length n l : Nat.eqb (length (pad n l)) n = true.
Proof. unfold pad. rewrite length_resize. apply Nat.eqb_refl. Qed.

Definition sIs_true_intro x (H : x = true) : sIs_true x :=
  match eq_sym H in _ = y return sIs_true y with eq_refl => stt end.

Definition bytes_of (n : nat) (l : list byte) : bytes n :=
  mkBytes (pad n l) (sIs_true_intro _ (pad_length n l)).

Definition zeros (n : nat) : bytes n := bytes_of n [].

Lemma b_bytes_of n l : length l = n → b (bytes_of n l) = l.
Proof. intros <-. simpl. unfold pad. by rewrite resize_all. Qed.

Lemma bytes_of_b {n} (x : bytes n) : bytes_of n (b x) = x.
Proof. apply bytes_eq, b_bytes_of, b_length. Qed.

#[export] Instance b_inj n : Inj (=) (=) (@b n).
Proof. intros x y. apply bytes_eq. Qed.

#[export] Instance bytes_countable n : Countable (bytes n) :=
  inj_countable' (@b n) (bytes_of n) bytes_of_b.

#[export] Hint Rewrite @b_length : len.
#[export] Hint Rewrite @length_app @length_take @length_drop @length_cons @length_nil : len.

(** Lengths of concatenations, then linear arithmetic. *)
Ltac len := autorewrite with len in *; try lia.

(** C string literals as the bytes they hold, without the terminating NUL. *)
Abbreviation str s := (String.list_byte_of_string s%string).

(** ** Lists *)

Abbreviation zlen l := (Z.of_nat (length l)).

Definition slice {A} (l : list A) (off n : nat) : list A := take n (drop off l).

Lemma slice_app_mid {A} (p l s : list A) : slice (p ++ l ++ s) (length p) (length l) = l.
Proof. unfold slice. by rewrite drop_app_length, take_app_length. Qed.

Lemma slice_length {A} (l : list A) off n :
  (off + n <= length l)%nat → length (slice l off n) = n.
Proof. intros. unfold slice. rewrite length_take, length_drop. lia. Qed.

Lemma slice_split {A} (l : list A) off n m :
  slice l off (n + m) = slice l off n ++ slice l (off + n) m.
Proof.
  unfold slice. rewrite <- (take_take_drop (drop off l) n m), drop_drop.
  by rewrite Nat.add_comm.
Qed.

Lemma slice_whole {A} (l : list A) : slice l 0 (length l) = l.
Proof. unfold slice. by rewrite drop_0, firstn_all. Qed.

Lemma filter_id {A} (P : A → Prop) `{!∀ x, Decision (P x)} l : Forall P l → filter P l = l.
Proof. induction 1 as [|x l Hx Hl IH]; [done|]. by rewrite filter_cons_True, IH. Qed.
Lemma filter_none {A} (P : A → Prop) `{!∀ x, Decision (P x)} l :
  Forall (λ x, ~ P x) l → filter P l = [].
Proof. induction 1 as [|x l Hx Hl IH]; [done|]. by rewrite filter_cons_False, IH. Qed.

(** Elements of a list with distinct keys are determined by their key. *)
Lemma NoDup_key_inj {A K} (f : A → K) l x y :
  NoDup (f <$> l) → x ∈ l → y ∈ l → f x = f y → x = y.
Proof.
  intros Hn [i Hi]%list_elem_of_lookup [j Hj]%list_elem_of_lookup Hf.
  assert (i = j) as ->; [|congruence].
  eapply NoDup_lookup; [done|..]; rewrite list_lookup_fmap; [rewrite Hi|rewrite Hj]; simpl; by f_equal.
Qed.

(** Sum of a [Z]-valued weight over a list. *)
Fixpoint sum_with {A} (f : A → Z) (l : list A) : Z :=
  match l with [] => 0 | x :: l' => f x + sum_with f l' end.

Lemma sum_with_app {A} (f : A → Z) l k : sum_with f (l ++ k) = sum_with f l + sum_with f k.
Proof. induction l; simpl; lia. Qed.

Lemma sum_with_nonneg {A} (f : A → Z) l : (∀ x, x ∈ l → 0 <= f x) → 0 <= sum_with f l.
Proof.
  induction l as [|x l IH]; simpl; intros H; [lia|].
  pose proof (H x ltac:(left)). assert (0 <= sum_with f l); [|lia].
  apply IH. intros y ?. apply H. by right.
Qed.

Lemma sum_with_ext {A} (f g : A → Z) l :
  (∀ x, x ∈ l → f x = g x) → sum_with f l = sum_with g l.
Proof.
  induction l as [|x l IH]; simpl; intros H; [done|].
  rewrite (H x) by left. rewrite IH; [done|]. intros y ?. apply H. by right.
Qed.

#[export] Instance sum_with_perm {A} (f : A → Z) : Proper ((≡ₚ) ==> (=)) (sum_with f).
Proof. induction 1; simpl; lia. Qed.

(** A duplicate-free list weighs at most as much as any list that contains it. *)
Lemma sum_with_submseteq {A} (f : A → Z) l k :
  (∀ x, 0 <= f x) → l ⊆+ k → sum_with f l <= sum_with f k.
Proof.
  intros Hf [r ->]%submseteq_Permutation. rewrite sum_with_app.
  pose proof (sum_with_nonneg f r ltac:(auto)). lia.
Qed.

(** ** Three-way comparisons

    The order laws the sorted arrays of the code rely on, as an interface:
    binary search and sorted insertion are proved against it, and [memcmp],
    [name_cmp] discharge it. *)

Class CmpLaws {K} (cmp : K → K → comparison) : Prop := {
  cmp_eq x y : cmp x y = Eq ↔ x = y;
  cmp_opp x y : cmp y x = CompOpp (cmp x y);
  cmp_lt_trans x y z : cmp x y = Lt → cmp y z = Lt → cmp x z = Lt
}.
Arguments cmp_eq {K} cmp {_} x y.
Arguments cmp_opp {K} cmp {_} x y.
Arguments cmp_lt_trans {K} cmp {_} x y z.

Section CmpFacts.
Context {K} (cmp : K → K → comparison) `{!CmpLaws cmp}.

Lemma cmp_refl x : cmp x x = Eq.
Proof. by apply (cmp_eq cmp). Qed.
Lemma cmp_gt_lt x y : cmp x y = Gt ↔ cmp y x = Lt.
Proof. rewrite (cmp_opp cmp x y). by destruct (cmp x y). Qed.
Lemma cmp_lt_irrefl x : cmp x x ≠ Lt.
Proof. by rewrite cmp_refl. Qed.
Lemma cmp_lt_ne x y : cmp x y = Lt → x ≠ y.
Proof. intros H ->. by apply cmp_lt_irrefl in H. Qed.
End CmpFacts.

(** The pullback of an order along an injection. *)
Lemma cmp_pullback {K J} (cmp : K → K → comparison) `{!CmpLaws cmp}
    (f : J → K) `{!Inj (=) (=) f} : CmpLaws (λ x y, cmp (f x) (f y)).
Proof.
  constructor; intros.
  - rewrite (cmp_eq cmp). split; [apply (inj f) | by intros ->].
  - apply (cmp_opp cmp).
  - by eapply (cmp_lt_trans cmp).
Qed.

Lemma cmp_laws_ext {K} (c1 c2 : K → K → comparison) :
  (∀ x y, c1 x y = c2 x y) → CmpLaws c2 → CmpLaws c1.
Proof.
  intros Heq H. constructor; intros; rewrite ?Heq in *.
  - apply (cmp_eq c2).
  - apply (cmp_opp c2).
  - by eapply (cmp_lt_trans c2).
Qed.

#[export] Instance Z_cmp_laws : CmpLaws Z.compare.
Proof.
  constructor; intros.
  - apply Z.compare_eq_iff.
  - apply Z.compare_antisym.
  - rewrite Z.compare_lt_iff in *. lia.
Qed.

Definition byte_cmp (x y : byte) : comparison := Z.compare (byte_val x) (byte_val y).

#[export] Instance byte_cmp_laws : CmpLaws byte_cmp.
Proof. apply (cmp_pullback Z.compare byte_val). Qed.

(** [memcmp (a, b, n)]: the order of the first differing byte, read unsigned. *)
Fixpoint memcmp (x y : list byte) (n : nat) : comparison :=
  match n, x, y with
  | S n', c :: x', d :: y' =>
      match byte_cmp c d with Eq => memcmp x' y' n' | o => o end
  | _, _, _ => Eq
  end.

(** Lexicographic order on byte strings, a proper prefix being smaller. *)
Fixpoint lex_cmp (x y : list byte) : comparison :=
  match x, y with
  | [], [] => Eq
  | [], _ :: _ => Lt
  | _ :: _, [] => Gt
  | c :: x', d :: y' => match byte_cmp c d with Eq => lex_cmp x' y' | o => o end
  end.

#[export] Instance lex_cmp_laws : CmpLaws lex_cmp.
Proof.
  constructor.
  - induction x as [|c x IH]; intros [|d y]; simpl; try done.
    destruct (byte_cmp c d) eqn:E.
    + apply (cmp_eq byte_cmp) in E as ->. rewrite IH. split; congruence.
    + split; [done|]. intros [= -> _]. by rewrite (cmp_refl byte_cmp) in E.
    + split; [done|]. intros [= -> _]. by rewrite (cmp_refl byte_cmp) in E.
  - induction x as [|c x IH]; intros [|d y]; simpl; try done.
    rewrite (cmp_opp byte_cmp c d). destruct (byte_cmp c d); simpl; auto.
  - induction x as [|c x IH]; intros [|d y] [|e z]; simpl; try done.
    destruct (byte_cmp c d) eqn:E1; [apply (cmp_eq byte_cmp) in E1 as -> | | done].
    + destruct (byte_cmp d e); eauto; done.
    + intros _. destruct (byte_cmp d e) eqn:E2; [apply (cmp_eq byte_cmp) in E2 as -> | | done].
      * by rewrite E1.
      * by rewrite (cmp_lt_trans byte_cmp c d e E1 E2).
Qed.

Lemma memcmp_lex x y n :
  length x = n → length y = n → memcmp x y n = lex_cmp x y.
Proof.
  revert x y. induction n as [|n IH]; intros [|c x] [|d y]; simpl; try done.
  intros [= Hx] [= Hy]. by rewrite IH.
Qed.

(** ** Outcomes

    A C routine over a caller's buffer ends in one of three ways: it returns a
    value, it returns its error code, or it has read outside the buffer
    ([OOB], undefined behaviour). Absence of [OOB] is a theorem of each
    routine, never an assumption. *)
Inductive outcome (A : Type) := OK (a : A) | ERR | OOB.
Arguments OK {A} a.
Arguments ERR {A}.
Arguments OOB {A}.

#[export] Instance outcome_ret : MRet outcome := λ A x, OK x.
#[export] Instance outcome_bind : MBind outcome := λ A B f m,
  match m with OK x => f x | ERR => ERR | OOB => OOB end.

Definition safe {A} (m : outcome A) : Prop := m ≠ OOB.

(** [if (c) return -1;] *)
Definition fail_if (c : bool) : outcome unit := if c then ERR else OK tt.

Lemma safe_bind {A B} (m : outcome A) (f : A → outcome B) :
  safe m → (∀ x, m = OK x → safe (f x)) → safe (m ≫= f).
Proof. destruct m; simpl; unfold safe; naive_solver. Qed.

Lemma bind_ok {A B} (m : outcome A) (f : A → outcome B) y :
  m ≫= f = OK y → ∃ x, m = OK x ∧ f x = OK y.
Proof. destruct m; try done. eauto. Qed.
Lemma fail_if_ok c x : fail_if c = OK x → c = false.
Proof. by destruct c. Qed.

(** Opens a successful run [H : m ≫= f = OK y] into its steps. *)
Ltac open_run H :=
  lazymatch type of H with
  | fail_if _ ≫= _ = OK _ =>
      let E := fresh "E" in apply bind_ok in H as (? & E%fail_if_ok & H)
  | _ ≫= _ = OK _ => let E := fresh "E" in apply bind_ok in H as (? & E & H)
  end.

(** Reading [n] bytes at [p] of a buffer, with the bound check of the machine. *)
Definition read_at (buf : list byte) (p n : nat) : outcome (list byte) :=
  if (p + n <=? length buf)%nat then OK (slice buf p n) else OOB.

Lemma read_at_safe buf p n : (p + n <= length buf)%nat → read_at buf p n = OK (slice buf p n).
Proof. intros H. unfold read_at. by rewrite (proj2 (Nat.leb_le _ _) H). Qed.

(** ** While loops

    [while_fuel p step a] runs [step] at most [p] times, stopping at the first
    [inr]. The fuel is binary, so a bound such as [2 ^ 64] costs nothing when
    the model is evaluated; [while_rule] shows that a decreasing measure below
    the fuel makes the loop return. *)
Fixpoint while_fuel {A B} (p : positive) (step : A → A + B) (a : A) : A + B :=
  match p with
  | xH => step a
  | xO q => match while_fuel q step a with
            | inl a' => while_fuel q step a'
            | inr r => inr r
            end
  | xI q => match step a with
            | inl a' => match while_fuel q step a' with
                        | inl a'' => while_fuel q step a''
                        | inr r => inr r
                        end
            | inr r => inr r
            end
  end.

Fixpoint while_nat {A B} (n : nat) (step : A → A + B) (a : A) : A + B :=
  match n with
  | O => inl a
  | S n' => match step a with inl a' => while_nat n' step a' | inr r => inr r end
  end.

Lemma while_nat_add {A B} n m (step : A → A + B) a :
  while_nat (n + m) step a =
  match while_nat n step a with inl a' => while_nat m step a' | inr r => inr r end.
Proof. revert a. induction n as [|n IH]; intros a; simpl; [done|]. by destruct (step a). Qed.

Lemma while_fuel_nat {A B} p (step : A → A + B) a :
  while_fuel p step a = while_nat (Pos.to_nat p) step a.
Proof.
  revert a. induction p as [q IH|q IH|]; intros a.
  - replace (Pos.to_nat q~1) with (S (Pos.to_nat q + Pos.to_nat q)) by lia.
    cbn [while_fuel while_nat]. destruct (step a) as [a'|]; [|done].
    rewrite while_nat_add, <- !IH. destruct (while_fuel q step a'); [apply IH|done].
  - replace (Pos.to_nat q~0) with (Pos.to_nat q + Pos.to_nat q)%nat by lia.
    cbn [while_fuel]. rewrite while_nat_add, <- !IH.
    destruct (while_fuel q step a); [apply IH|done].
  - simpl. by destruct (step a).
Qed.

Lemma while_rule {A B} (step : A → A + B) (I : A → Prop) (m : A → Z) (Q : B → Prop) :
  (∀ a, I a → match step a with
              | inl a' => I a' ∧ 0 <= m a' < m a
              | inr r => Q r
              end) →
  ∀ p a, I a → m a < Zpos p → ∃ r, while_fuel p step a = inr r ∧ Q r.
Proof.
  intros Hstep p a. rewrite while_fuel_nat. intros HI Hm.
  assert (m a < Z.of_nat (Pos.to_nat p)) as Hn by lia.
  assert (Pos.to_nat p > 0)%nat as Hp by lia. revert Hn Hp.
  generalize (Pos.to_nat p) as n. clear p Hm. intros n. revert a HI.
  induction n as [|n IH]; intros a HI Hm Hn; [lia|]. simpl.
  pose proof (Hstep a HI) as Hs. destruct (step a) as [a'|r]; [|eauto].
  destruct Hs as [HI' Hm']. apply IH; [done|lia|lia].
Qed.

Lemma while_fuel_stop {A B} p (step : A → A + B) a r : step a = inr r → while_fuel p step a = inr r.
Proof.
  intros H. rewrite while_fuel_nat. destruct (Pos.to_nat p) eqn:E; [lia|]. simpl. by rewrite H.
Qed.
