(* ===== verification/Common.v ===== *)
(** * common.h / common.c

    Fixed-size byte arrays and their comparison, big-endian integers, hex
    text, constant-time equality and the integer square root. File, log and
    clock helpers are I/O and have no definition here. *)

From S2P Require Import Prelude.

Open Scope Z_scope.

Abbreviation AC_PUBKEY_SIZE := 32%nat.
Abbreviation AC_PRIVKEY_SIZE := 64%nat.
Abbreviation AC_SEED_SIZE := 32%nat.
Abbreviation AC_HASH_SIZE := 32%nat.
Abbreviation AC_SIG_SIZE := 64%nat.
Abbreviation AC_VRF_PROOF_SIZE := 64%nat.
Abbreviation AC_VRF_OUT_SIZE := 32%nat.

Definition ac_addr_t := bytes AC_PUBKEY_SIZE.
Definition ac_hash_t := bytes AC_HASH_SIZE.
Definition ac_sig_t := bytes AC_SIG_SIZE.

#[export] Instance ac_addr_eq_dec : EqDecision ac_addr_t := bytes_eq_dec _.
#[export] Instance ac_addr_countable : Countable ac_addr_t := bytes_countable _.

Definition ac_addr_cmp (x y : ac_addr_t) : comparison := memcmp (b x) (b y) AC_PUBKEY_SIZE.
Definition ac_hash_cmp (x y : ac_hash_t) : comparison := memcmp (b x) (b y) AC_HASH_SIZE.

Definition is_eq (c : comparison) : bool := match c with Eq => true | _ => false end.

Definition ac_addr_eq (x y : ac_addr_t) : bool := is_eq (ac_addr_cmp x y).
Definition ac_hash_eq (x y : ac_hash_t) : bool := is_eq (ac_hash_cmp x y).
Definition ac_addr_is_zero (x : ac_addr_t) : bool :=
  forallb (λ c, byte_val c =? 0) (b x).

(** ** Big-endian fixed-width integers *)

Definition ac_be16 (v : Z) : list byte :=
  [byte_of (Z.shiftr v 8); byte_of v].
Definition ac_be32 (v : Z) : list byte :=
  [byte_of (Z.shiftr v 24); byte_of (Z.shiftr v 16); byte_of (Z.shiftr v 8); byte_of v].
Definition ac_be64 (v : Z) : list byte :=
  [byte_of (Z.shiftr v 56); byte_of (Z.shiftr v 48); byte_of (Z.shiftr v 40);
   byte_of (Z.shiftr v 32); byte_of (Z.shiftr v 24); byte_of (Z.shiftr v 16);
   byte_of (Z.shiftr v 8); byte_of v].

(** [p\[i\]] of a buffer known to be long enough. *)
Definition at_ (p : list byte) (i : nat) : Z := byte_val (nth i p x00).

Definition ac_rd16 (p : list byte) : Z := Z.lor (Z.shiftl (at_ p 0) 8) (at_ p 1).
Definition ac_rd32 (p : list byte) : Z :=
  Z.lor (Z.lor (Z.lor (Z.shiftl (at_ p 0) 24) (Z.shiftl (at_ p 1) 16))
               (Z.shiftl (at_ p 2) 8)) (at_ p 3).
Definition ac_rd64 (p : list byte) : Z :=
  Z.lor (Z.lor (Z.lor (Z.lor (Z.lor (Z.lor (Z.lor
    (Z.shiftl (at_ p 0) 56) (Z.shiftl (at_ p 1) 48))
    (Z.shiftl (at_ p 2) 40)) (Z.shiftl (at_ p 3) 32))
    (Z.shiftl (at_ p 4) 24)) (Z.shiftl (at_ p 5) 16))
    (Z.shiftl (at_ p 6) 8)) (at_ p 7).

(** ** Hex text *)

Definition HEX_DIGITS : list byte := str "0123456789abcdef".

Definition hex_pair (c : byte) : list byte :=
  [nth (Z.to_nat (Z.shiftr (byte_val c) 4)) HEX_DIGITS x00;
   nth (Z.to_nat (Z.land (byte_val c) 15)) HEX_DIGITS x00].

Definition ac_hex_encode (l : list byte) : list byte := l ≫= hex_pair.

Definition hex_nibble (c : Z) : Z :=
  if (48 <=? c) && (c <=? 57) then c - 48
  else if (97 <=? c) && (c <=? 102) then c - 97 + 10
  else if (65 <=? c) && (c <=? 70) then c - 65 + 10
  else -1.

(** The decoding loop: [None] is [return -1]. *)
Fixpoint hex_decode_loop (out_len : nat) (inp : list byte) : option (list byte) :=
  match out_len, inp with
  | O, _ => Some []
  | S n, c :: d :: rest =>
      let hi := hex_nibble (byte_val c) in
      let lo := hex_nibble (byte_val d) in
      if (hi <? 0) || (lo <? 0) then None
      else (λ l, byte_of (Z.lor (Z.shiftl hi 4) lo) :: l) <$> hex_decode_loop n rest
  | S _, _ => None
  end.

(** [in\[0\] == '0' && (in\[1\] == 'x' || in\[1\] == 'X')]; the reads stop at
    the terminating NUL, so a shorter string has no prefix. *)
Definition hex_skip_prefix (inp : list byte) : list byte :=
  match inp with
  | c :: d :: rest =>
      if (byte_val c =? 48) && ((byte_val d =? 120) || (byte_val d =? 88)) then rest else inp
  | _ => inp
  end.

Definition ac_hex_decode (out_len : nat) (inp : list byte) : option (list byte) :=
  let inp := hex_skip_prefix inp in
  if negb (length inp =? 2 * out_len)%nat then None else hex_decode_loop out_len inp.

(** ** Constant-time equality *)

Fixpoint memeq_loop (r : Z) (x y : list byte) : Z :=
  match x, y with
  | c :: x', d :: y' => memeq_loop (Z.lor r (Z.lxor (byte_val c) (byte_val d))) x' y'
  | _, _ => r
  end.

Definition ac_memeq (x y : list byte) (n : nat) : bool :=
  memeq_loop 0 (take n x) (take n y) =? 0.

(** ** Integer square root *)

Definition SQRT_MAX : Z := 2 ^ 32 - 1.

(** [nr = (r + x / r) / 2; if (nr >= r) break; r = nr;] *)
Definition isqrt_newton (x r : Z) : Z + Z :=
  let nr := (r ⊕ (x / r)) / 2 in
  if r <=? nr then inr r else inl nr.
(** [while (r > 0 && r > x / r) --r;] *)
Definition isqrt_down (x r : Z) : Z + Z :=
  if (0 <? r) && (x / r <? r) then inl (r - 1) else inr r.
(** [while (r < SQRT_MAX && (r + 1) <= x / (r + 1)) ++r;] *)
Definition isqrt_up (x r : Z) : Z + Z :=
  if (r <? SQRT_MAX) && (r + 1 <=? x / (r + 1)) then inl (r + 1) else inr r.

(** [None] would be a loop that has not returned after [2 ^ 33] turns. *)
Definition ac_isqrt_loops (x : Z) : option Z :=
  if x =? 0 then Some 0
  else if x =? 1 then Some 1
  else
    let r := if SQRT_MAX <? x then SQRT_MAX else x in
    match while_fuel (2 ^ 33) (isqrt_newton x) r with
    | inr r1 =>
        match while_fuel (2 ^ 33) (isqrt_down x) r1 with
        | inr r2 =>
            match while_fuel (2 ^ 33) (isqrt_up x) r2 with
            | inr r3 => Some r3
            | inl _ => None
            end
        | inl _ => None
        end
    | inl _ => None
    end.

Definition ac_isqrt_u64 (x : Z) : Z := default 0 (ac_isqrt_loops x).

(** ** Comparison is the lexicographic order of the bytes *)

Lemma memcmp_bytes {n} (x y : bytes n) : memcmp (b x) (b y) n = lex_cmp (b x) (b y).
Proof. apply memcmp_lex; apply b_length. Qed.

#[export] Instance memcmp_bytes_laws n : CmpLaws (λ x y : bytes n, memcmp (b x) (b y) n).
Proof. eapply cmp_laws_ext; [apply memcmp_bytes | apply (cmp_pullback lex_cmp b)]. Qed.

#[export] Instance ac_addr_cmp_laws : CmpLaws ac_addr_cmp := memcmp_bytes_laws _.
#[export] Instance ac_hash_cmp_laws : CmpLaws ac_hash_cmp := memcmp_bytes_laws _.

Lemma is_eq_cmp {K} (cmp : K → K → comparison) `{!CmpLaws cmp} x y :
  is_eq (cmp x y) = true ↔ x = y.
Proof. rewrite <- (cmp_eq cmp). by destruct (cmp x y). Qed.

Lemma ac_addr_eq_true x y : ac_addr_eq x y = true ↔ x = y.
Proof. apply (is_eq_cmp ac_addr_cmp). Qed.
Lemma ac_addr_eq_false x y : ac_addr_eq x y = false ↔ x ≠ y.
Proof. rewrite <- not_true_iff_false, ac_addr_eq_true. done. Qed.
Lemma ac_addr_eq_refl x : ac_addr_eq x x = true.
Proof. by apply ac_addr_eq_true. Qed.
Lemma ac_hash_eq_true x y : ac_hash_eq x y = true ↔ x = y.
Proof. apply (is_eq_cmp ac_hash_cmp). Qed.
Lemma ac_hash_eq_false x y : ac_hash_eq x y = false ↔ x ≠ y.
Proof. rewrite <- not_true_iff_false, ac_hash_eq_true. done. Qed.
Lemma ac_hash_eq_refl x : ac_hash_eq x x = true.
Proof. by apply ac_hash_eq_true. Qed.

(** ** Big-endian integers: the shifts and ors compute positional notation *)

Lemma lor_add x k y : 0 <= k → (2 ^ k | x) → 0 <= y < 2 ^ k → Z.lor x y = x + y.
Proof.
  intros Hk [q ->] Hy. rewrite <- Z.add_lor_land, <- (Z.add_0_r (Z.lor _ y)) at 1.
  f_equal. symmetry. apply Z.bits_inj'. intros i Hi.
  rewrite Z.land_spec, Z.bits_0. destruct (decide (i < k)).
  - rewrite Z.mul_pow2_bits_low by lia. done.
  - destruct (decide (y = 0)) as [->|]; [by rewrite Z.bits_0, andb_false_r|].
    rewrite (Z.bits_above_log2 y), andb_false_r; [done | lia|].
    apply Z.log2_lt_pow2; [lia|]. apply Z.lt_le_trans with (2 ^ k); [lia|].
    apply Z.pow_le_mono_r; lia.
Qed.

Lemma at_range p i : is_u8 (at_ p i).
Proof. apply byte_val_range. Qed.

Lemma ac_rd16_value p :
  ac_rd16 p = at_ p 0 * 2 ^ 8 + at_ p 1.
Proof.
  unfold ac_rd16. pose proof (at_range p 0); pose proof (at_range p 1).
  rewrite Z.shiftl_mul_pow2 by lia.
  rewrite (lor_add _ 8); [done | lia | by eexists | warith].
Qed.

Lemma ac_rd32_value p :
  ac_rd32 p = at_ p 0 * 2 ^ 24 + at_ p 1 * 2 ^ 16 + at_ p 2 * 2 ^ 8 + at_ p 3.
Proof.
  unfold ac_rd32. pose proof (at_range p 0); pose proof (at_range p 1).
  pose proof (at_range p 2); pose proof (at_range p 3).
  rewrite !Z.shiftl_mul_pow2 by lia.
  rewrite (lor_add (at_ p 0 * _) 24); [| lia | by eexists | widths; lia].
  rewrite (lor_add _ 16 (at_ p 2 * _)); [| lia | exists (at_ p 0 * 2 ^ 8 + at_ p 1); ring | widths; lia].
  rewrite (lor_add _ 8 (at_ p 3)); [done | lia | | widths; lia].
  exists (at_ p 0 * 2 ^ 16 + at_ p 1 * 2 ^ 8 + at_ p 2); ring.
Qed.

Lemma ac_rd64_value p :
  ac_rd64 p = at_ p 0 * 2 ^ 56 + at_ p 1 * 2 ^ 48 + at_ p 2 * 2 ^ 40 + at_ p 3 * 2 ^ 32 +
              at_ p 4 * 2 ^ 24 + at_ p 5 * 2 ^ 16 + at_ p 6 * 2 ^ 8 + at_ p 7.
Proof.
  unfold ac_rd64. pose proof (at_range p) as R.
  pose proof (R 0%nat); pose proof (R 1%nat); pose proof (R 2%nat); pose proof (R 3%nat).
  pose proof (R 4%nat); pose proof (R 5%nat); pose proof (R 6%nat); pose proof (R 7%nat).
  rewrite !Z.shiftl_mul_pow2 by lia. clear R.
  generalize dependent (at_ p 0). generalize dependent (at_ p 1).
  generalize dependent (at_ p 2). generalize dependent (at_ p 3).
  generalize dependent (at_ p 4). generalize dependent (at_ p 5).
  generalize dependent (at_ p 6). generalize dependent (at_ p 7).
  intros h Hh g Hg f Hf e He d Hd c Hc x Hx a Ha. widths.
  rewrite (lor_add (a * _) 56); [| lia | by eexists | lia].
  rewrite (lor_add _ 48 (c * _)); [| lia | exists (a * 256 + x); ring | lia].
  rewrite (lor_add _ 40 (d * _)); [| lia | exists (a * 65536 + x * 256 + c); ring | lia].
  rewrite (lor_add _ 32 (e * _)); [| lia | exists (a * 2^24 + x * 65536 + c * 256 + d); ring | lia].
  rewrite (lor_add _ 24 (f * _)); [| lia
    | exists (a * 2^32 + x * 2^24 + c * 65536 + d * 256 + e); ring | lia].
  rewrite (lor_add _ 16 (g * _)); [| lia
    | exists (a * 2^40 + x * 2^32 + c * 2^24 + d * 65536 + e * 256 + f); ring | lia].
  rewrite (lor_add _ 8); [done | lia
    | exists (a * 2^48 + x * 2^40 + c * 2^32 + d * 2^24 + e * 65536 + f * 256 + g); ring | lia].
Qed.

(** The byte at bit [k], as a difference of consecutive quotients. *)
Lemma byte_shiftr v k : 0 <= k →
  byte_val (byte_of (Z.shiftr v k)) = v / 2 ^ k - 256 * (v / 2 ^ (k + 8)).
Proof.
  intros Hk. rewrite byte_val_of, Z.shiftr_div_pow2 by done. unfold u8.
  rewrite Z.pow_add_r, <- Z.div_div by lia. change (2 ^ 8) with 256.
  pose proof (Z.div_mod (v / 2 ^ k) 256). lia.
Qed.

Ltac norm_exps :=
  repeat match goal with
  | |- context [2 ^ (?a + 8)] => let c := eval vm_compute in (a + 8) in change (a + 8) with c
  end.

Lemma ac_rd64_be64 v : ac_rd64 (ac_be64 v) = u64 v.
Proof.
  rewrite ac_rd64_value. unfold at_, ac_be64; cbn [nth].
  replace (byte_of v) with (byte_of (Z.shiftr v 0)) by by rewrite Z.shiftr_0_r.
  rewrite !byte_shiftr by lia. norm_exps.
  rewrite Z.pow_0_r, Z.div_1_r. unfold u64. rewrite Z.mod_eq by lia. ring.
Qed.
Lemma ac_rd32_be32 v : ac_rd32 (ac_be32 v) = u32 v.
Proof.
  rewrite ac_rd32_value. unfold at_, ac_be32; cbn [nth].
  replace (byte_of v) with (byte_of (Z.shiftr v 0)) by by rewrite Z.shiftr_0_r.
  rewrite !byte_shiftr by lia. norm_exps.
  rewrite Z.pow_0_r, Z.div_1_r. unfold u32. rewrite Z.mod_eq by lia. ring.
Qed.
Lemma ac_rd16_be16 v : ac_rd16 (ac_be16 v) = u16 v.
Proof.
  rewrite ac_rd16_value. unfold at_, ac_be16; cbn [nth].
  replace (byte_of v) with (byte_of (Z.shiftr v 0)) by by rewrite Z.shiftr_0_r.
  rewrite !byte_shiftr by lia. norm_exps.
  rewrite Z.pow_0_r, Z.div_1_r. unfold u16. rewrite Z.mod_eq by lia. ring.
Qed.

Ltac explode l H :=
  repeat (destruct l as [|? l]; cbn [length] in H; [lia|]);
  destruct l; cbn [length] in H; [|lia].

Ltac byte_ranges :=
  repeat match goal with
  | c : byte |- _ => lazymatch goal with
    | _ : is_u8 (byte_val c) |- _ => fail
    | _ => pose proof (byte_val_range c) end end.
Ltac be_rd :=
  repeat f_equal; apply (inj byte_val); rewrite byte_val_of, ?Z.shiftr_div_pow2 by lia; warith.

Lemma ac_be64_rd64 l : length l = 8%nat → ac_be64 (ac_rd64 l) = l.
Proof.
  intros H. explode l H. rewrite ac_rd64_value. unfold at_, ac_be64; cbn [nth].
  byte_ranges. be_rd.
Qed.
Lemma ac_be32_rd32 l : length l = 4%nat → ac_be32 (ac_rd32 l) = l.
Proof.
  intros H. explode l H. rewrite ac_rd32_value. unfold at_, ac_be32; cbn [nth].
  byte_ranges. be_rd.
Qed.
Lemma ac_be16_rd16 l : length l = 2%nat → ac_be16 (ac_rd16 l) = l.
Proof.
  intros H. explode l H. rewrite ac_rd16_value. unfold at_, ac_be16; cbn [nth].
  byte_ranges. be_rd.
Qed.

Lemma ac_rd64_range p : is_u64 (ac_rd64 p).
Proof.
  rewrite ac_rd64_value. pose proof (at_range p) as R.
  pose proof (R 0%nat); pose proof (R 1%nat); pose proof (R 2%nat); pose proof (R 3%nat).
  pose proof (R 4%nat); pose proof (R 5%nat); pose proof (R 6%nat); pose proof (R 7%nat).
  widths. lia.
Qed.
Lemma ac_rd32_range p : is_u32 (ac_rd32 p).
Proof.
  rewrite ac_rd32_value. pose proof (at_range p) as R.
  pose proof (R 0%nat); pose proof (R 1%nat); pose proof (R 2%nat); pose proof (R 3%nat).
  widths. lia.
Qed.
Lemma ac_rd16_range p : is_u16 (ac_rd16 p).
Proof.
  rewrite ac_rd16_value. pose proof (at_range p 0); pose proof (at_range p 1). widths. lia.
Qed.
#[export] Hint Resolve ac_rd64_range ac_rd32_range ac_rd16_range byte_val_range : wf.

Lemma ac_be64_length v : length (ac_be64 v) = 8%nat.
Proof. done. Qed.
Lemma ac_be32_length v : length (ac_be32 v) = 4%nat.
Proof. done. Qed.
Lemma ac_be16_length v : length (ac_be16 v) = 2%nat.
Proof. done. Qed.
#[export] Hint Rewrite ac_be64_length ac_be32_length ac_be16_length : len.
#[global] Opaque ac_be64 ac_be32 ac_be16 ac_rd64 ac_rd32 ac_rd16.

Lemma ac_be64_inj x y : is_u64 x → is_u64 y → ac_be64 x = ac_be64 y → x = y.
Proof. intros Hx Hy H. rewrite <- (u64_id x), <- (u64_id y), <- !ac_rd64_be64 by done. by rewrite H. Qed.

(** ** Hex text *)

Lemma hex_digit n : 0 <= n < 16 →
  hex_nibble (byte_val (nth (Z.to_nat n) HEX_DIGITS x00)) = n ∧
  byte_val (nth (Z.to_nat n) HEX_DIGITS x00) ≠ 120 ∧
  byte_val (nth (Z.to_nat n) HEX_DIGITS x00) ≠ 88.
Proof.
  intros H. assert (Z.of_nat (Z.to_nat n) = n) as E by lia. revert E.
  assert (Z.to_nat n < 16)%nat as Hn by lia. revert Hn. generalize (Z.to_nat n) as m. intros m Hm <-.
  do 16 (destruct m as [|m]; [vm_compute; repeat split; congruence|]). lia.
Qed.

Lemma nibbles c : 0 <= Z.shiftr (byte_val c) 4 < 16 ∧ 0 <= Z.land (byte_val c) 15 < 16 ∧
  byte_of (Z.lor (Z.shiftl (Z.shiftr (byte_val c) 4) 4) (Z.land (byte_val c) 15)) = c.
Proof. destruct c; vm_compute; repeat split; congruence. Qed.

Definition hex_hi (c : byte) : byte := nth (Z.to_nat (Z.shiftr (byte_val c) 4)) HEX_DIGITS x00.
Definition hex_lo (c : byte) : byte := nth (Z.to_nat (Z.land (byte_val c) 15)) HEX_DIGITS x00.

Lemma ac_hex_encode_cons c l : ac_hex_encode (c :: l) = hex_hi c :: hex_lo c :: ac_hex_encode l.
Proof. done. Qed.

Lemma hex_decode_loop_encode l : hex_decode_loop (length l) (ac_hex_encode l) = Some l.
Proof.
  induction l as [|c l IH]; [done|]. rewrite ac_hex_encode_cons. cbn [hex_decode_loop length].
  destruct (nibbles c) as (Hh & Hl & E). unfold hex_hi, hex_lo.
  destruct (hex_digit _ Hh) as [-> _]. destruct (hex_digit _ Hl) as [-> _].
  destruct (Z.ltb_spec (Z.shiftr (byte_val c) 4) 0); [lia|].
  destruct (Z.ltb_spec (Z.land (byte_val c) 15) 0); [lia|].
  cbn [orb]. by rewrite IH, E.
Qed.

Lemma ac_hex_encode_length l : length (ac_hex_encode l) = (2 * length l)%nat.
Proof. induction l as [|c l IH]; [done|]. rewrite ac_hex_encode_cons. simpl. lia. Qed.

Lemma hex_skip_encode l : hex_skip_prefix (ac_hex_encode l) = ac_hex_encode l.
Proof.
  destruct l as [|c l]; [done|]. rewrite ac_hex_encode_cons. cbn [hex_skip_prefix].
  destruct (nibbles c) as (_ & Hl & _). destruct (hex_digit _ Hl) as (_ & H1 & H2).
  unfold hex_lo. apply Z.eqb_neq in H1, H2. by rewrite H1, H2, andb_false_r.
Qed.

(** Hex text decodes to the bytes it was printed from. *)
Lemma ac_hex_decode_encode l : ac_hex_decode (length l) (ac_hex_encode l) = Some l.
Proof.
  unfold ac_hex_decode. rewrite hex_skip_encode, ac_hex_encode_length, Nat.eqb_refl. simpl.
  apply hex_decode_loop_encode.
Qed.

(** ** Constant-time equality *)

Lemma memeq_loop_zero r x y :
  0 <= r → length x = length y → (memeq_loop r x y = 0 ↔ r = 0 ∧ x = y).
Proof.
  revert r y. induction x as [|c x IH]; intros r [|d y] Hr Hlen; simpl in *; try lia.
  - tauto.
  - pose proof (byte_val_range c); pose proof (byte_val_range d).
    assert (0 <= Z.lxor (byte_val c) (byte_val d)) by (apply Z.lxor_nonneg; widths; lia).
    rewrite IH by (rewrite ?Z.lor_nonneg; lia).
    rewrite Z.lor_eq_0_iff, Z.lxor_eq_0_iff. split.
    + intros [[-> ->%(inj byte_val)] ->]. done.
    + by intros [-> [= -> ->]].
Qed.

Lemma ac_memeq_spec x y n :
  length x = n → length y = n → (ac_memeq x y n = true ↔ x = y).
Proof.
  intros <- Hy. unfold ac_memeq. rewrite Z.eqb_eq, memeq_loop_zero by (rewrite ?length_take; lia).
  rewrite take_ge, (take_ge y) by lia. tauto.
Qed.

(** ** Integer square root *)

Definition isqrt_inv (x r : Z) : Prop := 1 <= r <= SQRT_MAX ∧ Z.sqrt x <= r.

Lemma sqrt_u64_le x : is_u64 x → Z.sqrt x <= SQRT_MAX.
Proof.
  intros Hx. unfold SQRT_MAX. destruct (Z.sqrt_spec x) as [H _]; [warith|].
  pose proof (Z.sqrt_nonneg x). widths. nia.
Qed.

Lemma isqrt_newton_step x r : 1 < x → is_u64 x → isqrt_inv x r →
  match isqrt_newton x r with
  | inl r' => isqrt_inv x r' ∧ 0 <= r' < r
  | inr r' => r' = Z.sqrt x
  end.
Proof.
  intros H1 Hx [Hr Hs]. unfold isqrt_newton.
  destruct (Z.sqrt_spec x) as [L U]; [lia|].
  pose proof (Z.sqrt_nonneg x) as Hn. set (s := Z.sqrt x) in *.
  pose proof (Z.mul_div_le x r) as Q1. pose proof (Z.mul_succ_div_gt x r) as Q2.
  assert (0 <= x / r) by (apply Z.div_pos; lia).
  assert (x / r <= r + 2) as Hq by nia.
  unfold SQRT_MAX in *. rewrite u64_id by (widths; lia).
  destruct (Z.leb_spec r ((r + x / r) / 2)).
  - assert (r <= x / r) by (Z.to_euclidean_division_equations; lia). nia.
  - assert (2 * s - r <= x / r) by (apply Z.div_le_lower_bound; nia).
    assert (s <= (r + x / r) / 2) by (apply Z.div_le_lower_bound; lia).
    assert (s ≠ 0) by (intros E; rewrite E in U; lia). unfold isqrt_inv, SQRT_MAX. fold s. lia.
Qed.

Lemma isqrt_down_done x : 0 <= x → isqrt_down x (Z.sqrt x) = inr (Z.sqrt x).
Proof.
  intros Hx. unfold isqrt_down. destruct (Z.sqrt_spec x) as [L U]; [lia|].
  destruct (Z.ltb_spec 0 (Z.sqrt x)); [|done]. simpl.
  assert (Z.sqrt x <= x / Z.sqrt x) by (apply Z.div_le_lower_bound; nia).
  by destruct (Z.ltb_spec (x / Z.sqrt x) (Z.sqrt x)); [lia|].
Qed.

Lemma isqrt_up_done x : 0 <= x → isqrt_up x (Z.sqrt x) = inr (Z.sqrt x).
Proof.
  intros Hx. unfold isqrt_up. destruct (Z.sqrt_spec x) as [L U]; [lia|].
  pose proof (Z.sqrt_nonneg x).
  assert (x / (Z.sqrt x + 1) < Z.sqrt x + 1) by (apply Z.div_lt_upper_bound; nia).
  destruct (Z.leb_spec (Z.sqrt x + 1) (x / (Z.sqrt x + 1))); [lia|]. by rewrite andb_false_r.
Qed.

(** The three loops of [ac_isqrt_u64] return, and return the floor of the
    square root, for every 64-bit argument. *)
Lemma ac_isqrt_loops_sqrt x : is_u64 x → ac_isqrt_loops x = Some (Z.sqrt x).
Proof.
  intros Hx. unfold ac_isqrt_loops.
  destruct (Z.eqb_spec x 0) as [->|]; [done|]. destruct (Z.eqb_spec x 1) as [->|]; [done|].
  assert (1 < x) as H1 by (widths; lia).
  pose proof (sqrt_u64_le x Hx) as Hm.
  set (r0 := if SQRT_MAX <? x then SQRT_MAX else x).
  assert (isqrt_inv x r0) as H0.
  { unfold r0, isqrt_inv. pose proof (Z.sqrt_le_lin x ltac:(lia)).
    destruct (Z.ltb_spec SQRT_MAX x); unfold SQRT_MAX in *; lia. }
  destruct (while_rule (isqrt_newton x) (isqrt_inv x) id (λ r, r = Z.sqrt x)
              (λ r, isqrt_newton_step x r H1 Hx) (2 ^ 33) r0 H0) as (r & -> & ->).
  { destruct H0 as [H0 _]. unfold id, SQRT_MAX in *. lia. }
  rewrite (while_fuel_stop _ _ _ _ (isqrt_down_done x ltac:(lia))).
  by rewrite (while_fuel_stop _ _ _ _ (isqrt_up_done x ltac:(lia))).
Qed.

Lemma ac_isqrt_sqrt x : is_u64 x → ac_isqrt_u64 x = Z.sqrt x.
Proof. intros Hx. unfold ac_isqrt_u64. by rewrite ac_isqrt_loops_sqrt. Qed.

(** C40. The integer square root that weighs stakes: for every 64-bit argument the three loops
    terminate, and the result is the floor of the square root, a 32-bit number; in
    particular no intermediate product or sum wraps. *)
Theorem isqrt_floor x :
  is_u64 x →
  ∃ r, ac_isqrt_loops x = Some r ∧ ac_isqrt_u64 x = r ∧ 0 <= r <= SQRT_MAX ∧ r * r <= x < (r + 1) * (r + 1).
Proof.
  intros Hx. exists (Z.sqrt x). split; [by apply ac_isqrt_loops_sqrt|]. split; [by apply ac_isqrt_sqrt|].
  split; [split; [apply Z.sqrt_nonneg | by apply sqrt_u64_le]|]. apply Z.sqrt_spec. apply Hx.
Qed.

Lemma isqrt_floor_witness :
  ac_isqrt_u64 200000000 = 14142 ∧ ∃ r, ac_isqrt_loops UINT64_MAX = Some r ∧ r <= SQRT_MAX.
Proof.
  split; [by vm_compute|]. destruct (isqrt_floor UINT64_MAX) as (r & E & _ & [_ H] & _); [by vm_compute|].
  exists r. split; [exact E | exact H].
Defined.
