(* ===== verification/Crypto.v ===== *)
(** * crypto.h / crypto.c

    libsodium is a third-party library, so its primitives are the members of
    the class [Sodium] and its documented behaviour the class [SodiumLaws]:
    hashing by parts is hashing the concatenation, a detached signature made
    with a key pair verifies under its public key, and a secret key starts
    with its seed. No cryptographic hardness is assumed anywhere. The wrappers
    of crypto.c, the VRF built on signatures included, are definitions. *)

From S2P Require Import Prelude Common.

Class Sodium := {
  gh_state : Type;
  gh_init : gh_state;
  gh_update : gh_state → list byte → gh_state;
  gh_final : gh_state → ac_hash_t;
  generichash : list byte → ac_hash_t;
  sign_seed_keypair : bytes AC_SEED_SIZE → bytes AC_PUBKEY_SIZE * bytes AC_PRIVKEY_SIZE;
  sign_detached : list byte → bytes AC_PRIVKEY_SIZE → ac_sig_t;
  sign_verify_detached : ac_sig_t → list byte → bytes AC_PUBKEY_SIZE → bool
}.

Class SodiumLaws (S : Sodium) : Prop := {
  gh_stream chunks :
    gh_final (foldl gh_update gh_init chunks) = generichash (concat chunks);
  sign_verifies seed msg :
    sign_verify_detached (sign_detached msg (sign_seed_keypair seed).2) msg
                         (sign_seed_keypair seed).1 = true;
  secret_has_seed seed :
    take 32 (b (sign_seed_keypair seed).2) = b seed
}.

Record ac_keypair_t := mkKeypair { pk : bytes AC_PUBKEY_SIZE; sk : bytes AC_PRIVKEY_SIZE }.

Abbreviation ac_vrf_proof_t := (bytes AC_VRF_PROOF_SIZE).
Abbreviation ac_vrf_out_t := (bytes AC_VRF_OUT_SIZE).

Section Crypto.
Context `{!Sodium}.

Definition ac_keypair_from_seed (seed : bytes AC_SEED_SIZE) : ac_keypair_t :=
  let kp := sign_seed_keypair seed in mkKeypair kp.1 kp.2.

Definition ac_keypair_seed (kp : ac_keypair_t) : bytes AC_SEED_SIZE :=
  bytes_of AC_SEED_SIZE (take AC_SEED_SIZE (b (sk kp))).

(** The streaming loop: chunks of length zero are skipped. *)
Fixpoint hash_multi_loop (st : gh_state) (chunks : list (list byte)) : gh_state :=
  match chunks with
  | [] => st
  | c :: rest =>
      hash_multi_loop (if (0 <? length c)%nat then gh_update st c else st) rest
  end.
Definition ac_hash_multi (chunks : list (list byte)) : ac_hash_t :=
  gh_final (hash_multi_loop gh_init chunks).

Definition ac_hash (data : list byte) : ac_hash_t := generichash data.

Definition ac_sign (msg : list byte) (kp : ac_keypair_t) : ac_sig_t :=
  sign_detached msg (sk kp).
Definition ac_verify (sig : ac_sig_t) (msg : list byte) (key : bytes AC_PUBKEY_SIZE) : bool :=
  sign_verify_detached sig msg key.

Definition VRF_DOMAIN : list byte := str "AGCH:VRF:v1".
Definition VRF_OUT_DOMAIN : list byte := str "AGCH:VRF-OUT:v1".

Definition vrf_compute_beta (proof : ac_vrf_proof_t) : ac_vrf_out_t :=
  ac_hash_multi [VRF_OUT_DOMAIN; b proof].

Definition ac_vrf_prove (alpha : list byte) (kp : ac_keypair_t) : ac_vrf_proof_t * ac_vrf_out_t :=
  let proof := ac_sign (VRF_DOMAIN ++ alpha) kp in
  (proof, vrf_compute_beta proof).

(** [Some beta] is a return of 1 with [*beta] written, [None] a return of 0. *)
Definition ac_vrf_verify (proof : ac_vrf_proof_t) (alpha : list byte)
    (key : bytes AC_PUBKEY_SIZE) : option ac_vrf_out_t :=
  if ac_verify proof (VRF_DOMAIN ++ alpha) key then Some (vrf_compute_beta proof) else None.

Context `{!SodiumLaws _}.

Lemma hash_multi_loop_foldl st chunks :
  hash_multi_loop st chunks = foldl gh_update st (filter (λ c, (0 < length c)%nat) chunks).
Proof.
  revert st. induction chunks as [|c l IH]; intros st; simpl; [done|]. rewrite IH.
  rewrite filter_cons. destruct (Nat.ltb_spec 0 (length c)); by case_decide; try lia.
Qed.

Lemma concat_nonempty (chunks : list (list byte)) :
  concat (filter (λ c, (0 < length c)%nat) chunks) = concat chunks.
Proof.
  induction chunks as [|c l IH]; [done|]. rewrite filter_cons. case_decide; simpl; rewrite IH; [done|].
  by destruct c; simpl in *; [|lia].
Qed.

(** Hashing by parts hashes the concatenation of the parts. *)
Lemma ac_hash_multi_concat chunks : ac_hash_multi chunks = ac_hash (concat chunks).
Proof. unfold ac_hash_multi, ac_hash. by rewrite hash_multi_loop_foldl, gh_stream, concat_nonempty. Qed.

Lemma ac_verify_sign seed msg :
  ac_verify (ac_sign msg (ac_keypair_from_seed seed)) msg (pk (ac_keypair_from_seed seed)) = true.
Proof. apply sign_verifies. Qed.

(** The VRF is complete: a proof made with a key pair verifies under its
    public key, and the verifier computes the prover's output. *)
Lemma ac_vrf_complete seed alpha :
  let kp := ac_keypair_from_seed seed in
  ac_vrf_verify (ac_vrf_prove alpha kp).1 alpha (pk kp) = Some (ac_vrf_prove alpha kp).2.
Proof. intros kp. unfold ac_vrf_verify, ac_vrf_prove, kp. cbn [fst snd].
  by rewrite ac_verify_sign. Qed.

Lemma ac_keypair_seed_from seed : ac_keypair_seed (ac_keypair_from_seed seed) = seed.
Proof.
  unfold ac_keypair_seed, ac_keypair_from_seed. simpl. rewrite secret_has_seed. apply bytes_of_b.
Qed.
End Crypto.

(** ** A concrete instance

    A toy library that satisfies the laws, so that theorems that assume them
    are about something and models evaluate. *)
Module ToySodium.
Definition mix (acc : Z) (c : byte) : Z := (acc * 257 + byte_val c + 1) mod (2 ^ 61 - 1).
Definition hash (l : list byte) : ac_hash_t := bytes_of 32 (ac_be64 (foldl mix 7 l)).
Definition keypair (seed : bytes AC_SEED_SIZE) : bytes AC_PUBKEY_SIZE * bytes AC_PRIVKEY_SIZE :=
  (seed, bytes_of 64 (b seed ++ b seed)).
Definition tag (pub : list byte) (msg : list byte) : ac_sig_t :=
  bytes_of 64 (b (hash (pub ++ msg)) ++ pub).
Definition sign (msg : list byte) (sec : bytes AC_PRIVKEY_SIZE) : ac_sig_t :=
  tag (drop 32 (b sec)) msg.
Definition verify (sig : ac_sig_t) (msg : list byte) (pub : bytes AC_PUBKEY_SIZE) : bool :=
  bool_decide (sig = tag (b pub) msg).
End ToySodium.

Definition toy_sodium : Sodium := {|
  gh_state := list byte;
  gh_init := [];
  gh_update st c := st ++ c;
  gh_final := ToySodium.hash;
  generichash := ToySodium.hash;
  sign_seed_keypair := ToySodium.keypair;
  sign_detached := ToySodium.sign;
  sign_verify_detached := ToySodium.verify
|}.

Lemma foldl_append {A} (acc : list A) chunks : foldl app acc chunks = acc ++ concat chunks.
Proof.
  revert acc. induction chunks as [|c l IH]; intros acc; simpl; [by rewrite app_nil_r|].
  by rewrite IH, app_assoc.
Qed.

#[export] Instance toy_sodium_laws : SodiumLaws toy_sodium.
Proof.
  assert (∀ seed : bytes 32, b (bytes_of 64 (b seed ++ b seed)) = b seed ++ b seed) as E.
  { intros. apply b_bytes_of. len. }
  constructor.
  - intros chunks. cbn [gh_final gh_update gh_init generichash toy_sodium].
    f_equal. apply (foldl_append [] chunks).
  - intros seed msg.
    cbn [sign_verify_detached sign_detached sign_seed_keypair toy_sodium].
    unfold ToySodium.verify, ToySodium.sign, ToySodium.keypair. cbn [fst snd].
    rewrite E, drop_app_length' by (symmetry; apply b_length). by rewrite bool_decide_true.
  - intros seed. cbn [sign_seed_keypair toy_sodium]. unfold ToySodium.keypair. cbn [snd].
    by rewrite E, take_app_length' by (symmetry; apply b_length).
Qed.
