(* ===== verification/Cursor.v ===== *)
(** * Bounded cursors (codec.c, lines 6-39)

    The encoders write through [wcur_t] and the decoders read through
    [rcur_t]; both carry a sticky error flag. Reading is a state monad over
    the cursor, so a decoder reads like its C body. Two laws carry every codec
    theorem: [reads m bs a] (on input [bs] the reader returns [a]) and
    [consumes m R] (whatever the reader returns is related by [R] to the exact
    bytes it went over). *)

From S2P Require Import Prelude Common.

(** ** Write cursor *)

Record wcur_t := mkW { w_out : list byte; w_cap : Z; w_err : bool }.

Definition wcur_new (cap : Z) : wcur_t := mkW [] cap false.

Definition wput (c : wcur_t) (src : list byte) : wcur_t :=
  if w_err c || (w_cap c <? zlen (w_out c) + zlen src)
  then mkW (w_out c) (w_cap c) true
  else mkW (w_out c ++ src) (w_cap c) false.
Definition wput_u8 (c : wcur_t) (v : Z) : wcur_t := wput c [byte_of v].
Definition wput_u32 (c : wcur_t) (v : Z) : wcur_t := wput c (ac_be32 v).
Definition wput_u64 (c : wcur_t) (v : Z) : wcur_t := wput c (ac_be64 v).

(** [return c.err ? -1 : (int)c.used;] with the bytes written. *)
Definition w_result (c : wcur_t) : option (list byte) :=
  if w_err c then None else Some (w_out c).

Definition fits (cap : Z) (l : list byte) : option (list byte) :=
  if zlen l <=? cap then Some l else None.

Lemma wput_err out cap d : wput (mkW out cap true) d = mkW out cap true.
Proof. done. Qed.
Lemma foldl_wput_err out cap chunks :
  foldl wput (mkW out cap true) chunks = mkW out cap true.
Proof. induction chunks; simpl; [done|]. by rewrite wput_err. Qed.

(** Writing chunks into [cap] bytes yields their concatenation, or the error
    result when it does not fit. *)
Lemma wput_chunks chunks out cap :
  zlen out <= cap →
  w_result (foldl wput (mkW out cap false) chunks) = fits cap (out ++ concat chunks).
Proof.
  revert out. induction chunks as [|d l IH]; intros out Hout; cbn [foldl concat].
  - unfold w_result, fits. cbn [w_err w_out]. rewrite app_nil_r.
    by rewrite (proj2 (Z.leb_le _ _) Hout).
  - unfold wput at 2. cbn [w_err w_cap w_out orb].
    destruct (Z.ltb_spec cap (zlen out + zlen d)).
    + rewrite foldl_wput_err. unfold w_result, fits. cbn [w_err].
      destruct (Z.leb_spec (zlen (out ++ d ++ concat l)) cap); [len|done].
    + rewrite IH by len. by rewrite <- app_assoc.
Qed.

(** Unfolding [wput] copies the cursor four times: keep it folded. *)
#[global] Opaque wput.

(** ** Read cursor *)

Record rcur_t := mkR { r_buf : list byte; r_pos : nat; r_err : bool }.

Definition rcur_new (buf : list byte) : rcur_t := mkR buf 0 false.

(** [None] is an early [return -1]. *)
Definition reader (A : Type) : Type := rcur_t → option (A * rcur_t).

#[export] Instance reader_ret : MRet reader := λ A x c, Some (x, c).
#[export] Instance reader_bind : MBind reader := λ A B f m c,
  match m c with Some (x, c') => f x c' | None => None end.

(** Copies [n] bytes, or raises the flag and leaves the zeroed destination. *)
Definition rget (n : nat) : reader (list byte) := λ c,
  if r_err c || (length (r_buf c) <? r_pos c + n)%nat
  then Some (repeat x00 n, mkR (r_buf c) (r_pos c) true)
  else Some (slice (r_buf c) (r_pos c) n, mkR (r_buf c) (r_pos c + n) false).
Definition rget_bytes (n : nat) : reader (bytes n) := l ← rget n; mret (bytes_of n l).
Definition rget_u8 : reader Z := l ← rget 1; mret (at_ l 0).
Definition rget_u32 : reader Z := l ← rget 4; mret (ac_rd32 l).
Definition rget_u64 : reader Z := l ← rget 8; mret (ac_rd64 l).

(** [if (c) return -1;] *)
Definition rguard (c : bool) : reader unit := if c then λ _, None else mret tt.

(** ** Readers on the bytes they expect *)

Definition reads {A} (m : reader A) (bs : list byte) (a : A) : Prop :=
  ∀ pre suf, m (mkR (pre ++ bs ++ suf) (length pre) false) =
             Some (a, mkR (pre ++ bs ++ suf) (length pre + length bs) false).

Lemma reads_ret {A} (a : A) : reads (mret a) [] a.
Proof. intros pre suf. simpl. by rewrite Nat.add_0_r. Qed.

Lemma reads_bind {A B} (m : reader A) (f : A → reader B) bs1 bs2 a r :
  reads m bs1 a → reads (f a) bs2 r → reads (m ≫= f) (bs1 ++ bs2) r.
Proof.
  intros H1 H2 pre suf. unfold mbind, reader_bind.
  rewrite <- (app_assoc bs1 bs2 suf), H1.
  specialize (H2 (pre ++ bs1) suf). rewrite <- app_assoc, length_app in H2. rewrite H2.
  rewrite length_app. do 2 f_equal. by rewrite Nat.add_assoc.
Qed.

Lemma reads_ret_bind {A B} (m : reader A) (g : A → B) bs a :
  reads m bs a → reads (x ← m; mret (g x)) bs (g a).
Proof. intros H. rewrite <- (app_nil_r bs). eapply reads_bind; [done | apply reads_ret]. Qed.

Lemma reads_rget l n : length l = n → reads (rget n) l l.
Proof.
  intros <- pre suf. unfold rget; simpl.
  destruct (Nat.ltb_spec (length (pre ++ l ++ suf)) (length pre + length l)); [len|].
  by rewrite slice_app_mid.
Qed.

Lemma reads_bytes {n} (x : bytes n) : reads (rget_bytes n) (b x) x.
Proof.
  intros pre suf. unfold rget_bytes. rewrite (reads_ret_bind _ (bytes_of n) _ (b x)).
  - by rewrite bytes_of_b.
  - apply reads_rget, b_length.
Qed.

Lemma reads_u8 v : is_u8 v → reads rget_u8 [byte_of v] v.
Proof.
  intros Hv pre suf. unfold rget_u8.
  rewrite (reads_ret_bind _ (λ l, at_ l 0) _ [byte_of v]) by by apply reads_rget.
  unfold at_; simpl. rewrite byte_val_of. unfold u8. by rewrite Z.mod_small.
Qed.
Lemma reads_u32 v : is_u32 v → reads rget_u32 (ac_be32 v) v.
Proof.
  intros Hv pre suf. unfold rget_u32. rewrite (reads_ret_bind _ ac_rd32 _ (ac_be32 v)) by by apply reads_rget.
  rewrite ac_rd32_be32. unfold u32. by rewrite Z.mod_small.
Qed.
Lemma reads_u64 v : is_u64 v → reads rget_u64 (ac_be64 v) v.
Proof.
  intros Hv pre suf. unfold rget_u64. rewrite (reads_ret_bind _ ac_rd64 _ (ac_be64 v)) by by apply reads_rget.
  by rewrite ac_rd64_be64, u64_id.
Qed.
Lemma reads_guard : reads (rguard false) [] ().
Proof. apply reads_ret. Qed.
#[export] Hint Resolve reads_bytes reads_u8 reads_u32 reads_u64 reads_guard reads_ret : codec.

(** The same laws on input given as a list of chunks, one per read. *)
Lemma reads_chunk {A B} (m : reader A) (f : A → reader B) c l a r :
  reads m c a → reads (f a) (concat l) r → reads (m ≫= f) (concat (c :: l)) r.
Proof. apply reads_bind. Qed.
Lemma reads_guard_bind {B} c (f : unit → reader B) bs r :
  c = false → reads (f tt) bs r → reads (rguard c ≫= f) bs r.
Proof. intros -> H. by apply (reads_bind (rguard false) f [] bs tt r reads_guard). Qed.
Ltac reads_walk := repeat (eapply reads_chunk; [solve [eauto with codec]|]); try apply reads_ret.

(** Running a reader over exactly its bytes. *)
Lemma reads_run {A} (m : reader A) bs a :
  reads m bs a → m (rcur_new bs) = Some (a, mkR bs (length bs) false).
Proof.
  intros H. specialize (H [] []). rewrite app_nil_r in H. apply H.
Qed.

(** ** What a reader went over *)

Definition consumes {A} (m : reader A) (R : A → list byte → Prop) : Prop :=
  ∀ c a c', m c = Some (a, c') → r_err c' = false →
    ∃ bs, R a bs ∧ r_err c = false ∧ r_buf c' = r_buf c ∧
          r_pos c' = (r_pos c + length bs)%nat ∧
          (r_pos c' <= length (r_buf c) ∨ bs = [])%nat ∧
          slice (r_buf c) (r_pos c) (length bs) = bs.

Lemma consumes_ret {A} (a : A) : consumes (mret a) (λ x bs, x = a ∧ bs = []).
Proof.
  intros c x c' [= <- <-] He. exists []. rewrite Nat.add_0_r. repeat split; auto.
Qed.

Lemma consumes_bind {A B} (m : reader A) (f : A → reader B) R1 R2 :
  consumes m R1 → (∀ a, consumes (f a) (R2 a)) →
  consumes (m ≫= f) (λ r bs, ∃ a bs1 bs2, R1 a bs1 ∧ R2 a r bs2 ∧ bs = bs1 ++ bs2).
Proof.
  intros H1 H2 c r c' Hm He. unfold mbind, reader_bind in Hm.
  destruct (m c) as [[a c1]|] eqn:E; [|done].
  destruct (H2 a c1 r c' Hm He) as (bs2 & HR2 & He1 & Hb2 & Hp2 & Hl2 & Hs2).
  destruct (H1 c a c1 E He1) as (bs1 & HR1 & He0 & Hb1 & Hp1 & Hl1 & Hs1).
  rewrite Hb1 in *.
  exists (bs1 ++ bs2). split; [eauto 10|]. split; [done|]. split; [congruence|].
  rewrite length_app. split; [lia|]. split.
  - destruct Hl2 as [?| ->]; [auto|]. destruct Hl1 as [?| ->]; [left; simpl in *; lia | auto].
  - rewrite slice_split, Hs1, <- Hp1, Hs2. done.
Qed.

Lemma consumes_impl {A} (m : reader A) (R1 R2 : A → list byte → Prop) :
  consumes m R1 → (∀ a bs, R1 a bs → R2 a bs) → consumes m R2.
Proof. intros H HR c a c' Hm He. destruct (H c a c' Hm He) as (bs & ? & ?). eauto. Qed.

Lemma consumes_rget n : consumes (rget n) (λ l bs, bs = l ∧ length l = n).
Proof.
  intros c l c' Hm He. unfold rget in Hm.
  destruct (r_err c) eqn:E; simpl in Hm; [by simplify_eq|].
  destruct (Nat.ltb_spec (length (r_buf c)) (r_pos c + n)); simplify_eq; simpl in *.
  exists (slice (r_buf c) (r_pos c) n). rewrite slice_length by lia.
  repeat split; auto; lia.
Qed.

Lemma consumes_ret_bind {A B} (m : reader A) (g : A → B) R :
  consumes m R → consumes (x ← m; mret (g x)) (λ r bs, ∃ a, R a bs ∧ r = g a).
Proof.
  intros H. eapply consumes_impl.
  - eapply consumes_bind; [done | intros; apply consumes_ret].
  - intros r bs (a & bs1 & bs2 & ? & [-> ->] & ->). rewrite app_nil_r. eauto.
Qed.

Lemma consumes_bytes n : consumes (rget_bytes n) (λ x bs, bs = b x).
Proof.
  eapply consumes_impl; [apply consumes_ret_bind, consumes_rget|].
  intros x bs (l & [-> Hl] & ->). symmetry. by apply b_bytes_of.
Qed.
Lemma consumes_u8 : consumes rget_u8 (λ v bs, bs = [byte_of v] ∧ is_u8 v).
Proof.
  eapply consumes_impl; [apply consumes_ret_bind, consumes_rget|].
  intros x bs (l & [-> Hl] & ->). explode l Hl. unfold at_; simpl.
  split; [by rewrite byte_of_val | apply byte_val_range].
Qed.
Lemma consumes_u32 : consumes rget_u32 (λ v bs, bs = ac_be32 v ∧ is_u32 v).
Proof.
  eapply consumes_impl; [apply consumes_ret_bind, consumes_rget|].
  intros x bs (l & [-> Hl] & ->). rewrite ac_be32_rd32 by done. auto with wf.
Qed.
Lemma consumes_u64 : consumes rget_u64 (λ v bs, bs = ac_be64 v ∧ is_u64 v).
Proof.
  eapply consumes_impl; [apply consumes_ret_bind, consumes_rget|].
  intros x bs (l & [-> Hl] & ->). rewrite ac_be64_rd64 by done. auto with wf.
Qed.
Lemma consumes_guard c : consumes (rguard c) (λ _ bs, c = false ∧ bs = []).
Proof.
  destruct c; [done|]. eapply consumes_impl; [apply consumes_ret|]. by intros ? bs [_ ->].
Qed.
#[export] Hint Resolve consumes_bytes consumes_u8 consumes_u32 consumes_u64 consumes_guard
  consumes_ret consumes_rget : codec.

(** A reader that ends without error at the end of its input has read it all. *)
Lemma consumes_run {A} (m : reader A) R buf a c :
  consumes m R → m (rcur_new buf) = Some (a, c) → r_err c = false → r_pos c = length buf →
  R a buf.
Proof.
  intros H Hm He Hp. destruct (H _ _ _ Hm He) as (bs & HR & _ & _ & Hpos & _ & Hs).
  simpl in *. rewrite Hp in Hpos.
  assert (length bs = length buf) as E by lia. rewrite E, slice_whole in Hs. by subst.
Qed.
