(* ===== verification/Codec.v ===== *)
(** * codec.h / codec.c

    Transactions, headers and blocks, their wire format and their hashes. A
    C array with its length field ([body]/[body_len], [memo]/[memo_len],
    [txs]/[tx_count], [signers]/[nsigners], [name]/[name_len]) is one list.
    An encoder returns [Some] of the bytes it wrote into its [cap] bytes, or
    [None] for -1. *)

From S2P Require Import Prelude Common Crypto Cursor.

(** ** Limits *)

Abbreviation AC_TX_VERSION := 1.
Abbreviation AC_BLOCK_VERSION := 1.
Abbreviation AC_MEMO_MAX := 512.
Abbreviation AC_TX_BODY_MAX := 512.
Abbreviation AC_TX_MAX_BYTES := 2048.
Abbreviation AC_BLOCK_MAX_TXS := 4096.
Abbreviation AC_BLOCK_GAS_LIMIT := 30000000.
Abbreviation AC_MIN_BASE_FEE := 1.
Abbreviation AC_NAME_MIN_LEN := 1.
Abbreviation AC_NAME_MAX_LEN := 32.
Abbreviation AC_COMMITTEE_TARGET := 64.
Abbreviation AC_COMMITTEE_MAX := 256.
Abbreviation AC_SLOT_DURATION_MS := 2000.
Abbreviation AC_EPOCH_SLOTS := 7200.
Abbreviation AC_MIN_STAKE_UCRD := 100000000.
Abbreviation HEADER_BYTES_MAX := 256.

(** ** Data *)

Abbreviation AC_TX_TRANSFER := 1.
Abbreviation AC_TX_STAKE_BOND := 2.
Abbreviation AC_TX_STAKE_UNBOND := 3.
Abbreviation AC_TX_REGISTER_NAME := 4.
Abbreviation AC_TX_SLASH_EVIDENCE := 5.

Record ac_tx_t := mkTx {
  tx_version : Z;
  tx_chain_id : Z;
  tx_kind : Z;
  tx_sender : ac_addr_t;
  tx_nonce : Z;
  tx_gas_limit : Z;
  tx_tip : Z;
  tx_valid_until : Z;
  tx_body : list byte;
  tx_memo : list byte;
  tx_sig : ac_sig_t
}.

Record ac_body_transfer_t := mkBodyTransfer { recipient : ac_addr_t; transfer_amount : Z }.
Record ac_body_stake_t := mkBodyStake { stake_amount : Z }.
Record ac_body_name_t := mkBodyName { body_name : list byte }.
Record ac_body_slash_t := mkBodySlash {
  slash_validator : ac_addr_t;
  slash_height : Z;
  block_hash_a : ac_hash_t;
  sig_a : ac_sig_t;
  block_hash_b : ac_hash_t;
  sig_b : ac_sig_t
}.

Record ac_block_header_t := mkHeader {
  h_version : Z;
  h_height : Z;
  h_slot : Z;
  h_parent_hash : ac_hash_t;
  h_timestamp_ms : Z;
  h_proposer : ac_addr_t;
  h_proposer_vrf_proof : ac_vrf_proof_t;
  h_state_root : ac_hash_t;
  h_tx_root : ac_hash_t;
  h_base_fee : Z;
  h_gas_used : Z;
  h_gas_limit : Z;
  h_tx_count : Z
}.

Record ac_commit_signer_t := mkSigner {
  cs_signer : ac_addr_t;
  cs_sig : ac_sig_t;
  cs_vrf_proof : ac_vrf_proof_t
}.

Record ac_block_t := mkBlock {
  header : ac_block_header_t;
  txs : list ac_tx_t;
  signers : list ac_commit_signer_t
}.

#[export] Instance ac_tx_eq_dec : EqDecision ac_tx_t.
Proof. solve_decision. Defined.
#[export] Instance ac_header_eq_dec : EqDecision ac_block_header_t.
Proof. solve_decision. Defined.
#[export] Instance ac_signer_eq_dec : EqDecision ac_commit_signer_t.
Proof. solve_decision. Defined.
#[export] Instance ac_block_eq_dec : EqDecision ac_block_t.
Proof. solve_decision. Defined.

(** The values the C types can hold. *)
Record tx_wf (t : ac_tx_t) : Prop := {
  wf_tx_version : is_u8 (tx_version t);
  wf_tx_chain_id : is_u64 (tx_chain_id t);
  wf_tx_kind : is_u8 (tx_kind t);
  wf_tx_nonce : is_u64 (tx_nonce t);
  wf_tx_gas_limit : is_u32 (tx_gas_limit t);
  wf_tx_tip : is_u64 (tx_tip t);
  wf_tx_valid_until : is_u64 (tx_valid_until t);
  wf_tx_body : zlen (tx_body t) <= AC_TX_BODY_MAX;
  wf_tx_memo : zlen (tx_memo t) <= AC_MEMO_MAX
}.

Record header_wf (h : ac_block_header_t) : Prop := {
  wf_h_version : is_u8 (h_version h);
  wf_h_height : is_u64 (h_height h);
  wf_h_slot : is_u64 (h_slot h);
  wf_h_timestamp : is_u64 (h_timestamp_ms h);
  wf_h_base_fee : is_u64 (h_base_fee h);
  wf_h_gas_used : is_u64 (h_gas_used h);
  wf_h_gas_limit : is_u64 (h_gas_limit h);
  wf_h_tx_count : is_u32 (h_tx_count h)
}.

Record block_wf (k : ac_block_t) : Prop := {
  wf_header : header_wf (header k);
  wf_txs : Forall tx_wf (txs k);
  wf_tx_count : h_tx_count (header k) = zlen (txs k);
  wf_txs_max : zlen (txs k) <= AC_BLOCK_MAX_TXS;
  wf_signers_max : zlen (signers k) <= AC_COMMITTEE_MAX
}.

(** ** Bodies *)

Definition ac_body_transfer_encode (cap : Z) (x : ac_body_transfer_t) : option (list byte) :=
  let c := wcur_new cap in
  let c := wput c (b (recipient x)) in
  let c := wput_u64 c (transfer_amount x) in
  w_result c.

Definition transfer_reader : reader ac_body_transfer_t :=
  r ← rget_bytes AC_PUBKEY_SIZE;
  a ← rget_u64;
  mret (mkBodyTransfer r a).

(** [return (c.err || c.pos != len) ? -1 : (int)c.pos;] *)
Definition run_exact {A} (m : reader A) (buf : list byte) : option A :=
  match m (rcur_new buf) with
  | Some (x, c) => if r_err c || negb (r_pos c =? length buf)%nat then None else Some x
  | None => None
  end.

Definition ac_body_transfer_decode (buf : list byte) : option ac_body_transfer_t :=
  run_exact transfer_reader buf.

Definition ac_body_stake_encode (cap : Z) (x : ac_body_stake_t) : option (list byte) :=
  if cap <? 8 then None else Some (ac_be64 (stake_amount x)).
Definition ac_body_stake_decode (buf : list byte) : option ac_body_stake_t :=
  if negb (zlen buf =? 8) then None else Some (mkBodyStake (ac_rd64 buf)).

Definition name_char_ok (c : byte) : bool :=
  let c := byte_val c in
  ((97 <=? c) && (c <=? 122)) || ((48 <=? c) && (c <=? 57)) || (c =? 45).
Definition ac_name_valid (name : list byte) : bool :=
  if (zlen name <? AC_NAME_MIN_LEN) || (AC_NAME_MAX_LEN <? zlen name) then false
  else forallb name_char_ok name.

Definition ac_body_name_encode (cap : Z) (x : ac_body_name_t) : option (list byte) :=
  let name_len := zlen (body_name x) in
  if (name_len =? 0) || (AC_NAME_MAX_LEN <? name_len) then None
  else if cap <? name_len + 1 then None
  else Some (byte_of name_len :: body_name x).
Definition ac_body_name_decode (buf : list byte) : option ac_body_name_t :=
  if zlen buf <? 1 then None
  else
    let nl := at_ buf 0 in
    if (nl =? 0) || (AC_NAME_MAX_LEN <? nl) then None
    else if negb (nl + 1 =? zlen buf) then None
    else
      let name := slice buf 1 (Z.to_nat nl) in
      if negb (ac_name_valid name) then None else Some (mkBodyName name).

Definition ac_body_slash_encode (cap : Z) (x : ac_body_slash_t) : option (list byte) :=
  let c := wcur_new cap in
  let c := wput c (b (slash_validator x)) in
  let c := wput_u64 c (slash_height x) in
  let c := wput c (b (block_hash_a x)) in
  let c := wput c (b (sig_a x)) in
  let c := wput c (b (block_hash_b x)) in
  let c := wput c (b (sig_b x)) in
  w_result c.
Definition slash_reader : reader ac_body_slash_t :=
  v ← rget_bytes AC_PUBKEY_SIZE;
  h ← rget_u64;
  ha ← rget_bytes AC_HASH_SIZE;
  sa ← rget_bytes AC_SIG_SIZE;
  hb ← rget_bytes AC_HASH_SIZE;
  sb ← rget_bytes AC_SIG_SIZE;
  mret (mkBodySlash v h ha sa hb sb).
Definition ac_body_slash_decode (buf : list byte) : option ac_body_slash_t :=
  run_exact slash_reader buf.

(** ** Gas *)

Definition ac_tx_intrinsic_gas (kind : Z) : Z :=
  if kind =? AC_TX_TRANSFER then 21 + 0
  else if (kind =? AC_TX_STAKE_BOND) || (kind =? AC_TX_STAKE_UNBOND) then 21 + 30
  else if kind =? AC_TX_REGISTER_NAME then 21 + 200
  else if kind =? AC_TX_SLASH_EVIDENCE then 21 + 500
  else -1.

Definition ac_tx_total_gas (t : ac_tx_t) : Z :=
  let g := ac_tx_intrinsic_gas (tx_kind t) in
  if g <? 0 then UINT64_MAX else g ⊕ zlen (tx_memo t).

(** ** Transactions *)

Definition TX_DOMAIN : list byte := str "AGCH:TX:v1".

Definition ac_tx_signable_bytes (out_cap : Z) (t : ac_tx_t) : option (list byte) :=
  let c := wcur_new out_cap in
  let c := wput c TX_DOMAIN in
  let c := wput_u8 c (tx_version t) in
  let c := wput_u64 c (tx_chain_id t) in
  let c := wput_u8 c (tx_kind t) in
  let c := wput c (b (tx_sender t)) in
  let c := wput_u64 c (tx_nonce t) in
  let c := wput_u32 c (tx_gas_limit t) in
  let c := wput_u64 c (tx_tip t) in
  let c := wput_u64 c (tx_valid_until t) in
  let c := wput_u32 c (zlen (tx_body t)) in
  let c := wput c (tx_body t) in
  let c := wput_u32 c (zlen (tx_memo t)) in
  let c := wput c (tx_memo t) in
  w_result c.

Definition ac_tx_encode (out_cap : Z) (t : ac_tx_t) : option (list byte) :=
  let c := wcur_new out_cap in
  let c := wput_u8 c (tx_version t) in
  let c := wput_u64 c (tx_chain_id t) in
  let c := wput_u8 c (tx_kind t) in
  let c := wput c (b (tx_sender t)) in
  let c := wput_u64 c (tx_nonce t) in
  let c := wput_u32 c (tx_gas_limit t) in
  let c := wput_u64 c (tx_tip t) in
  let c := wput_u64 c (tx_valid_until t) in
  let c := wput_u32 c (zlen (tx_body t)) in
  let c := wput c (tx_body t) in
  let c := wput_u32 c (zlen (tx_memo t)) in
  let c := wput c (tx_memo t) in
  let c := wput c (b (tx_sig t)) in
  w_result c.

Definition tx_reader : reader ac_tx_t :=
  version ← rget_u8;
  chain_id ← rget_u64;
  kind ← rget_u8;
  sender ← rget_bytes AC_PUBKEY_SIZE;
  nonce ← rget_u64;
  gas_limit ← rget_u32;
  tip ← rget_u64;
  valid_until ← rget_u64;
  body_len ← rget_u32;
  _ ← rguard (AC_TX_BODY_MAX <? body_len);
  body ← rget (Z.to_nat body_len);
  memo_len ← rget_u32;
  _ ← rguard (AC_MEMO_MAX <? memo_len);
  memo ← rget (Z.to_nat memo_len);
  sig ← rget_bytes AC_SIG_SIZE;
  mret (mkTx version chain_id kind sender nonce gas_limit tip valid_until body memo sig).
Definition ac_tx_decode (buf : list byte) : option ac_tx_t :=
  if AC_TX_MAX_BYTES <? zlen buf then None else run_exact tx_reader buf.

Section Hashes.
Context `{!Sodium}.

Definition ac_tx_hash (t : ac_tx_t) : ac_hash_t :=
  match ac_tx_signable_bytes AC_TX_MAX_BYTES t with
  | None => zeros AC_HASH_SIZE
  | Some buf => ac_hash buf
  end.

(** [None] is a return of -1 with the transaction untouched. *)
Definition ac_tx_sign (t : ac_tx_t) (kp : ac_keypair_t) : option ac_tx_t :=
  match ac_tx_signable_bytes AC_TX_MAX_BYTES t with
  | None => None
  | Some buf =>
      let h := ac_hash buf in
      Some (mkTx (tx_version t) (tx_chain_id t) (tx_kind t) (tx_sender t) (tx_nonce t)
                 (tx_gas_limit t) (tx_tip t) (tx_valid_until t) (tx_body t) (tx_memo t)
                 (ac_sign (b h) kp))
  end.

Definition ac_tx_verify (t : ac_tx_t) : bool :=
  match ac_tx_signable_bytes AC_TX_MAX_BYTES t with
  | None => false
  | Some buf => ac_verify (tx_sig t) (b (ac_hash buf)) (tx_sender t)
  end.
End Hashes.

(** ** Headers *)

Definition ac_block_header_encode (cap : Z) (h : ac_block_header_t) : option (list byte) :=
  let c := wcur_new cap in
  let c := wput_u8 c (h_version h) in
  let c := wput_u64 c (h_height h) in
  let c := wput_u64 c (h_slot h) in
  let c := wput c (b (h_parent_hash h)) in
  let c := wput_u64 c (h_timestamp_ms h) in
  let c := wput c (b (h_proposer h)) in
  let c := wput c (b (h_proposer_vrf_proof h)) in
  let c := wput c (b (h_state_root h)) in
  let c := wput c (b (h_tx_root h)) in
  let c := wput_u64 c (h_base_fee h) in
  let c := wput_u64 c (h_gas_used h) in
  let c := wput_u64 c (h_gas_limit h) in
  let c := wput_u32 c (h_tx_count h) in
  w_result c.

Definition header_reader : reader ac_block_header_t :=
  version ← rget_u8;
  height ← rget_u64;
  slot ← rget_u64;
  parent_hash ← rget_bytes AC_HASH_SIZE;
  timestamp_ms ← rget_u64;
  proposer ← rget_bytes AC_PUBKEY_SIZE;
  proposer_vrf_proof ← rget_bytes AC_VRF_PROOF_SIZE;
  state_root ← rget_bytes AC_HASH_SIZE;
  tx_root ← rget_bytes AC_HASH_SIZE;
  base_fee ← rget_u64;
  gas_used ← rget_u64;
  gas_limit ← rget_u64;
  tx_count ← rget_u32;
  mret (mkHeader version height slot parent_hash timestamp_ms proposer proposer_vrf_proof
                 state_root tx_root base_fee gas_used gas_limit tx_count).
(** The header and the number of bytes consumed; trailing bytes are allowed. *)
Definition ac_block_header_decode (buf : list byte) : option (ac_block_header_t * nat) :=
  match header_reader (rcur_new buf) with
  | Some (h, c) => if r_err c then None else Some (h, r_pos c)
  | None => None
  end.

Section BlockHashes.
Context `{!Sodium}.

Definition BLOCK_DOMAIN : list byte := str "AGCH:BLOCK:v1".
Definition ac_block_hash (h : ac_block_header_t) : ac_hash_t :=
  match ac_block_header_encode HEADER_BYTES_MAX h with
  | None => zeros AC_HASH_SIZE
  | Some buf => ac_hash_multi [BLOCK_DOMAIN; buf]
  end.

Definition ac_block_tx_root (l : list ac_tx_t) : ac_hash_t :=
  if (length l =? 0)%nat then zeros AC_HASH_SIZE
  else ac_hash (concat (map (λ t, b (ac_tx_hash t)) l)).
End BlockHashes.

Definition VOTE_DOMAIN : list byte := str "AGCH:VOTE:v1".
Definition ac_vote_message (height : Z) (block_hash : ac_hash_t) : list byte :=
  VOTE_DOMAIN ++ ac_be64 height ++ b block_hash.

(** ** Blocks *)

Definition SIGNER_BYTES : nat := AC_PUBKEY_SIZE + AC_SIG_SIZE + AC_VRF_PROOF_SIZE.

(** One call of [ac_tx_encode] into what is left of the buffer. *)
Definition wput_tx (c : wcur_t) (t : ac_tx_t) : option wcur_t :=
  l ← ac_tx_encode (w_cap c - zlen (w_out c)) t;
  Some (mkW (w_out c ++ l) (w_cap c) (w_err c)).
Fixpoint wput_txs (c : wcur_t) (l : list ac_tx_t) : option wcur_t :=
  match l with
  | [] => Some c
  | t :: l' => c' ← wput_tx c t; wput_txs c' l'
  end.
Definition wput_signer (c : wcur_t) (s : ac_commit_signer_t) : wcur_t :=
  let c := wput c (b (cs_signer s)) in
  let c := wput c (b (cs_sig s)) in
  wput c (b (cs_vrf_proof s)).

Definition block_upper (k : ac_block_t) : Z :=
  HEADER_BYTES_MAX + zlen (txs k) * AC_TX_MAX_BYTES + 4
  + zlen (signers k) * Z.of_nat SIGNER_BYTES.

Definition ac_block_encode (k : ac_block_t) : option (list byte) :=
  let upper := block_upper k in
  hdr ← ac_block_header_encode upper (header k);
  let c := mkW hdr upper false in
  c ← wput_txs c (txs k);
  let c := wput_u32 c (zlen (signers k)) in
  w_result (foldl wput_signer c (signers k)).

(** [c.cap - c.pos] on [size_t]; a position past the end is [OOB]. *)
Definition bytes_left (cap pos : nat) : outcome nat :=
  if (pos <=? cap)%nat then OK (cap - pos)%nat else OOB.

Definition of_option {A} (m : option A) : outcome A :=
  match m with Some x => OK x | None => ERR end.

(** The body of the transaction loop: walk the layout, then decode the window. *)
Definition block_decode_tx (buf : list byte) (c_pos : nat) : outcome (ac_tx_t * nat) :=
  remaining ← bytes_left (length buf) c_pos;
  _ ← fail_if (remaining <? 70 + 4)%nat;
  bl ← read_at buf (c_pos + 70) 4;
  let body_len := ac_rd32 bl in
  _ ← fail_if (AC_TX_BODY_MAX <? body_len);
  let pos := (70 + 4 + Z.to_nat body_len)%nat in
  _ ← fail_if (remaining <? pos + 4)%nat;
  ml ← read_at buf (c_pos + pos) 4;
  let memo_len := ac_rd32 ml in
  _ ← fail_if (AC_MEMO_MAX <? memo_len);
  let pos := (pos + (4 + Z.to_nat memo_len + AC_SIG_SIZE))%nat in
  _ ← fail_if (remaining <? pos)%nat;
  window ← read_at buf c_pos pos;
  t ← of_option (ac_tx_decode window);
  OK (t, (c_pos + pos)%nat).

Fixpoint block_decode_txs (n : nat) (buf : list byte) (c_pos : nat)
    : outcome (list ac_tx_t * nat) :=
  match n with
  | O => OK ([], c_pos)
  | S n' =>
      '(t, p) ← block_decode_tx buf c_pos;
      '(l, p') ← block_decode_txs n' buf p;
      OK (t :: l, p')
  end.

Definition signer_reader : reader ac_commit_signer_t :=
  signer ← rget_bytes AC_PUBKEY_SIZE;
  sig ← rget_bytes AC_SIG_SIZE;
  vrf_proof ← rget_bytes AC_VRF_PROOF_SIZE;
  mret (mkSigner signer sig vrf_proof).
Fixpoint signers_reader (n : nat) : reader (list ac_commit_signer_t) :=
  match n with
  | O => mret []
  | S n' => s ← signer_reader; l ← signers_reader n'; mret (s :: l)
  end.
Definition commit_reader : reader (list ac_commit_signer_t) :=
  nsigners ← rget_u32;
  _ ← rguard (AC_COMMITTEE_MAX <? nsigners);
  signers_reader (Z.to_nat nsigners).

(** The block and the number of bytes consumed; trailing bytes are allowed. *)
Definition ac_block_decode (buf : list byte) : outcome (ac_block_t * nat) :=
  _ ← fail_if (zlen buf <? HEADER_BYTES_MAX - 100);
  '(h, pos) ← of_option (ac_block_header_decode buf);
  _ ← fail_if (AC_BLOCK_MAX_TXS <? h_tx_count h);
  '(l, pos) ← block_decode_txs (Z.to_nat (h_tx_count h)) buf pos;
  left ← bytes_left (length buf) pos;
  _ ← fail_if (left <? 4)%nat;
  '(s, c) ← of_option (commit_reader (mkR buf pos false));
  _ ← fail_if (r_err c);
  OK (mkBlock h l s, r_pos c).

Definition ac_block_free (k : ac_block_t) : ac_block_t := mkBlock (header k) [] [].

(** ** The wire format, as byte strings *)

Definition tx_chunks (t : ac_tx_t) : list (list byte) :=
  [[byte_of (tx_version t)]; ac_be64 (tx_chain_id t); [byte_of (tx_kind t)]; b (tx_sender t);
   ac_be64 (tx_nonce t); ac_be32 (tx_gas_limit t); ac_be64 (tx_tip t);
   ac_be64 (tx_valid_until t); ac_be32 (zlen (tx_body t)); tx_body t;
   ac_be32 (zlen (tx_memo t)); tx_memo t].
Definition tx_bytes (t : ac_tx_t) : list byte := concat (tx_chunks t ++ [b (tx_sig t)]).
Definition tx_size (t : ac_tx_t) : nat := 142 + length (tx_body t) + length (tx_memo t).

Definition header_chunks (h : ac_block_header_t) : list (list byte) :=
  [[byte_of (h_version h)]; ac_be64 (h_height h); ac_be64 (h_slot h); b (h_parent_hash h);
   ac_be64 (h_timestamp_ms h); b (h_proposer h); b (h_proposer_vrf_proof h);
   b (h_state_root h); b (h_tx_root h); ac_be64 (h_base_fee h); ac_be64 (h_gas_used h);
   ac_be64 (h_gas_limit h); ac_be32 (h_tx_count h)].
Definition header_bytes (h : ac_block_header_t) : list byte := concat (header_chunks h).

Definition signer_bytes (s : ac_commit_signer_t) : list byte :=
  concat [b (cs_signer s); b (cs_sig s); b (cs_vrf_proof s)].
Definition block_bytes (k : ac_block_t) : list byte :=
  header_bytes (header k) ++ concat (map tx_bytes (txs k)) ++
  ac_be32 (zlen (signers k)) ++ concat (map signer_bytes (signers k)).

Arguments tx_bytes : simpl never.
Arguments header_bytes : simpl never.
Arguments signer_bytes : simpl never.

Lemma tx_bytes_length t : length (tx_bytes t) = tx_size t.
Proof. unfold tx_bytes, tx_size. cbn [tx_chunks app concat]. len. Qed.
Lemma header_bytes_length h : length (header_bytes h) = 245%nat.
Proof. unfold header_bytes. cbn [header_chunks concat]. len. Qed.
Lemma signer_bytes_length s : length (signer_bytes s) = SIGNER_BYTES.
Proof. unfold signer_bytes, SIGNER_BYTES. cbn [concat]. len. Qed.
#[export] Hint Rewrite tx_bytes_length header_bytes_length signer_bytes_length : len.

Lemma tx_size_max t : tx_wf t → (tx_size t <= 1166)%nat.
Proof. intros []. unfold tx_size. lia. Qed.

Lemma fits_ok cap l : zlen l <= cap → fits cap l = Some l.
Proof. intros H. unfold fits. by rewrite (proj2 (Z.leb_le _ _) H). Qed.

(** ** Encoders write the wire format *)

Lemma ac_tx_encode_spec cap t : 0 <= cap → ac_tx_encode cap t = fits cap (tx_bytes t).
Proof. intros. by apply (wput_chunks (tx_chunks t ++ [b (tx_sig t)]) []). Qed.

Lemma ac_tx_signable_spec cap t : 0 <= cap →
  ac_tx_signable_bytes cap t = fits cap (TX_DOMAIN ++ concat (tx_chunks t)).
Proof. intros. by apply (wput_chunks (TX_DOMAIN :: tx_chunks t) []). Qed.

Lemma ac_header_encode_spec cap h : 0 <= cap →
  ac_block_header_encode cap h = fits cap (header_bytes h).
Proof. intros. by apply (wput_chunks (header_chunks h) []). Qed.

Lemma ac_body_transfer_encode_spec cap x : 0 <= cap →
  ac_body_transfer_encode cap x = fits cap (concat [b (recipient x); ac_be64 (transfer_amount x)]).
Proof. intros. by apply (wput_chunks [b (recipient x); ac_be64 (transfer_amount x)] []). Qed.

Definition slash_chunks (x : ac_body_slash_t) : list (list byte) :=
  [b (slash_validator x); ac_be64 (slash_height x); b (block_hash_a x);
   b (sig_a x); b (block_hash_b x); b (sig_b x)].
Lemma ac_body_slash_encode_spec cap x : 0 <= cap →
  ac_body_slash_encode cap x = fits cap (concat (slash_chunks x)).
Proof. intros. by apply (wput_chunks (slash_chunks x) []). Qed.

(** ** Decoders read it back *)

Lemma run_exact_reads {A} (m : reader A) bs a : reads m bs a → run_exact m bs = Some a.
Proof. intros H. unfold run_exact. rewrite (reads_run _ _ _ H). simpl. by rewrite Nat.eqb_refl. Qed.

Lemma run_exact_consumes {A} (m : reader A) R bs a :
  consumes m R → run_exact m bs = Some a → R a bs.
Proof.
  intros H E. unfold run_exact in E. destruct (m (rcur_new bs)) as [[x c]|] eqn:Em; [|done].
  destruct (r_err c) eqn:He; [done|]. destruct (Nat.eqb_spec (r_pos c) (length bs)); [|done].
  simplify_eq/=. by eapply consumes_run.
Qed.

Ltac consumes_walk :=
  repeat (eapply consumes_bind; [solve [eauto with codec] | intros ?]); apply consumes_ret.
(** Opens the conjunctions and existentials [consumes_walk] leaves. *)
Ltac opened :=
  repeat match goal with
  | H : ∃ _, _ |- _ => destruct H
  | H : _ ∧ _ |- _ => destruct H
  end; subst.

Lemma is_u32_small n : Z.of_nat n <= 1000000 → is_u32 (Z.of_nat n).
Proof. widths. lia. Qed.

Lemma reads_tx t : tx_wf t → reads tx_reader (tx_bytes t) t.
Proof.
  intros [H1 H2 H3 H4 H5 H6 H7 Hb Hm]. destruct t as [v ci k s n g tp vu body memo sg]; simpl in *.
  unfold tx_reader, tx_bytes, tx_chunks.
  cbn [app tx_version tx_chain_id tx_kind tx_sender
    tx_nonce tx_gas_limit tx_tip tx_valid_until tx_body tx_memo tx_sig].
  do 8 (eapply reads_chunk; [solve [eauto with codec]|]).
  eapply reads_chunk; [apply reads_u32, is_u32_small; lia|].
  apply reads_guard_bind; [by apply Z.ltb_ge|]. rewrite Nat2Z.id.
  eapply reads_chunk; [by apply reads_rget|].
  eapply reads_chunk; [apply reads_u32, is_u32_small; lia|].
  apply reads_guard_bind; [by apply Z.ltb_ge|]. rewrite Nat2Z.id.
  eapply reads_chunk; [by apply reads_rget|]. reads_walk.
Qed.

Lemma len_prefix n (l : list byte) k :
  length l = Z.to_nat n → is_u32 n → (k <? n) = false → n = zlen l ∧ zlen l <= k.
Proof. intros Hl Hn Hk%Z.ltb_ge. widths. lia. Qed.

Lemma consumes_tx : consumes tx_reader (λ t bs, bs = tx_bytes t ∧ tx_wf t).
Proof.
  eapply consumes_impl; [unfold tx_reader; consumes_walk|].
  cbv beta. intros t bs H. opened.
  repeat match goal with
  | H1 : length _ = Z.to_nat ?n, H2 : is_u32 ?n, H3 : (_ <? ?n) = false |- _ =>
      destruct (len_prefix _ _ _ H1 H2 H3); clear H1 H3; subst
  end.
  split; [done | by constructor].
Qed.

Lemma reads_header h : header_wf h → reads header_reader (header_bytes h) h.
Proof.
  intros []. destruct h; simpl in *. unfold header_reader, header_bytes, header_chunks. reads_walk.
Qed.
Lemma consumes_header : consumes header_reader (λ h bs, bs = header_bytes h ∧ header_wf h).
Proof.
  eapply consumes_impl; [unfold header_reader; consumes_walk|].
  cbv beta. intros t bs H. opened. split; [done | by constructor].
Qed.

Lemma reads_transfer x : is_u64 (transfer_amount x) →
  reads transfer_reader (concat [b (recipient x); ac_be64 (transfer_amount x)]) x.
Proof.
  intros. destruct x; cbn [recipient transfer_amount] in *. unfold transfer_reader. reads_walk.
Qed.

Lemma reads_slash x : is_u64 (slash_height x) →
  reads slash_reader (concat (slash_chunks x)) x.
Proof.
  intros. destruct x. unfold slash_chunks. cbn [slash_validator slash_height block_hash_a sig_a block_hash_b sig_b] in *.
  unfold slash_reader. reads_walk.
Qed.

Lemma reads_signer s : reads signer_reader (signer_bytes s) s.
Proof. destruct s. unfold signer_reader, signer_bytes. reads_walk. Qed.
Lemma consumes_signer : consumes signer_reader (λ s bs, bs = signer_bytes s).
Proof.
  eapply consumes_impl; [unfold signer_reader; consumes_walk|]. cbv beta. intros. by opened.
Qed.
#[export] Hint Resolve reads_tx reads_header reads_signer consumes_tx consumes_header
  consumes_signer : codec.

Lemma reads_signers l : reads (signers_reader (length l)) (concat (map signer_bytes l)) l.
Proof.
  induction l as [|s l IH]; simpl; [apply reads_ret|].
  eapply reads_bind; [apply reads_signer|]. rewrite <- (app_nil_r (concat _)).
  eapply reads_bind; [apply IH | apply reads_ret].
Qed.
Lemma consumes_signers n :
  consumes (signers_reader n) (λ l bs, bs = concat (map signer_bytes l) ∧ length l = n).
Proof.
  induction n as [|n IH]; simpl.
  - eapply consumes_impl; [apply consumes_ret|]. intros ? ? [-> ->]. done.
  - eapply consumes_impl.
    + eapply consumes_bind; [apply consumes_signer|]. intros s.
      eapply consumes_bind; [apply IH|]. intros l. apply consumes_ret.
    + cbv beta. intros. opened. simpl. by rewrite app_nil_r.
Qed.

Lemma reads_commit l : zlen l <= AC_COMMITTEE_MAX →
  reads commit_reader (ac_be32 (zlen l) ++ concat (map signer_bytes l)) l.
Proof.
  intros H. eapply reads_bind; [apply reads_u32, is_u32_small; lia|].
  apply reads_guard_bind; [by apply Z.ltb_ge|]. rewrite Nat2Z.id. apply reads_signers.
Qed.
Lemma consumes_commit : consumes commit_reader
  (λ l bs, bs = ac_be32 (zlen l) ++ concat (map signer_bytes l) ∧ zlen l <= AC_COMMITTEE_MAX).
Proof.
  eapply consumes_impl.
  - eapply consumes_bind; [apply consumes_u32|]. intros n.
    eapply consumes_bind; [apply consumes_guard|]. intros ?. apply consumes_signers.
  - cbv beta. intros l bs H. opened. rename select ((_ <? _) = false) into Hle. apply Z.ltb_ge in Hle.
    rename select (is_u32 _) into Hu. rename select (length l = _) into Hl.
    assert (x = zlen l) by (widths; lia). subst x. done.
Qed.

(** ** Blocks *)

Lemma read_at_mid p m s buf pos n :
  buf = p ++ m ++ s → pos = length p → n = length m → read_at buf pos n = OK m.
Proof. intros -> -> ->. rewrite read_at_safe by len. by rewrite slice_app_mid. Qed.

Lemma read_at_ok buf p n l : read_at buf p n = OK l → l = slice buf p n ∧ (p + n <= length buf)%nat.
Proof. unfold read_at. destruct (Nat.leb_spec (p + n) (length buf)); [|done]. by intros [= <-]. Qed.

Lemma ac_tx_decode_bytes t : tx_wf t → ac_tx_decode (tx_bytes t) = Some t.
Proof.
  intros H. unfold ac_tx_decode. pose proof (tx_size_max t H).
  rewrite (proj2 (Z.ltb_ge _ _)) by len. auto using run_exact_reads with codec.
Qed.

Lemma ac_tx_decode_inv buf t : ac_tx_decode buf = Some t → buf = tx_bytes t ∧ tx_wf t.
Proof.
  unfold ac_tx_decode. destruct (_ <? _); [done|].
  apply (run_exact_consumes _ _ _ _ consumes_tx).
Qed.

Lemma ac_header_decode_bytes h suf : header_wf h →
  ac_block_header_decode (header_bytes h ++ suf) = Some (h, 245%nat).
Proof.
  intros H. unfold ac_block_header_decode, rcur_new.
  pose proof (reads_header h H [] suf) as E.
  rewrite app_nil_l, header_bytes_length in E. change (length []) with 0%nat in E.
  by rewrite E.
Qed.

Lemma ac_header_decode_inv buf h n : ac_block_header_decode buf = Some (h, n) →
  n = 245%nat ∧ (245 <= length buf)%nat ∧ header_wf h ∧ slice buf 0 245 = header_bytes h.
Proof.
  unfold ac_block_header_decode. destruct (header_reader _) as [[x c]|] eqn:E; [|done].
  destruct (r_err c) eqn:He; [done|]. intros [= -> <-].
  destruct (consumes_header _ _ _ E He) as (bs & [-> Hwf] & _ & _ & Hp & Hl & Hs).
  rewrite header_bytes_length in *. simpl in *. rewrite Hp in *.
  destruct Hl as [Hl|Hl]; [|apply (f_equal length) in Hl; by rewrite header_bytes_length in Hl].
  auto.
Qed.

Lemma of_option_ok {A} (m : option A) x : of_option m = OK x → m = Some x.
Proof. destruct m; simpl; congruence. Qed.

Ltac step_outcome :=
  match goal with
  | |- safe (OK _) => done
  | |- safe ERR => done
  | |- safe (fail_if ?c ≫= _) => let E := fresh "E" in destruct c eqn:E; simpl; [done|]
  | |- safe (of_option ?m ≫= _) => let E := fresh "E" in destruct m eqn:E; simpl; [|done]
  end.

Lemma block_decode_tx_safe buf p : (p <= length buf)%nat → safe (block_decode_tx buf p).
Proof.
  intros Hp. unfold block_decode_tx, bytes_left. rewrite (proj2 (Nat.leb_le _ _) Hp). simpl.
  step_outcome. apply Nat.ltb_ge in E. rewrite read_at_safe by lia. simpl.
  step_outcome. step_outcome. apply Nat.ltb_ge in E1.
  rewrite read_at_safe by lia. simpl.
  step_outcome. step_outcome. apply Nat.ltb_ge in E3.
  rewrite read_at_safe by lia. simpl. by step_outcome.
Qed.

(** What the loop body accepts is the encoding of the transaction it returns. *)
Lemma block_decode_tx_inv buf p t p' : block_decode_tx buf p = OK (t, p') →
  p' = (p + tx_size t)%nat ∧ (p' <= length buf)%nat ∧ tx_wf t ∧
  slice buf p (tx_size t) = tx_bytes t.
Proof.
  unfold block_decode_tx. intros H. repeat open_run H. injection H as <- <-.
  rename select (read_at buf p _ = OK _) into Hw. apply read_at_ok in Hw as [Hw Hle].
  rename select (of_option _ = OK _) into Ht. apply of_option_ok in Ht.
  apply ac_tx_decode_inv in Ht as [Ht Hwf]. rewrite Hw in Ht.
  pose proof (f_equal length Ht) as Hn. rewrite slice_length, tx_bytes_length in Hn by lia.
  rewrite <- Hn. auto.
Qed.

Lemma block_decode_txs_inv n buf p l p' : block_decode_txs n buf p = OK (l, p') →
  (p <= length buf)%nat →
  length l = n ∧ Forall tx_wf l ∧ (p' <= length buf)%nat ∧
  p' = (p + length (concat (map tx_bytes l)))%nat ∧
  slice buf p (length (concat (map tx_bytes l))) = concat (map tx_bytes l).
Proof.
  revert p l p'. induction n as [|n IH]; intros p l p'; cbn [block_decode_txs].
  - intros [= <- <-] Hp. simpl. rewrite Nat.add_0_r. auto.
  - intros H Hp. open_run H. destruct x as [t p1]. open_run H. destruct x as [l1 p2].
    injection H as <- <-. apply block_decode_tx_inv in E as (-> & Hle & Hwf & Hs).
    apply IH in E0 as (<- & Hwfs & Hle' & -> & Hs'); [|done]. cbn [map concat length].
    rewrite length_app, tx_bytes_length, slice_split, Hs, Hs'. repeat split; auto; lia.
Qed.

Lemma block_decode_txs_safe n buf p :
  (p <= length buf)%nat → safe (block_decode_txs n buf p).
Proof.
  revert p. induction n as [|n IH]; intros p Hp; cbn [block_decode_txs]; [done|].
  apply safe_bind; [by apply block_decode_tx_safe|]. intros [t p1] E.
  apply block_decode_tx_inv in E as (_ & Hle & _).
  apply safe_bind; [by apply IH|]. by intros [l p2] _.
Qed.

(** No byte outside the buffer is read, whatever the buffer holds. *)
Lemma ac_block_decode_no_oob buf : safe (ac_block_decode buf).
Proof.
  unfold ac_block_decode. apply safe_bind; [by destruct (_ <? _)|]. intros _ _.
  apply safe_bind; [by destruct (ac_block_header_decode _)|]. intros [h n] E.
  apply of_option_ok, ac_header_decode_inv in E as (-> & Hle & _).
  apply safe_bind; [by destruct (_ <? _)|]. intros _ _.
  apply safe_bind; [by apply block_decode_txs_safe|]. intros [l p] E.
  apply block_decode_txs_inv in E as (_ & _ & Hp & _); [|done].
  unfold bytes_left. rewrite (proj2 (Nat.leb_le _ _) Hp). simpl.
  step_outcome. destruct (commit_reader _) as [[s c]|]; simpl; [|done]. by step_outcome.
Qed.

(** What is accepted is a well-formed block, and the bytes consumed are its
    encoding. *)
Lemma ac_block_decode_inv buf k n : ac_block_decode buf = OK (k, n) →
  block_wf k ∧ (n <= length buf)%nat ∧ n = length (block_bytes k) ∧ slice buf 0 n = block_bytes k.
Proof.
  unfold ac_block_decode. intros H. open_run H. open_run H. destruct x0 as [h p].
  do 2 open_run H. destruct x1 as [l p1]. do 3 open_run H. destruct x3 as [s c]. open_run H.
  injection H as <- <-.
  apply of_option_ok, ac_header_decode_inv in E0 as (-> & Hh & Hwf & Hs).
  apply block_decode_txs_inv in E2 as (Hl & Hwfs & Hp1 & -> & Hs1); [|lia].
  apply of_option_ok in E5. destruct (consumes_commit _ _ _ E5 E6) as (bs & [-> Hm] & _ & _ & Hp & Hb & Hs2).
  cbn [r_pos r_buf] in *. apply Z.ltb_ge in E1.
  pose proof (wf_h_tx_count h Hwf) as Hc. 
  assert (length (block_bytes (mkBlock h l s)) = r_pos c) as Hlen.
  { unfold block_bytes. cbn [header txs signers]. rewrite Hp, length_app, header_bytes_length.
    rewrite (length_app (concat (map tx_bytes l))). lia. }
  split; [|split; [|split]].
  - constructor; cbn [header txs signers]; auto; widths; lia.
  - destruct Hb as [Hb|Hb]; [lia|]. apply (f_equal length) in Hb. len.
  - done.
  - rewrite Hp, !slice_split, Hs, !Nat.add_0_l, Hs1, Hs2. by rewrite <- app_assoc.
Qed.

Lemma block_decode_tx_bytes pre t suf : tx_wf t →
  block_decode_tx (pre ++ tx_bytes t ++ suf) (length pre) = OK (t, length pre + tx_size t)%nat.
Proof.
  intros Hwf. pose proof (wf_tx_body t Hwf) as Hb. pose proof (wf_tx_memo t Hwf) as Hm.
  pose proof (tx_bytes_length t) as Hlen. unfold tx_size in Hlen.
  set (f := concat (take 8 (tx_chunks t))). assert (length f = 70%nat) as Hf by (unfold f; simpl; len).
  assert (tx_bytes t = f ++ ac_be32 (zlen (tx_body t)) ++ tx_body t ++
    ac_be32 (zlen (tx_memo t)) ++ tx_memo t ++ b (tx_sig t)) as Ht.
  { unfold tx_bytes, f, tx_chunks. cbn [take app concat]. rewrite <- !app_assoc. cbn [app].
    by rewrite <- !app_assoc, !app_nil_r. }
  unfold block_decode_tx, bytes_left.
  rewrite (proj2 (Nat.leb_le _ _)) by len.
  set (rem := (_ - _)%nat).
  assert (rem = length (tx_bytes t) + length suf)%nat as Hrem by (unfold rem; len). clearbody rem.
  cbn [mbind outcome_bind].
  rewrite (proj2 (Nat.ltb_ge _ _)) by lia. cbn [fail_if mbind outcome_bind].
  rewrite (read_at_mid (pre ++ f) (ac_be32 (zlen (tx_body t))) (tx_body t ++
    ac_be32 (zlen (tx_memo t)) ++ tx_memo t ++ b (tx_sig t) ++ suf));
    [| rewrite Ht, <- !app_assoc; done | len | len].
  cbn [mbind outcome_bind]. rewrite ac_rd32_be32. unfold u32. rewrite Z.mod_small by (apply is_u32_small; lia).
  rewrite (proj2 (Z.ltb_ge _ _)) by lia. cbn [fail_if mbind outcome_bind]. rewrite Nat2Z.id.
  rewrite (proj2 (Nat.ltb_ge _ _)) by lia. cbn [fail_if mbind outcome_bind].
  rewrite (read_at_mid (pre ++ f ++ ac_be32 (zlen (tx_body t)) ++ tx_body t)
    (ac_be32 (zlen (tx_memo t))) (tx_memo t ++ b (tx_sig t) ++ suf));
    [| rewrite Ht, <- !app_assoc; done | len | len].
  cbn [mbind outcome_bind]. rewrite ac_rd32_be32. unfold u32. rewrite Z.mod_small by (apply is_u32_small; lia).
  rewrite (proj2 (Z.ltb_ge _ _)) by lia. cbn [fail_if mbind outcome_bind]. rewrite Nat2Z.id.
  rewrite (proj2 (Nat.ltb_ge _ _)) by lia. cbn [fail_if mbind outcome_bind].
  rewrite (read_at_mid pre (tx_bytes t) suf) by (done || lia).
  cbn [mbind outcome_bind]. rewrite ac_tx_decode_bytes by done. cbn [of_option mbind outcome_bind].
  unfold tx_size. do 2 f_equal. lia.
Qed.

Lemma block_decode_txs_bytes pre l suf : Forall tx_wf l →
  block_decode_txs (length l) (pre ++ concat (map tx_bytes l) ++ suf) (length pre) =
  OK (l, length pre + length (concat (map tx_bytes l)))%nat.
Proof.
  intros Hwf. revert pre. induction Hwf as [|t l Ht Hl IH]; intros pre; cbn [length map concat block_decode_txs].
  - by rewrite Nat.add_0_r.
  - rewrite <- app_assoc, (block_decode_tx_bytes pre t) by done. cbn [mbind outcome_bind].
    specialize (IH (pre ++ tx_bytes t)). rewrite <- app_assoc, length_app, tx_bytes_length in IH.
    rewrite IH. cbn [mbind outcome_bind]. do 2 f_equal. len.
Qed.

Lemma ac_block_decode_bytes k suf : block_wf k →
  ac_block_decode (block_bytes k ++ suf) = OK (k, length (block_bytes k)).
Proof.
  intros [Hh Hl Hc Hm Hs]. destruct k as [h l s]; cbn [header txs signers] in *.
  unfold ac_block_decode, block_bytes. cbn [header txs signers]. rewrite <- !app_assoc.
  rewrite (proj2 (Z.ltb_ge _ _)) by len. cbn [fail_if mbind outcome_bind].
  rewrite ac_header_decode_bytes by done. cbn [of_option mbind outcome_bind].
  rewrite (proj2 (Z.ltb_ge _ _)) by lia. cbn [fail_if mbind outcome_bind].
  rewrite Hc, Nat2Z.id, <- (header_bytes_length h), block_decode_txs_bytes by done.
  cbn [mbind outcome_bind]. unfold bytes_left. rewrite (proj2 (Nat.leb_le _ _)) by len.
  cbn [mbind outcome_bind]. rewrite (proj2 (Nat.ltb_ge _ _)) by len. cbn [fail_if mbind outcome_bind].
  pose proof (reads_commit s Hs (header_bytes h ++ concat (map tx_bytes l)) suf) as E.
  rewrite <- !app_assoc, (length_app (header_bytes h)) in E. rewrite E.
  cbn [of_option mbind outcome_bind r_err r_pos fail_if]. do 2 f_equal.
  rewrite !length_app. lia.
Qed.

(** ** Encoding a block never runs out of its buffer *)

Lemma wput_txs_spec l out cap : Forall tx_wf l →
  zlen out + zlen l * AC_TX_MAX_BYTES <= cap →
  wput_txs (mkW out cap false) l = Some (mkW (out ++ concat (map tx_bytes l)) cap false).
Proof.
  intros Hwf. revert out. induction Hwf as [|t l Ht Hl IH]; intros out Hcap; cbn [wput_txs map concat].
  - by rewrite app_nil_r.
  - cbn [length] in Hcap. pose proof (tx_size_max t Ht) as Hsz. unfold wput_tx. cbn [w_cap w_out w_err].
    rewrite ac_tx_encode_spec, fits_ok by len. simpl.
    rewrite IH by len. by rewrite <- app_assoc.
Qed.

Definition signer_chunks (s : ac_commit_signer_t) : list (list byte) :=
  [b (cs_signer s); b (cs_sig s); b (cs_vrf_proof s)].

Lemma wput_signers c l : foldl wput_signer c l = foldl wput c (l ≫= signer_chunks).
Proof. revert c. induction l as [|s l IH]; intros c; [done|]. cbn [foldl]. by rewrite IH. Qed.

Lemma concat_signers l : concat (l ≫= signer_chunks) = concat (map signer_bytes l).
Proof.
  induction l as [|s l IH]; [done|]. rewrite bind_cons, concat_app, IH. done.
Qed.

Lemma concat_tx_bytes_max l : Forall tx_wf l →
  (length (concat (map tx_bytes l)) <= length l * 1166)%nat.
Proof.
  induction 1 as [|t l Ht Hl IH]; cbn [map concat]; [done|]. pose proof (tx_size_max t Ht). len.
Qed.
Lemma concat_signer_bytes_length l :
  length (concat (map signer_bytes l)) = (length l * SIGNER_BYTES)%nat.
Proof. induction l as [|s l IH]; [done|]. cbn [map concat]. rewrite length_app, IH. len. Qed.

Lemma ac_block_encode_bytes k : block_wf k → ac_block_encode k = Some (block_bytes k).
Proof.
  intros [_ Hl _ _ _]. unfold ac_block_encode, block_upper.
  pose proof (concat_tx_bytes_max _ Hl). pose proof (concat_signer_bytes_length (signers k)).
  pose proof (header_bytes_length (header k)). unfold SIGNER_BYTES in *.
  rewrite ac_header_encode_spec, fits_ok by lia. cbn [mbind option_bind].
  rewrite wput_txs_spec by (done || lia). cbn [mbind option_bind].
  rewrite wput_signers. set (out := header_bytes _ ++ _).
  change (foldl wput (wput_u32 ?c ?v) ?l) with (foldl wput c (ac_be32 v :: l)).
  rewrite wput_chunks by (unfold out; len). unfold block_bytes, out. cbn [concat].
  rewrite concat_signers, fits_ok by len. by rewrite <- app_assoc.
Qed.

(** ** Signable bytes *)

Definition with_sig (t : ac_tx_t) (s : ac_sig_t) : ac_tx_t :=
  mkTx (tx_version t) (tx_chain_id t) (tx_kind t) (tx_sender t) (tx_nonce t) (tx_gas_limit t)
       (tx_tip t) (tx_valid_until t) (tx_body t) (tx_memo t) s.

Lemma with_sig_wf t s : tx_wf t → tx_wf (with_sig t s).
Proof. by intros []; constructor. Qed.
Lemma with_sig_bytes t s : tx_bytes (with_sig t s) = concat (tx_chunks t) ++ b s.
Proof. unfold tx_bytes. rewrite concat_app. cbn [concat]. by rewrite app_nil_r. Qed.

Lemma signable_length t :
  length (TX_DOMAIN ++ concat (tx_chunks t)) = (88 + length (tx_body t) + length (tx_memo t))%nat.
Proof.
  assert (length (concat (tx_chunks t)) + 64 = tx_size t)%nat as E.
  { rewrite <- (tx_bytes_length t). unfold tx_bytes. rewrite concat_app, length_app. cbn [concat]. len. }
  rewrite length_app. unfold tx_size in E. change (length TX_DOMAIN) with 10%nat. lia.
Qed.

Lemma signable_total t : tx_wf t →
  ac_tx_signable_bytes AC_TX_MAX_BYTES t = Some (TX_DOMAIN ++ concat (tx_chunks t)).
Proof.
  intros H. rewrite ac_tx_signable_spec, fits_ok; [done| |done].
  rewrite signable_length. destruct H. lia.
Qed.

Lemma tx_chunks_inj t u : tx_wf t → tx_wf u →
  concat (tx_chunks t) = concat (tx_chunks u) → with_sig t (tx_sig u) = u.
Proof.
  intros Ht Hu E. set (s := tx_sig u).
  pose proof (ac_tx_decode_bytes (with_sig t s) (with_sig_wf t s Ht)) as H1.
  pose proof (ac_tx_decode_bytes (with_sig u s) (with_sig_wf u s Hu)) as H2.
  rewrite with_sig_bytes in H1, H2. rewrite E, H2 in H1. injection H1 as H1.
  destruct u. unfold with_sig, s in *. simpl in *. congruence.
Qed.

Section CodecProperties.
Context `{!Sodium} `{!SodiumLaws _}.

Lemma ac_tx_hash_eq t : tx_wf t → ac_tx_hash t = ac_hash (TX_DOMAIN ++ concat (tx_chunks t)).
Proof. intros Ht. unfold ac_tx_hash. by rewrite signable_total. Qed.

Lemma ac_block_hash_eq h :
  ac_block_hash h = ac_hash (BLOCK_DOMAIN ++ header_bytes h).
Proof.
  unfold ac_block_hash. rewrite ac_header_encode_spec, fits_ok by (len || done).
  rewrite ac_hash_multi_concat. simpl. by rewrite app_nil_r.
Qed.

Lemma ac_tx_sign_spec seed t :
  tx_wf t → tx_sender t = pk (ac_keypair_from_seed seed) →
  ∃ t', ac_tx_sign t (ac_keypair_from_seed seed) = Some t' ∧ ac_tx_verify t' = true ∧
        t = with_sig t' (tx_sig t) ∧ ac_tx_hash t' = ac_tx_hash t ∧ tx_wf t'.
Proof.
  intros Ht Hs. unfold ac_tx_sign. rewrite signable_total by done.
  eexists; split; [done|]. fold (with_sig t (ac_sign (b (ac_hash (TX_DOMAIN ++ concat (tx_chunks t))))
                                    (ac_keypair_from_seed seed))).
  set (s := ac_sign _ _). pose proof (with_sig_wf t s Ht) as Hw.
  unfold ac_tx_verify, ac_tx_hash. rewrite !signable_total by done.
  cbn [with_sig tx_sig tx_sender]. rewrite Hs. split; [apply ac_verify_sign|].
  split; [by destruct t | done].
Qed.

(** Signing a transaction whose sender is the signing key always succeeds, changes
    nothing but the signature (so the transaction hash is unchanged) and yields a
    transaction that verifies. *)
Theorem ac_tx_sign_verifies seed t :
  tx_wf t → tx_sender t = pk (ac_keypair_from_seed seed) →
  ∃ t', ac_tx_sign t (ac_keypair_from_seed seed) = Some t' ∧ ac_tx_verify t' = true ∧
        t = with_sig t' (tx_sig t) ∧ ac_tx_hash t' = ac_tx_hash t.
Proof.
  intros Ht Hs. destruct (ac_tx_sign_spec seed t Ht Hs) as (t' & H1 & H2 & H3 & H4 & _). by exists t'.
Qed.
End CodecProperties.

(** ** Properties *)

(** Every transaction the struct can hold encodes within AC_TX_MAX_BYTES and decodes
    back to itself. *)
Theorem tx_encode_decode t :
  tx_wf t → ∃ bs, ac_tx_encode AC_TX_MAX_BYTES t = Some bs ∧ ac_tx_decode bs = Some t.
Proof.
  intros H. exists (tx_bytes t). split; [|by apply ac_tx_decode_bytes].
  pose proof (tx_size_max t H). rewrite ac_tx_encode_spec by done. apply fits_ok. len.
Qed.

(** The encoding is canonical: whatever buffer is accepted is exactly the encoding of
    the transaction returned, so two different buffers never decode to the same one. *)
Theorem tx_decode_canonical buf t :
  ac_tx_decode buf = Some t → tx_wf t ∧ ac_tx_encode AC_TX_MAX_BYTES t = Some buf.
Proof.
  intros H. pose proof (ac_tx_decode_inv _ _ H) as [-> Hwf]. split; [done|].
  pose proof (tx_size_max t Hwf). rewrite ac_tx_encode_spec by done. apply fits_ok. len.
Qed.

(** The signable bytes always fit the 2048-byte buffer of the signer, and they
    determine every field but the signature: no two different transactions share them. *)
Theorem tx_signable_injective t u :
  tx_wf t → tx_wf u →
  is_Some (ac_tx_signable_bytes AC_TX_MAX_BYTES t) ∧
  (ac_tx_signable_bytes AC_TX_MAX_BYTES t = ac_tx_signable_bytes AC_TX_MAX_BYTES u →
   with_sig t (tx_sig u) = u).
Proof.
  intros Ht Hu. rewrite !signable_total by done. split; [eauto|].
  intros E. apply (inj Some), (inj (app TX_DOMAIN)) in E. by apply tx_chunks_inj.
Qed.

(** C36. A well-formed block always encodes (the computed upper bound is large enough), and
    decoding the encoding, followed by anything, returns the block and its length. *)
Theorem block_encode_decode k suf :
  block_wf k →
  ∃ bs, ac_block_encode k = Some bs ∧ ac_block_decode (bs ++ suf) = OK (k, length bs).
Proof.
  intros H. exists (block_bytes k).
  split; [by apply ac_block_encode_bytes | by apply ac_block_decode_bytes].
Qed.

(** C37. Decoding arbitrary bytes never reads outside the buffer, through the hand-written
    peeks of the transaction loop included; an accepted block is well formed (counts within
    their limits, the header's count the length of the list) and the bytes consumed are its
    own encoding. *)
Theorem block_decode_safe_canonical buf :
  safe (ac_block_decode buf) ∧
  ∀ k n, ac_block_decode buf = OK (k, n) →
    block_wf k ∧ (n <= length buf)%nat ∧ ac_block_encode k = Some (take n buf).
Proof.
  split; [apply ac_block_decode_no_oob|]. intros k n H. apply ac_block_decode_inv in H as (Hwf & Hn & _ & E).
  split; [done|]. split; [done|]. rewrite ac_block_encode_bytes, <- E by done. unfold slice. by rewrite drop_0.
Qed.

Lemma name_valid_bounds n : ac_name_valid n = true → 1 <= zlen n <= 32.
Proof.
  unfold ac_name_valid. destruct ((_ <? _) || _) eqn:Hl; [done|].
  apply orb_false_iff in Hl as [H1%Z.ltb_ge H2%Z.ltb_ge]. lia.
Qed.

Lemma name_body_decode n :
  ac_name_valid n = true → ac_body_name_decode (byte_of (zlen n) :: n) = Some (mkBodyName n).
Proof.
  intros V. pose proof (name_valid_bounds n V). unfold ac_body_name_decode, at_. cbn [nth length].
  rewrite byte_val_of. unfold u8. rewrite Z.mod_small by (widths; lia).
  rewrite (proj2 (Z.ltb_ge _ _)), (proj2 (Z.eqb_neq _ _)), (proj2 (Z.ltb_ge _ _)) by lia. cbn [orb].
  rewrite (proj2 (Z.eqb_eq _ _)) by lia. cbn [negb]. unfold slice.
  rewrite Nat2Z.id. cbn [drop]. by rewrite firstn_all, drop_0, V.
Qed.

(** Each of the four body shapes encodes into a 512-byte body and decodes to itself;
    a name body exactly when the name is valid. *)
Theorem bodies_encode_decode :
  (∀ x, is_u64 (transfer_amount x) →
     ac_body_transfer_encode AC_TX_BODY_MAX x ≫= ac_body_transfer_decode = Some x) ∧
  (∀ x, is_u64 (stake_amount x) →
     ac_body_stake_encode AC_TX_BODY_MAX x ≫= ac_body_stake_decode = Some x) ∧
  (∀ x, ac_body_name_encode AC_TX_BODY_MAX x ≫= ac_body_name_decode =
     if ac_name_valid (body_name x) then Some x else None) ∧
  (∀ x, is_u64 (slash_height x) →
     ac_body_slash_encode AC_TX_BODY_MAX x ≫= ac_body_slash_decode = Some x).
Proof.
  split; [|split; [|split]].
  - intros x Hx. rewrite ac_body_transfer_encode_spec, fits_ok by (simpl; len).
    cbn [mbind option_bind]. by apply run_exact_reads, reads_transfer.
  - intros [v] Hx. unfold ac_body_stake_encode, ac_body_stake_decode. simpl.
    by rewrite ac_be64_length, ac_rd64_be64, u64_id.
  - intros [n]. unfold ac_body_name_encode. cbn [body_name].
    destruct (ac_name_valid n) eqn:V.
    + pose proof (name_valid_bounds n V).
      rewrite (proj2 (Z.eqb_neq _ _)), (proj2 (Z.ltb_ge _ _)), (proj2 (Z.ltb_ge _ _)) by lia. cbn [orb].
      by apply name_body_decode.
    + destruct ((_ =? _) || _) eqn:Hl; [done|]. destruct (512 <? _); [done|]. cbn [mbind option_bind].
      apply orb_false_iff in Hl as [H1%Z.eqb_neq H2%Z.ltb_ge].
      unfold ac_body_name_decode, at_. cbn [nth length]. rewrite byte_val_of. unfold u8.
      rewrite Z.mod_small by (widths; lia). unfold slice. rewrite Nat2Z.id. cbn [drop].
      rewrite firstn_all, drop_0, V. simpl. by repeat case_match.
  - intros x Hx. rewrite ac_body_slash_encode_spec, fits_ok by (simpl; len).
    cbn [mbind option_bind]. by apply run_exact_reads, reads_slash.
Qed.

Lemma app_prefix_ne (p q s t : list byte) : length p = length q → p ≠ q → p ++ s ≠ q ++ t.
Proof. intros Hl Hn E. apply Hn. by apply (app_inj_1 p q s t) in E as [-> _]. Qed.

(** A signature made for one purpose is never a signature for another: the messages
    signed for transactions (a 32-byte hash), for votes and for VRF proofs over a
    non-trivial input are pairwise different, and a vote message fixes the height and
    the block it is about. *)
Theorem signed_messages_separated (h1 h2 : Z) (x y z : ac_hash_t) (alpha : list byte) :
  is_u64 h1 → is_u64 h2 →
  (ac_vote_message h1 x = ac_vote_message h2 y → h1 = h2 ∧ x = y) ∧
  ac_vote_message h1 x ≠ b z ∧
  ac_vote_message h1 x ≠ VRF_DOMAIN ++ alpha ∧
  (zlen alpha ≠ 21 → VRF_DOMAIN ++ alpha ≠ b z).
Proof.
  intros H1 H2. unfold ac_vote_message. split; [|split; [|split]].
  - intros E%(inj (app VOTE_DOMAIN)). apply app_inj_1 in E as [E1 E2]; [|len].
    split; [by apply ac_be64_inj | by apply bytes_eq].
  - intros E%(f_equal length). len.
  - change VOTE_DOMAIN with (take 11 VOTE_DOMAIN ++ drop 11 VOTE_DOMAIN). rewrite <- app_assoc.
    apply app_prefix_ne; [done|]. by vm_compute.
  - intros Ha E%(f_equal length). rewrite length_app, b_length in E.
    change (length VRF_DOMAIN) with 11%nat in E. lia.
Qed.

(** ** Witnesses *)

Definition addr_of (n : Z) : ac_addr_t := bytes_of 32 (repeat (byte_of n) 32).
Definition hash_of (n : Z) : ac_hash_t := bytes_of 32 (repeat (byte_of n) 32).
Definition sig_of (n : Z) : ac_sig_t := bytes_of 64 (repeat (byte_of n) 64).

Definition sample_tx : ac_tx_t :=
  mkTx 1 7 AC_TX_TRANSFER (addr_of 1) 0 30 2 1000
       (b (addr_of 2) ++ ac_be64 500) (str "hi") (sig_of 9).
Definition sample_header : ac_block_header_t :=
  mkHeader 1 1 5 (hash_of 3) 10000 (addr_of 1) (sig_of 4) (hash_of 5) (hash_of 6) 1 23
           AC_BLOCK_GAS_LIMIT 1.
Definition sample_block : ac_block_t :=
  mkBlock sample_header [sample_tx] [mkSigner (addr_of 1) (sig_of 7) (sig_of 8)].

(** Closes decidable well-formedness goals on concrete data. *)
Ltac wf_compute :=
  repeat match goal with
  | |- tx_wf _ => constructor
  | |- header_wf _ => constructor
  | |- block_wf _ => constructor
  | |- Forall _ (_ :: _) => constructor
  | |- Forall _ [] => constructor
  end; vm_compute; intuition congruence.

Lemma sample_tx_wf : tx_wf sample_tx.
Proof. wf_compute. Qed.
Lemma sample_block_wf : block_wf sample_block.
Proof. constructor; [wf_compute | constructor; [apply sample_tx_wf | constructor] | done | by vm_compute | by vm_compute]. Qed.

Lemma tx_encode_decode_witness :
  ∃ bs, ac_tx_encode AC_TX_MAX_BYTES sample_tx = Some bs ∧ ac_tx_decode bs = Some sample_tx.
Proof. apply tx_encode_decode, sample_tx_wf. Defined.

Lemma tx_decode_canonical_witness :
  tx_wf sample_tx ∧ ac_tx_encode AC_TX_MAX_BYTES sample_tx = Some (tx_bytes sample_tx).
Proof. apply tx_decode_canonical. vm_compute. reflexivity. Defined.

Lemma tx_signable_injective_witness :
  with_sig sample_tx (tx_sig (with_sig sample_tx (sig_of 3))) = with_sig sample_tx (sig_of 3).
Proof.
  apply tx_signable_injective; [apply sample_tx_wf | apply with_sig_wf, sample_tx_wf | reflexivity].
Defined.

Lemma block_encode_decode_witness :
  ∃ bs, ac_block_encode sample_block = Some bs ∧
        ac_block_decode (bs ++ [x00]) = OK (sample_block, length bs).
Proof. apply block_encode_decode, sample_block_wf. Defined.

Lemma block_decode_safe_canonical_witness :
  block_wf sample_block ∧ (593 <= length (block_bytes sample_block))%nat ∧
  ac_block_encode sample_block = Some (take 593 (block_bytes sample_block)).
Proof. apply (block_decode_safe_canonical (block_bytes sample_block)). vm_compute. reflexivity. Defined.

Lemma signed_messages_separated_witness :
  ac_vote_message 5 (hash_of 1) ≠ b (hash_of 2).
Proof.
  apply (signed_messages_separated 5 6 (hash_of 1) (hash_of 1) (hash_of 2) []); vm_compute; intuition congruence.
Defined.

Lemma ac_tx_sign_verifies_witness :
  let seed := addr_of 1 in
  ∃ t', @ac_tx_sign toy_sodium sample_tx (@ac_keypair_from_seed toy_sodium seed) = Some t' ∧
        @ac_tx_verify toy_sodium t' = true ∧ sample_tx = with_sig t' (tx_sig sample_tx) ∧
        @ac_tx_hash toy_sodium t' = @ac_tx_hash toy_sodium sample_tx.
Proof. apply (@ac_tx_sign_verifies toy_sodium _); [apply sample_tx_wf | reflexivity]. Defined.
