(* ===== verification/SortedArray.v ===== *)
(** * Sorted dynamic arrays

    The accounts and the names of state.c are arrays kept sorted by a key,
    searched by bisection and edited with memmove. This file models those
    loops once, for any key with a three-way comparison that satisfies
    [CmpLaws], and proves that they implement a finite map: the array is the
    sorted listing of [to_map], and searching, inserting, replacing and
    removing are [lookup], [insert] and [delete]. *)

From S2P Require Import Prelude.

Section SortedArray.
Context {E K : Type} (key : E → K) (cmp : K → K → comparison) `{!CmpLaws cmp}.

(** One turn of [while (lo <= hi) { mid = (lo + hi) / 2; ... }]; [None] is an
    access outside the array. *)
Definition bsearch_step (l : list E) (k : K) (s : Z * Z) : (Z * Z) + option Z :=
  let '(lo, hi) := s in
  if lo <=? hi then
    let mid := (lo + hi) / 2 in
    match l !! Z.to_nat mid with
    | None => inr None
    | Some e =>
        match cmp (key e) k with
        | Eq => inr (Some mid)
        | Lt => inl (mid + 1, hi)
        | Gt => inl (lo, mid - 1)
        end
    end
  else inr (Some (-(lo + 1))).

(** The index found, or [-(insert_pos + 1)]; [None] would be an access outside
    the array or a loop of more than [n + 1] turns. *)
Definition bsearch_loop (l : list E) (k : K) : option Z :=
  match while_fuel (Pos.of_succ_nat (length l)) (bsearch_step l k) (0, zlen l - 1) with
  | inr r => r
  | inl _ => None
  end.
Definition bsearch (l : list E) (k : K) : Z := default (-1) (bsearch_loop l k).

(** [memmove] up by one and store; store; [memmove] down by one. *)
Definition insert_at (l : list E) (pos : nat) (e : E) : list E := take pos l ++ e :: drop pos l.
Definition remove_at (l : list E) (i : nat) : list E := take i l ++ drop (S i) l.

Definition before (x y : E) : Prop := cmp (key x) (key y) = Lt.
Definition sorted (l : list E) : Prop := StronglySorted before l.

(** ** Bisection *)

Definition below (l : list E) (k : K) : Prop := ∀ e, e ∈ l → cmp (key e) k = Lt.
Definition above (l : list E) (k : K) : Prop := ∀ e, e ∈ l → cmp k (key e) = Lt.

Definition found (l : list E) (k : K) (r : option Z) : Prop :=
  (∃ l1 e l2, r = Some (zlen l1) ∧ l = l1 ++ e :: l2 ∧ key e = k) ∨
  (∃ l1 l2, r = Some (-(zlen l1 + 1)) ∧ l = l1 ++ l2 ∧ below l1 k ∧ above l2 k).

Definition bsearch_inv (l : list E) (k : K) (s : Z * Z) : Prop :=
  0 <= s.1 ∧ s.1 <= s.2 + 1 ∧ s.2 + 1 <= zlen l ∧
  below (take (Z.to_nat s.1) l) k ∧ above (drop (Z.to_nat (s.2 + 1)) l) k.

Lemma below_snoc l e k : sorted (l ++ [e]) → cmp (key e) k = Lt → below (l ++ [e]) k.
Proof.
  intros Hs He x Hx. apply elem_of_app in Hx as [Hx| ->%list_elem_of_singleton]; [|done].
  eapply (cmp_lt_trans cmp); [|done].
  eapply (StronglySorted_app_1_elem_of _ _ _ _ _ Hs Hx). by apply list_elem_of_singleton.
Qed.
Lemma above_cons l e k : sorted (e :: l) → cmp (key e) k = Gt → above (e :: l) k.
Proof.
  intros [Hl Hs]%StronglySorted_cons He%(cmp_gt_lt cmp) x Hx.
  apply elem_of_cons in Hx as [->|Hx]; [done|].
  eapply (cmp_lt_trans cmp); [done|]. rewrite Forall_forall in Hl. by apply Hl.
Qed.

Lemma bsearch_step_ok l k s : sorted l → bsearch_inv l k s →
  match bsearch_step l k s with
  | inl s' => bsearch_inv l k s' ∧ 0 <= s'.2 - s'.1 + 1 < s.2 - s.1 + 1
  | inr r => found l k r
  end.
Proof.
  intros Hsort (H0 & H1 & H2 & Hb & Ha). destruct s as [lo hi]. cbn [fst snd] in *. unfold bsearch_step.
  destruct (Z.leb_spec lo hi) as [Hle|Hgt].
  - set (mid := (lo + hi) / 2). assert (lo <= mid <= hi) as Hmid by (unfold mid; Z.to_euclidean_division_equations; lia).
    clearbody mid. set (i := Z.to_nat mid). destruct (l !! i) as [e|] eqn:He.
    2:{ apply lookup_ge_None in He. lia. }
    pose proof (take_drop_middle _ _ _ He) as Hl.
    assert (i < length l)%nat as Hi by by apply lookup_lt_is_Some_1; eauto.
    destruct (cmp (key e) k) eqn:Hc.
    + left. exists (take i l), e, (drop (S i) l). rewrite length_take.
      split; [f_equal; lia|]. split; [done|]. by apply (cmp_eq cmp).
    + split; [|cbn; lia]. unfold bsearch_inv; cbn [fst snd]. repeat split; try lia; [|done].
      replace (Z.to_nat (mid + 1)) with (S i) by lia.
      rewrite (take_S_r _ _ _ He). apply below_snoc; [|done].
      eapply StronglySorted_app_1_l. rewrite <- app_assoc. cbn [app]. by rewrite Hl.
    + split; [|cbn; lia]. unfold bsearch_inv; cbn [fst snd]. repeat split; try lia; [done|].
      replace (Z.to_nat (mid - 1 + 1)) with i by lia.
      rewrite (drop_S _ _ _ He). apply above_cons; [|done].
      eapply StronglySorted_app_1_r. by rewrite Hl.
  - right. exists (take (Z.to_nat lo) l), (drop (Z.to_nat lo) l).
    rewrite length_take, take_drop. split; [f_equal; lia|]. split; [done|]. split; [done|].
    by replace (Z.to_nat lo) with (Z.to_nat (hi + 1)) by lia.
Qed.

(** Bisection returns, stays inside the array, and finds the key or the place
    where it belongs. *)
Lemma bsearch_loop_found l k : sorted l → found l k (bsearch_loop l k).
Proof.
  intros Hs. unfold bsearch_loop.
  destruct (while_rule (bsearch_step l k) (bsearch_inv l k) (λ s, s.2 - s.1 + 1) (found l k)
    (λ s, bsearch_step_ok l k s Hs) (Pos.of_succ_nat (length l)) (0, zlen l - 1)) as (r & -> & Hr); [| |done].
  - unfold bsearch_inv; cbn [fst snd]. repeat split; try lia.
    + intros e. by rewrite take_0, elem_of_nil.
    + intros e. rewrite drop_ge, elem_of_nil by lia. done.
  - cbn. lia.
Qed.

(** ** The finite map an array stands for *)

Context `{!EqDecision K} `{!Countable K}.

Definition to_map (l : list E) : gmap K E := list_to_map ((λ e, (key e, e)) <$> l).

Lemma fmap_keys l : ((λ e, (key e, e)) <$> l).*1 = key <$> l.
Proof. rewrite <- list_fmap_compose. done. Qed.

Lemma sorted_nodup l : sorted l → NoDup (key <$> l).
Proof.
  induction 1 as [|e l Hs IH Hl]; simpl; constructor; [|done].
  intros (y & Hy & Hin)%list_elem_of_fmap. rewrite Forall_forall in Hl.
  specialize (Hl y Hin). unfold before in Hl. rewrite Hy in Hl. by apply (cmp_lt_irrefl cmp) in Hl.
Qed.

Lemma to_map_lookup l k e :
  NoDup (key <$> l) → (to_map l !! k = Some e ↔ e ∈ l ∧ key e = k).
Proof.
  intros Hn. unfold to_map. rewrite <- elem_of_list_to_map by by rewrite fmap_keys.
  rewrite list_elem_of_fmap. split.
  - intros (y & [= -> ->] & ?). done.
  - intros [? <-]. eauto.
Qed.

Lemma to_map_perm l l' : NoDup (key <$> l) → l ≡ₚ l' → to_map l = to_map l'.
Proof. intros Hn Hp. apply list_to_map_proper; [by rewrite fmap_keys | by rewrite Hp]. Qed.

Lemma to_map_cons e l : to_map (e :: l) = <[key e := e]> (to_map l).
Proof. done. Qed.

(** The array is determined by the map: equal contents, equal arrays. *)
Lemma to_map_inj l l' : sorted l → sorted l' → to_map l = to_map l' → l = l'.
Proof.
  intros Hs Hs' Hm. pose proof (sorted_nodup l Hs) as N. pose proof (sorted_nodup l' Hs') as N'.
  eapply StronglySorted_unique_strong; [|done|done|].
  - intros x y _ _ Hxy Hyx. unfold before in *. apply (cmp_gt_lt cmp) in Hyx. congruence.
  - apply NoDup_Permutation; [by eapply NoDup_fmap_1 | by eapply NoDup_fmap_1 |].
    intros e. pose proof (to_map_lookup l (key e) e N). pose proof (to_map_lookup l' (key e) e N').
    rewrite Hm in *. tauto.
Qed.

Lemma below_above_notin l1 l2 k : below l1 k → above l2 k → k ∉ key <$> (l1 ++ l2).
Proof.
  intros Hb Ha (e & -> & [Hin|Hin]%elem_of_app)%list_elem_of_fmap.
  - apply Hb in Hin. by apply (cmp_lt_irrefl cmp) in Hin.
  - apply Ha in Hin. by apply (cmp_lt_irrefl cmp) in Hin.
Qed.

Lemma to_map_None l k : k ∉ key <$> l → to_map l !! k = None.
Proof. intros H. apply not_elem_of_list_to_map. by rewrite fmap_keys. Qed.

(** Bisection decides [lookup]. *)
Lemma bsearch_cases l k : sorted l →
  (∃ l1 e l2, bsearch l k = zlen l1 ∧ l = l1 ++ e :: l2 ∧ key e = k ∧ to_map l !! k = Some e) ∨
  (∃ l1 l2, bsearch l k = -(zlen l1 + 1) ∧ l = l1 ++ l2 ∧ below l1 k ∧ above l2 k ∧
            to_map l !! k = None).
Proof.
  intros Hs. unfold bsearch. destruct (bsearch_loop_found l k Hs) as [(l1 & e & l2 & -> & Hl & He)|(l1 & l2 & -> & Hl & Hb & Ha)].
  - left. exists l1, e, l2. repeat split; auto.
    apply to_map_lookup; [by apply sorted_nodup|]. subst. set_solver.
  - right. exists l1, l2. repeat split; auto. subst. by apply to_map_None, below_above_notin.
Qed.

(** ** Editing *)

Lemma sorted_insert l1 l2 e :
  sorted (l1 ++ l2) → below l1 (key e) → above l2 (key e) → sorted (l1 ++ e :: l2).
Proof.
  intros (H12 & H1 & H2)%StronglySorted_app Hb Ha. apply StronglySorted_app_2; [|done|].
  - intros x y Hx [->|Hy]%elem_of_cons; [by apply Hb | by apply H12].
  - apply SSorted_cons; [done|]. apply Forall_forall. intros y Hy. by apply Ha.
Qed.

Lemma sorted_remove l1 l2 e : sorted (l1 ++ e :: l2) → sorted (l1 ++ l2).
Proof.
  intros (H12 & H1 & [_ H2]%StronglySorted_cons)%StronglySorted_app.
  apply StronglySorted_app_2; [|done|done]. intros x y Hx Hy. apply H12; [done|]. by right.
Qed.

Lemma sorted_replace l1 l2 e e' :
  key e' = key e → sorted (l1 ++ e :: l2) → sorted (l1 ++ e' :: l2).
Proof.
  intros Hk (H12 & H1 & [He H2]%StronglySorted_cons)%StronglySorted_app.
  apply StronglySorted_app_2; [|done|].
  - intros x y Hx [->|Hy]%elem_of_cons; [|apply H12; [done | by right]].
    unfold before. rewrite Hk. apply (H12 x e Hx). by left.
  - apply StronglySorted_cons. split; [|done]. eapply Forall_impl; [exact He|].
    intros y. unfold before. by rewrite Hk.
Qed.

Lemma to_map_middle l1 l2 e : sorted (l1 ++ e :: l2) →
  to_map (l1 ++ e :: l2) = <[key e := e]> (to_map (l1 ++ l2)).
Proof.
  intros Hs. rewrite <- to_map_cons. apply to_map_perm; [by apply sorted_nodup|].
  symmetry. apply Permutation_middle.
Qed.

Lemma to_map_remove l1 l2 e : sorted (l1 ++ e :: l2) →
  to_map (l1 ++ l2) = delete (key e) (to_map (l1 ++ e :: l2)).
Proof.
  intros Hs. rewrite to_map_middle, delete_insert_id; [done| |done].
  apply to_map_None. apply sorted_nodup in Hs. rewrite fmap_app, fmap_cons in *.
  rewrite <- Permutation_middle in Hs. by apply NoDup_cons in Hs as [? _].
Qed.
End SortedArray.
