(* ===== verification/State.v ===== *)
(** * state.h / state.c: the account map and the name registry

    The two sorted arrays, their operations, the state root and the snapshot
    format ([ac_state_apply_tx] is in Apply.v). A [state_name_t] keeps its
    [len] bytes as a list. [malloc] and [realloc] are taken to succeed. *)

From S2P Require Import Prelude Common Crypto Cursor Codec SortedArray.

Record ac_account_t := mkAcc {
  addr : ac_addr_t;
  balance : Z;
  nonce : Z;
  stake : Z;
  unbond_at : Z
}.
Record state_name_t := mkName { name : list byte; name_addr : ac_addr_t }.
Record ac_state_t := mkState {
  chain_id : Z;
  accounts : list ac_account_t;
  names : list state_name_t
}.

#[export] Instance ac_account_eq_dec : EqDecision ac_account_t.
Proof. solve_decision. Defined.
#[export] Instance state_name_eq_dec : EqDecision state_name_t.
Proof. solve_decision. Defined.
#[export] Instance ac_state_eq_dec : EqDecision ac_state_t.
Proof. solve_decision. Defined.

(** ** Operations *)

Definition ac_state_new (cid : Z) : ac_state_t := mkState cid [] [].
Definition ac_state_chain_id (s : ac_state_t) : Z := chain_id s.

Definition name_cmp (x y : list byte) : comparison :=
  let n := if (length x <? length y)%nat then length x else length y in
  match memcmp x y n with
  | Eq => if (length x <? length y)%nat then Lt
          else if (length y <? length x)%nat then Gt else Eq
  | c => c
  end.

Definition acc_lookup (s : ac_state_t) (a : ac_addr_t) : Z :=
  bsearch addr ac_addr_cmp (accounts s) a.

(** The account [memset] and addressed at the head of [ac_state_get]. *)
Definition zero_acc (a : ac_addr_t) : ac_account_t := mkAcc a 0 0 0 0.

(** The return value and [*out]. *)
Definition ac_state_get (s : ac_state_t) (a : ac_addr_t) : bool * ac_account_t :=
  let i := acc_lookup s a in
  if i <? 0 then (false, zero_acc a)
  else match accounts s !! Z.to_nat i with
       | Some acc => (true, acc)
       | None => (false, zero_acc a)
       end.

Definition account_is_empty (a : ac_account_t) : bool :=
  (balance a =? 0) && (nonce a =? 0) && (stake a =? 0) && (unbond_at a =? 0).

Definition set_accounts (s : ac_state_t) (l : list ac_account_t) : ac_state_t :=
  mkState (chain_id s) l (names s).

Definition ac_state_set (s : ac_state_t) (acc : ac_account_t) : ac_state_t :=
  let i := acc_lookup s (addr acc) in
  if 0 <=? i then
    if account_is_empty acc then set_accounts s (remove_at (accounts s) (Z.to_nat i))
    else set_accounts s (<[Z.to_nat i := acc]> (accounts s))
  else if account_is_empty acc then s
  else set_accounts s (insert_at (accounts s) (Z.to_nat (- i - 1)) acc).

Definition ac_state_count (s : ac_state_t) : nat := length (accounts s).
Definition ac_state_at (s : ac_state_t) (i : nat) : option ac_account_t := accounts s !! i.

Definition ac_state_credit (s : ac_state_t) (a : ac_addr_t) (amount : Z) : ac_state_t :=
  let acc := (ac_state_get s a).2 in
  ac_state_set s (mkAcc (addr acc) (balance acc ⊕ amount) (nonce acc) (stake acc) (unbond_at acc)).

Definition ac_state_debit (s : ac_state_t) (a : ac_addr_t) (amount : Z) : ac_state_t :=
  let acc := (ac_state_get s a).2 in
  let bal := if balance acc <? amount then 0 else balance acc - amount in
  ac_state_set s (mkAcc (addr acc) bal (nonce acc) (stake acc) (unbond_at acc)).

Definition name_lookup_index (s : ac_state_t) (n : list byte) : Z :=
  bsearch name name_cmp (names s) n.

Definition ac_state_name_lookup (s : ac_state_t) (n : list byte) : option ac_addr_t :=
  let i := name_lookup_index s n in
  if i <? 0 then None else name_addr <$> (names s !! Z.to_nat i).

(** [None] is a return of -1, which leaves the state as it was. *)
Definition ac_state_name_register (s : ac_state_t) (n : list byte) (a : ac_addr_t)
    : option ac_state_t :=
  if negb (ac_name_valid n) then None
  else
    let i := name_lookup_index s n in
    if 0 <=? i then None
    else Some (mkState (chain_id s) (accounts s)
                 (insert_at (names s) (Z.to_nat (- i - 1)) (mkName n a))).

(** The capacity the arrays grow to: the first doubling of the old one (or of
    64 for accounts, 16 for names) that is enough. *)
Definition reserve_step (needed : Z) (newcap : Z) : Z + Z :=
  if newcap <? needed then inl (newcap * 2) else inr newcap.
Definition reserve_cap (initial cap needed : Z) : option Z :=
  if needed <=? cap then Some cap
  else match while_fuel 64 (reserve_step needed) (if cap =? 0 then initial else cap) with
       | inr c => Some c
       | inl _ => None
       end.

(** ** State root *)

Definition STATE_DOMAIN : list byte := str "AGCH:STATE:v1".

Definition account_chunks (a : ac_account_t) : list (list byte) :=
  [b (addr a); ac_be64 (balance a); ac_be64 (nonce a); ac_be64 (stake a); ac_be64 (unbond_at a)].
Definition name_chunks (n : state_name_t) : list (list byte) :=
  [[byte_of (zlen (name n))]; name n; b (name_addr n)].
Definition root_chunks (s : ac_state_t) : list (list byte) :=
  [STATE_DOMAIN] ++ (accounts s ≫= account_chunks) ++ [[byte_of 255]] ++ (names s ≫= name_chunks).

Definition ac_state_root `{!Sodium} (s : ac_state_t) : ac_hash_t := ac_hash_multi (root_chunks s).

(** ** Snapshot *)

Definition STATE_MAGIC : list byte := str "AGCH:STATESNAP:v1".
Abbreviation STATE_VERSION := 1.

Definition wput_account (c : wcur_t) (a : ac_account_t) : wcur_t :=
  let c := wput c (b (addr a)) in
  let c := wput_u64 c (balance a) in
  let c := wput_u64 c (nonce a) in
  let c := wput_u64 c (stake a) in
  wput_u64 c (unbond_at a).
Definition wput_name (c : wcur_t) (n : state_name_t) : wcur_t :=
  let c := wput_u8 c (zlen (name n)) in
  let c := wput c (name n) in
  wput c (b (name_addr n)).

Definition snapshot_cap (s : ac_state_t) : Z :=
  zlen STATE_MAGIC + 1 + 8 + 4 + 4
  + zlen (accounts s) * (32 + 4 * 8) + zlen (names s) * (1 + AC_NAME_MAX_LEN + 32).

(** The writes are unchecked in C: [None] would be one past the allocation. *)
Definition ac_state_serialize (s : ac_state_t) : option (list byte) :=
  let c := wcur_new (snapshot_cap s) in
  let c := wput c STATE_MAGIC in
  let c := wput_u8 c STATE_VERSION in
  let c := wput_u64 c (chain_id s) in
  let c := wput_u32 c (zlen (accounts s)) in
  let c := wput_u32 c (zlen (names s)) in
  let c := foldl wput_account c (accounts s) in
  let c := foldl wput_name c (names s) in
  w_result c.

Definition is_lt (c : comparison) : bool := match c with Lt => true | _ => false end.

(** The account loop: bound check, reads, order check against the previous. *)
Definition read_account (buf : list byte) (pos : nat) : outcome (ac_account_t * nat) :=
  _ ← fail_if (length buf <? pos + 32 + 32)%nat;
  a ← read_at buf pos 32;
  bal ← read_at buf (pos + 32) 8;
  non ← read_at buf (pos + 40) 8;
  stk ← read_at buf (pos + 48) 8;
  unb ← read_at buf (pos + 56) 8;
  OK (mkAcc (bytes_of 32 a) (ac_rd64 bal) (ac_rd64 non) (ac_rd64 stk) (ac_rd64 unb), (pos + 64)%nat).
Definition read_name (buf : list byte) (pos : nat) : outcome (state_name_t * nat) :=
  _ ← fail_if (length buf <? pos + 1)%nat;
  nlb ← read_at buf pos 1;
  let nl := at_ nlb 0 in
  let pos := (pos + 1)%nat in
  _ ← fail_if ((nl <? AC_NAME_MIN_LEN) || (AC_NAME_MAX_LEN <? nl));
  let n := Z.to_nat nl in
  _ ← fail_if (length buf <? pos + n + 32)%nat;
  nm ← read_at buf pos n;
  a ← read_at buf (pos + n) 32;
  _ ← fail_if (negb (ac_name_valid nm));
  OK (mkName nm (bytes_of 32 a), (pos + n + 32)%nat).

(** The shape of both loops: read [n] records, each after the previous one. *)
Fixpoint read_sorted {E K} (rd : list byte → nat → outcome (E * nat)) (key : E → K)
    (cmp : K → K → comparison) (n : nat) (buf : list byte) (pos : nat) (prev : option K)
    : outcome (list E * nat) :=
  match n with
  | O => OK ([], pos)
  | S n' =>
      '(x, pos) ← rd buf pos;
      _ ← fail_if (match prev with Some p => negb (is_lt (cmp p (key x))) | None => false end);
      '(l, pos) ← read_sorted rd key cmp n' buf pos (Some (key x));
      OK (x :: l, pos)
  end.
Definition read_accounts := read_sorted read_account addr ac_addr_cmp.
Definition read_names := read_sorted read_name name name_cmp.

(** The snapshot header: chain id, number of accounts, number of names. *)
Definition read_snapshot_header (buf : list byte) : outcome (Z * Z * Z) :=
  _ ← fail_if (length buf <? 17 + 17)%nat;
  magic ← read_at buf 0 17;
  _ ← fail_if (negb (is_eq (memcmp magic STATE_MAGIC 17)));
  v ← read_at buf 17 1;
  _ ← fail_if (negb (at_ v 0 =? STATE_VERSION));
  cid ← read_at buf 18 8;
  na ← read_at buf 26 4;
  nn ← read_at buf 30 4;
  OK (ac_rd64 cid, ac_rd32 na, ac_rd32 nn).

(** The state after the call and whether it returned 0. On an error past the
    header the old contents are already gone: the arrays that were completely
    read are in place, the others empty. *)
Definition ac_state_deserialize (s : ac_state_t) (buf : list byte) : outcome (ac_state_t * bool) :=
  match read_snapshot_header buf with
  | OOB => OOB
  | ERR => OK (s, false)
  | OK (cid, nacc, nname) =>
      if negb (cid =? chain_id s) then OK (s, false)
      else
        match read_accounts (Z.to_nat nacc) buf 34 None with
        | OOB => OOB
        | ERR => OK (mkState cid [] [], false)
        | OK (accs, pos) =>
            match read_names (Z.to_nat nname) buf pos None with
            | OOB => OOB
            | ERR => OK (mkState cid accs [], false)
            | OK (nms, pos) =>
                OK (mkState cid accs nms, (pos =? length buf)%nat)
            end
        end
  end.

(** ** [name_cmp] is the lexicographic order *)

Lemma name_cmp_lex x y : name_cmp x y = lex_cmp x y.
Proof.
  revert y. induction x as [|c x IH]; intros [|d y]; try done. unfold name_cmp in *.
  cbn [length lex_cmp]. specialize (IH y).
  destruct (Nat.ltb_spec (S (length x)) (S (length y))), (Nat.ltb_spec (length x) (length y)); try lia;
    cbn [memcmp]; destruct (byte_cmp c d); try done; rewrite <- IH; clear IH;
    destruct (Nat.ltb_spec (S (length y)) (S (length x))), (Nat.ltb_spec (length y) (length x)); try lia; done.
Qed.
#[export] Instance name_cmp_laws : CmpLaws name_cmp.
Proof. eapply cmp_laws_ext; [apply name_cmp_lex | apply lex_cmp_laws]. Qed.

(** ** Invariant *)

Record acc_wf (a : ac_account_t) : Prop := {
  wf_balance : is_u64 (balance a);
  wf_nonce : is_u64 (nonce a);
  wf_stake : is_u64 (stake a);
  wf_unbond_at : is_u64 (unbond_at a)
}.

Abbreviation acc_sorted := (sorted addr ac_addr_cmp).
Abbreviation name_sorted := (sorted name name_cmp).

Record state_wf (s : ac_state_t) : Prop := {
  wf_chain_id : is_u64 (chain_id s);
  wf_acc_sorted : acc_sorted (accounts s);
  wf_accs : Forall acc_wf (accounts s);
  wf_name_sorted : name_sorted (names s);
  wf_names : Forall (λ n, ac_name_valid (name n) = true) (names s)
}.

(** No account is stored that [account_is_empty]: PROTOCOL 4.1. *)
Definition no_empty (s : ac_state_t) : Prop :=
  Forall (λ a, account_is_empty a = false) (accounts s).

(** ** The abstract state: a finite map of accounts, one of names *)

Definition acc_map (s : ac_state_t) : gmap ac_addr_t ac_account_t := to_map addr (accounts s).
Definition name_map (s : ac_state_t) : gmap (list byte) state_name_t := to_map name (names s).

(** An absent account reads as the zero account. *)
Definition view (s : ac_state_t) (a : ac_addr_t) : ac_account_t :=
  default (zero_acc a) (acc_map s !! a).

Lemma acc_map_lookup s a acc : state_wf s → acc_map s !! a = Some acc →
  acc ∈ accounts s ∧ addr acc = a.
Proof.
  intros Hs H. apply (to_map_lookup addr) in H; [done|].
  apply (sorted_nodup addr ac_addr_cmp), Hs.
Qed.

Lemma view_addr s a : state_wf s → addr (view s a) = a.
Proof.
  intros Hs. unfold view. destruct (acc_map s !! a) as [acc|] eqn:H; [|done].
  by apply acc_map_lookup in H as [_ ?].
Qed.

Lemma zero_acc_wf a : acc_wf (zero_acc a).
Proof. constructor; by vm_compute. Qed.

Lemma view_wf s a : state_wf s → acc_wf (view s a).
Proof.
  intros Hs. unfold view. destruct (acc_map s !! a) as [acc|] eqn:H; [|apply zero_acc_wf].
  apply acc_map_lookup in H as [Hin _]; [|done]. pose proof (wf_accs s Hs) as Hf.
  rewrite Forall_forall in Hf. by apply Hf.
Qed.
#[export] Hint Resolve view_wf zero_acc_wf : wf.

Lemma acc_eta a : mkAcc (addr a) (balance a) (nonce a) (stake a) (unbond_at a) = a.
Proof. by destruct a. Qed.

Lemma empty_is_zero a : account_is_empty a = true → a = zero_acc (addr a).
Proof.
  unfold account_is_empty. rewrite !andb_true_iff, !Z.eqb_eq. destruct a; simpl.
  intros [[[-> ->] ->] ->]. done.
Qed.

(** [ac_state_get] reads the map. *)
Lemma ac_state_get_spec s a : state_wf s →
  ac_state_get s a = (bool_decide (is_Some (acc_map s !! a)), view s a).
Proof.
  intros Hs. unfold ac_state_get, acc_lookup, view, acc_map.
  destruct (bsearch_cases addr ac_addr_cmp (accounts s) a (wf_acc_sorted s Hs))
    as [(l1 & e & l2 & -> & Hl & He & ->)|(l1 & l2 & -> & Hl & Hb & Ha & ->)].
  - rewrite (proj2 (Z.ltb_ge _ _)), Nat2Z.id by lia. rewrite Hl, list_lookup_middle by done.
    rewrite bool_decide_true; [done | by eexists].
  - rewrite (proj2 (Z.ltb_lt _ _)) by lia. rewrite bool_decide_false; [done|]. by intros [? ?].
Qed.

Lemma set_middle {A} (l1 l2 : list A) (e x : A) : <[length l1 := x]> (l1 ++ e :: l2) = l1 ++ x :: l2.
Proof. by rewrite insert_app_r_alt, Nat.sub_diag by done. Qed.
Lemma remove_at_middle {A} (l1 l2 : list A) e : remove_at (l1 ++ e :: l2) (length l1) = l1 ++ l2.
Proof.
  unfold remove_at. rewrite take_app_length, cons_middle, app_assoc.
  by rewrite drop_app_length' by (rewrite length_app; simpl; lia).
Qed.
Lemma insert_at_middle {A} (l1 l2 : list A) e : insert_at (l1 ++ l2) (length l1) e = l1 ++ e :: l2.
Proof. unfold insert_at. by rewrite take_app_length, drop_app_length. Qed.

(** [ac_state_set] is one of four edits, each keeping the array sorted. *)
Lemma ac_state_set_spec s acc : state_wf s →
  acc_sorted (accounts (ac_state_set s acc)) ∧
  acc_map (ac_state_set s acc) =
    (if account_is_empty acc then delete (addr acc) (acc_map s)
     else <[addr acc := acc]> (acc_map s)) ∧
  accounts (ac_state_set s acc) ⊆ acc :: accounts s ∧
  (account_is_empty acc = false ∨ accounts (ac_state_set s acc) ⊆ accounts s).
Proof.
  intros Hs. pose proof (wf_acc_sorted s Hs) as Hsort.
  unfold ac_state_set, acc_lookup, acc_map.
  destruct (bsearch_cases addr ac_addr_cmp (accounts s) (addr acc) Hsort)
    as [(l1 & e & l2 & -> & Hl & He & Hm)|(l1 & l2 & -> & Hl & Hb & Ha & Hm)].
  - rewrite (proj2 (Z.leb_le _ _)), Nat2Z.id by lia. rewrite Hl in Hsort |- *.
    destruct (account_is_empty acc); cbn [set_accounts accounts].
    + rewrite remove_at_middle, <- He. split; [by eapply sorted_remove|].
      split; [by apply (to_map_remove addr ac_addr_cmp)|]. split; [set_solver|]. right. set_solver.
    + rewrite set_middle. assert (acc_sorted (l1 ++ acc :: l2)) as Hs' by by eapply sorted_replace.
      split; [done|]. split; [|split; [set_solver | by left]].
      rewrite !(to_map_middle addr ac_addr_cmp) by done. by rewrite He, insert_insert_eq.
  - rewrite (proj2 (Z.leb_gt _ _)) by lia. destruct (account_is_empty acc).
    + split; [done|]. split; [by rewrite delete_id|]. split; [set_solver|]. by right.
    + cbn [set_accounts accounts]. replace (Z.to_nat _) with (length l1) by lia.
      rewrite Hl in Hsort |- *. rewrite insert_at_middle.
      assert (acc_sorted (l1 ++ acc :: l2)) as Hs' by by apply sorted_insert.
      split; [done|]. split; [by apply (to_map_middle addr ac_addr_cmp)|]. split; [set_solver | by left].
Qed.

Lemma ac_state_set_frame s acc :
  chain_id (ac_state_set s acc) = chain_id s ∧ names (ac_state_set s acc) = names s.
Proof. unfold ac_state_set. by repeat case_match. Qed.

Lemma ac_state_set_wf s acc : state_wf s → acc_wf acc → state_wf (ac_state_set s acc).
Proof.
  intros Hs Ha. destruct (ac_state_set_spec s acc Hs) as (Hsort & _ & Hsub & _).
  destruct (ac_state_set_frame s acc) as [Hc Hn].
  constructor; rewrite ?Hc, ?Hn; try apply Hs; [done|].
  pose proof (wf_accs s Hs) as Hf. rewrite Forall_forall in *. intros x Hx.
  apply Hsub, elem_of_cons in Hx as [->|Hx]; auto.
Qed.

Lemma ac_state_set_no_empty s acc : state_wf s → no_empty s → no_empty (ac_state_set s acc).
Proof.
  intros Hs Hn. destruct (ac_state_set_spec s acc Hs) as (_ & _ & Hsub & He).
  unfold no_empty in *. rewrite Forall_forall in *. intros x Hx.
  destruct He as [He|He]; [|auto]. apply Hsub, elem_of_cons in Hx as [->|Hx]; auto.
Qed.

(** Writing an account is updating the view at its address. *)
Lemma view_set s acc a : state_wf s →
  view (ac_state_set s acc) a = if decide (a = addr acc) then acc else view s a.
Proof.
  intros Hs. unfold view. destruct (ac_state_set_spec s acc Hs) as (_ & -> & _).
  destruct (account_is_empty acc) eqn:He.
  - case_decide as Ha; [subst a|].
    + rewrite lookup_delete_eq. simpl. symmetry. by apply empty_is_zero.
    + by rewrite lookup_delete_ne.
  - case_decide as Ha; [subst a|]; [by rewrite lookup_insert_eq | by rewrite lookup_insert_ne].
Qed.

Lemma view_set_eq s acc : state_wf s → view (ac_state_set s acc) (addr acc) = acc.
Proof. intros. rewrite view_set by done. by rewrite decide_True. Qed.
Lemma view_set_ne s acc a : state_wf s → a ≠ addr acc → view (ac_state_set s acc) a = view s a.
Proof. intros. rewrite view_set by done. by rewrite decide_False. Qed.

(** ** Totals over all accounts *)

Definition total (f : ac_account_t → Z) (s : ac_state_t) : Z := sum_with f (accounts s).

Lemma total_split (f : ac_account_t → Z) (l1 l2 : list ac_account_t) e :
  sum_with f (l1 ++ e :: l2) = sum_with f (l1 ++ l2) + f e.
Proof. rewrite !sum_with_app. simpl. lia. Qed.

Lemma total_set f s acc : state_wf s → (∀ a, f (zero_acc a) = 0) →
  total f (ac_state_set s acc) = total f s - f (view s (addr acc)) + f acc.
Proof.
  intros Hs Hf. pose proof (wf_acc_sorted s Hs) as Hsort.
  assert (account_is_empty acc = true → f acc = 0) as H0.
  { intros ->%empty_is_zero. apply Hf. }
  unfold total, ac_state_set, acc_lookup, view, acc_map.
  destruct (bsearch_cases addr ac_addr_cmp (accounts s) (addr acc) Hsort)
    as [(l1 & e & l2 & -> & Hl & He & Hm)|(l1 & l2 & -> & Hl & Hb & Ha & Hm)]; rewrite Hm; simpl from_option.
  - rewrite (proj2 (Z.leb_le _ _)), Nat2Z.id by lia. rewrite Hl, total_split.
    destruct (account_is_empty acc); cbn [set_accounts accounts].
    + rewrite remove_at_middle, H0 by done. simpl; lia.
    + rewrite set_middle, total_split. simpl; lia.
  - rewrite (proj2 (Z.leb_gt _ _)) by lia. rewrite Hf. destruct (account_is_empty acc).
    + rewrite H0 by done. lia.
    + cbn [set_accounts accounts]. replace (Z.to_nat _) with (length l1) by lia.
      rewrite Hl, insert_at_middle, total_split. lia.
Qed.

Lemma total_nonneg f s : (∀ a, acc_wf a → 0 <= f a) → state_wf s → 0 <= total f s.
Proof.
  intros Hf Hs. apply sum_with_nonneg. intros x Hx. apply Hf.
  pose proof (wf_accs s Hs) as H. rewrite Forall_forall in H. auto.
Qed.

(** What one account holds is part of the total. *)
Lemma view_le_total f s a : (∀ a, acc_wf a → 0 <= f a) → (∀ a, f (zero_acc a) = 0) → state_wf s →
  f (view s a) <= total f s.
Proof.
  intros Hf H0 Hs. unfold view. destruct (acc_map s !! a) as [acc|] eqn:H; simpl.
  - apply acc_map_lookup in H as [Hin _]; [|done].
    apply list_elem_of_split in Hin as (l1 & l2 & E). unfold total. rewrite E, total_split.
    pose proof (wf_accs s Hs) as Hw. rewrite E, Forall_app, Forall_cons in Hw.
    assert (0 <= sum_with f (l1 ++ l2)); [|lia]. apply sum_with_nonneg. intros x Hx.
    apply Hf. destruct Hw as (W1 & W2 & W3). rewrite Forall_forall in W1, W3.
    apply elem_of_app in Hx as [?|?]; auto.
  - rewrite H0. by apply total_nonneg.
Qed.

(** ** Names *)

Lemma ac_state_name_lookup_spec s n : state_wf s →
  ac_state_name_lookup s n = name_addr <$> name_map s !! n.
Proof.
  intros Hs. unfold ac_state_name_lookup, name_lookup_index, name_map.
  destruct (bsearch_cases name name_cmp (names s) n (wf_name_sorted s Hs))
    as [(l1 & e & l2 & -> & Hl & He & ->)|(l1 & l2 & -> & Hl & Hb & Ha & ->)].
  - rewrite (proj2 (Z.ltb_ge _ _)), Nat2Z.id by lia. by rewrite Hl, list_lookup_middle.
  - by rewrite (proj2 (Z.ltb_lt _ _)) by lia.
Qed.

Lemma ac_state_name_register_spec s n a : state_wf s →
  match ac_state_name_register s n a with
  | Some s' => ac_name_valid n = true ∧ name_map s !! n = None ∧
               name_map s' = <[n := mkName n a]> (name_map s) ∧ state_wf s' ∧
               accounts s' = accounts s ∧ chain_id s' = chain_id s
  | None => ac_name_valid n = false ∨ is_Some (name_map s !! n)
  end.
Proof.
  intros Hs. unfold ac_state_name_register, name_lookup_index, name_map.
  destruct (ac_name_valid n) eqn:V; simpl; [|by left].
  pose proof (wf_name_sorted s Hs) as Hsort. pose proof (wf_names s Hs) as Hv.
  destruct (bsearch_cases name name_cmp (names s) n Hsort)
    as [(l1 & e & l2 & -> & Hl & He & ->)|(l1 & l2 & -> & Hl & Hb & Ha & ->)].
  - rewrite (proj2 (Z.leb_le _ _)) by lia. right. by eexists.
  - rewrite (proj2 (Z.leb_gt _ _)) by lia. simpl names.
    replace (Z.to_nat _) with (length l1) by lia. rewrite Hl in Hsort, Hv |- *. rewrite insert_at_middle.
    assert (name_sorted (l1 ++ mkName n a :: l2)) as Hs' by by apply sorted_insert.
    split; [done|]. split; [done|].
    split; [by apply (to_map_middle name name_cmp _ _ (mkName n a))|]. split; [|done].
    constructor; simpl; try apply Hs; [done|].
    rewrite Forall_app in *. rewrite Forall_cons. tauto.
Qed.

(** ** Array capacities *)

(** The doubling loop returns, within 64 turns, a capacity that is enough. *)
Lemma reserve_cap_enough initial cap needed :
  0 < initial → 0 <= cap → needed < 2 ^ 63 →
  ∃ c, reserve_cap initial cap needed = Some c ∧ needed <= c ∧ cap <= c.
Proof.
  intros Hi Hc Hn. unfold reserve_cap. destruct (Z.leb_spec needed cap); [exists cap; split; [done|lia]|].
  set (c0 := if cap =? 0 then initial else cap).
  assert (0 < c0 ∧ cap <= c0) as [H0 Hle] by (unfold c0; destruct (Z.eqb_spec cap 0); lia).
  clearbody c0. rewrite while_fuel_nat. change (Pos.to_nat 64) with 64%nat.
  assert (∀ n c, 0 < c → cap <= c → needed <= c * 2 ^ Z.of_nat n →
    ∃ r, while_nat (S n) (reserve_step needed) c = inr r ∧ needed <= r ∧ cap <= r) as H1.
  { induction n as [|n IH]; intros c Hpos Hcap Hneed; cbn [while_nat]; unfold reserve_step at 1.
    - destruct (Z.ltb_spec c needed); [simpl in *; lia | eauto].
    - destruct (Z.ltb_spec c needed); [|eauto]. apply IH; [lia|lia|].
      rewrite Nat2Z.inj_succ, Z.pow_succ_r in Hneed by lia. nia. }
  destruct (H1 63%nat c0 H0 Hle) as (r & -> & ? & ?); [|eauto].
  change (2 ^ Z.of_nat 63) with (2 ^ 63). nia.
Qed.

(** ** Snapshots *)

Definition account_bytes (a : ac_account_t) : list byte := concat (account_chunks a).
Definition name_bytes (n : state_name_t) : list byte := concat (name_chunks n).
Arguments account_bytes : simpl never.
Arguments name_bytes : simpl never.

Definition snapshot_bytes (s : ac_state_t) : list byte :=
  (STATE_MAGIC ++ [byte_of STATE_VERSION] ++ ac_be64 (chain_id s) ++
   ac_be32 (zlen (accounts s)) ++ ac_be32 (zlen (names s))) ++
  concat (map account_bytes (accounts s)) ++ concat (map name_bytes (names s)).

Lemma account_bytes_length a : length (account_bytes a) = 64%nat.
Proof. unfold account_bytes. cbn [account_chunks concat]. len. Qed.
Lemma name_bytes_length n : length (name_bytes n) = (33 + length (name n))%nat.
Proof. unfold name_bytes. cbn [name_chunks concat]. len. Qed.
#[export] Hint Rewrite account_bytes_length name_bytes_length : len.

Lemma concat_accounts_length l : length (concat (map account_bytes l)) = (64 * length l)%nat.
Proof. induction l as [|a l IH]; [done|]. cbn [map concat]. len. Qed.
Lemma concat_names_max l : Forall (λ n, ac_name_valid (name n) = true) l →
  (length (concat (map name_bytes l)) <= 65 * length l)%nat.
Proof.
  induction 1 as [|n l Hn Hl IH]; [done|]. cbn [map concat]. pose proof (name_valid_bounds _ Hn). len.
Qed.

Lemma foldl_chunks {A} (f : wcur_t → A → wcur_t) (g : A → list (list byte)) c l :
  (∀ c x, f c x = foldl wput c (g x)) → foldl f c l = foldl wput c (l ≫= g).
Proof.
  intros H. revert c. induction l as [|x l IH]; intros c; [done|].
  cbn [foldl]. by rewrite bind_cons, foldl_app, IH, H.
Qed.
Lemma concat_bind {A} (g : A → list (list byte)) l :
  concat (l ≫= g) = concat (map (λ x, concat (g x)) l).
Proof. induction l as [|x l IH]; [done|]. by rewrite bind_cons, concat_app, IH. Qed.

(** The unchecked writes stay inside the allocation. *)
Lemma ac_state_serialize_bytes s : state_wf s → ac_state_serialize s = Some (snapshot_bytes s).
Proof.
  intros Hs. unfold ac_state_serialize.
  rewrite (foldl_chunks wput_account account_chunks) by done.
  rewrite (foldl_chunks wput_name name_chunks) by done. rewrite <- foldl_app.
  pose proof (concat_accounts_length (accounts s)). pose proof (concat_names_max _ (wf_names s Hs)).
  etransitivity; [apply (wput_chunks ([STATE_MAGIC; [byte_of STATE_VERSION]; ac_be64 (chain_id s);
    ac_be32 (zlen (accounts s)); ac_be32 (zlen (names s))] ++
    (accounts s ≫= account_chunks) ++ (names s ≫= name_chunks)) []); unfold snapshot_cap; simpl; lia|].
  assert (concat ([STATE_MAGIC; [byte_of STATE_VERSION]; ac_be64 (chain_id s);
    ac_be32 (zlen (accounts s)); ac_be32 (zlen (names s))] ++
    (accounts s ≫= account_chunks) ++ (names s ≫= name_chunks)) = snapshot_bytes s) as ->.
  { rewrite !concat_app, !concat_bind. unfold snapshot_bytes. f_equal. }
  rewrite app_nil_l. apply fits_ok. unfold snapshot_bytes, snapshot_cap.
  change (zlen STATE_MAGIC) with 17. rewrite !length_app. change (length STATE_MAGIC) with 17%nat. len.
Qed.

(** Side conditions of [read_at_mid]. *)
Ltac mid := rewrite <- ?app_assoc; first [done | rewrite ?length_app; simpl; lia].

Lemma read_account_bytes pre a suf : acc_wf a →
  read_account (pre ++ account_bytes a ++ suf) (length pre) = OK (a, (length pre + 64)%nat).
Proof.
  intros []. unfold read_account. rewrite (proj2 (Nat.ltb_ge _ _)) by len. cbn [fail_if mbind outcome_bind].
  set (x := b (addr a)). set (c := ac_be64 (balance a)). set (d := ac_be64 (nonce a)).
  set (e := ac_be64 (stake a)). set (f := ac_be64 (unbond_at a)).
  assert (length x = 32%nat) by apply b_length.
  assert (length c = 8 ∧ length d = 8 ∧ length e = 8 ∧ length f = 8)%nat as (? & ? & ? & ?) by done.
  change (account_bytes a) with (x ++ c ++ d ++ e ++ f ++ []). rewrite app_nil_r.
  rewrite (read_at_mid pre x (c ++ d ++ e ++ f ++ suf) _ (length pre) 32) by mid.
  rewrite (read_at_mid (pre ++ x) c (d ++ e ++ f ++ suf) _ (length pre + 32) 8) by mid.
  rewrite (read_at_mid (pre ++ x ++ c) d (e ++ f ++ suf) _ (length pre + 40) 8) by mid.
  rewrite (read_at_mid (pre ++ x ++ c ++ d) e (f ++ suf) _ (length pre + 48) 8) by mid.
  rewrite (read_at_mid (pre ++ x ++ c ++ d ++ e) f suf _ (length pre + 56) 8) by mid.
  cbn [mbind outcome_bind]. unfold c, d, e, f, x. rewrite !ac_rd64_be64, !u64_id, bytes_of_b by done.
  by rewrite acc_eta.
Qed.

Lemma read_account_inv buf pos a p : read_account buf pos = OK (a, p) →
  p = (pos + 64)%nat ∧ (p <= length buf)%nat ∧ acc_wf a ∧ slice buf pos 64 = account_bytes a.
Proof.
  unfold read_account. intros H. repeat open_run H. injection H as <- <-.
  apply read_at_ok in E0 as [-> _], E1 as [-> _], E2 as [-> _], E3 as [-> _], E4 as [-> H4].
  split; [done|]. split; [lia|]. split; [constructor; simpl; auto with wf|].
  change 64%nat with (32 + (8 + (8 + (8 + 8))))%nat at 1. rewrite !slice_split.
  unfold account_bytes, account_chunks. cbn [addr balance nonce stake unbond_at concat].
  rewrite !ac_be64_rd64, b_bytes_of, app_nil_r by (apply slice_length; lia).
  rewrite <- !Nat.add_assoc. done.
Qed.

Lemma read_account_safe buf pos : safe (read_account buf pos).
Proof.
  unfold read_account. destruct (Nat.ltb_spec (length buf) (pos + 32 + 32)); [done|].
  cbn [fail_if mbind outcome_bind]. rewrite !read_at_safe by lia. done.
Qed.

Lemma read_name_bytes pre x suf : ac_name_valid (name x) = true →
  read_name (pre ++ name_bytes x ++ suf) (length pre) = OK (x, (length pre + length (name_bytes x))%nat).
Proof.
  intros V. pose proof (name_valid_bounds _ V) as Hb. destruct x as [n a]; cbn [name] in *. unfold read_name.
  rewrite (proj2 (Nat.ltb_ge _ _)) by len. cbn [fail_if mbind outcome_bind].
  set (w := [byte_of (zlen n)]). set (y := b a).
  assert (length w = 1%nat) by done. assert (length y = 32%nat) by apply b_length.
  assert (length (name_bytes (mkName n a)) = 33 + length n)%nat as Hlen by apply name_bytes_length.
  assert (name_bytes (mkName n a) = w ++ n ++ y) as E.
  { change (name_bytes (mkName n a)) with (w ++ n ++ y ++ []). by rewrite app_nil_r. }
  rewrite E in *. clear E.
  assert (at_ w 0 = zlen n) as Hw.
  { change (at_ w 0) with (byte_val (byte_of (zlen n))). rewrite byte_val_of. unfold u8.
    apply Z.mod_small. widths. lia. }
  clearbody w. rewrite (read_at_mid pre w (n ++ y ++ suf) _ (length pre) 1) by mid.
  cbn [mbind outcome_bind]. rewrite Hw, Nat2Z.id.
  rewrite (proj2 (Z.ltb_ge _ _)), (proj2 (Z.ltb_ge _ _)) by lia. cbn [orb fail_if mbind outcome_bind].
  rewrite (proj2 (Nat.ltb_ge _ _)) by (rewrite !length_app in *; lia). cbn [fail_if mbind outcome_bind].
  rewrite (read_at_mid (pre ++ w) n (y ++ suf) _ (length pre + 1) (length n)) by mid.
  cbn [mbind outcome_bind].
  rewrite (read_at_mid (pre ++ w ++ n) y suf _ (length pre + 1 + length n) 32) by mid.
  cbn [mbind outcome_bind]. rewrite V. cbn [negb fail_if mbind outcome_bind]. unfold y. rewrite bytes_of_b.
  do 2 f_equal. unfold y in *. lia.
Qed.

Lemma read_name_inv buf pos x p : read_name buf pos = OK (x, p) →
  p = (pos + length (name_bytes x))%nat ∧ (p <= length buf)%nat ∧ ac_name_valid (name x) = true ∧
  slice buf pos (length (name_bytes x)) = name_bytes x.
Proof.
  unfold read_name. intros H. repeat open_run H. injection H as <- <-.
  apply read_at_ok in E0 as [-> H0], E3 as [-> H3], E4 as [-> H4]. apply negb_false_iff in E5.
  set (nl := at_ (slice buf pos 1) 0) in *. assert (is_u8 nl) as Hu by apply at_range.
  set (n := Z.to_nat nl) in *. set (nm := slice buf (pos + 1) n) in *.
  assert (length nm = n) as Hn by (apply slice_length; lia).
  rewrite name_bytes_length. cbn [name]. rewrite Hn.
  split; [lia|]. split; [lia|]. split; [done|].
  replace (33 + n)%nat with (1 + (n + 32))%nat by lia. rewrite !slice_split.
  unfold name_bytes, name_chunks. cbn [name name_addr concat].
  rewrite b_bytes_of, app_nil_r by (apply slice_length; lia). f_equal.
  assert (length (slice buf pos 1) = 1%nat) as H1 by (apply slice_length; lia).
  fold nm. rewrite Hn. replace (Z.of_nat n) with nl by (widths; lia). unfold nl, at_.
  destruct (slice buf pos 1) as [|c [|? ?]]; simpl in *; try lia. by rewrite byte_of_val.
Qed.

Lemma read_name_safe buf pos : safe (read_name buf pos).
Proof.
  unfold read_name. destruct (Nat.ltb_spec (length buf) (pos + 1)); [done|].
  cbn [fail_if mbind outcome_bind]. rewrite (read_at_safe _ _ 1) by lia. cbn [mbind outcome_bind].
  destruct ((_ <? _) || _); [done|]. cbn [fail_if mbind outcome_bind].
  set (n := Z.to_nat _). destruct (Nat.ltb_spec (length buf) (pos + 1 + n + 32)); [done|].
  cbn [fail_if mbind outcome_bind]. rewrite !read_at_safe by lia. cbn [mbind outcome_bind].
  by destruct (ac_name_valid _).
Qed.

Section ReadSorted.
Context {E K} (rd : list byte → nat → outcome (E * nat)) (key : E → K) (cmp : K → K → comparison).
Context `{!CmpLaws cmp} (enc : E → list byte) (valid : E → Prop).
Hypothesis rd_bytes : ∀ pre x suf, valid x →
  rd (pre ++ enc x ++ suf) (length pre) = OK (x, (length pre + length (enc x))%nat).
Hypothesis rd_inv : ∀ buf pos x p, rd buf pos = OK (x, p) →
  p = (pos + length (enc x))%nat ∧ (p <= length buf)%nat ∧ valid x ∧
  slice buf pos (length (enc x)) = enc x.
Hypothesis rd_safe : ∀ buf pos, safe (rd buf pos).

Definition after (prev : option K) (l : list E) : Prop :=
  match prev with Some p => ∀ x, x ∈ l → cmp p (key x) = Lt | None => True end.

Lemma is_lt_true c : is_lt c = true ↔ c = Lt.
Proof. by destruct c. Qed.

Lemma read_sorted_bytes l pre suf prev : Forall valid l → sorted key cmp l → after prev l →
  read_sorted rd key cmp (length l) (pre ++ concat (map enc l) ++ suf) (length pre) prev =
  OK (l, (length pre + length (concat (map enc l)))%nat).
Proof.
  intros Hv. revert pre prev. induction Hv as [|x l Hx Hl IH]; intros pre prev Hs Hp; cbn [length map concat read_sorted].
  - by rewrite Nat.add_0_r.
  - apply StronglySorted_cons in Hs as [Hx' Hs]. rewrite Forall_forall in Hx'.
    rewrite <- app_assoc, rd_bytes by done. cbn [mbind outcome_bind].
    assert ((match prev with Some p => negb (is_lt (cmp p (key x))) | None => false end) = false) as ->.
    { destruct prev as [p|]; [|done]. apply negb_false_iff, is_lt_true, Hp. by left. }
    cbn [fail_if mbind outcome_bind]. rewrite app_assoc, <- length_app, IH; [| done | exact Hx'].
    cbn [mbind outcome_bind]. do 2 f_equal. rewrite !length_app. lia.
Qed.

Lemma read_sorted_inv n buf pos prev l p : read_sorted rd key cmp n buf pos prev = OK (l, p) →
  (pos <= length buf)%nat →
  length l = n ∧ Forall valid l ∧ sorted key cmp l ∧ after prev l ∧ (p <= length buf)%nat ∧
  p = (pos + length (concat (map enc l)))%nat ∧
  slice buf pos (length (concat (map enc l))) = concat (map enc l).
Proof.
  revert pos prev l p. induction n as [|n IH]; intros pos prev l p; cbn [read_sorted].
  - intros [= <- <-] Hp. simpl. rewrite Nat.add_0_r. repeat split; auto; [constructor|].
    destruct prev; [|done]. intros x Hx. by apply elem_of_nil in Hx.
  - intros H Hp. open_run H. destruct x as [x p1]. open_run H. open_run H. destruct x1 as [l1 p2].
    injection H as <- <-. apply rd_inv in E0 as (-> & Hle & Hv & Hsl).
    apply IH in E2 as (<- & Hvs & Hs & Ha & Hle' & -> & Hsl'); [|done]. cbn [map concat length].
    split; [done|]. split; [by constructor|]. split; [|split; [|split; [done|]]].
    + apply StronglySorted_cons. split; [|done]. apply Forall_forall. exact Ha.
    + destruct prev as [q|]; [|done]. apply negb_false_iff, is_lt_true in E1.
      intros y [->|Hy]%elem_of_cons; [done|]. eapply (cmp_lt_trans cmp); [exact E1|]. by apply Ha.
    + rewrite length_app, slice_split, Hsl, Hsl'. split; [lia|done].
Qed.

Lemma read_sorted_safe n buf pos prev : safe (read_sorted rd key cmp n buf pos prev).
Proof.
  revert pos prev. induction n as [|n IH]; intros pos prev; cbn [read_sorted]; [done|].
  apply safe_bind; [apply rd_safe|]. intros [x p] _. apply safe_bind; [by destruct prev as [q|]; [destruct (negb _)|]|].
  intros _ _. apply safe_bind; [apply IH|]. by intros [? ?].
Qed.
End ReadSorted.

Lemma read_accounts_spec_bytes l pre suf : Forall acc_wf l → acc_sorted l →
  read_accounts (length l) (pre ++ concat (map account_bytes l) ++ suf) (length pre) None =
  OK (l, (length pre + length (concat (map account_bytes l)))%nat).
Proof.
  intros. apply (read_sorted_bytes _ _ _ account_bytes acc_wf); try done.
  intros. by rewrite read_account_bytes, account_bytes_length.
Qed.
Lemma read_accounts_spec_inv n buf pos l p : read_accounts n buf pos None = OK (l, p) →
  (pos <= length buf)%nat →
  length l = n ∧ Forall acc_wf l ∧ acc_sorted l ∧ (p <= length buf)%nat ∧
  p = (pos + length (concat (map account_bytes l)))%nat ∧
  slice buf pos (length (concat (map account_bytes l))) = concat (map account_bytes l).
Proof.
  assert (∀ buf pos x p, read_account buf pos = OK (x, p) →
    p = (pos + length (account_bytes x))%nat ∧ (p <= length buf)%nat ∧ acc_wf x ∧
    slice buf pos (length (account_bytes x)) = account_bytes x) as Hinv.
  { intros ???? E. rewrite account_bytes_length. by apply read_account_inv. }
  intros H Hp. destruct (read_sorted_inv read_account addr ac_addr_cmp account_bytes acc_wf
    Hinv _ _ _ _ _ _ H Hp) as (? & ? & ? & _ & ?). auto.
Qed.
Lemma read_names_spec_inv n buf pos l p : read_names n buf pos None = OK (l, p) →
  (pos <= length buf)%nat →
  length l = n ∧ Forall (λ x, ac_name_valid (name x) = true) l ∧ name_sorted l ∧ (p <= length buf)%nat ∧
  p = (pos + length (concat (map name_bytes l)))%nat ∧
  slice buf pos (length (concat (map name_bytes l))) = concat (map name_bytes l).
Proof.
  intros H Hp.
  destruct (read_sorted_inv read_name name name_cmp name_bytes (λ x, ac_name_valid (name x) = true)
    read_name_inv _ _ _ _ _ _ H Hp) as (? & ? & ? & _ & ?). auto.
Qed.

Definition snapshot_header (cid na nn : Z) : list byte :=
  STATE_MAGIC ++ [byte_of STATE_VERSION] ++ ac_be64 cid ++ ac_be32 na ++ ac_be32 nn.

Lemma snapshot_header_length cid na nn : length (snapshot_header cid na nn) = 34%nat.
Proof. done. Qed.

Lemma read_snapshot_header_bytes cid na nn suf : is_u64 cid → is_u32 na → is_u32 nn →
  read_snapshot_header (snapshot_header cid na nn ++ suf) = OK (cid, na, nn).
Proof.
  intros H1 H2 H3. unfold read_snapshot_header.
  rewrite (proj2 (Nat.ltb_ge _ _)) by (rewrite length_app, snapshot_header_length; lia).
  cbn [fail_if mbind outcome_bind].
  set (w := [byte_of STATE_VERSION]). set (x := ac_be64 cid). set (y := ac_be32 na). set (z := ac_be32 nn).
  change (snapshot_header cid na nn) with (STATE_MAGIC ++ w ++ x ++ y ++ z).
  assert (length STATE_MAGIC = 17 ∧ length w = 1 ∧ length x = 8 ∧ length y = 4 ∧ length z = 4)%nat
    as (? & ? & ? & ? & ?) by done. remember STATE_MAGIC as m eqn:Em.
  rewrite (read_at_mid [] m (w ++ x ++ y ++ z ++ suf) _ 0 17) by mid. cbn [mbind outcome_bind].
  rewrite memcmp_lex, (cmp_refl lex_cmp) by done. cbn [is_eq negb fail_if mbind outcome_bind].
  rewrite (read_at_mid m w (x ++ y ++ z ++ suf) _ 17 1) by mid. cbn [mbind outcome_bind].
  change (at_ w 0 =? STATE_VERSION) with true. cbn [negb fail_if mbind outcome_bind].
  rewrite (read_at_mid (m ++ w) x (y ++ z ++ suf) _ 18 8) by mid.
  rewrite (read_at_mid (m ++ w ++ x) y (z ++ suf) _ 26 4) by mid.
  rewrite (read_at_mid (m ++ w ++ x ++ y) z suf _ 30 4) by mid. cbn [mbind outcome_bind].
  unfold x, y, z. rewrite ac_rd64_be64, !ac_rd32_be32, u64_id by done. unfold u32. by rewrite !Z.mod_small.
Qed.

Lemma read_snapshot_header_inv buf cid na nn : read_snapshot_header buf = OK (cid, na, nn) →
  (34 <= length buf)%nat ∧ is_u64 cid ∧ is_u32 na ∧ is_u32 nn ∧
  slice buf 0 34 = snapshot_header cid na nn.
Proof.
  unfold read_snapshot_header. intros H. repeat open_run H. injection H as <- <- <-.
  apply Nat.ltb_ge in E.
  apply read_at_ok in E0 as [-> _], E2 as [-> _], E4 as [-> _], E5 as [-> _], E6 as [-> _].
  split; [lia|]. split; [auto with wf|]. split; [auto with wf|]. split; [auto with wf|].
  change 34%nat with (17 + (1 + (8 + (4 + 4))))%nat at 1. rewrite !slice_split. unfold snapshot_header.
  rewrite ac_be64_rd64, !ac_be32_rd32 by (apply slice_length; lia).
  apply negb_false_iff in E1, E3. f_equal; [|f_equal].
  - rewrite memcmp_lex in E1; [|by apply slice_length; lia|done].
    by apply (is_eq_cmp lex_cmp) in E1.
  - assert (length (slice buf 17 1) = 1%nat) as Hl by (apply slice_length; lia).
    change (0 + 17)%nat with 17%nat. unfold at_ in E3.
    destruct (slice buf 17 1) as [|c [|? ?]]; simpl in Hl; try lia. apply Z.eqb_eq in E3. simpl in E3.
    f_equal. rewrite <- (byte_of_val c). by rewrite E3.
Qed.

Lemma read_snapshot_header_safe buf : safe (read_snapshot_header buf).
Proof.
  unfold read_snapshot_header. destruct (Nat.ltb_spec (length buf) (17 + 17)); [done|].
  cbn [fail_if mbind outcome_bind]. rewrite (read_at_safe _ 0 17) by lia. cbn [mbind outcome_bind].
  apply safe_bind; [by destruct (negb _)|]. intros _ _. rewrite (read_at_safe _ 17 1) by lia.
  cbn [mbind outcome_bind]. apply safe_bind; [by destruct (negb _)|]. intros _ _.
  rewrite !read_at_safe by lia. done.
Qed.

(** ** Snapshot round trip *)

Lemma deserialize_snapshot s s0 :
  state_wf s → zlen (accounts s) < U32 → zlen (names s) < U32 → chain_id s0 = chain_id s →
  ac_state_deserialize s0 (snapshot_bytes s) = OK (s, true).
Proof.
  intros Hs Ha Hn Hc. unfold ac_state_deserialize, snapshot_bytes.
  fold (snapshot_header (chain_id s) (zlen (accounts s)) (zlen (names s))).
  rewrite read_snapshot_header_bytes by (apply Hs || (unfold is_u32; lia)).
  rewrite Hc, Z.eqb_refl, !Nat2Z.id. cbn [negb].
  set (hd := snapshot_header _ _ _). change 34%nat with (length hd).
  rewrite read_accounts_spec_bytes by apply Hs.
  pose proof (read_sorted_bytes read_name name name_cmp name_bytes (λ x, ac_name_valid (name x) = true)
    read_name_bytes (names s) (hd ++ concat (map account_bytes (accounts s))) [] None
    (wf_names s Hs) (wf_name_sorted s Hs) I) as E.
  rewrite app_nil_r, <- app_assoc, length_app in E. unfold read_names. rewrite E.
  rewrite !length_app, Nat.add_assoc, Nat.eqb_refl. by destruct s.
Qed.

(** ** Properties *)

(** C33. Reading and writing accounts implement a finite map over the sorted array: the
    write keeps the invariants (sorted, 64-bit fields, no empty record stored), the
    map changes at one address only (removed when the account is empty), and a later
    read of any address returns what was last written there. *)
Theorem state_set_refines_map s acc a :
  state_wf s → acc_wf acc →
  state_wf (ac_state_set s acc) ∧
  (no_empty s → no_empty (ac_state_set s acc)) ∧
  acc_map (ac_state_set s acc) =
    (if account_is_empty acc then delete (addr acc) (acc_map s) else <[addr acc := acc]> (acc_map s)) ∧
  (ac_state_get (ac_state_set s acc) a).2 =
    (if decide (a = addr acc) then acc else (ac_state_get s a).2).
Proof.
  intros Hs Ha. pose proof (ac_state_set_wf s acc Hs Ha) as Hs'. split; [done|].
  split; [by apply ac_state_set_no_empty|]. split; [by apply ac_state_set_spec|].
  rewrite !ac_state_get_spec by done. by apply view_set.
Qed.

(** Registering a name succeeds exactly when it is valid and free; it then binds that
    name and no other, and the name looks up to its owner. *)
Theorem state_name_register_spec s n a :
  state_wf s →
  (is_Some (ac_state_name_register s n a) ↔
     ac_name_valid n = true ∧ ac_state_name_lookup s n = None) ∧
  (∀ s', ac_state_name_register s n a = Some s' →
     state_wf s' ∧ accounts s' = accounts s ∧ ac_state_name_lookup s' n = Some a ∧
     ∀ m, m ≠ n → ac_state_name_lookup s' m = ac_state_name_lookup s m).
Proof.
  intros Hs. pose proof (ac_state_name_register_spec s n a Hs) as H.
  rewrite (ac_state_name_lookup_spec s) by done.
  destruct (ac_state_name_register s n a) as [s1|].
  - destruct H as (V & Hn & Hm & Hw & Ha & Hc). split.
    + rewrite Hn, V. split; [done | eauto].
    + intros s' [= <-]. split; [done|]. split; [done|].
      setoid_rewrite ac_state_name_lookup_spec; [|done..]. rewrite Hm. split; [by rewrite lookup_insert_eq|].
      intros m Hne. by rewrite lookup_insert_ne.
  - split; [|done]. split; [by intros []|].
    intros [V Hl]. destruct H as [H|[x H]]; [congruence|]. by rewrite H in Hl.
Qed.

(** C34. Snapshots round-trip: a well-formed state with fewer than 2^32 records always
    serializes, within the size computed for it, and loading the bytes into any state
    of the same chain restores it. *)
Theorem state_serialize_deserialize s s0 :
  state_wf s → zlen (accounts s) < U32 → zlen (names s) < U32 → chain_id s0 = chain_id s →
  ∃ bs, ac_state_serialize s = Some bs ∧ ac_state_deserialize s0 bs = OK (s, true).
Proof.
  intros Hs Ha Hn Hc. exists (snapshot_bytes s).
  split; [by apply ac_state_serialize_bytes | by apply deserialize_snapshot].
Qed.

(** The loader on any bytes. *)
Lemma deserialize_sound s0 buf :
  safe (ac_state_deserialize s0 buf) ∧
  ∀ s, ac_state_deserialize s0 buf = OK (s, true) →
    state_wf s ∧ chain_id s = chain_id s0 ∧ ac_state_serialize s = Some buf.
Proof.
  unfold ac_state_deserialize.
  pose proof (read_snapshot_header_safe buf) as Hsafe.
  destruct (read_snapshot_header buf) as [[[cid na] nn]| |] eqn:E; [|split; [done | congruence]|done].
  apply read_snapshot_header_inv in E as (Hlen & Hcid & Hna & Hnn & Hsl).
  destruct (Z.eqb_spec cid (chain_id s0)) as [->|]; cbn [negb]; [|split; [done | congruence]].
  pose proof (read_sorted_safe read_account addr ac_addr_cmp read_account_safe (Z.to_nat na) buf 34 None) as Sa.
  fold read_accounts in Sa. destruct (read_accounts _ _ _ _) as [[la p]| |] eqn:E; [|split; [done | congruence]|done].
  apply read_accounts_spec_inv in E as (Hla & Hwa & Hsa & Hp & -> & Hsl1); [|lia].
  pose proof (read_sorted_safe read_name name name_cmp read_name_safe (Z.to_nat nn) buf) as Sn.
  fold read_names in Sn. specialize (Sn (34 + length (concat (map account_bytes la)))%nat None).
  destruct (read_names _ _ _ _) as [[ln p]| |] eqn:E; [|split; [done | congruence]|done].
  apply read_names_spec_inv in E as (Hln & Hwn & Hsn & Hp' & -> & Hsl2); [|lia].
  split; [done|]. intros s H. destruct (Nat.eqb_spec (34 + length (concat (map account_bytes la)) +
    length (concat (map name_bytes ln))) (length buf)) as [Heq|] in H; [|congruence].
  injection H as <-.
  assert (state_wf (mkState (chain_id s0) la ln)) as Hw by by constructor.
  split; [done|]. split; [done|]. rewrite ac_state_serialize_bytes by done. f_equal.
  unfold snapshot_bytes. cbn [chain_id accounts names].
  fold (snapshot_header (chain_id s0) (zlen la) (zlen ln)).
  rewrite Hla, Hln, !Z2Nat.id by (widths; lia).
  transitivity (slice buf 0 (length buf)); [|by rewrite slice_whole].
  rewrite <- Heq, !slice_split, Hsl, !Nat.add_0_l, Hsl1, Hsl2. by rewrite <- app_assoc.
Qed.

(** C35. Loading a snapshot never reads outside the buffer, whatever it holds; and when it
    succeeds the state is well formed and the buffer is its own serialization. *)
Theorem state_deserialize_safe_canonical s0 buf :
  safe (ac_state_deserialize s0 buf) ∧
  ∀ s, ac_state_deserialize s0 buf = OK (s, true) →
    state_wf s ∧ chain_id s = chain_id s0 ∧ ac_state_serialize s = Some buf.
Proof. apply deserialize_sound. Qed.

(** ** What the state root commits to *)

(** The bytes hashed after the domain tag. *)
Definition root_bytes (s : ac_state_t) : list byte :=
  concat (map account_bytes (accounts s)) ++ [byte_of 255] ++ concat (map name_bytes (names s)).

Lemma ac_state_root_hash `{!Sodium} `{!SodiumLaws _} s :
  ac_state_root s = ac_hash (STATE_DOMAIN ++ root_bytes s).
Proof.
  unfold ac_state_root, root_chunks. rewrite ac_hash_multi_concat, !concat_app, !concat_bind. done.
Qed.

Lemma account_bytes_inj a c : acc_wf a → acc_wf c → account_bytes a = account_bytes c → a = c.
Proof.
  intros Ha Hc E. pose proof (read_account_bytes [] a [] Ha) as H1.
  pose proof (read_account_bytes [] c [] Hc) as H2. rewrite E, H2 in H1. by injection H1.
Qed.
Lemma name_bytes_prefix m n u v : ac_name_valid (name m) = true → ac_name_valid (name n) = true →
  name_bytes m ++ u = name_bytes n ++ v → m = n.
Proof.
  intros Hm Hn E. pose proof (read_name_bytes [] m u Hm) as H1.
  pose proof (read_name_bytes [] n v Hn) as H2. rewrite E, H2 in H1. by injection H1.
Qed.

Lemma names_bytes_inj l k : Forall (λ x, ac_name_valid (name x) = true) l →
  Forall (λ x, ac_name_valid (name x) = true) k →
  concat (map name_bytes l) = concat (map name_bytes k) → l = k.
Proof.
  intros Hl. revert k. induction Hl as [|m l Hm Hl IH]; intros k Hk E; destruct Hk as [|n k Hn Hk]; [done|..].
  - apply (f_equal length) in E. cbn [map concat] in E. len.
  - apply (f_equal length) in E. cbn [map concat] in E. len.
  - cbn [map concat] in E. assert (m = n) as -> by by eapply name_bytes_prefix.
    apply app_inv_head in E. f_equal. by apply IH.
Qed.

Definition starts_ff (a : ac_addr_t) : bool :=
  match b a with c :: _ => byte_val c =? 255 | [] => false end.

Lemma account_not_sep a u v : starts_ff (addr a) = false → account_bytes a ++ u ≠ byte_of 255 :: v.
Proof.
  unfold starts_ff, account_bytes, account_chunks. cbn [concat]. pose proof (b_length (addr a)) as Hl.
  destruct (b (addr a)) as [|c l]; [done|]. intros H [= -> _]. by vm_compute in H.
Qed.

Lemma root_bytes_inj la ka ln kn :
  Forall acc_wf la → Forall acc_wf ka →
  Forall (λ x, ac_name_valid (name x) = true) ln → Forall (λ x, ac_name_valid (name x) = true) kn →
  Forall (λ a, starts_ff (addr a) = false) la → Forall (λ a, starts_ff (addr a) = false) ka →
  concat (map account_bytes la) ++ [byte_of 255] ++ concat (map name_bytes ln) =
  concat (map account_bytes ka) ++ [byte_of 255] ++ concat (map name_bytes kn) →
  la = ka ∧ ln = kn.
Proof.
  intros Hl Hk Hln Hkn Fl. revert ka Hk. induction Fl as [|a la Fa Fl IH]; intros ka Hk Fk E;
    destruct Fk as [|c ka Fc Fk]; cbn [map concat] in E.
  - injection E as E. split; [done|]. by apply names_bytes_inj.
  - rewrite <- app_assoc in E. symmetry in E. by apply account_not_sep in E.
  - rewrite <- app_assoc in E. by apply account_not_sep in E.
  - apply Forall_cons in Hl as [Ha Hl], Hk as [Hc Hk]. rewrite <- !app_assoc in E.
    apply app_inj_1 in E as [E1 E2]; [|len]. apply account_bytes_inj in E1 as ->; [|done..].
    destruct (IH Hl ka Hk Fk E2) as [-> ->]. done.
Qed.

(** The state root depends on the contents only: two well-formed states with the same
    accounts and names have the same root, whatever operations built them. Conversely the
    hashed bytes determine the contents as long as no address starts with the separator
    byte 0xFF. *)
Theorem state_root_commits `{!Sodium} `{!SodiumLaws _} s t :
  state_wf s → state_wf t →
  (acc_map s = acc_map t → name_map s = name_map t → ac_state_root s = ac_state_root t) ∧
  (Forall (λ a, starts_ff (addr a) = false) (accounts s) →
   Forall (λ a, starts_ff (addr a) = false) (accounts t) →
   concat (root_chunks s) = concat (root_chunks t) → acc_map s = acc_map t ∧ name_map s = name_map t).
Proof.
  intros Hs Ht. split.
  - intros Ha Hn. unfold ac_state_root, root_chunks.
    rewrite (to_map_inj addr ac_addr_cmp (accounts s) (accounts t)), (to_map_inj name name_cmp (names s) (names t));
      try done; apply Hs || apply Ht.
  - intros Fs Ft E. unfold root_chunks in E. rewrite !concat_app, !concat_bind in E.
    apply app_inv_head in E. unfold acc_map, name_map.
    destruct (root_bytes_inj (accounts s) (accounts t) (names s) (names t)) as [-> ->];
      try done; apply Hs || apply Ht.
Qed.

(** Without that restriction the separator is ambiguous: an account whose
    address reads 0xFF, 31, thirty letters hashes like a registered name. *)
Definition ff_addr : ac_addr_t := bytes_of 32 (byte_of 255 :: byte_of 31 :: repeat (byte_of 97) 30).
Definition ff_account : ac_account_t := mkAcc ff_addr (97 * 2 ^ 56) 0 0 0.
Definition ff_name : state_name_t :=
  mkName (repeat (byte_of 97) 31) (bytes_of 32 (repeat x00 31 ++ [byte_of 255])).

Lemma state_root_separator_ambiguous :
  let s := mkState 1 [ff_account] [] in
  let t := mkState 1 [] [ff_name] in
  state_wf s ∧ state_wf t ∧ s ≠ t ∧ concat (root_chunks s) = concat (root_chunks t).
Proof.
  split; [|split; [|split; [done | by vm_compute]]].
  - constructor; simpl; repeat constructor; by vm_compute.
  - constructor; simpl; repeat constructor; by vm_compute.
Qed.

(** ** Witnesses *)

Definition sample_state : ac_state_t :=
  mkState 7 [mkAcc (addr_of 1) 5000000 0 200000000 0; mkAcc (addr_of 2) 40 1 0 0]
            [mkName (str "alice") (addr_of 1)].

Lemma sample_state_wf : state_wf sample_state.
Proof.
  constructor; [by vm_compute | | | | by repeat constructor].
  - repeat constructor; by vm_compute.
  - repeat constructor; by vm_compute.
  - repeat constructor.
Qed.

Lemma state_set_refines_map_witness :
  (ac_state_get (ac_state_set sample_state (mkAcc (addr_of 3) 9 0 0 0)) (addr_of 3)).2 =
  mkAcc (addr_of 3) 9 0 0 0.
Proof.
  refine (eq_trans (proj2 (proj2 (proj2 (state_set_refines_map sample_state (mkAcc (addr_of 3) 9 0 0 0)
    (addr_of 3) sample_state_wf _)))) _); [|reflexivity].
  constructor; vm_compute; intuition congruence.
Defined.

Lemma state_name_register_spec_witness :
  is_Some (ac_state_name_register sample_state (str "bob") (addr_of 2)).
Proof. apply (state_name_register_spec sample_state), conj; [apply sample_state_wf | reflexivity..]. Defined.

Lemma state_serialize_deserialize_witness :
  ∃ bs, ac_state_serialize sample_state = Some bs ∧
        ac_state_deserialize (ac_state_new 7) bs = OK (sample_state, true).
Proof.
  apply state_serialize_deserialize; [apply sample_state_wf | reflexivity..].
Defined.

Lemma state_root_commits_witness :
  acc_map sample_state = acc_map sample_state ∧ name_map sample_state = name_map sample_state.
Proof.
  apply (@state_root_commits toy_sodium _ sample_state sample_state sample_state_wf sample_state_wf);
    repeat constructor.
Defined.
