(* ===== verification/Apply.v ===== *)
(** * state.c, [ac_state_apply_tx]: the state transition of one transaction

    The handler is modelled whole: the guards in the order of the code, the
    switch over the kinds ([apply_body], one definition per case), the fee
    charge and the final write of the sender. The return code, the state and
    the [ac_apply_result_t] are the three outputs. *)

From S2P Require Import Prelude Common Crypto Cursor Codec SortedArray State.

Record ac_apply_result_t := mkResult {
  res_ok : bool;
  res_gas_used : Z;
  res_fee_burned : Z;
  res_fee_tip : Z;
  res_err : string
}.

Definition result_set_err (r : ac_apply_result_t) (msg : string) : ac_apply_result_t :=
  mkResult false (res_gas_used r) (res_fee_burned r) (res_fee_tip r) msg.
Definition zero_result : ac_apply_result_t := mkResult false 0 0 0 EmptyString.

(** The locals the switch updates: the store, the sender's copy, the gas
    charged, [Some body_err] when [body_ok] was cleared, and what the body
    added to [result->fee_burned]. *)
Record body_out := mkBody {
  bo_state : ac_state_t;
  bo_sender : ac_account_t;
  bo_gas : Z;
  bo_err : option string;
  bo_burned : Z
}.

Definition with_balance (a : ac_account_t) (v : Z) : ac_account_t :=
  mkAcc (addr a) v (nonce a) (stake a) (unbond_at a).
Definition with_stake (a : ac_account_t) (v : Z) : ac_account_t :=
  mkAcc (addr a) (balance a) (nonce a) v (unbond_at a).
Definition with_nonce (a : ac_account_t) (v : Z) : ac_account_t :=
  mkAcc (addr a) (balance a) v (stake a) (unbond_at a).
Definition with_unbond (a : ac_account_t) (v : Z) : ac_account_t :=
  mkAcc (addr a) (balance a) (nonce a) (stake a) v.
Definition with_addr (a : ac_account_t) (v : ac_addr_t) : ac_account_t :=
  mkAcc v (balance a) (nonce a) (stake a) (unbond_at a).

Section Apply.
Context `{!Sodium}.

Definition body_fail (s : ac_state_t) (sender : ac_account_t) (gas : Z) (msg : string) : body_out :=
  mkBody s sender gas (Some msg) 0.

(** The body was decoded once already when the value was read, so the [None]
    case is not reached. *)
Definition apply_transfer (s : ac_state_t) (sender : ac_account_t) (t : ac_tx_t) (gas : Z) : body_out :=
  match ac_body_transfer_decode (tx_body t) with
  | None => body_fail s sender gas "bad body"
  | Some x =>
      let '(exists_, rcv) := ac_state_get s (recipient x) in
      let new_acc_cost := if negb exists_ then 50 else 0 in
      let gas := gas ⊕ new_acc_cost in
      if tx_gas_limit t <? gas then body_fail s sender gas "out of gas"
      else
        let sender := with_balance sender (balance sender ⊖ transfer_amount x) in
        let rcv := with_addr rcv (recipient x) in
        let rcv := with_balance rcv (balance rcv ⊕ transfer_amount x) in
        mkBody (ac_state_set s rcv) sender gas None 0
  end.

Definition apply_bond (s : ac_state_t) (sender : ac_account_t) (t : ac_tx_t) (gas : Z) : body_out :=
  match ac_body_stake_decode (tx_body t) with
  | None => body_fail s sender gas "bad body"
  | Some x =>
      if balance sender <? stake_amount x then body_fail s sender gas "insufficient"
      else
        let sender := with_balance sender (balance sender ⊖ stake_amount x) in
        let sender := with_stake sender (stake sender ⊕ stake_amount x) in
        mkBody s sender gas None 0
  end.

Definition apply_unbond (s : ac_state_t) (sender : ac_account_t) (t : ac_tx_t) (slot gas : Z) : body_out :=
  match ac_body_stake_decode (tx_body t) with
  | None => body_fail s sender gas "bad body"
  | Some x =>
      if stake sender <? stake_amount x then body_fail s sender gas "insufficient stake"
      else
        let sender := with_stake sender (stake sender ⊖ stake_amount x) in
        let sender := with_balance sender (balance sender ⊕ stake_amount x) in
        let sender := if unbond_at sender =? 0
                      then with_unbond sender (slot ⊕ (AC_EPOCH_SLOTS * 6 / 24)) else sender in
        mkBody s sender gas None 0
  end.

Definition NAME_FEE : Z := 1000000.

Definition apply_register_name (s : ac_state_t) (sender : ac_account_t) (t : ac_tx_t) (gas : Z) : body_out :=
  match ac_body_name_decode (tx_body t) with
  | None => body_fail s sender gas "bad name"
  | Some x =>
      if balance sender <? NAME_FEE then body_fail s sender gas "fee"
      else
        let sender1 := with_balance sender (balance sender ⊖ NAME_FEE) in
        match ac_state_name_register s (body_name x) (tx_sender t) with
        | None => body_fail s (with_balance sender1 (balance sender1 ⊕ NAME_FEE)) gas "name taken"
        | Some s' => mkBody s' sender1 gas None NAME_FEE
        end
  end.

Definition apply_slash (s : ac_state_t) (sender : ac_account_t) (t : ac_tx_t) (gas : Z) : body_out :=
  match ac_body_slash_decode (tx_body t) with
  | None => body_fail s sender gas "bad evidence"
  | Some x =>
      if ac_hash_eq (block_hash_a x) (block_hash_b x)
      then body_fail s sender gas "non-conflicting evidence"
      else
        let vm_a := ac_vote_message (slash_height x) (block_hash_a x) in
        let vm_b := ac_vote_message (slash_height x) (block_hash_b x) in
        if negb (ac_verify (sig_a x) vm_a (slash_validator x)) ||
           negb (ac_verify (sig_b x) vm_b (slash_validator x))
        then body_fail s sender gas "bad signatures"
        else
          let v := (ac_state_get s (slash_validator x)).2 in
          if stake v =? 0 then body_fail s sender gas "no stake"
          else
            let reward := stake v / 2 in
            let s := ac_state_set s (with_stake v 0) in
            mkBody s (with_balance sender (balance sender ⊕ reward)) gas None 0
  end.

Definition apply_body (s : ac_state_t) (sender : ac_account_t) (t : ac_tx_t) (slot gas : Z) : body_out :=
  if tx_kind t =? AC_TX_TRANSFER then apply_transfer s sender t gas
  else if tx_kind t =? AC_TX_STAKE_BOND then apply_bond s sender t gas
  else if tx_kind t =? AC_TX_STAKE_UNBOND then apply_unbond s sender t slot gas
  else if tx_kind t =? AC_TX_REGISTER_NAME then apply_register_name s sender t gas
  else if tx_kind t =? AC_TX_SLASH_EVIDENCE then apply_slash s sender t gas
  else body_fail s sender gas "unknown kind".

(** The value the balance check adds to the maximum fee; [None] is "bad body". *)
Definition tx_value (t : ac_tx_t) : option Z :=
  if tx_kind t =? AC_TX_TRANSFER then transfer_amount <$> ac_body_transfer_decode (tx_body t)
  else Some 0.

(** Charge gas, write the sender back, fill the result. *)
Definition apply_finish (t : ac_tx_t) (base_fee : Z) (o : body_out)
    : Z * ac_state_t * ac_apply_result_t :=
  let sender := bo_sender o in
  let actual_gas := if tx_gas_limit t <? bo_gas o then tx_gas_limit t else bo_gas o in
  let fee_burned := actual_gas ⊗ base_fee in
  let fee_tip := actual_gas ⊗ tx_tip t in
  let sender :=
    if balance sender <? (fee_burned ⊕ fee_tip) then
      let total := fee_burned ⊕ fee_tip in
      let total := if balance sender <? total then balance sender else total in
      with_balance sender (balance sender ⊖ total)
    else with_balance sender (balance sender ⊖ (fee_burned ⊕ fee_tip)) in
  let r := mkResult false actual_gas (bo_burned o ⊕ fee_burned) fee_tip EmptyString in
  let s := ac_state_set (bo_state o) (with_addr sender (tx_sender t)) in
  match bo_err o with
  | Some msg => (1, s, result_set_err r msg)
  | None => (0, s, mkResult true actual_gas (bo_burned o ⊕ fee_burned) fee_tip EmptyString)
  end.

Definition reject (s : ac_state_t) (msg : string) : Z * ac_state_t * ac_apply_result_t :=
  (-1, s, result_set_err zero_result msg).

Definition ac_state_apply_tx (s : ac_state_t) (t : ac_tx_t) (slot base_fee : Z)
    : Z * ac_state_t * ac_apply_result_t :=
  if negb (tx_version t =? AC_TX_VERSION) then reject s "bad version"
  else if negb (tx_chain_id t =? chain_id s) then reject s "wrong chain_id"
  else if tx_valid_until t <=? slot then reject s "expired"
  else
    let sender := (ac_state_get s (tx_sender t)).2 in
    if negb (tx_nonce t =? nonce sender) then reject s "bad nonce"
    else
      let igas := ac_tx_intrinsic_gas (tx_kind t) in
      if igas <? 0 then reject s "unknown kind"
      else
        let needed_gas := igas ⊕ zlen (tx_memo t) in
        if tx_gas_limit t <? needed_gas then reject s "gas limit too low"
        else
          let per_gas := base_fee ⊕ tx_tip t in
          if negb (per_gas =? 0) && (UINT64_MAX / per_gas <? tx_gas_limit t)
          then reject s "fee overflow"
          else
            let max_fee := tx_gas_limit t ⊗ per_gas in
            match tx_value t with
            | None => reject s "bad body"
            | Some value =>
                if (UINT64_MAX - value <? max_fee) || (balance sender <? (max_fee ⊕ value))
                then reject s "insufficient balance"
                else
                  let sender := with_nonce sender (nonce sender ⊕ 1) in
                  apply_finish t base_fee (apply_body s sender t slot needed_gas)
            end.
End Apply.

(** ** Admission *)

Definition needed_gas (t : ac_tx_t) : Z := ac_tx_intrinsic_gas (tx_kind t) + zlen (tx_memo t).

(** What the guards let through, without machine arithmetic except for the one
    sum the code does not check: [base_fee + tip] wraps. *)
Record admissible (s : ac_state_t) (t : ac_tx_t) (slot base_fee value : Z) : Prop := {
  adm_version : tx_version t = AC_TX_VERSION;
  adm_chain : tx_chain_id t = chain_id s;
  adm_slot : slot < tx_valid_until t;
  adm_nonce : tx_nonce t = nonce (view s (tx_sender t));
  adm_kind : AC_TX_TRANSFER <= tx_kind t <= AC_TX_SLASH_EVIDENCE;
  adm_gas : needed_gas t <= tx_gas_limit t;
  adm_value : tx_value t = Some value;
  adm_funds : tx_gas_limit t * (base_fee ⊕ tx_tip t) + value <= balance (view s (tx_sender t))
}.

Lemma intrinsic_gas_range k : is_u8 k →
  (AC_TX_TRANSFER <= k <= AC_TX_SLASH_EVIDENCE ∧ 21 <= ac_tx_intrinsic_gas k <= 521) ∨
  (~ (AC_TX_TRANSFER <= k <= AC_TX_SLASH_EVIDENCE) ∧ ac_tx_intrinsic_gas k = -1).
Proof.
  intros Hk. unfold ac_tx_intrinsic_gas.
  repeat match goal with |- context [?x =? ?y] => destruct (Z.eqb_spec x y) end; subst; simpl; lia.
Qed.

Lemma needed_gas_range t : tx_wf t → AC_TX_TRANSFER <= tx_kind t <= AC_TX_SLASH_EVIDENCE →
  0 <= needed_gas t <= 10000.
Proof.
  intros Ht Hk. unfold needed_gas. pose proof (wf_tx_memo t Ht).
  destruct (intrinsic_gas_range (tx_kind t) (wf_tx_kind t Ht)); lia.
Qed.

Lemma tx_value_range t v : tx_value t = Some v → is_u64 v.
Proof.
  unfold tx_value. destruct (_ =? _); [|intros [= <-]; by vm_compute].
  destruct (ac_body_transfer_decode (tx_body t)) as [x|] eqn:E; [|done]. intros [= <-].
  unfold ac_body_transfer_decode in E.
  eapply (run_exact_consumes _ (λ x _, is_u64 (transfer_amount x))) in E; [done|].
  eapply consumes_impl; [unfold transfer_reader; consumes_walk|]. cbv beta. intros. by opened.
Qed.

Lemma fee_check g p : 0 <= g → is_u64 p →
  (negb (p =? 0) && (UINT64_MAX / p <? g)) = false → 0 <= g * p <= UINT64_MAX.
Proof.
  intros Hg Hp H. apply andb_false_iff in H as [H|H].
  - apply negb_false_iff, Z.eqb_eq in H as ->. rewrite Z.mul_0_r. by vm_compute.
  - apply Z.ltb_ge in H. destruct (decide (p = 0)) as [->|].
    + rewrite Z.mul_0_r. by vm_compute.
    + unfold is_u64 in Hp. pose proof (Z.mul_div_le UINT64_MAX p ltac:(lia)). nia.
Qed.
Lemma fee_check_true g p : 0 <= g → is_u64 p →
  (negb (p =? 0) && (UINT64_MAX / p <? g)) = true → UINT64_MAX < g * p.
Proof.
  intros Hg Hp [H1%negb_true_iff%Z.eqb_neq H2%Z.ltb_lt]%andb_true_iff.
  unfold is_u64 in Hp. pose proof (Z.mul_succ_div_gt UINT64_MAX p ltac:(lia)). nia.
Qed.

Ltac rejected := eexists; split; [|reflexivity]; done.

Section ApplyFacts.
Context `{!Sodium}.

Definition sender_of (s : ac_state_t) (t : ac_tx_t) : ac_account_t :=
  let a := view s (tx_sender t) in with_nonce a (nonce a ⊕ 1).
Definition body_of (s : ac_state_t) (t : ac_tx_t) (slot : Z) : body_out :=
  apply_body s (sender_of s t) t slot (needed_gas t).

(** The guards accept exactly the admissible transactions; the rest returns -1
    with the state untouched and an error message. *)
Lemma apply_cases s t slot bf : state_wf s → tx_wf t →
  (∃ v, admissible s t slot bf v ∧ is_u64 v ∧
        ac_state_apply_tx s t slot bf = apply_finish t bf (body_of s t slot)) ∨
  ((∀ v, ~ admissible s t slot bf v) ∧
   ∃ msg, msg ≠ EmptyString ∧ ac_state_apply_tx s t slot bf = reject s msg).
Proof.
  intros Hs Ht. unfold ac_state_apply_tx. rewrite ac_state_get_spec by done. cbn [snd].
  destruct (Z.eqb_spec (tx_version t) AC_TX_VERSION); cbn [negb];
    [|right; split; [by intros v []|rejected]].
  destruct (Z.eqb_spec (tx_chain_id t) (chain_id s)); cbn [negb];
    [|right; split; [by intros v []|rejected]].
  destruct (Z.leb_spec (tx_valid_until t) slot);
    [right; split; [intros v []; lia|rejected]|].
  destruct (Z.eqb_spec (tx_nonce t) (nonce (view s (tx_sender t)))); cbn [negb];
    [|right; split; [by intros v []|rejected]].
  pose proof (wf_tx_memo t Ht) as Hm. pose proof (wf_tx_gas_limit t Ht) as Hg.
  destruct (intrinsic_gas_range (tx_kind t) (wf_tx_kind t Ht)) as [[Hk Hi]|[Hk Hi]].
  2:{ rewrite Hi. simpl. right. split; [by intros v []|rejected]. }
  rewrite (proj2 (Z.ltb_ge _ _)) by lia. rewrite u64_id by (widths; lia). fold (needed_gas t).
  destruct (Z.ltb_spec (tx_gas_limit t) (needed_gas t));
    [right; split; [intros v []; lia|rejected]|].
  pose proof (wf_balance _ (view_wf s (tx_sender t) Hs)) as Hb.
  assert (is_u64 (bf ⊕ tx_tip t)) as Hp by apply u64_range.
  destruct (negb _ && _) eqn:Hf.
  { apply fee_check_true in Hf; [|unfold is_u32 in Hg; lia|done]. right. split; [|rejected].
    intros v [_ _ _ _ _ _ Hv%tx_value_range Hfunds]. unfold is_u64 in *. lia. }
  apply fee_check in Hf; [|unfold is_u32 in Hg; lia|done].
  rewrite (u64_id (_ * _)) by (unfold is_u64; lia).
  destruct (tx_value t) as [v|] eqn:Hv;
    [|right; split; [intros v []; congruence|rejected]].
  pose proof (tx_value_range _ _ Hv) as Hvr. unfold is_u64 in Hvr, Hb.
  destruct (Z.ltb_spec (UINT64_MAX - v) (tx_gas_limit t * (bf ⊕ tx_tip t))); cbn [orb].
  { right; split; [|rejected]. intros v' [_ _ _ _ _ _ Hv' Hfunds].
    assert (v' = v) as -> by congruence. lia. }
  rewrite (u64_id (_ + v)) by (unfold is_u64; lia).
  destruct (Z.ltb_spec (balance (view s (tx_sender t))) (tx_gas_limit t * (bf ⊕ tx_tip t) + v)).
  { right; split; [|rejected]. intros v' [_ _ _ _ _ _ Hv' Hfunds].
    assert (v' = v) as -> by congruence. lia. }
  left. exists v. split; [by constructor|]. done.
Qed.

(** ** What the switch may do *)

(** The account, other than the sender, that a body may write. *)
Definition touched (t : ac_tx_t) : list ac_addr_t :=
  if tx_kind t =? AC_TX_TRANSFER then
    match ac_body_transfer_decode (tx_body t) with Some x => [recipient x] | None => [] end
  else if tx_kind t =? AC_TX_SLASH_EVIDENCE then
    match ac_body_slash_decode (tx_body t) with Some x => [slash_validator x] | None => [] end
  else [].

Record body_props (s : ac_state_t) (snd : ac_account_t) (l : list ac_addr_t) (gas : Z) (o : body_out) : Prop := {
  bp_wf : state_wf (bo_state o);
  bp_no_empty : no_empty s → no_empty (bo_state o);
  bp_chain : chain_id (bo_state o) = chain_id s;
  bp_addr : addr (bo_sender o) = addr snd;
  bp_nonce : nonce (bo_sender o) = nonce snd;
  bp_sender_wf : acc_wf (bo_sender o);
  bp_gas : gas <= bo_gas o <= gas + 50;
  bp_burned : 0 <= bo_burned o <= NAME_FEE;
  bp_frame : ∀ a, a ∉ l → view (bo_state o) a = view s a;
  bp_nonces : ∀ a, nonce (view (bo_state o) a) = nonce (view s a);
  bp_failed : bo_err o ≠ None → bo_state o = s ∧ bo_sender o = snd ∧ bo_burned o = 0
}.

Lemma body_fail_props s snd l gas gas' msg : state_wf s → acc_wf snd → gas <= gas' <= gas + 50 →
  body_props s snd l gas (body_fail s snd gas' msg).
Proof. intros. by constructor; simpl. Qed.

(** Bodies that only edit the sender's copy. *)
Lemma body_local_props s snd snd' l gas : state_wf s → acc_wf snd' →
  addr snd' = addr snd → nonce snd' = nonce snd → body_props s snd l gas (mkBody s snd' gas None 0).
Proof. intros. constructor; simpl; auto; lia || done. Qed.

(** Bodies that write one other account. *)
Lemma body_set_props s snd snd' a l gas gas' : state_wf s → acc_wf snd' → acc_wf a →
  addr snd' = addr snd → nonce snd' = nonce snd → addr a ∈ l → gas <= gas' <= gas + 50 →
  nonce a = nonce (view s (addr a)) →
  body_props s snd l gas (mkBody (ac_state_set s a) snd' gas' None 0).
Proof.
  intros Hs Hsnd Ha He Hn Hin Hg Hna. constructor; simpl; auto using ac_state_set_wf, ac_state_set_no_empty; try done.
  - apply ac_state_set_frame.
  - intros x Hx. apply view_set_ne; [done|]. by intros ->.
  - intros x. rewrite view_set by done. case_decide; by subst.
Qed.

Ltac acc_fields := constructor; cbn [balance nonce stake unbond_at with_balance with_stake with_nonce
  with_unbond with_addr]; auto with wf.

Lemma apply_transfer_props s snd t gas : state_wf s → acc_wf snd → tx_kind t = AC_TX_TRANSFER →
  0 <= gas <= 10000 → body_props s snd (touched t) gas (apply_transfer s snd t gas).
Proof.
  intros Hs Hsnd Hk Hg. unfold apply_transfer, touched. rewrite Hk. simpl.
  destruct (ac_body_transfer_decode (tx_body t)) as [x|]; [|apply body_fail_props; auto; lia].
  rewrite ac_state_get_spec by done. set (ex := bool_decide _).
  assert (gas <= (gas ⊕ (if negb ex then 50 else 0)) <= gas + 50) as Hgas.
  { destruct ex; simpl; rewrite u64_id by (widths; lia); lia. }
  destruct (_ <? _); [by apply body_fail_props|].
  pose proof (view_wf s (recipient x) Hs) as Hv. destruct Hsnd, Hv.
  apply body_set_props; auto; [acc_fields | acc_fields | by left].
Qed.

Lemma apply_bond_props s snd t l gas : state_wf s → acc_wf snd →
  body_props s snd l gas (apply_bond s snd t gas).
Proof.
  intros Hs Hsnd. unfold apply_bond.
  destruct (ac_body_stake_decode (tx_body t)) as [x|]; [|apply body_fail_props; auto; lia].
  destruct (_ <? _); [apply body_fail_props; auto; lia|]. destruct Hsnd.
  apply body_local_props; auto. acc_fields.
Qed.

Lemma apply_unbond_props s snd t l slot gas : state_wf s → acc_wf snd →
  body_props s snd l gas (apply_unbond s snd t slot gas).
Proof.
  intros Hs Hsnd. unfold apply_unbond.
  destruct (ac_body_stake_decode (tx_body t)) as [x|]; [|apply body_fail_props; auto; lia].
  destruct (_ <? _); [apply body_fail_props; auto; lia|]. destruct Hsnd.
  apply body_local_props; auto; destruct (_ =? 0); auto; acc_fields.
Qed.

Lemma refund_id v f : is_u64 v → 0 <= f <= v → ((v ⊖ f) ⊕ f) = v.
Proof. intros. rewrite (u64_id (v - f)) by (widths; lia). rewrite u64_id; [lia | by rewrite Z.sub_add]. Qed.

(** Taking a fee and giving it back leaves the account as it was. *)
Lemma refund_sender a f : acc_wf a → 0 <= f <= balance a →
  let a1 := with_balance a (balance a ⊖ f) in with_balance a1 (balance a1 ⊕ f) = a.
Proof.
  intros [Hb _ _ _] Hf. destruct a as [ad ba no st un]; unfold with_balance; cbn [balance addr nonce stake unbond_at] in *.
  by rewrite refund_id.
Qed.

Lemma apply_register_name_props s snd t l gas : state_wf s → acc_wf snd →
  body_props s snd l gas (apply_register_name s snd t gas).
Proof.
  intros Hs Hsnd. unfold apply_register_name.
  destruct (ac_body_name_decode (tx_body t)) as [x|]; [|apply body_fail_props; auto; lia].
  destruct (Z.ltb_spec (balance snd) NAME_FEE); [apply body_fail_props; auto; lia|].
  pose proof (ac_state_name_register_spec s (body_name x) (tx_sender t) Hs) as Hr.
  destruct (ac_state_name_register _ _ _) as [s'|].
  - destruct Hr as (_ & _ & _ & Hs' & Ha & Hc).
    constructor; simpl; auto; try done; try (unfold no_empty, view, acc_map; by rewrite Ha).
    + destruct Hsnd. acc_fields.
    + lia.
  - rewrite refund_sender by (done || (unfold NAME_FEE in *; lia)). apply body_fail_props; auto; lia.
Qed.

Lemma apply_slash_props s snd t gas : state_wf s → acc_wf snd → tx_kind t = AC_TX_SLASH_EVIDENCE →
  body_props s snd (touched t) gas (apply_slash s snd t gas).
Proof.
  intros Hs Hsnd Hk. unfold apply_slash, touched. rewrite Hk. simpl.
  destruct (ac_body_slash_decode (tx_body t)) as [x|]; [|apply body_fail_props; auto; lia].
  destruct (ac_hash_eq _ _); [apply body_fail_props; auto; lia|].
  destruct (negb _ || _); [apply body_fail_props; auto; lia|].
  rewrite ac_state_get_spec by done. cbn [Datatypes.snd].
  destruct (_ =? 0); [apply body_fail_props; auto; lia|].
  pose proof (view_wf s (slash_validator x) Hs) as Hv. destruct Hsnd, Hv.
  apply body_set_props; auto; try lia; [acc_fields | acc_fields; by vm_compute |..];
    cbn [with_stake addr nonce]; rewrite view_addr by done; [by left | done].
Qed.

(** The name fee is burned by a successful registration only. *)
Definition name_fee (t : ac_tx_t) (rc : Z) : Z :=
  if (rc =? 0) && (tx_kind t =? AC_TX_REGISTER_NAME) then NAME_FEE else 0.

Lemma body_burned s t slot : bo_burned (body_of s t slot) =
  name_fee t (match bo_err (body_of s t slot) with Some _ => 1 | None => 0 end).
Proof.
  unfold body_of, apply_body, name_fee.
  destruct (Z.eqb_spec (tx_kind t) AC_TX_TRANSFER) as [->|].
  { unfold apply_transfer. by repeat case_match. }
  destruct (Z.eqb_spec (tx_kind t) AC_TX_STAKE_BOND) as [->|].
  { unfold apply_bond. by repeat case_match. }
  destruct (Z.eqb_spec (tx_kind t) AC_TX_STAKE_UNBOND) as [->|].
  { unfold apply_unbond. by repeat case_match. }
  destruct (Z.eqb_spec (tx_kind t) AC_TX_REGISTER_NAME).
  { unfold apply_register_name. by repeat case_match. }
  rewrite andb_false_r. unfold apply_slash. by repeat case_match.
Qed.

Lemma sender_of_wf s t : state_wf s → acc_wf (sender_of s t).
Proof. intros Hs. destruct (view_wf s (tx_sender t) Hs). unfold sender_of. acc_fields. Qed.

Lemma body_of_props s t slot : state_wf s → tx_wf t →
  AC_TX_TRANSFER <= tx_kind t <= AC_TX_SLASH_EVIDENCE →
  body_props s (sender_of s t) (touched t) (needed_gas t) (body_of s t slot).
Proof.
  intros Hs Ht Hk. pose proof (sender_of_wf s t Hs) as Hsnd. unfold body_of, apply_body.
  pose proof (needed_gas_range t Ht Hk) as Hg.
  destruct (Z.eqb_spec (tx_kind t) AC_TX_TRANSFER); [by apply apply_transfer_props|].
  destruct (Z.eqb_spec (tx_kind t) AC_TX_STAKE_BOND); [by apply apply_bond_props|].
  destruct (Z.eqb_spec (tx_kind t) AC_TX_STAKE_UNBOND); [by apply apply_unbond_props|].
  destruct (Z.eqb_spec (tx_kind t) AC_TX_REGISTER_NAME); [by apply apply_register_name_props|].
  destruct (Z.eqb_spec (tx_kind t) AC_TX_SLASH_EVIDENCE); [by apply apply_slash_props|]. lia.
Qed.

(** ** The fee charge *)

Definition gas_charged (t : ac_tx_t) (o : body_out) : Z := Z.min (tx_gas_limit t) (bo_gas o).
Definition fee_total (t : ac_tx_t) (bf : Z) (o : body_out) : Z :=
  (gas_charged t o ⊗ bf) ⊕ (gas_charged t o ⊗ tx_tip t).
Definition final_sender (t : ac_tx_t) (bf : Z) (o : body_out) : ac_account_t :=
  let a := bo_sender o in
  mkAcc (tx_sender t) (balance a - Z.min (balance a) (fee_total t bf o)) (nonce a) (stake a) (unbond_at a).

Lemma apply_finish_eq t bf o : acc_wf (bo_sender o) →
  apply_finish t bf o =
  (match bo_err o with Some _ => 1 | None => 0 end,
   ac_state_set (bo_state o) (final_sender t bf o),
   mkResult (match bo_err o with Some _ => false | None => true end) (gas_charged t o)
            (bo_burned o ⊕ (gas_charged t o ⊗ bf)) (gas_charged t o ⊗ tx_tip t)
            (default EmptyString (bo_err o))).
Proof.
  intros [Hb _ _ _]. unfold apply_finish.
  assert ((if tx_gas_limit t <? bo_gas o then tx_gas_limit t else bo_gas o) = gas_charged t o) as ->.
  { unfold gas_charged. destruct (Z.ltb_spec (tx_gas_limit t) (bo_gas o)); lia. }
  fold (fee_total t bf o). pose proof (u64_range (gas_charged t o ⊗ bf + gas_charged t o ⊗ tx_tip t)) as Hf.
  fold (fee_total t bf o) in Hf.
  assert (∀ x, x = balance (bo_sender o) - Z.min (balance (bo_sender o)) (fee_total t bf o) →
    with_addr (with_balance (bo_sender o) x) (tx_sender t) = final_sender t bf o) as Hx by by intros ? ->.
  destruct (Z.ltb_spec (balance (bo_sender o)) (fee_total t bf o)).
  - rewrite Hx; [by destruct (bo_err o)|]. rewrite u64_id by (widths; lia). lia.
  - rewrite Hx; [by destruct (bo_err o)|]. rewrite u64_id by (widths; lia). lia.
Qed.

Lemma fee_total_range t bf o : is_u64 (fee_total t bf o).
Proof. apply u64_range. Qed.

Lemma final_sender_wf t bf o : acc_wf (bo_sender o) → acc_wf (final_sender t bf o).
Proof.
  intros []. pose proof (fee_total_range t bf o). constructor; simpl; auto. unfold is_u64 in *. lia.
Qed.

(** Everything a successful admission does, in one place. *)
Lemma apply_accepted s t slot bf : state_wf s → tx_wf t →
  (ac_state_apply_tx s t slot bf).1.1 ≠ -1 →
  ∃ v, admissible s t slot bf v ∧ is_u64 v ∧
    body_props s (sender_of s t) (touched t) (needed_gas t) (body_of s t slot) ∧
    let o := body_of s t slot in
    ac_state_apply_tx s t slot bf =
    (match bo_err o with Some _ => 1 | None => 0 end,
     ac_state_set (bo_state o) (final_sender t bf o),
     mkResult (match bo_err o with Some _ => false | None => true end) (gas_charged t o)
              (bo_burned o ⊕ (gas_charged t o ⊗ bf)) (gas_charged t o ⊗ tx_tip t)
              (default EmptyString (bo_err o))).
Proof.
  intros Hs Ht Hrc. destruct (apply_cases s t slot bf Hs Ht) as [(v & Hadm & Hv & E)|(_ & msg & _ & E)].
  - exists v. split; [done|]. split; [done|].
    assert (body_props s (sender_of s t) (touched t) (needed_gas t) (body_of s t slot)) as Hp.
    { apply body_of_props; auto. apply Hadm. }
    split; [done|]. cbv zeta. rewrite E. apply apply_finish_eq, Hp.
  - by rewrite E in Hrc.
Qed.

Lemma apply_tx_wf s t slot bf :
  state_wf s → tx_wf t →
  let '(rc, s', r) := ac_state_apply_tx s t slot bf in
  state_wf s' ∧ (no_empty s → no_empty s') ∧ chain_id s' = chain_id s ∧ (rc = -1 → s' = s).
Proof.
  intros Hs Ht. destruct (decide ((ac_state_apply_tx s t slot bf).1.1 = -1)) as [Hrc|Hrc].
  - destruct (apply_cases s t slot bf Hs Ht) as [(v & Hadm & _ & E)|(_ & msg & _ & ->)]; [|done].
    assert (acc_wf (bo_sender (body_of s t slot))) as Hw.
    { eapply bp_sender_wf, body_of_props; auto. apply Hadm. }
    exfalso. rewrite E, apply_finish_eq in Hrc by done. simpl in Hrc. by destruct (bo_err _).
  - destruct (apply_accepted s t slot bf Hs Ht Hrc) as (v & _ & _ & [] & E). cbv zeta in E. rewrite E.
    pose proof (final_sender_wf t bf (body_of s t slot) bp_sender_wf0).
    split; [by apply ac_state_set_wf|]. split; [intros; apply ac_state_set_no_empty; auto|].
    split; [|by destruct (bo_err _)]. by rewrite (proj1 (ac_state_set_frame _ _)).
Qed.

(** C32. The transition preserves the state's type invariant (sorted arrays, valid names,
    64-bit fields) and never stores an empty account; a rejection (-1) leaves the state
    exactly as it was. *)
Theorem apply_preserves_wf s t slot bf :
  state_wf s → tx_wf t →
  let '(rc, s', r) := ac_state_apply_tx s t slot bf in
  state_wf s' ∧ (no_empty s → no_empty s') ∧ chain_id s' = chain_id s ∧ (rc = -1 → s' = s).
Proof. apply apply_tx_wf. Qed.

(** C20. A transaction is included (return 0 or 1) exactly when it is admissible: right
    version and chain, not expired, the sender's current nonce, a known kind, enough gas
    for the intrinsic and memo cost, and a balance that covers the maximal fee (the price
    modulo 2^64) plus the transferred value. How far ahead it expires is not checked. *)
Theorem apply_admission s t slot bf :
  state_wf s → tx_wf t →
  ((ac_state_apply_tx s t slot bf).1.1 ≠ -1 ↔ ∃ v, admissible s t slot bf v).
Proof.
  intros Hs Ht. split.
  - intros Hrc. destruct (apply_accepted s t slot bf Hs Ht Hrc) as (v & ? & _). eauto.
  - intros [v Hadm]. destruct (apply_cases s t slot bf Hs Ht) as [(v' & Ha & _ & ->)|(Hno & _)];
      [|by destruct (Hno v)].
    rewrite apply_finish_eq by (eapply bp_sender_wf, body_of_props; auto; apply Ha).
    simpl. by destruct (bo_err _).
Qed.

Lemma succ_ne x : (x ⊕ 1) ≠ x.
Proof. warith. Qed.

(** The nonces after an included transaction, which had its sender's. *)
Lemma apply_nonces s t slot bf : state_wf s → tx_wf t → (ac_state_apply_tx s t slot bf).1.1 ≠ -1 →
  let s' := (ac_state_apply_tx s t slot bf).1.2 in
  tx_nonce t = nonce (view s (tx_sender t)) ∧ nonce (view s' (tx_sender t)) = (tx_nonce t ⊕ 1) ∧
  (∀ a, a ≠ tx_sender t → nonce (view s' a) = nonce (view s a)) ∧ state_wf s'.
Proof.
  intros Hs Ht Hrc. pose proof (apply_tx_wf s t slot bf Hs Ht) as Hw.
  destruct (apply_accepted s t slot bf Hs Ht Hrc) as (v & Hadm & _ & Hp & E). cbv zeta in E.
  rewrite E in Hw |- *. cbn [fst snd]. destruct Hw as (Hw & _).
  set (o := body_of s t slot) in *. set (s' := ac_state_set _ _) in *.
  pose proof (adm_nonce _ _ _ _ _ Hadm) as En. split; [by rewrite En|]. split; [|split; [|done]].
  - unfold s'. change (tx_sender t) with (addr (final_sender t bf o)). rewrite view_set_eq by apply Hp.
    cbn [final_sender nonce]. rewrite (bp_nonce _ _ _ _ _ Hp). cbn [sender_of with_nonce nonce].
    by rewrite (adm_nonce _ _ _ _ _ Hadm).
  - intros a Ha. unfold s'. rewrite view_set_ne by (apply Hp || done). apply Hp.
Qed.

(** C21. Replay protection: an included transaction advances its sender's nonce by one, leaves
    the nonce of every other account alone, and can never be included again in the
    resulting state, whatever slot and fee it is tried at. *)
Theorem apply_nonce_no_replay s t slot bf :
  state_wf s → tx_wf t → (ac_state_apply_tx s t slot bf).1.1 ≠ -1 →
  let s' := (ac_state_apply_tx s t slot bf).1.2 in
  nonce (view s' (tx_sender t)) = (tx_nonce t ⊕ 1) ∧
  (∀ a, a ≠ tx_sender t → nonce (view s' a) = nonce (view s a)) ∧
  (∀ slot' bf', (ac_state_apply_tx s' t slot' bf').1.1 = -1).
Proof.
  intros Hs Ht Hrc. destruct (apply_nonces s t slot bf Hs Ht Hrc) as (_ & Hn & Ho & Hw).
  split; [done|]. split; [done|]. intros slot' bf'.
  destruct (decide ((ac_state_apply_tx (ac_state_apply_tx s t slot bf).1.2 t slot' bf').1.1 = -1)) as [|Hr]; [done|].
  destruct (apply_nonces _ t slot' bf' Hw Ht Hr) as [H1 _]. rewrite Hn in H1. symmetry in H1. by apply succ_ne in H1.
Qed.

(** ** Fees *)

(** When [base_fee + tip] does not wrap, nothing in the fee arithmetic does. *)
Lemma fees_exact s t slot bf v : state_wf s → tx_wf t → admissible s t slot bf v → is_u64 v →
  0 <= bf → bf + tx_tip t < U64 →
  body_props s (sender_of s t) (touched t) (needed_gas t) (body_of s t slot) →
  let g := gas_charged t (body_of s t slot) in
  needed_gas t <= g <= tx_gas_limit t ∧ g <= needed_gas t + 50 ∧
  (g ⊗ bf) = g * bf ∧ (g ⊗ tx_tip t) = g * tx_tip t ∧
  fee_total t bf (body_of s t slot) = g * (bf + tx_tip t) ∧
  g * (bf + tx_tip t) <= tx_gas_limit t * (bf + tx_tip t) ∧
  tx_gas_limit t * (bf + tx_tip t) + v <= balance (view s (tx_sender t)).
Proof.
  intros Hs Ht Hadm Hv Hbf Hsum Hp g. pose proof (adm_funds _ _ _ _ _ Hadm) as Hfunds.
  pose proof (adm_gas _ _ _ _ _ Hadm) as Hgas. pose proof (bp_gas _ _ _ _ _ Hp) as Hgo.
  pose proof (wf_tx_tip t Ht) as Htip. pose proof (wf_balance _ (view_wf s (tx_sender t) Hs)) as Hb.
  unfold is_u64 in Htip, Hb, Hv. rewrite u64_id in Hfunds by (unfold is_u64; lia).
  assert (needed_gas t <= g <= tx_gas_limit t) as Hg by (unfold g, gas_charged; lia).
  pose proof (needed_gas_range t Ht (adm_kind _ _ _ _ _ Hadm)) as Hn.
  assert (g * (bf + tx_tip t) <= tx_gas_limit t * (bf + tx_tip t)) as Hle by nia.
  assert (0 <= g * bf ∧ 0 <= g * tx_tip t) as [H1 H2] by nia.
  assert ((g ⊗ bf) = g * bf) as E1 by (apply u64_id; unfold is_u64; nia).
  assert ((g ⊗ tx_tip t) = g * tx_tip t) as E2 by (apply u64_id; unfold is_u64; nia).
  split; [done|]. split; [unfold g, gas_charged; lia|]. split; [done|]. split; [done|].
  split; [|split; [done|lia]]. unfold fee_total. fold g. rewrite E1, E2, u64_id; [ring|unfold is_u64; nia].
Qed.

(** C30. An included transaction is charged between its intrinsic-plus-memo gas and its gas
    limit (50 more than the former at most). Provided base fee plus tip does not wrap, the
    tipped fee is gas times tip, the burned fee gas times base fee plus, modulo 2^64, the
    fee of a registered name, and gas times price is within the sender's balance. *)
Theorem apply_gas_and_fees s t slot bf :
  state_wf s → tx_wf t → is_u64 bf → bf + tx_tip t < U64 →
  (ac_state_apply_tx s t slot bf).1.1 ≠ -1 →
  let r := (ac_state_apply_tx s t slot bf).2 in
  needed_gas t <= res_gas_used r <= tx_gas_limit t ∧ res_gas_used r <= needed_gas t + 50 ∧
  res_fee_tip r = res_gas_used r * tx_tip t ∧
  res_fee_burned r = (name_fee t (ac_state_apply_tx s t slot bf).1.1 ⊕ res_gas_used r * bf) ∧
  res_gas_used r * (bf + tx_tip t) <= balance (view s (tx_sender t)).
Proof.
  intros Hs Ht Hbf Hsum Hrc. destruct (apply_accepted s t slot bf Hs Ht Hrc) as (v & Hadm & Hv & Hp & ->).
  cbv zeta. cbn [Datatypes.snd res_gas_used res_fee_burned res_fee_tip]. unfold is_u64 in Hbf.
  destruct (fees_exact s t slot bf v Hs Ht Hadm Hv ltac:(lia) Hsum Hp) as (G1 & G2 & E1 & E2 & _ & L1 & L2).
  rewrite E1, E2. split; [done|]. split; [done|]. split; [done|]. split; [|unfold is_u64 in Hv; lia].
  cbn [fst]. by rewrite body_burned.
Qed.

(** ** Effect on accounts *)

Lemma apply_transfer_ok s snd t gas x : state_wf s → 0 <= gas <= 10000 →
  ac_body_transfer_decode (tx_body t) = Some x → bo_err (apply_transfer s snd t gas) = None →
  let rcv := view s (recipient x) in
  let g := gas + (if bool_decide (is_Some (acc_map s !! recipient x)) then 0 else 50) in
  apply_transfer s snd t gas =
    mkBody (ac_state_set s (with_balance rcv (balance rcv ⊕ transfer_amount x)))
           (with_balance snd (balance snd ⊖ transfer_amount x)) g None 0 ∧
  g <= tx_gas_limit t.
Proof.
  intros Hs Hg Hx. unfold apply_transfer. rewrite Hx, ac_state_get_spec by done.
  assert (with_addr (view s (recipient x)) (recipient x) = view s (recipient x)) as ->.
  { rewrite <- (view_addr s (recipient x) Hs) at 2. by destruct (view s (recipient x)). }
  destruct (bool_decide _); cbn [negb]; (rewrite (u64_id (gas + _)) by (widths; lia)).
  - by destruct (Z.ltb_spec (tx_gas_limit t) (gas + 0)).
  - by destruct (Z.ltb_spec (tx_gas_limit t) (gas + 50)).
Qed.

(** C31. A body that fails costs the fee and the nonce and nothing else, provided base fee plus
    tip does not wrap: every other account and every name is as before, the sender's stake
    too, and its balance drops by exactly gas times price. *)
Theorem apply_failed_body s t slot bf :
  state_wf s → tx_wf t → is_u64 bf → bf + tx_tip t < U64 →
  (ac_state_apply_tx s t slot bf).1.1 = 1 →
  let '(_, s', r) := ac_state_apply_tx s t slot bf in
  names s' = names s ∧ (∀ a, a ≠ tx_sender t → view s' a = view s a) ∧
  view s' (tx_sender t) =
    mkAcc (tx_sender t) (balance (view s (tx_sender t)) - res_gas_used r * (bf + tx_tip t))
          (tx_nonce t ⊕ 1) (stake (view s (tx_sender t))) (unbond_at (view s (tx_sender t))) ∧
  res_ok r = false.
Proof.
  intros Hs Ht Hbf Hsum Hrc. unfold is_u64 in Hbf.
  destruct (apply_accepted s t slot bf Hs Ht) as (v & Hadm & Hv & Hp & E); [by rewrite Hrc|].
  cbv zeta in E. rewrite E in Hrc |- *. cbn [fst] in Hrc.
  destruct (fees_exact s t slot bf v Hs Ht Hadm Hv ltac:(lia) Hsum Hp) as (_ & _ & _ & _ & Ef & L1 & L2).
  set (o := body_of s t slot) in *. destruct (bo_err o) as [msg|] eqn:He; [|done].
  destruct (bp_failed _ _ _ _ _ Hp ltac:(congruence)) as (Hst & Hsnd & _).
  split; [rewrite (proj2 (ac_state_set_frame _ _)); by rewrite Hst|].
  split; [intros a Ha; rewrite Hst; by apply view_set_ne|]. split; [|done].
  cbn [res_gas_used]. change (tx_sender t) with (addr (final_sender t bf o)) at 1.
  rewrite view_set_eq by (by rewrite Hst). unfold final_sender. rewrite Hsnd.
  cbn [sender_of with_nonce balance nonce stake unbond_at]. unfold is_u64 in Hv.
  rewrite Ef, Z.min_r by lia. by rewrite (adm_nonce _ _ _ _ _ Hadm).
Qed.

(** A successful transfer between two accounts moves exactly the amount, and the sender
    also pays gas times price; the gas includes 50 when the recipient did not exist. *)
Theorem apply_transfer_moves s t slot bf x :
  state_wf s → tx_wf t → is_u64 bf → bf + tx_tip t < U64 →
  tx_kind t = AC_TX_TRANSFER → ac_body_transfer_decode (tx_body t) = Some x →
  recipient x ≠ tx_sender t →
  (ac_state_apply_tx s t slot bf).1.1 = 0 →
  let '(_, s', r) := ac_state_apply_tx s t slot bf in
  balance (view s' (tx_sender t)) =
    balance (view s (tx_sender t)) - transfer_amount x - res_gas_used r * (bf + tx_tip t) ∧
  balance (view s' (recipient x)) = (balance (view s (recipient x)) ⊕ transfer_amount x) ∧
  res_gas_used r = needed_gas t + (if bool_decide (is_Some (acc_map s !! recipient x)) then 0 else 50) ∧
  (∀ a, a ≠ tx_sender t → a ≠ recipient x → view s' a = view s a).
Proof.
  intros Hs Ht Hbf Hsum Hk Hx Hne Hrc. unfold is_u64 in Hbf.
  destruct (apply_accepted s t slot bf Hs Ht) as (v & Hadm & Hv & Hp & E); [by rewrite Hrc|].
  cbv zeta in E. rewrite E in Hrc |- *. cbn [fst] in Hrc.
  destruct (fees_exact s t slot bf v Hs Ht Hadm Hv ltac:(lia) Hsum Hp) as (_ & _ & _ & _ & Ef & L1 & L2).
  pose proof (adm_value _ _ _ _ _ Hadm) as Hval. unfold tx_value in Hval. rewrite Hk, Hx in Hval.
  injection Hval as <-.
  pose proof (bp_frame _ _ _ _ _ Hp) as Hframe. unfold touched in Hframe. rewrite Hk, Hx in Hframe.
  assert (bo_err (body_of s t slot) = None) as Hok by by destruct (bo_err _).
  pose proof (needed_gas_range t Ht (adm_kind _ _ _ _ _ Hadm)) as Hn.
  assert (body_of s t slot = apply_transfer s (sender_of s t) t (needed_gas t)) as Eo.
  { unfold body_of, apply_body. by rewrite Hk. }
  rewrite Eo in *. destruct (apply_transfer_ok s (sender_of s t) t (needed_gas t) x Hs Hn Hx Hok) as [Eb Hgl].
  cbv zeta in Eb, Hgl. set (rcv := view s (recipient x)) in *. set (g := needed_gas t + _) in *.
  assert (addr rcv = recipient x) as Ha by by apply view_addr. 
  assert (state_wf (bo_state (apply_transfer s (sender_of s t) t (needed_gas t)))) as Hw by apply Hp.
  assert (gas_charged t (apply_transfer s (sender_of s t) t (needed_gas t)) = g) as Hg.
  { unfold gas_charged. rewrite Eb. simpl. lia. }
  cbn [res_gas_used]. rewrite Hg in *. split; [|split; [|split; [done|]]].
  - change (tx_sender t) with (addr (final_sender t bf (apply_transfer s (sender_of s t) t (needed_gas t)))) at 1.
    rewrite view_set_eq by done. unfold final_sender. cbn [balance]. rewrite Ef, Eb.
    cbn [bo_sender with_balance balance sender_of with_nonce]. unfold is_u64 in Hv.
    pose proof (wf_balance _ (view_wf s (tx_sender t) Hs)) as Hb. unfold is_u64 in Hb.
    assert (0 <= g) by (unfold g; destruct (bool_decide _); lia).
    assert (0 <= g * (bf + tx_tip t)) by (pose proof (wf_tx_tip t Ht); unfold is_u64 in *; nia).
    rewrite u64_id by (unfold is_u64; lia). lia.
  - rewrite view_set_ne by (done || congruence). rewrite Eb. cbn [bo_state].
    change (recipient x) with (recipient x). rewrite <- Ha at 1.
    change (addr rcv) with (addr (with_balance rcv (balance rcv ⊕ transfer_amount x))).
    by rewrite view_set_eq.
  - intros a Ha1 Ha2. rewrite view_set_ne by done. apply Hframe. simpl. by rewrite list_elem_of_singleton.
Qed.

(** ** Conservation *)

Definition hold (a : ac_account_t) : Z := balance a + stake a.
Definition supply (s : ac_state_t) : Z := total hold s.

(** The half of a slashed stake that nobody receives. *)
Definition slash_burn (s : ac_state_t) (t : ac_tx_t) (rc : Z) : Z :=
  if (rc =? 0) && (tx_kind t =? AC_TX_SLASH_EVIDENCE) then
    match ac_body_slash_decode (tx_body t) with
    | Some x => let v := stake (view s (slash_validator x)) in v - v / 2
    | None => 0
    end
  else 0.

(** What the body takes out of the sender's balance when it succeeds. *)
Definition spend (t : ac_tx_t) : Z :=
  if tx_kind t =? AC_TX_TRANSFER then
    match ac_body_transfer_decode (tx_body t) with Some x => transfer_amount x | None => 0 end
  else if tx_kind t =? AC_TX_STAKE_BOND then
    match ac_body_stake_decode (tx_body t) with Some x => stake_amount x | None => 0 end
  else if tx_kind t =? AC_TX_REGISTER_NAME then NAME_FEE
  else 0.

Lemma hold_nonneg a : acc_wf a → 0 <= hold a.
Proof. intros []. unfold hold, is_u64 in *. lia. Qed.

Lemma hold_le_supply s a : state_wf s → hold (view s a) <= supply s.
Proof. intros Hs. apply view_le_total; auto using hold_nonneg. Qed.

Lemma hold2_le_supply s a c : state_wf s → a ≠ c → hold (view s a) + hold (view s c) <= supply s.
Proof.
  intros Hs Hne. pose proof (total_set hold s (zero_acc a) Hs ltac:(done)) as E. cbn [addr zero_acc] in E.
  pose proof (hold_le_supply (ac_state_set s (zero_acc a)) c
    (ac_state_set_wf _ _ Hs (zero_acc_wf a))) as H1.
  rewrite view_set_ne in H1 by (done || congruence). unfold supply in *.
  change (hold (zero_acc a)) with 0 in E. lia.
Qed.

Lemma stake_decode_range l x : ac_body_stake_decode l = Some x → is_u64 (stake_amount x).
Proof. unfold ac_body_stake_decode. destruct (negb _); [done|]. intros [= <-]. simpl. auto with wf. Qed.

(** The switch keeps the store plus the sender's copy balanced, and leaves the
    sender at least its balance less [spend]. *)
Definition body_balanced (s : ac_state_t) (t : ac_tx_t) (snd : ac_account_t) (o : body_out) : Prop :=
  let rc := match bo_err o with Some _ => 1 | None => 0 end in
  total hold (bo_state o) + hold (bo_sender o) + bo_burned o + slash_burn s t rc
    = total hold s + hold snd ∧
  balance snd - spend t <= balance (bo_sender o).

Lemma body_fail_balanced s t snd gas msg :
  0 <= spend t → body_balanced s t snd (body_fail s snd gas msg).
Proof. intros. unfold body_balanced, slash_burn. simpl. lia. Qed.

Lemma apply_transfer_balanced s t snd gas x : state_wf s → supply s < U64 → 0 <= gas <= 10000 →
  tx_kind t = AC_TX_TRANSFER → ac_body_transfer_decode (tx_body t) = Some x → is_u64 (transfer_amount x) →
  transfer_amount x <= balance snd → hold snd = hold (view s (tx_sender t)) → acc_wf snd →
  recipient x ≠ tx_sender t → body_balanced s t snd (apply_transfer s snd t gas).
Proof.
  intros Hs Hsup Hg Hk Hx Hv Hle Hsnd Hwf Hne.
  assert (spend t = transfer_amount x) as Hsp by (unfold spend; by rewrite Hk, Hx).
  unfold is_u64 in Hv.
  destruct (bo_err (apply_transfer s snd t gas)) as [msg|] eqn:He.
  - unfold apply_transfer in *. rewrite Hx in *. rewrite ac_state_get_spec in * by done.
    destruct (_ <? _); [apply body_fail_balanced; lia | done].
  - destruct (apply_transfer_ok s snd t gas x Hs Hg Hx He) as [-> _].
    pose proof (hold2_le_supply s (recipient x) (tx_sender t) Hs Hne) as H2.
    pose proof (view_wf s (recipient x) Hs) as [Hb _ Hst _]. destruct Hwf as [Hbs _ Hss _].
    unfold body_balanced, slash_burn. rewrite Hk. cbn [bo_err bo_state bo_sender bo_burned].
    rewrite total_set by done. cbn [with_balance addr]. rewrite view_addr by done.
    unfold hold, is_u64 in *. cbn [balance stake]. rewrite !u64_id by (unfold is_u64; lia).
    rewrite Hsp. simpl. lia.
Qed.

Lemma apply_local_balanced s t snd slot gas : supply s < U64 → state_wf s →
  hold snd = hold (view s (tx_sender t)) → acc_wf snd →
  (tx_kind t = AC_TX_STAKE_BOND → body_balanced s t snd (apply_bond s snd t gas)) ∧
  (tx_kind t = AC_TX_STAKE_UNBOND → body_balanced s t snd (apply_unbond s snd t slot gas)).
Proof.
  intros Hsup Hs Hsnd Hwf. pose proof (hold_le_supply s (tx_sender t) Hs) as Hh. rewrite <- Hsnd in Hh.
  destruct Hwf as [Hb _ Hst _]. unfold hold, is_u64 in Hh, Hb, Hst.
  split; intros Hk; [unfold apply_bond | unfold apply_unbond].
  - assert (spend t = match ac_body_stake_decode (tx_body t) with Some x => stake_amount x | None => 0 end) as Hsp
      by (unfold spend; by rewrite Hk).
    destruct (ac_body_stake_decode (tx_body t)) as [x|] eqn:Hx; [|apply body_fail_balanced; lia].
    pose proof (stake_decode_range _ _ Hx) as Hv. unfold is_u64 in Hv.
    destruct (Z.ltb_spec (balance snd) (stake_amount x)); [apply body_fail_balanced; lia|].
    unfold body_balanced, slash_burn, hold. rewrite Hk, Hsp.
    cbn [bo_err bo_state bo_sender bo_burned with_balance with_stake balance stake].
    rewrite !u64_id by (unfold is_u64; lia). simpl. lia.
  - assert (spend t = 0) as Hsp by (unfold spend; by rewrite Hk).
    destruct (ac_body_stake_decode (tx_body t)) as [x|] eqn:Hx; [|apply body_fail_balanced; lia].
    pose proof (stake_decode_range _ _ Hx) as Hv. unfold is_u64 in Hv.
    destruct (Z.ltb_spec (stake snd) (stake_amount x)); [apply body_fail_balanced; lia|].
    unfold body_balanced, slash_burn, hold. rewrite Hk, Hsp.
    destruct (_ =? 0); cbn [bo_err bo_state bo_sender bo_burned with_balance with_stake with_unbond balance stake];
      rewrite !u64_id by (unfold is_u64; lia); simpl; lia.
Qed.

Lemma apply_register_balanced s t snd gas : state_wf s → acc_wf snd →
  tx_kind t = AC_TX_REGISTER_NAME → body_balanced s t snd (apply_register_name s snd t gas).
Proof.
  intros Hs Hwf Hk. pose proof (wf_balance _ Hwf) as Hb. unfold is_u64 in Hb.
  assert (spend t = NAME_FEE) as Hsp by (unfold spend; by rewrite Hk).
  assert (0 <= NAME_FEE) as Hf by done.
  unfold apply_register_name. destruct (ac_body_name_decode (tx_body t)) as [x|]; [|apply body_fail_balanced; lia].
  destruct (Z.ltb_spec (balance snd) NAME_FEE); [apply body_fail_balanced; lia|].
  pose proof (ac_state_name_register_spec s (body_name x) (tx_sender t) Hs) as Hr.
  destruct (ac_state_name_register _ _ _) as [s'|].
  - destruct Hr as (_ & _ & _ & _ & Ha & _). unfold body_balanced, slash_burn, total, hold. rewrite Hk, Hsp.
    cbn [bo_err bo_state bo_sender bo_burned with_balance balance stake]. rewrite Ha.
    rewrite u64_id by (unfold is_u64; lia). simpl. lia.
  - rewrite refund_sender by (done || lia). apply body_fail_balanced. lia.
Qed.

Lemma apply_slash_balanced s t snd gas : state_wf s → supply s < U64 → acc_wf snd →
  tx_kind t = AC_TX_SLASH_EVIDENCE → tx_sender t ∉ touched t →
  hold snd = hold (view s (tx_sender t)) → body_balanced s t snd (apply_slash s snd t gas).
Proof.
  intros Hs Hsup [Hb _ Hst _] Hk Hne Hsnd. unfold is_u64 in Hb, Hst.
  assert (spend t = 0) as Hsp by (unfold spend; by rewrite Hk).
  unfold apply_slash, touched in *. rewrite Hk in Hne. simpl in Hne.
  destruct (ac_body_slash_decode (tx_body t)) as [x|] eqn:Hx; [|apply body_fail_balanced; lia].
  rewrite list_elem_of_singleton in Hne.
  destruct (ac_hash_eq _ _); [apply body_fail_balanced; lia|].
  destruct (negb _ || _); [apply body_fail_balanced; lia|].
  rewrite ac_state_get_spec by done. cbn [Datatypes.snd].
  destruct (_ =? 0); [apply body_fail_balanced; lia|].
  pose proof (hold2_le_supply s (tx_sender t) (slash_validator x) Hs Hne) as H2. rewrite <- Hsnd in H2.
  pose proof (view_wf s (slash_validator x) Hs) as [Hvb _ Hvs _]. unfold is_u64 in Hvb, Hvs.
  unfold body_balanced, slash_burn. rewrite Hk, Hx, Hsp. cbn [bo_err bo_state bo_sender bo_burned].
  rewrite total_set by done. cbn [with_stake addr]. rewrite view_addr by done.
  unfold hold in *. cbn [with_balance balance stake]. simpl (_ && _).
  assert (0 <= stake (view s (slash_validator x)) / 2 <= stake (view s (slash_validator x))) as Hh
    by (Z.to_euclidean_division_equations; lia).
  rewrite u64_id by (unfold is_u64; lia).
  cbn [with_stake balance stake]. lia.
Qed.

Lemma body_of_balanced s t slot bf v : state_wf s → tx_wf t → supply s < U64 →
  admissible s t slot bf v → 0 <= tx_gas_limit t * (bf ⊕ tx_tip t) →
  tx_sender t ∉ touched t → body_balanced s t (sender_of s t) (body_of s t slot).
Proof.
  intros Hs Ht Hsup Hadm Hfee Hne. pose proof (adm_kind _ _ _ _ _ Hadm) as Hk.
  pose proof (adm_value _ _ _ _ _ Hadm) as Hv. pose proof (adm_funds _ _ _ _ _ Hadm) as Hf.
  pose proof (needed_gas_range t Ht Hk) as Hg. pose proof (sender_of_wf s t Hs) as Hw.
  assert (hold (sender_of s t) = hold (view s (tx_sender t))) as Hh by done.
  destruct (apply_local_balanced s t (sender_of s t) slot (needed_gas t) Hsup Hs Hh Hw) as [Hbond Hunbond].
  unfold body_of, apply_body.
  destruct (Z.eqb_spec (tx_kind t) AC_TX_TRANSFER) as [E|].
  - pose proof (tx_value_range _ _ Hv) as Hr. unfold tx_value, touched in Hv, Hne. rewrite E in Hv, Hne. simpl in Hv, Hne.
    destruct (ac_body_transfer_decode (tx_body t)) as [x|] eqn:Hx; [|done]. injection Hv as <-.
    rewrite list_elem_of_singleton in Hne.
    eapply apply_transfer_balanced; eauto. cbn [sender_of with_nonce balance]. lia.
  - destruct (Z.eqb_spec (tx_kind t) AC_TX_STAKE_BOND); [auto|].
    destruct (Z.eqb_spec (tx_kind t) AC_TX_STAKE_UNBOND); [auto|].
    destruct (Z.eqb_spec (tx_kind t) AC_TX_REGISTER_NAME); [by apply apply_register_balanced|].
    destruct (Z.eqb_spec (tx_kind t) AC_TX_SLASH_EVIDENCE); [by apply apply_slash_balanced|]. lia.
Qed.

(** C14. Conservation: an included transaction destroys exactly what the result reports. When
    the sender is not itself the recipient (or the slashed validator), the price does not
    wrap and the balance covers the maximal fee on top of what the body spends, balances
    plus stakes afterwards, plus the burned and tipped fees, plus the unrewarded half of
    a slashed stake, equal balances plus stakes before. *)
Theorem apply_conserves_supply s t slot bf :
  state_wf s → tx_wf t → is_u64 bf → bf + tx_tip t < U64 → supply s < U64 →
  tx_sender t ∉ touched t →
  tx_gas_limit t * (bf + tx_tip t) + spend t <= balance (view s (tx_sender t)) →
  (ac_state_apply_tx s t slot bf).1.1 ≠ -1 →
  let '(rc, s', r) := ac_state_apply_tx s t slot bf in
  supply s' + res_fee_burned r + res_fee_tip r + slash_burn s t rc = supply s.
Proof.
  intros Hs Ht Hbf Hsum Hsup Hne Hcov Hrc. unfold is_u64 in Hbf.
  destruct (apply_accepted s t slot bf Hs Ht Hrc) as (v & Hadm & Hv & Hp & ->). cbv zeta.
  destruct (fees_exact s t slot bf v Hs Ht Hadm Hv ltac:(lia) Hsum Hp) as (G1 & _ & E1 & E2 & Ef & L1 & L2).
  pose proof (wf_tx_tip t Ht) as Htip. unfold is_u64 in Htip. pose proof (wf_tx_gas_limit t Ht) as Hgl.
  unfold is_u32 in Hgl.
  destruct (body_of_balanced s t slot bf v Hs Ht Hsup Hadm) as [Hbal Hleft]; [|done|].
  { rewrite u64_id by (unfold is_u64; lia). nia. }
  pose proof (bp_frame _ _ _ _ _ Hp _ Hne) as Hfr. pose proof (bp_wf _ _ _ _ _ Hp) as Hw.
  pose proof (bp_burned _ _ _ _ _ Hp) as Hbu. set (o := body_of s t slot) in *.
  pose proof (total_nonneg hold (bo_state o) hold_nonneg Hw) as Hnn.
  pose proof (bp_sender_wf _ _ _ _ _ Hp) as [Hob _ Hos _]. unfold is_u64 in Hob, Hos, Hv.
  cbn [sender_of with_nonce balance] in Hleft. set (g := gas_charged t o) in *.
  pose proof (needed_gas_range t Ht (adm_kind _ _ _ _ _ Hadm)) as Hn.
  assert (0 <= g * bf ∧ 0 <= g * tx_tip t) as [P1 P2] by nia.
  cbn [res_fee_burned res_fee_tip]. rewrite E1, E2.
  assert (0 <= slash_burn s t (match bo_err o with Some _ => 1 | None => 0 end)) as Hsb.
  { unfold slash_burn. destruct (_ && _); [|lia]. destruct (ac_body_slash_decode _) as [x|]; [|lia].
    pose proof (wf_stake _ (view_wf s (slash_validator x) Hs)) as Hst. unfold is_u64 in Hst.
    cbv zeta. Z.to_euclidean_division_equations; lia. }
  assert (hold (sender_of s t) = hold (view s (tx_sender t))) as Hh by done. rewrite Hh in Hbal.
  assert (hold (view s (tx_sender t)) <= total hold (bo_state o)) as Hin.
  { rewrite <- Hfr. apply view_le_total; auto using hold_nonneg. }
  rewrite u64_id by (unfold is_u64, supply, hold in *; lia).
  unfold supply. rewrite total_set by done. cbn [final_sender addr]. rewrite Hfr.
  unfold hold at 2 3. cbn [final_sender balance stake]. rewrite Ef, Z.min_r by lia.
  unfold hold in *. lia.
Qed.
End ApplyFacts.

(** ** Witnesses *)

Definition transfer_tx (from to : Z) (amount gas_limit tip : Z) : ac_tx_t :=
  mkTx 1 7 AC_TX_TRANSFER (addr_of from) 0 gas_limit tip 1000 (b (addr_of to) ++ ac_be64 amount) [] (sig_of 9).
Definition apply_toy := @ac_state_apply_tx toy_sodium.

Lemma transfer_tx_wf to : tx_wf (transfer_tx 1 to 500 30 2).
Proof. constructor; by vm_compute. Qed.

Lemma apply_preserves_wf_witness :
  state_wf (apply_toy sample_state (transfer_tx 1 2 500 30 2) 10 1).1.2.
Proof.
  pose proof (@apply_preserves_wf toy_sodium sample_state (transfer_tx 1 2 500 30 2) 10 1 sample_state_wf
    (transfer_tx_wf 2)) as H. revert H. unfold apply_toy.
  destruct (ac_state_apply_tx _ _ _ _) as [[rc s'] r]. intros H. apply H.
Defined.

Lemma apply_admission_witness :
  ∃ v, admissible sample_state (transfer_tx 1 2 500 30 2) 10 1 v.
Proof.
  apply (@apply_admission toy_sodium sample_state); [apply sample_state_wf | apply transfer_tx_wf | by vm_compute].
Defined.

Lemma apply_nonce_no_replay_witness :
  (apply_toy (apply_toy sample_state (transfer_tx 1 2 500 30 2) 10 1).1.2 (transfer_tx 1 2 500 30 2) 11 1).1.1 = -1.
Proof.
  apply (@apply_nonce_no_replay toy_sodium sample_state (transfer_tx 1 2 500 30 2) 10 1);
    [apply sample_state_wf | apply transfer_tx_wf | by vm_compute].
Defined.

Lemma apply_gas_and_fees_witness :
  res_fee_tip (apply_toy sample_state (transfer_tx 1 2 500 30 2) 10 1).2 =
  res_gas_used (apply_toy sample_state (transfer_tx 1 2 500 30 2) 10 1).2 * 2.
Proof.
  apply (@apply_gas_and_fees toy_sodium sample_state (transfer_tx 1 2 500 30 2) 10 1);
    [apply sample_state_wf | apply transfer_tx_wf | by vm_compute | by vm_compute | by vm_compute].
Defined.

(** The recipient does not exist and 50 gas are missing. *)
Lemma apply_failed_body_witness :
  (apply_toy sample_state (transfer_tx 1 3 500 30 2) 10 1).1.1 = 1 ∧
  names (apply_toy sample_state (transfer_tx 1 3 500 30 2) 10 1).1.2 = names sample_state.
Proof.
  split; [by vm_compute|].
  pose proof (@apply_failed_body toy_sodium sample_state (transfer_tx 1 3 500 30 2) 10 1 sample_state_wf
    (transfer_tx_wf 3) ltac:(by vm_compute) ltac:(by vm_compute) ltac:(by vm_compute)) as H.
  revert H. unfold apply_toy. destruct (ac_state_apply_tx _ _ _ _) as [[rc s'] r]. intros H. apply H.
Defined.

Lemma apply_transfer_moves_witness :
  balance (view (apply_toy sample_state (transfer_tx 1 2 500 30 2) 10 1).1.2 (addr_of 2)) = 540.
Proof.
  pose proof (@apply_transfer_moves toy_sodium sample_state (transfer_tx 1 2 500 30 2) 10 1
    (mkBodyTransfer (addr_of 2) 500) sample_state_wf (transfer_tx_wf 2) ltac:(by vm_compute)
    ltac:(by vm_compute) ltac:(done) ltac:(by vm_compute) ltac:(done) ltac:(by vm_compute)) as H.
  revert H. unfold apply_toy. destruct (ac_state_apply_tx _ _ _ _) as [[rc s'] r].
  intros (_ & H & _). etransitivity; [exact H | by vm_compute].
Defined.

Lemma apply_conserves_supply_witness :
  supply (apply_toy sample_state (transfer_tx 1 2 500 30 2) 10 1).1.2 = supply sample_state - 63.
Proof.
  pose proof (@apply_conserves_supply toy_sodium sample_state (transfer_tx 1 2 500 30 2) 10 1 sample_state_wf
    (transfer_tx_wf 2) ltac:(by vm_compute) ltac:(by vm_compute) ltac:(by vm_compute)
    ltac:(by apply (bool_decide_unpack _)) ltac:(by vm_compute) ltac:(by vm_compute)) as H.
  assert (res_fee_burned (apply_toy sample_state (transfer_tx 1 2 500 30 2) 10 1).2 = 21 ∧
          res_fee_tip (apply_toy sample_state (transfer_tx 1 2 500 30 2) 10 1).2 = 42) as [H1 H2] by by vm_compute.
  revert H H1 H2. unfold apply_toy. destruct (ac_state_apply_tx _ _ _ _) as [[rc s'] r].
  cbn [fst snd]. intros H H1 H2. rewrite H1, H2 in H. unfold slash_burn in H. rewrite andb_false_r in H. lia.
Defined.

(** ** Where the code departs from conservation *)

(** A transfer to oneself destroys the amount: the credited copy of the account
    is overwritten by the debited one. *)
Lemma self_transfer_destroys :
  let t := transfer_tx 1 1 500 30 2 in
  (apply_toy sample_state t 10 1).1.1 = 0 ∧
  supply (apply_toy sample_state t 10 1).1.2 = supply sample_state - 500 - 63.
Proof. by vm_compute. Qed.

(** A validator that reports its own double vote keeps its stake and is paid
    half of it. *)
Definition self_slash_tx : ac_tx_t :=
  let kp := @ac_keypair_from_seed toy_sodium (addr_of 1) in
  let vote h := @ac_sign toy_sodium (ac_vote_message 3 h) kp in
  mkTx 1 7 AC_TX_SLASH_EVIDENCE (addr_of 1) 0 521 0 1000
    (b (addr_of 1) ++ ac_be64 3 ++ b (hash_of 1) ++ b (vote (hash_of 1)) ++ b (hash_of 2) ++ b (vote (hash_of 2)))
    [] (sig_of 9).
Lemma self_slash_mints :
  (apply_toy sample_state self_slash_tx 10 0).1.1 = 0 ∧
  stake (view (apply_toy sample_state self_slash_tx 10 0).1.2 (addr_of 1)) = 200000000 ∧
  supply (apply_toy sample_state self_slash_tx 10 0).1.2 = supply sample_state + 100000000.
Proof. by vm_compute. Qed.

(** Bonding the whole balance leaves nothing for the fee, which is clamped, while
    the tip reported for the proposer is not. *)
Definition bond_all_tx : ac_tx_t :=
  mkTx 1 7 AC_TX_STAKE_BOND (addr_of 1) 0 51 10 1000 (ac_be64 5000000) [] (sig_of 9).
Lemma clamped_fee_still_tipped :
  let '(rc, s', r) := apply_toy sample_state bond_all_tx 10 1 in
  rc = 0 ∧ supply s' = supply sample_state ∧ res_fee_tip r = 510.
Proof. by vm_compute. Qed.

(** With a tip of [2 ^ 64 - 1] the price wraps to zero: an account without
    funds is admitted and the tip reported is close to [2 ^ 64]. *)
Definition wrapped_price_tx : ac_tx_t :=
  mkTx 1 7 AC_TX_STAKE_UNBOND (addr_of 3) 0 51 (2 ^ 64 - 1) 1000 (ac_be64 0) [] (sig_of 9).
Lemma wrapped_price_admits :
  let '(rc, s', r) := apply_toy sample_state wrapped_price_tx 10 1 in
  rc = 0 ∧ balance (view sample_state (addr_of 3)) = 0 ∧ res_fee_tip r = 2 ^ 64 - 51.
Proof. by vm_compute. Qed.
