(* ===== verification/Mempool.v ===== *)
(** * mempool.h / mempool.c: pending transactions

    The pool is an array of entries with its capacity. Every operation takes
    the mutex for its whole critical section, so an operation is one step.
    The state the checks consult is an argument, as in the code. *)

From S2P Require Import Prelude Common Crypto Cursor Codec SortedArray State Apply.

Abbreviation AC_MEMPOOL_CAPACITY := 8192.

Inductive ac_mp_result_t :=
  | AC_MP_ACCEPTED | AC_MP_DUPLICATE | AC_MP_INVALID_SIG | AC_MP_WRONG_CHAIN | AC_MP_BAD_KIND
  | AC_MP_EXPIRED | AC_MP_GAS_BELOW_MIN | AC_MP_FULL_DROP_LOW_TIP | AC_MP_NONCE_GAP
  | AC_MP_INSUFFICIENT_FUNDS.
#[export] Instance ac_mp_result_eq_dec : EqDecision ac_mp_result_t.
Proof. solve_decision. Defined.

Record mp_entry_t := mkEntry {
  e_tx : ac_tx_t;
  e_hash : ac_hash_t;
  e_tip : Z;
  e_added_slot : Z
}.
#[export] Instance mp_entry_eq_dec : EqDecision mp_entry_t.
Proof. solve_decision. Defined.

Record ac_mempool_t := mkPool {
  mp_chain_id : Z;
  mp_entries : list mp_entry_t;
  mp_cap : Z
}.

Definition ac_mp_result_str (r : ac_mp_result_t) : string :=
  match r with
  | AC_MP_ACCEPTED => "accepted"
  | AC_MP_DUPLICATE => "duplicate"
  | AC_MP_INVALID_SIG => "invalid signature"
  | AC_MP_WRONG_CHAIN => "wrong chain_id"
  | AC_MP_BAD_KIND => "bad kind"
  | AC_MP_EXPIRED => "expired"
  | AC_MP_GAS_BELOW_MIN => "gas below minimum"
  | AC_MP_FULL_DROP_LOW_TIP => "pool full and tip too low"
  | AC_MP_NONCE_GAP => "nonce gap"
  | AC_MP_INSUFFICIENT_FUNDS => "insufficient funds"
  end.

Definition ac_mempool_new (cid : Z) : ac_mempool_t := mkPool cid [] 0.

(** A linear scan: the first index from [i] on whose entry satisfies [p]. *)
Fixpoint scan {A} (p : A → bool) (l : list A) (i : nat) : option nat :=
  match l with
  | [] => None
  | x :: l' => if p x then Some i else scan p l' (S i)
  end.

Definition mp_find (mp : ac_mempool_t) (h : ac_hash_t) : Z :=
  match scan (λ e, ac_hash_eq (e_hash e) h) (mp_entries mp) 0 with
  | Some i => Z.of_nat i
  | None => -1
  end.

Definition mp_insert (mp : ac_mempool_t) (e : mp_entry_t) : ac_mempool_t :=
  let n := zlen (mp_entries mp) in
  let cap :=
    if mp_cap mp <? n + 1 then
      let newcap := if mp_cap mp =? 0 then 128 else mp_cap mp * 2 in
      if AC_MEMPOOL_CAPACITY <? newcap then AC_MEMPOOL_CAPACITY else newcap
    else mp_cap mp in
  let pos := default (length (mp_entries mp)) (scan (λ x, e_tip x <? e_tip e) (mp_entries mp) 0) in
  mkPool (mp_chain_id mp) (insert_at (mp_entries mp) pos e) cap.

Definition same_slot (t : ac_tx_t) (e : mp_entry_t) : bool :=
  (tx_nonce (e_tx e) =? tx_nonce t) && ac_addr_eq (tx_sender (e_tx e)) (tx_sender t).

Definition with_entries (mp : ac_mempool_t) (l : list mp_entry_t) : ac_mempool_t :=
  mkPool (mp_chain_id mp) l (mp_cap mp).

(** The replacement loop: [None] is the early return of AC_MP_DUPLICATE. *)
Definition mp_replace (mp : ac_mempool_t) (t : ac_tx_t) : option ac_mempool_t :=
  match scan (same_slot t) (mp_entries mp) 0 with
  | None => Some mp
  | Some i =>
      match mp_entries mp !! i with
      | Some e => if tx_tip t <=? tx_tip (e_tx e) then None
                  else Some (with_entries mp (remove_at (mp_entries mp) i))
      | None => None
      end
  end.

Section Mempool.
Context `{!Sodium}.

(** The critical section of [ac_mempool_add]. *)
Definition mp_admit (mp : ac_mempool_t) (t : ac_tx_t) (h : ac_hash_t) (current_slot : Z)
    : ac_mp_result_t * ac_mempool_t :=
  if 0 <=? mp_find mp h then (AC_MP_DUPLICATE, mp)
  else
    match mp_replace mp t with
    | None => (AC_MP_DUPLICATE, mp)
    | Some mp1 =>
        let n := length (mp_entries mp1) in
        let e := mkEntry t h (tx_tip t) current_slot in
        if AC_MEMPOOL_CAPACITY <=? Z.of_nat n then
          match mp_entries mp1 !! (n - 1)%nat with
          | Some lowest =>
              if tx_tip t <=? e_tip lowest then (AC_MP_FULL_DROP_LOW_TIP, mp1)
              else (AC_MP_ACCEPTED, mp_insert (with_entries mp1 (take (n - 1) (mp_entries mp1))) e)
          | None => (AC_MP_FULL_DROP_LOW_TIP, mp1)
          end
        else (AC_MP_ACCEPTED, mp_insert mp1 e)
    end.

(** The value the rough funds check reads from the raw body. *)
Definition mp_value (t : ac_tx_t) : Z :=
  if (tx_kind t =? AC_TX_TRANSFER) && (32 + 8 <=? zlen (tx_body t))
  then ac_rd64 (slice (tx_body t) 32 8) else 0.

Definition ac_mempool_add (mp : ac_mempool_t) (s : ac_state_t) (t : ac_tx_t) (current_slot : Z)
    : ac_mp_result_t * ac_mempool_t :=
  if negb (tx_chain_id t =? mp_chain_id mp) then (AC_MP_WRONG_CHAIN, mp)
  else if negb (tx_version t =? AC_TX_VERSION) then (AC_MP_BAD_KIND, mp)
  else if ac_tx_intrinsic_gas (tx_kind t) <? 0 then (AC_MP_BAD_KIND, mp)
  else if tx_valid_until t <=? current_slot then (AC_MP_EXPIRED, mp)
  else if tx_gas_limit t <? ac_tx_total_gas t then (AC_MP_GAS_BELOW_MIN, mp)
  else if negb (ac_tx_verify t) then (AC_MP_INVALID_SIG, mp)
  else
    let sender := (ac_state_get s (tx_sender t)).2 in
    if negb (tx_nonce t =? nonce sender) then (AC_MP_NONCE_GAP, mp)
    else
      let max_fee := tx_gas_limit t ⊗ (AC_MIN_BASE_FEE ⊕ tx_tip t) in
      if balance sender <? (max_fee ⊕ mp_value t) then (AC_MP_INSUFFICIENT_FUNDS, mp)
      else mp_admit mp t (ac_tx_hash t) current_slot.

Definition ac_mempool_has (mp : ac_mempool_t) (h : ac_hash_t) : bool := 0 <=? mp_find mp h.

Definition ac_mempool_remove (mp : ac_mempool_t) (h : ac_hash_t) : ac_mempool_t :=
  let i := mp_find mp h in
  if 0 <=? i then with_entries mp (remove_at (mp_entries mp) (Z.to_nat i)) else mp.

Definition ac_mempool_size (mp : ac_mempool_t) : nat := length (mp_entries mp).

(** The compaction loop of [ac_mempool_prune_expired], in place: read index
    [r], write index [w]; [k] turns are left. *)
Fixpoint prune_loop (k : nat) (slot : Z) (r w : nat) (dropped : Z) (arr : list mp_entry_t)
    : list mp_entry_t * nat * Z :=
  match k with
  | O => (arr, w, dropped)
  | S k' =>
      match arr !! r with
      | None => (arr, w, dropped)
      | Some e =>
          if tx_valid_until (e_tx e) <=? slot then prune_loop k' slot (S r) w (dropped + 1) arr
          else prune_loop k' slot (S r) (S w) dropped
                 (if (w =? r)%nat then arr else <[w := e]> arr)
      end
  end.
Definition ac_mempool_prune_expired (mp : ac_mempool_t) (slot : Z) : Z * ac_mempool_t :=
  let '(arr, w, dropped) := prune_loop (length (mp_entries mp)) slot 0 0 0 (mp_entries mp) in
  (dropped, with_entries mp (take w arr)).

Definition ac_mempool_snapshot (mp : ac_mempool_t) (max : nat) : list ac_tx_t :=
  let n := if (length (mp_entries mp) <? max)%nat then length (mp_entries mp) else max in
  e_tx <$> take n (mp_entries mp).

(** The callback returns an int and updates its context; non-zero stops. *)
Fixpoint each_hash_loop {C} (fn : ac_hash_t → C → Z * C) (l : list mp_entry_t) (ctx : C) : C :=
  match l with
  | [] => ctx
  | e :: l' => let '(rc, ctx') := fn (e_hash e) ctx in
               if negb (rc =? 0) then ctx' else each_hash_loop fn l' ctx'
  end.
Definition ac_mempool_each_hash {C} (mp : ac_mempool_t) (fn : ac_hash_t → C → Z * C) (ctx : C) : C :=
  each_hash_loop fn (mp_entries mp) ctx.
End Mempool.

(** ** Scans *)

Lemma scan_spec {A} (p : A → bool) l i :
  match scan p l i with
  | Some j => ∃ l1 x l2, l = l1 ++ x :: l2 ∧ j = (i + length l1)%nat ∧ p x = true ∧
                         Forall (λ y, p y = false) l1
  | None => Forall (λ y, p y = false) l
  end.
Proof.
  revert i. induction l as [|x l IH]; intros i; simpl; [constructor|].
  destruct (p x) eqn:E.
  - exists [], x, l. simpl. rewrite Nat.add_0_r. auto.
  - specialize (IH (S i)). destruct (scan p l (S i)).
    + destruct IH as (l1 & y & l2 & -> & -> & Hp & Hf). exists (x :: l1), y, l2.
      split; [done|]. split; [simpl; lia|]. split; [done|]. by constructor.
    + by constructor.
Qed.

(** ** Invariant *)

(** Inclusion order: higher tip first. (Equal tips stand in the order of arrival, whatever
    their slots: [mp_insert_split].) *)
Definition mp_before (x y : mp_entry_t) : Prop := e_tip y <= e_tip x.

Definition slot_key (e : mp_entry_t) : ac_addr_t * Z := (tx_sender (e_tx e), tx_nonce (e_tx e)).

Section MempoolFacts.
Context `{!Sodium}.

Record entry_ok (cid : Z) (e : mp_entry_t) : Prop := {
  eo_hash : e_hash e = ac_tx_hash (e_tx e);
  eo_tip : e_tip e = tx_tip (e_tx e);
  eo_chain : tx_chain_id (e_tx e) = cid;
  eo_version : tx_version (e_tx e) = AC_TX_VERSION;
  eo_sig : ac_tx_verify (e_tx e) = true
}.

Record mp_wf (mp : ac_mempool_t) : Prop := {
  mw_cap : zlen (mp_entries mp) <= mp_cap mp <= AC_MEMPOOL_CAPACITY;
  mw_sorted : StronglySorted mp_before (mp_entries mp);
  mw_hash : NoDup (e_hash <$> mp_entries mp);
  mw_slot : NoDup (slot_key <$> mp_entries mp);
  mw_ok : Forall (entry_ok (mp_chain_id mp)) (mp_entries mp)
}.

Lemma mp_find_spec mp h :
  (∃ l1 e l2, mp_entries mp = l1 ++ e :: l2 ∧ mp_find mp h = zlen l1 ∧ e_hash e = h) ∨
  (mp_find mp h = -1 ∧ h ∉ e_hash <$> mp_entries mp).
Proof.
  unfold mp_find. pose proof (scan_spec (λ e, ac_hash_eq (e_hash e) h) (mp_entries mp) 0) as Hs.
  destruct (scan _ _ _) as [i|].
  - destruct Hs as (l1 & e & l2 & Hl & -> & He%ac_hash_eq_true & _). left. exists l1, e, l2.
    split; [done|]. split; [lia|done].
  - right. split; [done|]. intros (e & -> & Hin)%list_elem_of_fmap. rewrite Forall_forall in Hs.
    specialize (Hs e Hin). simpl in Hs. by rewrite ac_hash_eq_refl in Hs.
Qed.

(** Any selection of entries that keeps their order keeps the invariant. *)
Lemma mp_wf_sublist mp l : mp_wf mp → l `sublist_of` mp_entries mp → mp_wf (with_entries mp l).
Proof.
  intros [Hc Hs Hh Hk Ho] Hl. constructor; simpl.
  - apply sublist_length in Hl. lia.
  - clear -Hs Hl. induction Hl as [|x l k Hl IH|x l k Hl IH]; [done| |].
    + apply StronglySorted_cons in Hs as [Hx Hs]. constructor; [by apply IH|].
      rewrite Forall_forall in *. intros y Hy. apply Hx. eapply elem_of_submseteq; [done|]. by apply sublist_submseteq.
    + apply IH. by apply StronglySorted_cons in Hs as [_ ?].
  - eapply sublist_NoDup; [done|]. by apply fmap_sublist.
  - eapply sublist_NoDup; [done|]. by apply fmap_sublist.
  - rewrite Forall_forall in *. intros e He. apply Ho. eapply elem_of_submseteq; [done|]. by apply sublist_submseteq.
Qed.

(** The scan splits the pool between the entries that stay ahead, those of the same tip
    among them, and the ones that move back. *)
Lemma mp_insert_split mp e : StronglySorted mp_before (mp_entries mp) →
  ∃ l1 l2, mp_entries mp = l1 ++ l2 ∧ mp_entries (mp_insert mp e) = l1 ++ e :: l2 ∧
           Forall (λ x, e_tip e <= e_tip x) l1 ∧ Forall (λ x, e_tip x < e_tip e) l2.
Proof.
  intros Hs. unfold mp_insert. cbn [mp_entries].
  pose proof (scan_spec (λ x, e_tip x <? e_tip e) (mp_entries mp) 0) as Hp. cbv beta in Hp.
  destruct (scan _ _ _) as [i|]; cbn [from_option id].
  - destruct Hp as (l1 & x & l2 & Hl & -> & Hx%Z.ltb_lt & Hf). exists l1, (x :: l2). rewrite Hl in *.
    cbn [Nat.add]. cbn [from_option id]. rewrite insert_at_middle. repeat split; auto.
    + eapply Forall_impl; [exact Hf|]. intros y Hy. by apply Z.ltb_ge in Hy.
    + apply StronglySorted_app_1_r, StronglySorted_cons in Hs as [Hx2 _]. constructor; [done|].
      eapply Forall_impl; [exact Hx2|]. unfold mp_before. intros y. lia.
  - exists (mp_entries mp), []. rewrite app_nil_r. split; [done|].
    split; [unfold insert_at; by rewrite firstn_all, drop_all|]. split; [|done].
    eapply Forall_impl; [exact Hp|]. intros y Hy. by apply Z.ltb_ge in Hy.
Qed.

Lemma mp_insert_wf mp e : mp_wf mp → zlen (mp_entries mp) < AC_MEMPOOL_CAPACITY →
  entry_ok (mp_chain_id mp) e → e_hash e ∉ e_hash <$> mp_entries mp →
  slot_key e ∉ slot_key <$> mp_entries mp →
  mp_wf (mp_insert mp e) ∧ mp_entries (mp_insert mp e) ≡ₚ e :: mp_entries mp.
Proof.
  intros [Hc Hs Hh Hk Ho] Hn He Hhe Hke.
  destruct (mp_insert_split mp e Hs) as (l1 & l2 & Hl & Hl' & H1 & H2).
  assert (mp_entries (mp_insert mp e) ≡ₚ e :: mp_entries mp) as Hp.
  { rewrite Hl', Hl. symmetry. apply Permutation_middle. }
  split; [|done]. constructor.
  - rewrite Hp. cbn [length]. unfold mp_insert; cbn [mp_cap].
    destruct (Z.ltb_spec (mp_cap mp) (zlen (mp_entries mp) + 1)); [|lia].
    destruct (Z.eqb_spec (mp_cap mp) 0); simpl; [lia|].
    destruct (Z.ltb_spec AC_MEMPOOL_CAPACITY (mp_cap mp * 2)); lia.
  - rewrite Hl'. rewrite Hl in Hs. apply StronglySorted_app in Hs as (H12 & S1 & S2). rewrite Forall_forall in *.
    apply StronglySorted_app_2; [|done|].
    + intros x y Hx [->|Hy]%elem_of_cons; [|by apply H12]. by apply H1.
    + apply SSorted_cons; [done|]. apply Forall_forall. intros y Hy. specialize (H2 y Hy). unfold mp_before. simpl in H2. lia.
  - rewrite Hp. simpl. by constructor.
  - rewrite Hp. simpl. by constructor.
  - rewrite Hp. by constructor.
Qed.

Lemma mp_replace_spec mp t : mp_wf mp →
  match mp_replace mp t with
  | Some mp1 => mp_wf mp1 ∧ mp_chain_id mp1 = mp_chain_id mp ∧
      (mp_entries mp1 `sublist_of` mp_entries mp) ∧
      ((tx_sender t, tx_nonce t) ∉ (slot_key <$> mp_entries mp1)) ∧
      (mp1 = mp ∨ ∃ e, (mp_entries mp ≡ₚ e :: mp_entries mp1) ∧ same_slot t e = true ∧ e_tip e < tx_tip t)
  | None => ∃ e, e ∈ mp_entries mp ∧ same_slot t e = true ∧ tx_tip t <= e_tip e
  end.
Proof.
  intros Hw. unfold mp_replace.
  assert (∀ e, same_slot t e = true ↔ slot_key e = (tx_sender t, tx_nonce t)) as Hss.
  { intros e. unfold same_slot, slot_key. rewrite andb_true_iff, Z.eqb_eq, ac_addr_eq_true.
    split; [by intros [-> ->] | by intros [= -> ->]]. }
  pose proof (scan_spec (same_slot t) (mp_entries mp) 0) as Hp. destruct (scan _ _ _) as [i|].
  - destruct Hp as (l1 & e & l2 & Hl & -> & He & _). cbn [Nat.add].
    assert (mp_entries mp !! length l1 = Some e) as -> by (rewrite Hl; by apply list_lookup_middle).
    assert (e ∈ mp_entries mp) as Hin by (rewrite Hl; set_solver).
    pose proof (mw_ok _ Hw) as Hok. rewrite Forall_forall in Hok. specialize (Hok e Hin).
    rewrite <- (eo_tip _ _ Hok). destruct (Z.leb_spec (tx_tip t) (e_tip e)); [by exists e|].
    rewrite Hl, remove_at_middle.
    assert ((l1 ++ l2) `sublist_of` mp_entries mp) as Hsub.
    { rewrite Hl. apply sublist_app; [done|]. by apply sublist_cons. }
    split; [by apply mp_wf_sublist|]. split; [done|]. cbn [with_entries mp_entries]. rewrite <- Hl.
    split; [done|]. split.
    + pose proof (mw_slot _ Hw) as Hnd. rewrite Hl in Hnd. rewrite fmap_app, fmap_cons in *.
      rewrite <- Permutation_middle in Hnd. apply NoDup_cons in Hnd as [Hnd _].
      by rewrite <- (proj1 (Hss e) He).
    + right. exists e. split; [|done]. rewrite Hl. symmetry. apply Permutation_middle.
  - split; [done|]. split; [done|]. split; [done|]. split; [|by left].
    intros (e & He & Hin)%list_elem_of_fmap. rewrite Forall_forall in Hp. specialize (Hp e Hin).
    symmetry in He. apply Hss in He. congruence.
Qed.

(** Who leaves the pool when [t] enters it: at most one entry, outbid by [t]. *)
Definition mp_step (mp mp' : ac_mempool_t) (t : ac_tx_t) (e : mp_entry_t) : Prop :=
  mp_entries mp' ≡ₚ e :: mp_entries mp ∨
  ∃ old rest, mp_entries mp ≡ₚ old :: rest ∧ mp_entries mp' ≡ₚ e :: rest ∧ e_tip old < tx_tip t ∧
    (same_slot t old = true ∨
     zlen (mp_entries mp) = AC_MEMPOOL_CAPACITY ∧ Forall (λ x, e_tip old <= e_tip x) (mp_entries mp)).

Lemma last_lowest l k e : StronglySorted mp_before l → l = k ++ [e] → Forall (λ x, e_tip e <= e_tip x) l.
Proof.
  intros Hs ->. apply StronglySorted_app in Hs as (H12 & _). apply Forall_app. split.
  - apply Forall_forall. intros x Hx. by apply (H12 x e Hx); left.
  - by repeat constructor.
Qed.

Lemma mp_admit_spec mp t slot : mp_wf mp →
  entry_ok (mp_chain_id mp) (mkEntry t (ac_tx_hash t) (tx_tip t) slot) →
  let '(res, mp') := mp_admit mp t (ac_tx_hash t) slot in
  mp_wf mp' ∧
  (res = AC_MP_ACCEPTED ∧ mp_step mp mp' t (mkEntry t (ac_tx_hash t) (tx_tip t) slot) ∨
   res ≠ AC_MP_ACCEPTED ∧ mp' = mp).
Proof.
  intros Hw He. unfold mp_admit. set (e := mkEntry _ _ _ _) in *.
  destruct (mp_find_spec mp (ac_tx_hash t)) as [(l1 & x & l2 & Hl & -> & _)|[-> Hh]].
  { rewrite (proj2 (Z.leb_le _ _)) by lia. split; [done|]. by right. }
  simpl (0 <=? -1). cbn match. pose proof (mp_replace_spec mp t Hw) as Hr.
  destruct (mp_replace mp t) as [mp1|]; [|split; [done | by right]].
  destruct Hr as (Hw1 & Hc1 & Hsub & Hkey & Hcase).
  assert (∀ l, l `sublist_of` mp_entries mp1 → (e_hash e ∉ (e_hash <$> l)) ∧ (slot_key e ∉ (slot_key <$> l))) as Hfresh.
  { intros l Hl. assert (l ⊆+ mp_entries mp) as Hm by (apply sublist_submseteq; by etransitivity).
    split.
    - intros Hin. apply Hh. eapply elem_of_submseteq; [exact Hin|]. by apply fmap_submseteq.
    - intros Hin. apply Hkey. eapply elem_of_submseteq; [exact Hin|].
      by apply fmap_submseteq, sublist_submseteq. }
  destruct (Z.leb_spec AC_MEMPOOL_CAPACITY (zlen (mp_entries mp1))) as [Hfull|Hroom].
  - assert (mp1 = mp) as ->.
    { destruct Hcase as [|(old & Hp & _)]; [done|]. apply Permutation_length in Hp. cbn [length] in Hp.
      pose proof (mw_cap _ Hw). lia. }
    destruct (exists_last (l := mp_entries mp)) as (k & low & Hk); [by destruct (mp_entries mp)|].
    assert (length (mp_entries mp) - 1 = length k)%nat as Hn.
    { rewrite Hk, length_app. simpl. lia. }
    rewrite Hn, Hk, list_lookup_middle by done. destruct (Z.leb_spec (tx_tip t) (e_tip low)).
    + split; [done|]. by right.
    + rewrite take_app_length. assert (k `sublist_of` mp_entries mp) as Hks by (rewrite Hk; by apply sublist_inserts_r).
      destruct (Hfresh k Hks) as (F1 & F2).
      destruct (mp_insert_wf (with_entries mp k) e) as [Hw' Hp']; auto using mp_wf_sublist.
      { simpl. pose proof (mw_cap _ Hw). rewrite Hk, length_app in *. simpl in *. lia. }
      split; [done|]. left. split; [done|]. right. exists low, k. rewrite Hk at 1.
      split; [symmetry; apply Permutation_cons_append|]. split; [done|]. split; [done|]. right.
      split; [pose proof (mw_cap _ Hw); lia | eapply last_lowest; [apply Hw | done]].
  - destruct (Hfresh (mp_entries mp1) (reflexivity _)) as (F1 & F2).
    destruct (mp_insert_wf mp1 e) as [Hw' Hp']; auto; [by rewrite Hc1|].
    split; [done|]. left. split; [done|]. destruct Hcase as [->|(old & Hp & Hs & Ht)]; [by left|].
    right. exists old, (mp_entries mp1). auto.
Qed.

Lemma ac_mempool_add_step mp s t slot :
  mp_wf mp →
  let '(res, mp') := ac_mempool_add mp s t slot in
  mp_wf mp' ∧
  (res = AC_MP_ACCEPTED ∧ mp_step mp mp' t (mkEntry t (ac_tx_hash t) (tx_tip t) slot) ∨
   res ≠ AC_MP_ACCEPTED ∧ mp' = mp).
Proof.
  intros Hw. unfold ac_mempool_add.
  destruct (Z.eqb_spec (tx_chain_id t) (mp_chain_id mp)); cbn [negb]; [|by auto].
  destruct (Z.eqb_spec (tx_version t) AC_TX_VERSION); cbn [negb]; [|by auto].
  destruct (_ <? 0); [by auto|]. destruct (_ <=? slot); [by auto|].
  destruct (_ <? ac_tx_total_gas t); [by auto|].
  destruct (ac_tx_verify t) eqn:Hv; cbn [negb]; [|by auto].
  destruct (negb _); [by auto|]. destruct (_ <? _); [by auto|].
  by apply mp_admit_spec.
Qed.

(** Adding to the pool preserves its invariant: never more than the capacity (and the
    array never written past it), ordered by tip, no two entries with the same
    hash or the same sender and nonce, every entry signed and for this chain. A result other
    than AC_MP_ACCEPTED leaves the pool exactly as it was; an accepted transaction enters
    and at most one entry leaves, which it outbids: the one it replaces (same sender and
    nonce), or, when the pool is full, one of the lowest tip. *)
Theorem mempool_add_spec mp s t slot :
  mp_wf mp →
  let '(res, mp') := ac_mempool_add mp s t slot in
  mp_wf mp' ∧
  (res = AC_MP_ACCEPTED ∧ mp_step mp mp' t (mkEntry t (ac_tx_hash t) (tx_tip t) slot) ∨
   res ≠ AC_MP_ACCEPTED ∧ mp' = mp).
Proof. apply ac_mempool_add_step. Qed.

Lemma notin_hash h l : h ∉ (e_hash <$> l) → Forall (λ e, e_hash e ≠ h) l.
Proof. intros Hn. apply Forall_forall. intros e He <-. apply Hn, list_elem_of_fmap. eauto. Qed.

Lemma remove_at_perm mp h l1 e l2 : mp_wf mp → mp_entries mp = l1 ++ e :: l2 → e_hash e = h →
  h ∉ e_hash <$> (l1 ++ l2).
Proof.
  intros Hw Hl <-. pose proof (mw_hash _ Hw) as Hn. rewrite Hl in Hn. rewrite fmap_app, fmap_cons in *.
  rewrite <- Permutation_middle in Hn. by apply NoDup_cons in Hn as [? _].
Qed.

Lemma mp_remove_spec mp h :
  mp_wf mp →
  mp_wf (ac_mempool_remove mp h) ∧
  (ac_mempool_has mp h = true ↔ h ∈ e_hash <$> mp_entries mp) ∧
  ac_mempool_has (ac_mempool_remove mp h) h = false ∧
  mp_entries (ac_mempool_remove mp h) = filter (λ e, e_hash e ≠ h) (mp_entries mp).
Proof.
  intros Hw. unfold ac_mempool_remove, ac_mempool_has.
  destruct (mp_find_spec mp h) as [(l1 & e & l2 & Hl & -> & He)|[-> Hh]].
  - rewrite (proj2 (Z.leb_le _ _)), Nat2Z.id by lia. rewrite Hl, remove_at_middle.
    assert ((l1 ++ l2) `sublist_of` mp_entries mp) as Hsub.
    { rewrite Hl. apply sublist_app; [done|]. by apply sublist_cons. }
    pose proof (remove_at_perm mp h l1 e l2 Hw Hl He) as Hn. split; [by apply mp_wf_sublist|].
    split; [|split].
    + split; [|done]. intros _. rewrite <- He. apply list_elem_of_fmap. exists e. set_solver.
    + destruct (mp_find_spec (with_entries mp (l1 ++ l2)) h) as [(k1 & x & k2 & Hk & -> & Hx)|[-> _]]; [|done].
      simpl in Hk. exfalso. apply Hn. rewrite Hk, <- Hx. apply list_elem_of_fmap. exists x. set_solver.
    + cbn [with_entries mp_entries]. rewrite filter_app, filter_cons_False by (by intros ?).
      rewrite <- filter_app, filter_id; [done|]. by apply notin_hash.
  - change (0 <=? -1) with false. cbn match. split; [done|]. split; [by split|].
    destruct (mp_find_spec mp h) as [(l1 & e & l2 & Hl & _ & He)|[-> _]].
    { exfalso. apply Hh. rewrite <- He, Hl. apply list_elem_of_fmap. exists e. set_solver. }
    split; [done|]. rewrite filter_id; [done|]. by apply notin_hash.
Qed.

(** Lookup and removal are by hash: after a removal the hash is absent, every other entry
    stays, in order, and the invariant holds; removing an absent hash does nothing. *)
Theorem mempool_remove_spec mp h :
  mp_wf mp →
  mp_wf (ac_mempool_remove mp h) ∧
  (ac_mempool_has mp h = true ↔ h ∈ e_hash <$> mp_entries mp) ∧
  ac_mempool_has (ac_mempool_remove mp h) h = false ∧
  mp_entries (ac_mempool_remove mp h) = filter (λ e, e_hash e ≠ h) (mp_entries mp).
Proof. apply mp_remove_spec. Qed.

Lemma ac_mempool_remove_step mp h : mp_wf mp →
  mp_wf (ac_mempool_remove mp h) ∧ mp_entries (ac_mempool_remove mp h) ⊆ mp_entries mp.
Proof.
  intros Hw. unfold ac_mempool_remove.
  destruct (mp_find_spec mp h) as [(l1 & e & l2 & Hl & -> & He)|[-> Hh]]; [|done].
  rewrite (proj2 (Z.leb_le _ _)), Nat2Z.id by lia. rewrite Hl, remove_at_middle.
  assert ((l1 ++ l2) `sublist_of` mp_entries mp) as Hsub.
  { rewrite Hl. apply sublist_app; [done|]. by apply sublist_cons. }
  split; [by apply mp_wf_sublist|]. rewrite <- Hl. cbn [with_entries mp_entries].
  intros x Hx. eapply elem_of_submseteq; [done|]. by apply sublist_submseteq.
Qed.

Definition live_at (slot : Z) (e : mp_entry_t) : Prop := slot < tx_valid_until (e_tx e).
#[export] Instance live_at_dec slot e : Decision (live_at slot e) := Z_lt_dec _ _.

(** The compaction loop: [kept] is compacted, [gap] is free to overwrite, [rest]
    is still to be read. *)
Lemma prune_loop_spec slot rest kept gap d :
  let '(arr, w, dropped) :=
    prune_loop (length rest) slot (length kept + length gap) (length kept) d (kept ++ gap ++ rest) in
  take w arr = kept ++ filter (live_at slot) rest ∧
  dropped = d + (zlen rest - zlen (filter (live_at slot) rest)).
Proof.
  revert kept gap d. induction rest as [|e rest IH]; intros kept gap d; cbn [length prune_loop].
  - rewrite take_app_length. change (filter (live_at slot) []) with (@nil mp_entry_t).
    rewrite app_nil_r. split; [done|]. simpl. lia.
  - rewrite app_assoc, <- length_app, list_lookup_middle, filter_cons by done.
    destruct (Z.leb_spec (tx_valid_until (e_tx e)) slot).
    + rewrite decide_False by (unfold live_at; lia). specialize (IH kept (gap ++ [e]) (d + 1)).
      rewrite <- (app_assoc gap), (length_app gap) in IH. cbn [app length] in IH.
      rewrite <- app_assoc, length_app, <- Nat.add_succ_r, <- (Nat.add_1_r (length gap)).
      destruct (prune_loop _ _ _ _ _ _) as [[arr w] dr]. destruct IH as [-> ->]. split; [done|lia].
    + rewrite decide_True by (unfold live_at; lia). cbn [length].
      assert (∃ gap', (if (length kept =? length (kept ++ gap))%nat then (kept ++ gap) ++ e :: rest
                       else <[length kept := e]> ((kept ++ gap) ++ e :: rest)) =
                      (kept ++ [e]) ++ gap' ++ rest ∧ length gap' = length gap) as (gap' & -> & Hg).
      { destruct gap as [|g gap].
        - rewrite app_nil_r, Nat.eqb_refl. exists []. by rewrite <- app_assoc.
        - rewrite (proj2 (Nat.eqb_neq _ _)) by len. exists (gap ++ [e]).
          rewrite <- !app_assoc. cbn [app]. rewrite set_middle. split; [done|len]. }
      specialize (IH (kept ++ [e]) gap' d). rewrite (length_app kept), Hg in IH. cbn [length] in IH.
      rewrite length_app. replace (S (length kept + length gap)) with (length kept + 1 + length gap)%nat by lia.
      rewrite <- (Nat.add_1_r (length kept)).
      destruct (prune_loop _ _ _ _ _ _) as [[arr w] dr]. destruct IH as [-> ->].
      rewrite <- app_assoc. split; [done|lia].
Qed.

Lemma ac_mempool_prune_entries mp slot :
  mp_entries (ac_mempool_prune_expired mp slot).2 = filter (live_at slot) (mp_entries mp) ∧
  (ac_mempool_prune_expired mp slot).1 =
    zlen (mp_entries mp) - zlen (filter (live_at slot) (mp_entries mp)) ∧
  (ac_mempool_prune_expired mp slot).2 = with_entries mp (filter (live_at slot) (mp_entries mp)).
Proof.
  unfold ac_mempool_prune_expired.
  pose proof (prune_loop_spec slot (mp_entries mp) [] [] 0) as Hp. cbn [length Nat.add app] in Hp.
  destruct (prune_loop _ _ _ _ _ _) as [[arr w] d]. destruct Hp as [-> ->]. simpl. auto with lia.
Qed.
Lemma ac_mempool_prune_step mp slot : mp_wf mp →
  mp_wf (ac_mempool_prune_expired mp slot).2 ∧
  mp_entries (ac_mempool_prune_expired mp slot).2 ⊆ mp_entries mp.
Proof.
  intros Hw. destruct (ac_mempool_prune_entries mp slot) as (E & _ & E'). split.
  - rewrite E'. apply mp_wf_sublist; [done|]. apply sublist_filter.
  - rewrite E. intros x Hx. by apply list_elem_of_filter in Hx as [_ ?].
Qed.

(** Pruning compacts the array in place to exactly the entries still valid after the
    slot, in their order, returns how many it dropped, and keeps the invariant. *)
Theorem mempool_prune_spec mp slot :
  mp_wf mp →
  let '(dropped, mp') := ac_mempool_prune_expired mp slot in
  mp_entries mp' = filter (live_at slot) (mp_entries mp) ∧
  dropped = zlen (mp_entries mp) - zlen (mp_entries mp') ∧ mp_wf mp'.
Proof.
  intros Hw. destruct (ac_mempool_prune_entries mp slot) as (E & E' & _).
  destruct (ac_mempool_prune_step mp slot Hw) as [Hw' _]. destruct (ac_mempool_prune_expired mp slot).
  cbn [fst snd] in *. rewrite E. auto.
Qed.

(** ** Runs

    The calls other components make, in any order and with any slots: they come from the
    wall clock. *)
Inductive mp_call (mp : ac_mempool_t) : ac_mempool_t → Prop :=
  | call_add slot s t : mp_call mp (ac_mempool_add mp s t slot).2
  | call_remove h : mp_call mp (ac_mempool_remove mp h)
  | call_prune slot : mp_call mp (ac_mempool_prune_expired mp slot).2.

Lemma mp_new_wf cid : mp_wf (ac_mempool_new cid).
Proof. constructor; simpl; try constructor; done. Qed.
Lemma ac_mempool_add_wf mp s t slot : mp_wf mp → mp_wf (ac_mempool_add mp s t slot).2.
Proof.
  intros Hw. pose proof (ac_mempool_add_step mp s t slot Hw) as Ha.
  destruct (ac_mempool_add mp s t slot) as [res mp']. apply Ha.
Qed.

(** C38. Every pool reached from an empty one by any sequence of adds, removals and prunes, at
    whatever slots, stays within its capacity, is ordered by descending tip, has no two
    entries with the same hash or the same sender and nonce, and holds only signed
    transactions for its chain; and a snapshot takes the best entries: it is a prefix, so
    no transaction left out has a higher tip than one taken. *)
Theorem mempool_reachable cid mp max :
  rtc mp_call (ac_mempool_new cid) mp →
  mp_wf mp ∧
  (∃ rest, e_tx <$> mp_entries mp = ac_mempool_snapshot mp max ++ rest ∧
     length (ac_mempool_snapshot mp max) = Nat.min (length (mp_entries mp)) max ∧
     ∀ x y, x ∈ ac_mempool_snapshot mp max → y ∈ rest → tx_tip y <= tx_tip x).
Proof.
  intros Hr. assert (mp_wf mp) as Hw.
  { pose proof (mp_new_wf cid) as Hi. revert Hi. induction Hr as [|c1 c2 c3 Hc Hr IH]; [done|]. intros Hw. apply IH.
    destruct Hc as [slot s t|h|slot]; [by apply ac_mempool_add_wf | by apply ac_mempool_remove_step | by apply ac_mempool_prune_step]. }
  split; [done|]. unfold ac_mempool_snapshot.
  set (n := if (length (mp_entries mp) <? max)%nat then length (mp_entries mp) else max).
  assert (n = Nat.min (length (mp_entries mp)) max) as Hn.
  { unfold n. destruct (Nat.ltb_spec (length (mp_entries mp)) max); lia. }
  clearbody n. exists (e_tx <$> drop n (mp_entries mp)). split; [by rewrite <- fmap_app, take_drop|].
  split; [rewrite length_fmap, length_take; lia|].
  intros x y (ex & -> & Hx)%list_elem_of_fmap (ey & -> & Hy)%list_elem_of_fmap.
  pose proof (mw_sorted _ Hw) as Hs. pose proof (mw_ok _ Hw) as Ho.
  rewrite <- (take_drop n (mp_entries mp)) in Hs. rewrite <- (take_drop n (mp_entries mp)) in Ho.
  rewrite Forall_app, !Forall_forall in Ho.
  destruct Ho as [O1 O2]. rewrite <- (eo_tip _ _ (O1 ex Hx)), <- (eo_tip _ _ (O2 ey Hy)).
  exact (StronglySorted_app_1_elem_of _ _ _ _ _ Hs Hx Hy).
Qed.
End MempoolFacts.

(** ** Witnesses *)

Definition signed_tx (tip nonce : Z) : ac_tx_t :=
  default (transfer_tx 1 2 500 30 tip)
    (@ac_tx_sign toy_sodium (mkTx 1 7 AC_TX_TRANSFER (addr_of 1) nonce 30 tip 1000
       (b (addr_of 2) ++ ac_be64 500) [] (sig_of 0)) (@ac_keypair_from_seed toy_sodium (addr_of 1))).
Definition sample_pool : ac_mempool_t :=
  (@ac_mempool_add toy_sodium (ac_mempool_new 7) sample_state (signed_tx 2 0) 10).2.

Lemma sample_pool_wf : @mp_wf toy_sodium sample_pool.
Proof. apply ac_mempool_add_wf, mp_new_wf. Qed.

(** Replacement by a higher tip. *)
Lemma mempool_add_spec_witness :
  (@ac_mempool_add toy_sodium sample_pool sample_state (signed_tx 3 0) 11).1 = AC_MP_ACCEPTED ∧
  @mp_wf toy_sodium (@ac_mempool_add toy_sodium sample_pool sample_state (signed_tx 3 0) 11).2.
Proof.
  split; [by vm_compute|].
  pose proof (@mempool_add_spec toy_sodium sample_pool sample_state (signed_tx 3 0) 11 sample_pool_wf) as H.
  destruct (@ac_mempool_add toy_sodium sample_pool sample_state (signed_tx 3 0) 11). apply H.
Defined.

Lemma mempool_remove_spec_witness :
  let h := @ac_tx_hash toy_sodium (signed_tx 2 0) in
  ac_mempool_has sample_pool h = true ∧ ac_mempool_has (ac_mempool_remove sample_pool h) h = false.
Proof.
  split; [by vm_compute|].
  apply (@mempool_remove_spec toy_sodium sample_pool _ sample_pool_wf).
Defined.

Lemma mempool_prune_spec_witness :
  (ac_mempool_prune_expired sample_pool 1000).1 = 1 ∧
  @mp_wf toy_sodium (ac_mempool_prune_expired sample_pool 1000).2.
Proof.
  split; [by vm_compute|].
  pose proof (@mempool_prune_spec toy_sodium sample_pool 1000 sample_pool_wf) as H.
  destruct (ac_mempool_prune_expired sample_pool 1000). apply H.
Defined.

Lemma mempool_reachable_witness : @mp_wf toy_sodium sample_pool.
Proof.
  apply (@mempool_reachable toy_sodium 7 sample_pool 5), rtc_once.
  exact (@call_add toy_sodium (ac_mempool_new 7) 10 sample_state (signed_tx 2 0)).
Defined.

(** The slot an entry came in is never compared: when the clock goes back, of two entries
    with the same tip the one of the later slot stands first. *)
Definition other_tx : ac_tx_t :=
  default (signed_tx 0 0) (@ac_tx_sign toy_sodium (mkTx 1 7 AC_TX_TRANSFER (addr_of 2) 1 30 2 1000
    (b (addr_of 1) ++ ac_be64 5) [] (sig_of 0)) (@ac_keypair_from_seed toy_sodium (addr_of 2))).
Lemma added_slot_not_compared :
  let mp := (@ac_mempool_add toy_sodium sample_pool (ac_state_credit sample_state (addr_of 2) 10000) other_tx 9).2 in
  (λ e, (e_tip e, e_added_slot e)) <$> mp_entries mp = [(2, 10); (2, 9)].
Proof. by vm_compute. Qed.

(** The funds check wraps: an account without funds passes it with a tip of
    [2 ^ 64 - 1]. *)
Lemma mempool_fee_wraps :
  (@ac_mempool_add toy_sodium (ac_mempool_new 7) (ac_state_new 7) 
     (default (signed_tx 0 0) (@ac_tx_sign toy_sodium (mkTx 1 7 AC_TX_STAKE_UNBOND (addr_of 1) 0 51 (2 ^ 64 - 1)
        1000 (ac_be64 0) [] (sig_of 0)) (@ac_keypair_from_seed toy_sodium (addr_of 1)))) 10).1 = AC_MP_ACCEPTED.
Proof. by vm_compute. Qed.
