(* ===== verification/Econ.v ===== *)
(** * chain.c, lines 725-827: rewards, fee market and sortition primitives

    [long double] is modelled by its mantissa width, which the C standard
    leaves to the platform (64 bits on x86-64 Linux, 53 or 113 elsewhere):
    operations round to nearest, ties to even. The exponent range is not
    limited (the values stay far from it). Converting a value of [2 ^ 64] or
    more to [uint64_t] is undefined, so its result is a parameter too. *)

From S2P Require Import Prelude Common Crypto Cursor Codec.

(** ** Rewards and base fee *)

Definition SLOTS_PER_YEAR : Z := 15778800.

Definition ac_chain_block_reward (height : Z) : Z :=
  let year := height / SLOTS_PER_YEAR in
  let annual_emission_ucrd := if year <? 10 then 2000000 * 1000000 else 500000 * 1000000 in
  annual_emission_ucrd / SLOTS_PER_YEAR.

Definition ac_chain_next_base_fee (prev_base_fee gas_used gas_limit : Z) : Z :=
  let target := gas_limit / 2 in
  if gas_used =? target then prev_base_fee
  else
    let diff := i64 gas_used - i64 target in
    let delta :=
      if 0 <=? diff then
        let inc := (prev_base_fee ⊗ u64 diff) / target / 8 in
        let inc := if inc =? 0 then 1 else inc in
        i64 inc
      else
        let dec := (prev_base_fee ⊗ u64 (- diff)) / target / 8 in
        let dec := if dec =? 0 then 1 else dec in
        - i64 dec in
    let next := i64 prev_base_fee + delta in
    let next := if next <? AC_MIN_BASE_FEE then AC_MIN_BASE_FEE else next in
    u64 next.

(** ** VRF inputs *)

Definition LEADER_DOMAIN : list byte := str "AGCH:LEADER".
Definition COMMITTEE_DOMAIN : list byte := str "AGCH:COMMITTEE".
Definition leader_alpha (seed : ac_hash_t) (slot : Z) : list byte :=
  LEADER_DOMAIN ++ b seed ++ ac_be64 slot.
Definition committee_alpha (seed : ac_hash_t) (slot : Z) : list byte :=
  COMMITTEE_DOMAIN ++ b seed ++ ac_be64 slot.

(** The score [beta / sqrt_stake] as 16 big-endian bytes. *)
Definition priority_of (beta : ac_vrf_out_t) (sqrt_stake : Z) : bytes 16 :=
  if sqrt_stake =? 0 then bytes_of 16 (repeat (byte_of 255) 16)
  else
    let hi := ac_rd64 (slice (b beta) 0 8) in
    let lo := ac_rd64 (slice (b beta) 8 8) in
    let q_hi := hi / sqrt_stake in
    let r_hi := hi mod sqrt_stake in
    let q_lo := (lo / sqrt_stake) ⊕ ((UINT64_MAX / sqrt_stake) ⊗ r_hi) in
    bytes_of 16 (ac_be64 q_hi ++ ac_be64 q_lo).

(** ** long double *)

Class LongDouble := {
  ld_prec : Z;
  ld_overflow : Z
}.

(** A finite non-negative value [m * 2 ^ e]. *)
Definition ld_t : Type := Z * Z.

Definition div_even (num den : Z) : Z :=
  let q := num / den in
  let r := num mod den in
  if 2 * r <? den then q else if den <? 2 * r then q + 1 else if Z.even q then q else q + 1.

Section LongDouble.
Context `{!LongDouble}.

(** [n * 2 ^ s / d] rounded to [ld_prec] bits. *)
Definition ld_round (n d s : Z) : ld_t :=
  if n =? 0 then (0, 0)
  else
    let k := Z.log2 n - Z.log2 d in
    let below := if 0 <=? k then n <? d * 2 ^ k else n * 2 ^ (- k) <? d in
    let e := (if below then k - 1 else k) - ld_prec + 1 in
    (if 0 <=? e then div_even n (d * 2 ^ e) else div_even (n * 2 ^ (- e)) d, e + s).

Definition ld_of_u64 (x : Z) : ld_t := ld_round x 1 0.
Definition ld_mul (x y : ld_t) : ld_t := ld_round (x.1 * y.1) 1 (x.2 + y.2).
Definition ld_div (x y : ld_t) : ld_t := ld_round x.1 y.1 (x.2 - y.2).
Definition ld_ge_1 (x : ld_t) : bool := if 0 <=? x.2 then 1 <=? x.1 * 2 ^ x.2 else 2 ^ (- x.2) <=? x.1.
Definition ld_to_u64 (x : ld_t) : Z :=
  let v := if 0 <=? x.2 then x.1 * 2 ^ x.2 else x.1 / 2 ^ (- x.2) in
  if v <? U64 then v else ld_overflow.

Definition committee_eligible (draw_u64 sqrt_stake total_sqrt : Z) : bool :=
  if (total_sqrt =? 0) || (sqrt_stake =? 0) then false
  else
    let p := ld_div (ld_mul (ld_of_u64 sqrt_stake) (ld_of_u64 AC_COMMITTEE_TARGET)) (ld_of_u64 total_sqrt) in
    if ld_ge_1 p then true
    else
      let thr := ld_mul p (ld_of_u64 UINT64_MAX) in
      draw_u64 <? ld_to_u64 thr.
End LongDouble.

(** The x87 format of x86-64. *)
Definition x87 : LongDouble := {| ld_prec := 64; ld_overflow := 0 |}.

(** A quarter of the committee target over sixteen equal validators: everyone is
    eligible; over a thousand, a draw in the first 6.4 %. *)
Lemma committee_eligible_examples :
  @committee_eligible x87 UINT64_MAX 10000 160000 = true ∧
  @committee_eligible x87 (2 ^ 60) 10000 10000000 = true ∧
  @committee_eligible x87 (2 ^ 61) 10000 10000000 = false.
Proof. by vm_compute. Qed.

(** ** Base fee *)

Lemma i64_small x : 0 <= x < 2 ^ 63 → i64 x = x.
Proof.
  intros H. unfold i64. change (2 ^ 64) with (2 * 2 ^ 63). rewrite Z.mod_small by lia.
  by rewrite (proj2 (Z.ltb_lt _ _)) by lia.
Qed.

(** The product does not wrap and the step is at most an eighth. *)
Lemma base_fee_step prev d : 1 <= prev <= 1000000000000 → 0 < d <= 15000000 →
  0 <= (prev ⊗ u64 d) / 15000000 / 8 <= prev / 8 ∧ prev / 8 <= 1000000000000.
Proof.
  intros Hp Hd. rewrite (u64_id d) by (widths; lia).
  assert (0 <= prev * d <= prev * 15000000) as Hm by nia. rewrite u64_id by (widths; lia).
  split; [|apply Z.div_le_upper_bound; lia].
  split; [apply Z.div_pos; [apply Z.div_pos|]; lia|]. apply Z.div_le_mono; [lia|].
  apply Z.div_le_upper_bound; lia.
Qed.

Lemma next_base_fee_step prev gas :
  AC_MIN_BASE_FEE <= prev <= 10 ^ 12 → 0 <= gas <= AC_BLOCK_GAS_LIMIT →
  let next := ac_chain_next_base_fee prev gas AC_BLOCK_GAS_LIMIT in
  AC_MIN_BASE_FEE <= next ∧
  (gas = 15000000 → next = prev) ∧
  (15000000 < gas → prev < next <= prev + Z.max 1 (prev / 8)) ∧
  (gas < 15000000 → prev - Z.max 1 (prev / 8) <= next <= prev ∧ (1 < prev → next < prev)).
Proof.
  intros Hp Hg. cbv zeta. unfold ac_chain_next_base_fee. change (AC_BLOCK_GAS_LIMIT / 2) with 15000000.
  change (10 ^ 12) with 1000000000000 in Hp.
  rewrite !i64_small by (widths; lia).
  destruct (Z.eqb_spec gas 15000000) as [->|Hne]; [lia|].
  destruct (Z.leb_spec 0 (gas - 15000000)).
  - destruct (base_fee_step prev (gas - 15000000)) as [Hi H8]; [lia..|].
    set (q := _ / 15000000 / 8) in *. clearbody q.
    destruct (Z.eqb_spec q 0); rewrite i64_small by (widths; lia);
      (rewrite (proj2 (Z.ltb_ge _ _)) by lia); rewrite u64_id by (widths; lia); lia.
  - destruct (base_fee_step prev (- (gas - 15000000))) as [Hi H8]; [lia..|].
    set (q := _ / 15000000 / 8) in *. clearbody q.
    destruct (Z.eqb_spec q 0); rewrite i64_small by (widths; lia);
      match goal with |- context [?x <? AC_MIN_BASE_FEE] => destruct (Z.ltb_spec x AC_MIN_BASE_FEE) end;
      rewrite u64_id by (widths; lia); lia.
Qed.

(** With the protocol's gas limit, a base fee below 10^12 and a block within the limit, the
    next base fee is at least the minimum, moves up only above the target and down only
    below it, and by at most an eighth of itself (or by the minimal step of one). *)
Theorem next_base_fee_bounds prev gas :
  AC_MIN_BASE_FEE <= prev <= 10 ^ 12 → 0 <= gas <= AC_BLOCK_GAS_LIMIT →
  let next := ac_chain_next_base_fee prev gas AC_BLOCK_GAS_LIMIT in
  AC_MIN_BASE_FEE <= next ∧
  (gas = 15000000 → next = prev) ∧
  (15000000 < gas → prev < next <= prev + Z.max 1 (prev / 8)) ∧
  (gas < 15000000 → prev - Z.max 1 (prev / 8) <= next <= prev ∧ (1 < prev → next < prev)).
Proof. apply next_base_fee_step. Qed.

Lemma next_base_fee_bounds_witness :
  AC_MIN_BASE_FEE <= ac_chain_next_base_fee 800 30000000 AC_BLOCK_GAS_LIMIT ∧
  ac_chain_next_base_fee 800 30000000 AC_BLOCK_GAS_LIMIT = 900.
Proof.
  split; [|reflexivity].
  exact (proj1 (next_base_fee_bounds 800 30000000 ltac:(by vm_compute) ltac:(by vm_compute))).
Defined.

(** Past [2 ^ 64 / 15000000] the product wraps and a full block lowers the
    relative step. *)
Lemma next_base_fee_wraps :
  ac_chain_next_base_fee (2 ^ 41) 30000000 AC_BLOCK_GAS_LIMIT < 2 ^ 41 + 2 ^ 41 / 8.
Proof. by vm_compute. Qed.

(** ** Emission *)

(** Rewards paid at heights [1 .. n]. *)
Fixpoint emitted (n : nat) : Z :=
  match n with O => 0 | S n' => ac_chain_block_reward (Z.of_nat n) + emitted n' end.

Lemma block_reward_values h : 0 <= h →
  ac_chain_block_reward h = if h <? 157788000 then 126752 else 31688.
Proof.
  intros Hh. unfold ac_chain_block_reward, SLOTS_PER_YEAR.
  destruct (Z.ltb_spec (h / 15778800) 10), (Z.ltb_spec h 157788000); try done;
    Z.to_euclidean_division_equations; lia.
Qed.

Lemma emitted_bound n : 0 <= emitted n ∧
  emitted n <= 126752 * Z.min (Z.of_nat n) 157787999 + 31688 * Z.max 0 (Z.of_nat n - 157787999).
Proof.
  induction n as [|n IH]; [done|]. cbn [emitted]. rewrite block_reward_values by lia.
  destruct (Z.ltb_spec (Z.of_nat (S n)) 157788000); lia.
Qed.

(** The 60 M CRD reward pool of genesis covers every block reward for the first eighty
    years of slots: until then the debit of the pool never has to be clamped. *)
Theorem reward_pool_suffices n :
  Z.of_nat n <= 80 * SLOTS_PER_YEAR → 0 <= emitted n <= 60000000 * 1000000.
Proof.
  unfold SLOTS_PER_YEAR. intros Hn. pose proof (emitted_bound n). lia.
Qed.

Lemma reward_pool_suffices_witness : 0 <= emitted 100 <= 60000000 * 1000000.
Proof. apply reward_pool_suffices. by vm_compute. Defined.
