(* ===== verification/Buffers.v ===== *)
(** * chain.c, consensus.c: fixed buffers and growing arrays

    Memory the other files leave implicit. The inputs of the VRF are assembled in 64-byte
    stack buffers without checks, in chain.c and again, by copies of the same helpers, in
    consensus.c; the index arrays grow by doubling. *)

From S2P Require Import Prelude Common Crypto Cursor Codec SortedArray State Apply Mempool Econ.

(** ** The VRF inputs of consensus.c *)

(** What is in the buffer, or [None] for a write beyond it. *)
Definition in_buffer (cap : Z) (chunks : list (list byte)) : option (list byte) := w_result (foldl wput (wcur_new cap) chunks).
Definition cs_leader_alpha (seed : ac_hash_t) (slot : Z) : option (list byte) :=
  in_buffer 64 [str "AGCH:LEADER"; b seed; ac_be64 slot].
Definition cs_committee_alpha (seed : ac_hash_t) (slot : Z) : option (list byte) :=
  in_buffer 64 [str "AGCH:COMMITTEE"; b seed; ac_be64 slot].
Definition cs_committee_eligible `{!LongDouble} (draw_u64 sqrt_stake total_sqrt : Z) : bool :=
  if (total_sqrt =? 0) || (sqrt_stake =? 0) then false
  else
    let p := ld_div (ld_mul (ld_of_u64 sqrt_stake) (ld_of_u64 AC_COMMITTEE_TARGET)) (ld_of_u64 total_sqrt) in
    if ld_ge_1 p then true else draw_u64 <? ld_to_u64 (ld_mul p (ld_of_u64 UINT64_MAX)).

Lemma in_buffer_fits cap chunks : zlen (concat chunks) <= cap → in_buffer cap chunks = Some (concat chunks).
Proof.
  intros H. unfold in_buffer, wcur_new. rewrite wput_chunks; [|cbn; lia]. unfold fits. cbn [app].
  destruct (Z.leb_spec (zlen (concat chunks)) cap); [done|lia].
Qed.

(** The engine and the chain draw from the same inputs and by the same rule, and neither
    buffer overflows: a proof made by the engine is one the chain verifies. *)
Lemma alphas_agree `{!LongDouble} seed slot :
  cs_leader_alpha seed slot = Some (leader_alpha seed slot) ∧ cs_committee_alpha seed slot = Some (committee_alpha seed slot) ∧
  ∀ d s t, cs_committee_eligible d s t = committee_eligible d s t.
Proof.
  split; [|split; [|done]].
  all: unfold cs_leader_alpha, cs_committee_alpha; rewrite in_buffer_fits;
    [by unfold leader_alpha, committee_alpha; cbn [concat]; rewrite app_nil_r
    |cbn [concat]; rewrite !length_app, ac_be64_length, (b_length seed); by vm_compute].
Qed.

(** ** The index arrays *)

Definition index_reserve (cap need : Z) : option Z :=
  if need <=? cap then Some cap
  else match while_fuel 64 (reserve_step need) (if cap =? 0 then 256 else cap * 2) with
       | inr c => Some c
       | inl _ => None
       end.
Definition tx_index_reserve (cap need : Z) : option Z := index_reserve cap need.
Definition addr_index_reserve (cap need : Z) : option Z := index_reserve cap need.

(** Capacity, entries, and entries copied by [realloc] so far. *)
Record array_t := mkArray { ar_cap : Z; ar_n : Z; ar_copied : Z }.
Definition index_push (a : array_t) : option array_t :=
  cap ← tx_index_reserve (ar_cap a) (ar_n a + 1);
  Some (mkArray cap (ar_n a + 1) (if cap =? ar_cap a then ar_copied a else ar_copied a + ar_n a)).
Fixpoint pushes (n : nat) (a : array_t) : option array_t :=
  match n with O => Some a | S n => a ← pushes n a; index_push a end.

(** An array that grew from nothing. *)
Record grown (n : Z) (a : array_t) : Prop := {
  gr_n : ar_n a = n;
  gr_room : n <= ar_cap a;
  gr_cap : (ar_cap a = 0 ∧ n = 0 ∧ ar_copied a = 0) ∨
    (256 <= ar_cap a ∧ ar_cap a <= Z.max 256 (2 * n) ∧ 0 <= ar_copied a <= ar_cap a - 256)
}.
Lemma index_reserve_enough cap need : 256 <= cap → need <= cap * 2 → cap < need → index_reserve cap need = Some (cap * 2).
Proof.
  intros Hc Hn Hl. unfold index_reserve. destruct (Z.leb_spec need cap); [lia|]. rewrite (proj2 (Z.eqb_neq cap 0)) by lia.
  rewrite while_fuel_nat. change (Pos.to_nat 64) with 64%nat. cbn [while_nat]. unfold reserve_step at 1.
  by rewrite (proj2 (Z.ltb_ge _ _) Hn).
Qed.
Lemma index_push_grown n a : 0 <= n → grown n a → ∃ a', index_push a = Some a' ∧ grown (n + 1) a'.
Proof.
  intros H0 [Hn Hr Hc]. unfold index_push, tx_index_reserve. rewrite Hn. destruct Hc as [(E & -> & Ec)|(Hc & Hm & Hcp)].
  - rewrite E, Ec. eexists. split; [reflexivity|]. constructor; cbn; lia.
  - destruct (Z.leb_spec (n + 1) (ar_cap a)) as [Hl|Hl].
    + unfold index_reserve. rewrite (proj2 (Z.leb_le _ _) Hl). cbn. rewrite Z.eqb_refl. eexists. split; [reflexivity|].
      constructor; cbn; lia.
    + rewrite index_reserve_enough by lia. cbn. rewrite (proj2 (Z.eqb_neq _ _)) by lia. eexists. split; [reflexivity|].
      constructor; cbn; lia.
Qed.

(** Filling an index costs linear time and space: after [n] insertions the capacity is at
    most twice the entries (or the initial 256), and all the reallocations together copied
    fewer than twice as many. *)
Lemma index_growth n : ∃ a, pushes n (mkArray 0 0 0) = Some a ∧ Z.of_nat n <= ar_cap a <= Z.max 256 (2 * Z.of_nat n) ∧
  ar_copied a <= 2 * Z.of_nat n.
Proof.
  assert (∃ a, pushes n (mkArray 0 0 0) = Some a ∧ grown (Z.of_nat n) a) as (a & E & [H1 H2 H3]).
  { induction n as [|n (a & IH & Hg)]; [eexists; split; [done|]; constructor; cbn; lia|]. cbn [pushes]. rewrite IH. cbn.
    destruct (index_push_grown (Z.of_nat n) a ltac:(lia) Hg) as (a' & -> & Hg'). exists a'. split; [done|].
    by replace (Z.of_nat (S n)) with (Z.of_nat n + 1) by lia. }
  exists a. split; [done|]. lia.
Qed.
