(* ===== verification/Chain.v ===== *)
(** * chain.h / chain.c: the chain store

    The [ac_chain_s] struct with its files, the meta and block files, the
    transaction and address indexes, the liveness map, epoch seeds and the
    active-validator iteration. Block acceptance is in Accept.v.

    The file system is part of the record: the meta file, the state file and
    one block file per height (the file name prints the height, so heights and
    names correspond). [ac_file_write_atomic] either replaces the file and
    returns 0 or leaves it and returns -1; which one happens is an argument of
    the operation. *)

From S2P Require Import Prelude Common Crypto Cursor Codec SortedArray State Apply.

(** ** Data *)

Record tx_index_entry_t := mkTxIdx { ti_hash : ac_hash_t; ti_height : Z; ti_tx_idx : Z }.
Record addr_index_entry_t := mkAddrIdx {
  ai_addr : ac_addr_t; ai_height : Z; ai_tx_idx : Z; ai_role : Z }.
Record ac_addr_tx_entry_t := mkAddrTx { at_height : Z; at_tx_idx : Z; at_role : Z }.
Record live_entry_t := mkLive { lv_addr : ac_addr_t; lv_last_sign_height : Z }.

Abbreviation AC_LIVENESS_WINDOW := 16.
Abbreviation AC_MAX_LIVE := 256.

Record files_t := mkFiles {
  f_meta : option (list byte);
  f_state : option (list byte);
  f_blocks : gmap Z (list byte)
}.

Record ac_chain_t := mkChain {
  c_files : files_t;
  c_state : ac_state_t;
  c_chain_id : Z;
  c_height : Z;
  c_tip_hash : ac_hash_t;
  c_last_slot : Z;
  c_last_timestamp_ms : Z;
  c_base_fee : Z;
  c_genesis_timestamp_ms : Z;
  c_cached_epoch : Z;
  c_cached_seed : ac_hash_t;
  c_cached_valid : bool;
  c_tx_index : list tx_index_entry_t;
  c_tx_index_sorted : bool;
  c_addr_index : list addr_index_entry_t;
  c_addr_index_sorted : bool;
  c_live_map : list live_entry_t
}.

(** Field updates. *)
Definition set_files (c : ac_chain_t) (f : files_t) : ac_chain_t :=
  mkChain f (c_state c) (c_chain_id c) (c_height c) (c_tip_hash c) (c_last_slot c)
    (c_last_timestamp_ms c) (c_base_fee c) (c_genesis_timestamp_ms c) (c_cached_epoch c)
    (c_cached_seed c) (c_cached_valid c) (c_tx_index c) (c_tx_index_sorted c) (c_addr_index c)
    (c_addr_index_sorted c) (c_live_map c).
Definition set_state (c : ac_chain_t) (s : ac_state_t) : ac_chain_t :=
  mkChain (c_files c) s (c_chain_id c) (c_height c) (c_tip_hash c) (c_last_slot c)
    (c_last_timestamp_ms c) (c_base_fee c) (c_genesis_timestamp_ms c) (c_cached_epoch c)
    (c_cached_seed c) (c_cached_valid c) (c_tx_index c) (c_tx_index_sorted c) (c_addr_index c)
    (c_addr_index_sorted c) (c_live_map c).
Definition set_tip (c : ac_chain_t) (cid h : Z) (th : ac_hash_t) (slot ts bf gts : Z) : ac_chain_t :=
  mkChain (c_files c) (c_state c) cid h th slot ts bf gts (c_cached_epoch c)
    (c_cached_seed c) (c_cached_valid c) (c_tx_index c) (c_tx_index_sorted c) (c_addr_index c)
    (c_addr_index_sorted c) (c_live_map c).
Definition set_cache (c : ac_chain_t) (e : Z) (s : ac_hash_t) (v : bool) : ac_chain_t :=
  mkChain (c_files c) (c_state c) (c_chain_id c) (c_height c) (c_tip_hash c) (c_last_slot c)
    (c_last_timestamp_ms c) (c_base_fee c) (c_genesis_timestamp_ms c) e s v (c_tx_index c)
    (c_tx_index_sorted c) (c_addr_index c) (c_addr_index_sorted c) (c_live_map c).
Definition set_tx_index (c : ac_chain_t) (l : list tx_index_entry_t) (v : bool) : ac_chain_t :=
  mkChain (c_files c) (c_state c) (c_chain_id c) (c_height c) (c_tip_hash c) (c_last_slot c)
    (c_last_timestamp_ms c) (c_base_fee c) (c_genesis_timestamp_ms c) (c_cached_epoch c)
    (c_cached_seed c) (c_cached_valid c) l v (c_addr_index c) (c_addr_index_sorted c) (c_live_map c).
Definition set_addr_index (c : ac_chain_t) (l : list addr_index_entry_t) (v : bool) : ac_chain_t :=
  mkChain (c_files c) (c_state c) (c_chain_id c) (c_height c) (c_tip_hash c) (c_last_slot c)
    (c_last_timestamp_ms c) (c_base_fee c) (c_genesis_timestamp_ms c) (c_cached_epoch c)
    (c_cached_seed c) (c_cached_valid c) (c_tx_index c) (c_tx_index_sorted c) l v (c_live_map c).
Definition set_live (c : ac_chain_t) (l : list live_entry_t) : ac_chain_t :=
  mkChain (c_files c) (c_state c) (c_chain_id c) (c_height c) (c_tip_hash c) (c_last_slot c)
    (c_last_timestamp_ms c) (c_base_fee c) (c_genesis_timestamp_ms c) (c_cached_epoch c)
    (c_cached_seed c) (c_cached_valid c) (c_tx_index c) (c_tx_index_sorted c) (c_addr_index c)
    (c_addr_index_sorted c) l.

(** ** Files *)

Definition META_MAGIC : list byte := str "AGCH:META:v1".
Abbreviation META_VERSION := 1.

Definition meta_chunks (c : ac_chain_t) : list (list byte) :=
  [META_MAGIC; [byte_of META_VERSION]; ac_be64 (c_chain_id c); ac_be64 (c_height c);
   b (c_tip_hash c); ac_be64 (c_last_slot c); ac_be64 (c_last_timestamp_ms c);
   ac_be64 (c_base_fee c); ac_be64 (c_genesis_timestamp_ms c)].

(** The bytes go into a 256-byte stack buffer, unchecked: [None] would be an
    overflow of it. [Some (ok, c')]: whether it returned 0. *)
Definition meta_save (c : ac_chain_t) (write_ok : bool) : option (bool * ac_chain_t) :=
  buf ← w_result (foldl wput (wcur_new 256) (meta_chunks c));
  let f := c_files c in
  Some (write_ok, if write_ok then set_files c (mkFiles (Some buf) (f_state f) (f_blocks f)) else c).

(** [OK] of the loaded fields, [ERR] for -1. *)
Definition meta_parse (buf : list byte) : outcome (Z * Z * ac_hash_t * Z * Z * Z * Z) :=
  _ ← fail_if (length buf <? 12 + 1 + 8 * 6 + 32)%nat;
  magic ← read_at buf 0 12;
  _ ← fail_if (negb (is_eq (memcmp magic META_MAGIC 12)));
  v ← read_at buf 12 1;
  _ ← fail_if (negb (at_ v 0 =? META_VERSION));
  cid ← read_at buf 13 8;
  h ← read_at buf 21 8;
  tip ← read_at buf 29 32;
  slot ← read_at buf 61 8;
  ts ← read_at buf 69 8;
  bf ← read_at buf 77 8;
  gts ← read_at buf 85 8;
  OK (ac_rd64 cid, ac_rd64 h, bytes_of 32 tip, ac_rd64 slot, ac_rd64 ts, ac_rd64 bf, ac_rd64 gts).
Definition meta_load (c : ac_chain_t) : outcome ac_chain_t :=
  match f_meta (c_files c) with
  | None => ERR
  | Some buf =>
      '(cid, h, tip, slot, ts, bf, gts) ← meta_parse buf;
      OK (set_tip c cid h tip slot ts bf gts)
  end.

Definition block_write (c : ac_chain_t) (k : ac_block_t) (write_ok : bool) : bool * ac_chain_t :=
  match ac_block_encode k with
  | None => (false, c)
  | Some buf =>
      let f := c_files c in
      (write_ok, if write_ok
                 then set_files c (mkFiles (f_meta f) (f_state f) (<[h_height (header k) := buf]> (f_blocks f)))
                 else c)
  end.

Definition block_read (c : ac_chain_t) (h : Z) : option ac_block_t :=
  match f_blocks (c_files c) !! h with
  | None => None
  | Some buf => match ac_block_decode buf with OK (k, _) => Some k | _ => None end
  end.

(** [ac_state_save]. *)
Definition state_save (c : ac_chain_t) (write_ok : bool) : bool * ac_chain_t :=
  match ac_state_serialize (c_state c) with
  | None => (false, c)
  | Some buf =>
      let f := c_files c in
      (write_ok, if write_ok then set_files c (mkFiles (f_meta f) (Some buf) (f_blocks f)) else c)
  end.

Definition ac_chain_get_block_by_height (c : ac_chain_t) (h : Z) : option ac_block_t :=
  if c_height c <? h then None else block_read c h.
Definition ac_chain_get_header_by_height (c : ac_chain_t) (h : Z) : option ac_block_header_t :=
  header <$> block_read c h.

(** ** Sorting and searching (stdlib)

    [qsort] returns a permutation ordered by the comparison; the arrays sorted
    here have no two elements that compare equal, so the result is unique. *)
Definition cmp_le {A} (cmp : A → A → comparison) (x y : A) : Prop := cmp x y ≠ Gt.
#[export] Instance cmp_le_dec {A} (cmp : A → A → comparison) x y : Decision (cmp_le cmp x y).
Proof. unfold cmp_le. apply _. Defined.
Definition qsort {A} (cmp : A → A → comparison) (l : list A) : list A := merge_sort (cmp_le cmp) l.

(** ** Transaction index *)

Definition tx_index_cmp (x y : tx_index_entry_t) : comparison :=
  memcmp (b (ti_hash x)) (b (ti_hash y)) AC_HASH_SIZE.

Definition tx_index_add (c : ac_chain_t) (h : ac_hash_t) (height idx : Z) : ac_chain_t :=
  set_tx_index c (c_tx_index c ++ [mkTxIdx h height idx]) false.

Definition tx_index_sort (c : ac_chain_t) : ac_chain_t :=
  if c_tx_index_sorted c then c else set_tx_index c (qsort tx_index_cmp (c_tx_index c)) true.

Definition ac_chain_tx_find (c : ac_chain_t) (h : ac_hash_t) : option (Z * Z) * ac_chain_t :=
  if (length (c_tx_index c) =? 0)%nat then (None, c)
  else
    let c := tx_index_sort c in
    let i := bsearch ti_hash ac_hash_cmp (c_tx_index c) h in
    if i <? 0 then (None, c)
    else ((λ e, (ti_height e, ti_tx_idx e)) <$> c_tx_index c !! Z.to_nat i, c).

(** ** Address index *)

Definition addr_index_cmp (x y : addr_index_entry_t) : comparison :=
  match memcmp (b (ai_addr x)) (b (ai_addr y)) AC_PUBKEY_SIZE with
  | Eq => if ai_height x <? ai_height y then Lt
          else if ai_height y <? ai_height x then Gt
          else if ai_tx_idx x <? ai_tx_idx y then Lt
          else if ai_tx_idx y <? ai_tx_idx x then Gt else Eq
  | o => o
  end.

Definition addr_index_push (c : ac_chain_t) (a : ac_addr_t) (height idx role : Z) : ac_chain_t :=
  set_addr_index c (c_addr_index c ++ [mkAddrIdx a height idx role]) false.

Definition addr_index_record_tx (c : ac_chain_t) (t : ac_tx_t) (height idx : Z) : ac_chain_t :=
  let c := addr_index_push c (tx_sender t) height idx 0 in
  if (tx_kind t =? AC_TX_TRANSFER) && (32 <=? zlen (tx_body t)) then
    let recipient := bytes_of 32 (take 32 (tx_body t)) in
    if negb (is_eq (memcmp (b recipient) (b (tx_sender t)) 32))
    then addr_index_push c recipient height idx 1 else c
  else c.

Definition addr_index_sort (c : ac_chain_t) : ac_chain_t :=
  if c_addr_index_sorted c then c else set_addr_index c (qsort addr_index_cmp (c_addr_index c)) true.

(** [while (lo < hi)]: the lower bound of an address. *)
Definition lower_bound_step (l : list addr_index_entry_t) (a : ac_addr_t) (s : Z * Z) : (Z * Z) + option Z :=
  let '(lo, hi) := s in
  if lo <? hi then
    let mid := lo + (hi - lo) / 2 in
    match l !! Z.to_nat mid with
    | None => inr None
    | Some e => if is_lt (memcmp (b (ai_addr e)) (b a) 32) then inl (mid + 1, hi) else inl (lo, mid)
    end
  else inr (Some lo).
Definition lower_bound (l : list addr_index_entry_t) (a : ac_addr_t) : option Z :=
  match while_fuel (Pos.of_succ_nat (length l)) (lower_bound_step l a) (0, zlen l) with
  | inr r => r
  | inl _ => None
  end.

(** The forward walk into [scratch\[256\]]; [k] is what is left of its space. *)
Fixpoint addr_collect (k : nat) (a : ac_addr_t) (l : list addr_index_entry_t) : list ac_addr_tx_entry_t :=
  match k, l with
  | S k', e :: l' =>
      if is_eq (memcmp (b (ai_addr e)) (b a) 32)
      then mkAddrTx (ai_height e) (ai_tx_idx e) (ai_role e) :: addr_collect k' a l' else []
  | _, _ => []
  end.

Definition ac_chain_addr_txs (c : ac_chain_t) (a : ac_addr_t) (cap : nat)
    : list ac_addr_tx_entry_t * ac_chain_t :=
  if (length (c_addr_index c) =? 0)%nat || (cap =? 0)%nat then ([], c)
  else
    let c := addr_index_sort c in
    let lo := default 0 (lower_bound (c_addr_index c) a) in
    let scratch := addr_collect 256 a (drop (Z.to_nat lo) (c_addr_index c)) in
    (take cap (reverse scratch), c).

(** ** Liveness map *)

Fixpoint live_update (l : list live_entry_t) (a : ac_addr_t) (h : Z) : option (list live_entry_t) :=
  match l with
  | [] => None
  | e :: l' =>
      if is_eq (memcmp (b (lv_addr e)) (b a) 32)
      then Some ((if lv_last_sign_height e <? h then mkLive (lv_addr e) h else e) :: l')
      else cons e <$> live_update l' a h
  end.
Definition live_record_signer (c : ac_chain_t) (a : ac_addr_t) (h : Z) : ac_chain_t :=
  match live_update (c_live_map c) a h with
  | Some l => set_live c l
  | None => if zlen (c_live_map c) <? AC_MAX_LIVE
            then set_live c (c_live_map c ++ [mkLive a h]) else c
  end.

Definition live_is_within_window (c : ac_chain_t) (last_sign_height : Z) : bool :=
  if (last_sign_height =? 0) && (c_height c <? AC_LIVENESS_WINDOW) then true
  else if last_sign_height =? 0 then false
  else if c_height c <=? last_sign_height then true
  else c_height c - last_sign_height <? AC_LIVENESS_WINDOW.

(** ** Active validators *)

(** [ac_chain_each_validator]: a non-zero return of the callback stops it. *)
Fixpoint each_validator_loop {C} (fn : ac_addr_t → Z → Z → C → Z * C) (l : list ac_account_t) (ctx : C)
    : Z * C :=
  match l with
  | [] => (0, ctx)
  | a :: l' =>
      if stake a <? AC_MIN_STAKE_UCRD then each_validator_loop fn l' ctx
      else
        let sq := ac_isqrt_u64 (stake a) in
        let '(rc, ctx) := fn (addr a) (stake a) sq ctx in
        if negb (rc =? 0) then (rc, ctx) else each_validator_loop fn l' ctx
  end.
Definition ac_chain_each_validator {C} (c : ac_chain_t) (fn : ac_addr_t → Z → Z → C → Z * C) (ctx : C) : Z * C :=
  each_validator_loop fn (accounts (c_state c)) ctx.

Definition sum_sqrt_stake_cb (a : ac_addr_t) (s sq : Z) (sum : Z) : Z * Z := (0, sum ⊕ sq).
Definition count_cb (a : ac_addr_t) (s sq : Z) (n : Z) : Z * Z := (0, n ⊕ 1).

Definition ac_chain_total_sqrt_stake (c : ac_chain_t) : Z :=
  (ac_chain_each_validator c sum_sqrt_stake_cb 0).2.
Definition ac_chain_active_count (c : ac_chain_t) : Z :=
  (ac_chain_each_validator c count_cb 0).2.

(** The loop of [ac_chain_live_sqrt_stake]: the sum and how many were counted. *)
Fixpoint live_sum_loop (c : ac_chain_t) (l : list live_entry_t) (sum counted : Z) : Z * Z :=
  match l with
  | [] => (sum, counted)
  | e :: l' =>
      if negb (live_is_within_window c (lv_last_sign_height e)) then live_sum_loop c l' sum counted
      else
        let '(found, a) := ac_state_get (c_state c) (lv_addr e) in
        if negb found then live_sum_loop c l' sum counted
        else if stake a <? AC_MIN_STAKE_UCRD then live_sum_loop c l' sum counted
        else live_sum_loop c l' (sum ⊕ ac_isqrt_u64 (stake a)) (counted ⊕ 1)
  end.
Definition ac_chain_live_sqrt_stake (c : ac_chain_t) : Z :=
  let '(sum, counted) := live_sum_loop c (c_live_map c) 0 0 in
  if counted =? 0 then ac_chain_total_sqrt_stake c else sum.
Definition ac_chain_live_count (c : ac_chain_t) : Z := (live_sum_loop c (c_live_map c) 0 0).2.

(** ** Top accounts *)

Definition top_cmp_by (f : ac_account_t → Z) (x y : ac_account_t) : comparison :=
  if f y <? f x then Lt
  else if f x <? f y then Gt
  else memcmp (b (addr x)) (b (addr y)) 32.
Definition top_cmp_balance := top_cmp_by balance.
Definition top_cmp_stake := top_cmp_by stake.

Definition chain_top_accounts (c : ac_chain_t) (by_balance : bool) (cap : nat) (active_only : bool)
    : list ac_account_t :=
  if (cap =? 0)%nat then []
  else if (ac_state_count (c_state c) =? 0)%nat then []
  else
    let all := List.filter (λ a, negb (active_only && (stake a <? AC_MIN_STAKE_UCRD)))
                      (accounts (c_state c)) in
    take cap (qsort (if by_balance then top_cmp_balance else top_cmp_stake) all).
Definition ac_chain_top_accounts_by_balance (c : ac_chain_t) (cap : nat) := chain_top_accounts c true cap false.
Definition ac_chain_top_validators (c : ac_chain_t) (cap : nat) := chain_top_accounts c false cap true.

(** ** Slots *)

Definition ac_chain_current_slot (c : ac_chain_t) (now : Z) : Z :=
  if now <? c_genesis_timestamp_ms c then 0
  else (now - c_genesis_timestamp_ms c) / AC_SLOT_DURATION_MS.
Definition ac_chain_slot_time_ms (c : ac_chain_t) (slot : Z) : Z :=
  c_genesis_timestamp_ms c ⊕ (slot ⊗ AC_SLOT_DURATION_MS).
Definition ac_epoch_of (slot : Z) : Z := slot / AC_EPOCH_SLOTS.

Section Seeds.
Context `{!Sodium}.

Definition ac_chain_get_block_hash (c : ac_chain_t) (h : Z) : option ac_hash_t :=
  if h =? c_height c then Some (c_tip_hash c)
  else ac_block_hash <$> ac_chain_get_header_by_height c h.

(** ** Epoch seeds *)

Definition GENESIS_DOMAIN : list byte := str "AGCH:GENESIS:v1".
Definition compute_genesis_seed (cid ts : Z) : ac_hash_t :=
  ac_hash_multi [GENESIS_DOMAIN; ac_be64 cid ++ ac_be64 ts].

Definition SEED_DOMAIN : list byte := str "AGCH:SEED".

(** [while (h > 0)]: [Some 0] when no block below the tip is old enough, [None]
    when a header could not be read. *)
Fixpoint seed_scan (c : ac_chain_t) (epoch_start_slot : Z) (h : nat) : option Z :=
  match h with
  | O => Some 0
  | S h' =>
      match ac_chain_get_header_by_height c (Z.of_nat h) with
      | None => None
      | Some hdr => if h_slot hdr <? epoch_start_slot then Some (Z.of_nat h)
                    else seed_scan c epoch_start_slot h'
      end
  end.

Definition compute_epoch_seed (c : ac_chain_t) (epoch : Z) : ac_hash_t :=
  let fallback := compute_genesis_seed (c_chain_id c) (c_genesis_timestamp_ms c) in
  if epoch =? 0 then fallback
  else
    let epoch_start_slot := epoch ⊗ AC_EPOCH_SLOTS in
    match seed_scan c epoch_start_slot (Z.to_nat (c_height c)) with
    | None => fallback
    | Some prev =>
        let bad :=
          (prev =? 0) && (0 <? c_height c) &&
          match ac_chain_get_header_by_height c 0 with
          | Some hdr => negb (h_slot hdr <? epoch_start_slot)
          | None => true
          end in
        if bad then fallback
        else match ac_chain_get_header_by_height c prev with
             | None => fallback
             | Some prev_hdr => ac_hash_multi [SEED_DOMAIN; b (h_proposer_vrf_proof prev_hdr)]
             end
    end.

(** The seed and the chain with its cache. *)
Definition ac_chain_epoch_seed (c : ac_chain_t) (epoch : Z) : ac_hash_t * ac_chain_t :=
  if c_cached_valid c && (c_cached_epoch c =? epoch) then (c_cached_seed c, c)
  else let seed := compute_epoch_seed c epoch in (seed, set_cache c epoch seed true).

(** ** Rebuilding the indexes at open *)

Fixpoint index_txs (c : ac_chain_t) (l : list ac_tx_t) (h i : Z) : ac_chain_t :=
  match l with
  | [] => c
  | t :: l' =>
      let c := tx_index_add c (ac_tx_hash t) h i in
      let c := addr_index_record_tx c t h i in
      index_txs c l' h (i + 1)
  end.
Fixpoint record_signers (c : ac_chain_t) (l : list ac_commit_signer_t) (h : Z) : ac_chain_t :=
  match l with
  | [] => c
  | s :: l' => record_signers (live_record_signer c (cs_signer s) h) l' h
  end.
(** Heights [h .. h + n - 1]. *)
Fixpoint rebuild_loop (c : ac_chain_t) (h : Z) (n : nat) : ac_chain_t :=
  match n with
  | O => c
  | S n' =>
      let c1 :=
        match block_read c h with
        | None => c
        | Some k =>
            let c := index_txs c (txs k) h 0 in
            if c_height c <? (h_height (header k) ⊕ AC_LIVENESS_WINDOW)
            then record_signers c (signers k) (h_height (header k)) else c
        end in
      rebuild_loop c1 (h + 1) n'
  end.
Definition tx_index_rebuild (c : ac_chain_t) : ac_chain_t :=
  if c_height c =? 0 then c
  else addr_index_sort (tx_index_sort (rebuild_loop c 1 (Z.to_nat (c_height c)))).
End Seeds.

(** ** Sorting *)

Lemma qsort_perm {A} (cmp : A → A → comparison) l : qsort cmp l ≡ₚ l.
Proof. apply merge_sort_Permutation. Qed.

Section Qsort.
Context {A} (cmp : A → A → comparison).
Hypothesis cmp_sym : ∀ x y, cmp y x = CompOpp (cmp x y).
Hypothesis le_trans : ∀ x y z, cmp x y ≠ Gt → cmp y z ≠ Gt → cmp x z ≠ Gt.

Lemma qsort_sorted l : StronglySorted (cmp_le cmp) (qsort cmp l).
Proof.
  apply StronglySorted_merge_sort.
  - intros x y z. apply le_trans.
  - intros x y. unfold cmp_le. rewrite (cmp_sym x y). destruct (cmp x y); simpl; auto.
Qed.
End Qsort.

(** Weak order of a key under a comparison with laws. *)
Lemma cmp_le_trans {K} (cmp : K → K → comparison) `{!CmpLaws cmp} x y z :
  cmp x y ≠ Gt → cmp y z ≠ Gt → cmp x z ≠ Gt.
Proof.
  intros H1 H2 H3. destruct (cmp x y) eqn:E1; [|..|done].
  - apply (cmp_eq cmp) in E1 as ->. done.
  - destruct (cmp y z) eqn:E2; [|..|done].
    + apply (cmp_eq cmp) in E2 as ->. congruence.
    + rewrite (cmp_lt_trans cmp x y z E1 E2) in H3. done.
Qed.

(** Sorting by a key without duplicates gives the strict order of
    [SortedArray]. *)
Lemma strongly_sorted_nodup {E K} (key : E → K) (cmp : K → K → comparison) `{!CmpLaws cmp} l :
  StronglySorted (cmp_le (λ x y, cmp (key x) (key y))) l → NoDup (key <$> l) → sorted key cmp l.
Proof.
  intros Hs. induction Hs as [|x k Hs IH Hx]; intros Hn; [constructor|].
  rewrite fmap_cons in Hn. apply NoDup_cons in Hn as [Hx' Hn].
  constructor; [by apply IH|]. rewrite Forall_forall in *. intros y Hy. specialize (Hx y Hy).
  unfold before, cmp_le in *. destruct (cmp (key x) (key y)) eqn:Ec; [|done|done].
  apply (cmp_eq cmp) in Ec. destruct Hx'. rewrite Ec. apply list_elem_of_fmap. eauto.
Qed.
Lemma qsort_key_sorted {E K} (key : E → K) (cmp : K → K → comparison) `{!CmpLaws cmp} l :
  NoDup (key <$> l) → sorted key cmp (qsort (λ x y, cmp (key x) (key y)) l).
Proof.
  intros Hn. apply (strongly_sorted_nodup key cmp); [|by rewrite qsort_perm].
  apply qsort_sorted; intros; [apply (cmp_opp cmp) | by eapply (cmp_le_trans cmp)].
Qed.

(** ** Transaction lookup *)

(** Looking a transaction up finds it exactly when it was indexed, at the height and
    position it was indexed with, whether or not the array was still unsorted; the only
    effect is to reorder the index. (The hashes of a chain's transactions differ: each
    fixes a sender and a nonce.) *)
Lemma tx_find_spec c h height idx :
  NoDup (ti_hash <$> c_tx_index c) →
  (c_tx_index_sorted c = true → sorted ti_hash ac_hash_cmp (c_tx_index c)) →
  let '(r, c') := ac_chain_tx_find c h in
  (r = Some (height, idx) ↔ mkTxIdx h height idx ∈ c_tx_index c) ∧
  c_tx_index c' ≡ₚ c_tx_index c ∧ (c_tx_index_sorted c' = true → sorted ti_hash ac_hash_cmp (c_tx_index c')) ∧
  set_tx_index c' (c_tx_index c) (c_tx_index_sorted c) = c.
Proof.
  intros Hn Hs. unfold ac_chain_tx_find.
  destruct (Nat.eqb_spec (length (c_tx_index c)) 0) as [H0|H0].
  { apply nil_length_inv in H0. rewrite H0 in *. split; [split; [done | by intros ?%elem_of_nil]|].
    split; [done|]. split; [done|]. destruct c; simpl in *. by subst. }
  set (c1 := tx_index_sort c).
  assert (c_tx_index c1 ≡ₚ c_tx_index c ∧ sorted ti_hash ac_hash_cmp (c_tx_index c1) ∧
          set_tx_index c1 (c_tx_index c) (c_tx_index_sorted c) = c) as (Hp & Hs1 & Hc).
  { unfold c1, tx_index_sort. destruct (c_tx_index_sorted c) eqn:E.
    - split; [done|]. split; [by apply Hs|]. by destruct c; simpl in *; subst.
    - split; [apply qsort_perm|]. split; [by apply (qsort_key_sorted ti_hash ac_hash_cmp)|].
      by destruct c; simpl in *; subst. }
  clearbody c1. destruct (bsearch_cases ti_hash ac_hash_cmp (c_tx_index c1) h Hs1)
    as [(l1 & e & l2 & -> & Hl & He & _)|(l1 & l2 & -> & Hl & Hb & Ha & _)].
  - rewrite (proj2 (Z.ltb_ge _ _)), Nat2Z.id by lia. split; [|done].
    assert (e ∈ c_tx_index c) as Hin by (rewrite <- Hp, Hl; set_solver).
    rewrite Hl, list_lookup_middle by done. simpl. split.
    + intros [= <- <-]. rewrite <- He. by destruct e.
    + intros Hx. assert (mkTxIdx h height idx = e) as <-; [|done].
      by eapply (NoDup_key_inj ti_hash).
  - rewrite (proj2 (Z.ltb_lt _ _)) by lia. split; [|done]. split; [done|].
    rewrite <- Hp, Hl. intros Hx. exfalso.
    apply (below_above_notin ti_hash ac_hash_cmp l1 l2 h Hb Ha), list_elem_of_fmap. by exists (mkTxIdx h height idx).
Qed.

(** ** Address history *)

(** Entries of one transaction and one address differ in position, so the
    comparison orders them strictly; equal addresses are contiguous. *)
Definition ai_addr_le (x y : addr_index_entry_t) : Prop := ac_addr_cmp (ai_addr x) (ai_addr y) ≠ Gt.

Lemma addr_index_cmp_addr x y : addr_index_cmp x y ≠ Gt → ai_addr_le x y.
Proof. unfold addr_index_cmp, ai_addr_le, ac_addr_cmp. by destruct (memcmp _ _ _). Qed.

(** The order as a lexicographic triple. *)
Definition ai_key (x : addr_index_entry_t) : ac_addr_t * Z * Z := (ai_addr x, ai_height x, ai_tx_idx x).

Lemma addr_index_cmp_cases x y : addr_index_cmp x y =
  match ac_addr_cmp (ai_addr x) (ai_addr y) with
  | Eq => match Z.compare (ai_height x) (ai_height y) with
          | Eq => Z.compare (ai_tx_idx x) (ai_tx_idx y)
          | o => o
          end
  | o => o
  end.
Proof.
  unfold addr_index_cmp, ac_addr_cmp. destruct (memcmp _ _ _); [|done|done].
  destruct (Z.ltb_spec (ai_height x) (ai_height y)), (Z.compare_spec (ai_height x) (ai_height y)); try lia; try done;
    (destruct (Z.ltb_spec (ai_height y) (ai_height x)); try lia; try done);
    destruct (Z.ltb_spec (ai_tx_idx x) (ai_tx_idx y)), (Z.compare_spec (ai_tx_idx x) (ai_tx_idx y)); try lia; try done;
    destruct (Z.ltb_spec (ai_tx_idx y) (ai_tx_idx x)); try lia; done.
Qed.

Lemma addr_index_cmp_opp x y : addr_index_cmp y x = CompOpp (addr_index_cmp x y).
Proof.
  rewrite !addr_index_cmp_cases, (cmp_opp ac_addr_cmp (ai_addr x)).
  destruct (ac_addr_cmp _ _); simpl; try done. rewrite (Z.compare_antisym (ai_height x)).
  destruct (Z.compare (ai_height x) _); simpl; try done. apply Z.compare_antisym.
Qed.
Lemma addr_index_cmp_trans x y z :
  addr_index_cmp x y ≠ Gt → addr_index_cmp y z ≠ Gt → addr_index_cmp x z ≠ Gt.
Proof.
  rewrite !addr_index_cmp_cases. intros H1 H2 H3.
  destruct (ac_addr_cmp (ai_addr x) (ai_addr y)) eqn:E1; [|..|done].
  - apply (cmp_eq ac_addr_cmp) in E1. rewrite E1 in H3.
    destruct (ac_addr_cmp (ai_addr y) (ai_addr z)); try done.
    repeat match goal with
    | _ : context [Z.compare ?a ?b] |- _ => destruct (Z.compare_spec a b); try done; try lia
    end.
  - destruct (ac_addr_cmp (ai_addr y) (ai_addr z)) eqn:E2; [|..|done].
    + apply (cmp_eq ac_addr_cmp) in E2 as E2. rewrite <- E2, E1 in H3. done.
    + rewrite (cmp_lt_trans ac_addr_cmp _ _ _ E1 E2) in H3. done.
Qed.

Definition ai_entry (e : addr_index_entry_t) : ac_addr_tx_entry_t :=
  mkAddrTx (ai_height e) (ai_tx_idx e) (ai_role e).
Definition ai_is (a : ac_addr_t) (e : addr_index_entry_t) : Prop := ai_addr e = a.
#[export] Instance ai_is_dec a e : Decision (ai_is a e).
Proof. unfold ai_is. apply _. Defined.

Lemma lower_bound_spec l a : StronglySorted ai_addr_le l →
  ∃ l1 l2, l = l1 ++ l2 ∧ lower_bound l a = Some (zlen l1) ∧
    Forall (λ e, ac_addr_cmp (ai_addr e) a = Lt) l1 ∧ Forall (λ e, ac_addr_cmp (ai_addr e) a ≠ Lt) l2.
Proof.
  intros Hs. unfold lower_bound.
  set (I := λ s : Z * Z, 0 <= s.1 <= s.2 ∧ s.2 <= zlen l ∧
    Forall (λ e, ac_addr_cmp (ai_addr e) a = Lt) (take (Z.to_nat s.1) l) ∧
    Forall (λ e, ac_addr_cmp (ai_addr e) a ≠ Lt) (drop (Z.to_nat s.2) l)).
  set (Q := λ r : option Z, ∃ i, r = Some i ∧ I (i, i)).
  destruct (while_rule (lower_bound_step l a) I (λ s, s.2 - s.1) Q) with
    (p := Pos.of_succ_nat (length l)) (a := (0, zlen l)) as (r & -> & i & -> & Hi).
  - intros [lo hi] (H1 & H2 & H3 & H4). cbn [fst snd] in *. unfold lower_bound_step.
    destruct (Z.ltb_spec lo hi).
    2:{ exists lo. split; [done|]. assert (lo = hi) as -> by lia. unfold I; cbn [fst snd].
        split; [lia|]. by split; [lia|]. }
    set (mid := lo + (hi - lo) / 2).
    assert (lo <= mid < hi) as Hm by (unfold mid; Z.to_euclidean_division_equations; lia). clearbody mid.
    destruct (l !! Z.to_nat mid) as [e|] eqn:He; [|apply lookup_ge_None in He; lia].
    pose proof (take_drop_middle _ _ _ He) as Hl. rewrite <- Hl in Hs.
    fold (ac_addr_cmp (ai_addr e) a). apply StronglySorted_app in Hs as (H12 & _ & [Hx _]%StronglySorted_cons).
    destruct (is_lt (ac_addr_cmp (ai_addr e) a)) eqn:Ec.
    + apply is_lt_true in Ec. split; [|cbn; lia]. unfold I; cbn [fst snd]. repeat split; try lia; [|done].
      replace (Z.to_nat (mid + 1)) with (S (Z.to_nat mid)) by lia. rewrite (take_S_r _ _ _ He).
      apply Forall_app. split; [|by repeat constructor]. apply Forall_forall. intros y Hy.
      specialize (H12 y e Hy ltac:(by left)). unfold ai_addr_le in H12.
      destruct (ac_addr_cmp (ai_addr y) (ai_addr e)) eqn:E2; [|..|done].
      * apply (cmp_eq ac_addr_cmp) in E2. congruence.
      * by eapply (cmp_lt_trans ac_addr_cmp).
    + assert (ac_addr_cmp (ai_addr e) a ≠ Lt) as Hn by (intros E%is_lt_true; congruence).
      split; [|cbn; lia]. unfold I; cbn [fst snd]. repeat split; try lia; [done|].
      rewrite (drop_S _ _ _ He). constructor; [done|]. eapply Forall_impl; [exact Hx|]. intros y Hy Hlt.
      unfold ai_addr_le in Hy. destruct (ac_addr_cmp (ai_addr e) (ai_addr y)) eqn:E2; [|..|done].
      * apply (cmp_eq ac_addr_cmp) in E2. congruence.
      * apply Hn. by eapply (cmp_lt_trans ac_addr_cmp).
  - unfold I; cbn [fst snd]. repeat split; try lia.
    + rewrite take_0. constructor.
    + rewrite drop_ge by lia. constructor.
  - cbn. lia.
  - destruct Hi as (H1 & H2 & H3 & H4). cbn [fst snd] in *.
    exists (take (Z.to_nat i) l), (drop (Z.to_nat i) l). rewrite take_drop, length_take.
    split; [done|]. split; [f_equal; lia|]. done.
Qed.

Lemma addr_collect_spec k a l : StronglySorted ai_addr_le l →
  Forall (λ e, ac_addr_cmp (ai_addr e) a ≠ Lt) l →
  addr_collect k a l = take k (ai_entry <$> filter (ai_is a) l).
Proof.
  intros Hs. revert k. induction Hs as [|e l Hs IH He]; intros k Hf; destruct k as [|k]; try done.
  apply Forall_cons in Hf as [Hle Hf]. cbn [addr_collect]. fold (ac_addr_cmp (ai_addr e) a).
  rewrite filter_cons. unfold ai_is at 1. fold (ac_addr_eq (ai_addr e) a).
  destruct (ac_addr_eq (ai_addr e) a) eqn:Ea.
  - apply ac_addr_eq_true in Ea. rewrite decide_True by done. cbn [fmap list_fmap take].
    f_equal. by apply IH.
  - apply ac_addr_eq_false in Ea. rewrite decide_False by done.
    assert (filter (ai_is a) l = []) as ->; [|done].
    apply filter_none. eapply Forall_impl; [exact He|]. unfold ai_addr_le, ai_is. intros y Hy Hya. rewrite Hya in Hy.
    destruct (ac_addr_cmp (ai_addr e) a) eqn:E2; [|done|done]. by apply (cmp_eq ac_addr_cmp) in E2.
Qed.

(** The address history: the entries of that address in the order of height and
    position, at most 256 of them, and of those the last [cap], most recent first. With
    no more than 256 entries for the address that is its complete recent history. *)
Theorem chain_addr_txs_spec c a cap :
  (c_addr_index_sorted c = true → StronglySorted (cmp_le addr_index_cmp) (c_addr_index c)) →
  let '(out, c') := ac_chain_addr_txs c a cap in
  ∃ l, l ≡ₚ c_addr_index c ∧ StronglySorted (cmp_le addr_index_cmp) l ∧
    let mine := ai_entry <$> filter (ai_is a) l in
    out = take cap (reverse (take 256 mine)) ∧
    ((length mine <= 256)%nat → out = take cap (reverse mine)).
Proof.
  intros Hs. unfold ac_chain_addr_txs.
  set (c1 := addr_index_sort c).
  assert (c_addr_index c1 ≡ₚ c_addr_index c ∧ StronglySorted (cmp_le addr_index_cmp) (c_addr_index c1)) as [Hp Hs1].
  { unfold c1, addr_index_sort. destruct (c_addr_index_sorted c) eqn:E; [auto|].
    split; [apply qsort_perm|]. apply qsort_sorted; [apply addr_index_cmp_opp | apply addr_index_cmp_trans]. }
  destruct (_ || _) eqn:E0.
  - exists (c_addr_index c1). split; [done|]. split; [done|]. cbv zeta.
    assert (∀ k, [] = take cap (reverse (take k (ai_entry <$> filter (ai_is a) (c_addr_index c1))))) as Hk.
    { intros k. apply orb_true_iff in E0 as [H%Nat.eqb_eq | ->%Nat.eqb_eq]; [|done].
      apply nil_length_inv in H. rewrite H in Hp. apply Permutation_nil_r in Hp. rewrite Hp.
      destruct k; by destruct cap. }
    split; [apply Hk|]. intros Hle. rewrite <- (take_ge (ai_entry <$> _) 256) by done. apply Hk.
  - exists (c_addr_index c1). split; [done|]. split; [done|]. cbv zeta.
    assert (StronglySorted ai_addr_le (c_addr_index c1)) as Ha.
    { clear -Hs1. induction Hs1 as [|x l Hs IH Hx]; constructor; [done|].
      eapply Forall_impl; [exact Hx|]. intros y. apply addr_index_cmp_addr. }
    destruct (lower_bound_spec (c_addr_index c1) a Ha) as (l1 & l2 & Hl & -> & H1 & H2).
    cbn [from_option id]. rewrite Nat2Z.id, Hl, drop_app_length.
    assert (filter (ai_is a) l1 = []) as Hf1.
    { apply filter_none. eapply Forall_impl; [exact H1|]. unfold ai_is. intros e He Hea. rewrite Hea in He.
      by apply (cmp_lt_irrefl ac_addr_cmp) in He. }
    rewrite filter_app, Hf1. cbn [app]. rewrite addr_collect_spec; [|by rewrite Hl in Ha; eapply StronglySorted_app_1_r|done].
    split; [done|]. intros Hle. by rewrite (take_ge (ai_entry <$> _) 256) by done.
Qed.

(** ** Validator weights *)

(** The weight of an account in sortition and commit: the square root of an
    active stake. *)
Definition weight (a : ac_account_t) : Z :=
  if stake a <? AC_MIN_STAKE_UCRD then 0 else Z.sqrt (stake a).

Lemma weight_bound a : acc_wf a → 0 <= weight a ∧ weight a * 10000 <= stake a.
Proof.
  intros [_ _ Hs _]. unfold weight, is_u64 in *. destruct (Z.ltb_spec (stake a) AC_MIN_STAKE_UCRD); [lia|].
  destruct (Z.sqrt_spec (stake a)) as [L U]; [lia|]. pose proof (Z.sqrt_nonneg (stake a)).
  assert (10000 <= Z.sqrt (stake a)); [|nia]. change 10000 with (Z.sqrt AC_MIN_STAKE_UCRD).
  by apply Z.sqrt_le_mono.
Qed.

Lemma sum_scaled {A} (f g : A → Z) k l : (∀ x, x ∈ l → f x * k <= g x) → sum_with f l * k <= sum_with g l.
Proof.
  induction l as [|x l IH]; intros H; simpl; [lia|]. pose proof (H x ltac:(by left)).
  assert (sum_with f l * k <= sum_with g l); [|lia]. apply IH. intros. apply H. by right.
Qed.

Lemma weights_bound s : state_wf s → total weight s * 10000 <= supply s.
Proof.
  intros Hs. apply sum_scaled. intros a Ha. pose proof (wf_accs s Hs) as Hf. rewrite Forall_forall in Hf.
  specialize (Hf a Ha). destruct (weight_bound a Hf). destruct Hf. unfold hold, is_u64 in *. lia.
Qed.

Lemma each_validator_sum l acc : Forall acc_wf l → 0 <= acc →
  acc + sum_with weight l < U64 →
  (each_validator_loop sum_sqrt_stake_cb l acc).2 = acc + sum_with weight l.
Proof.
  intros Hl. revert acc. induction Hl as [|a l Ha Hl IH]; intros acc H0 Hb; simpl in *; [lia|].
  assert (0 <= sum_with weight l).
  { apply sum_with_nonneg. intros x Hx. rewrite Forall_forall in Hl. by apply weight_bound, Hl. }
  destruct (weight_bound a Ha) as [Hw _].
  destruct (Z.ltb_spec (stake a) AC_MIN_STAKE_UCRD) as [Hlt|Hge].
  - assert (weight a = 0) as E by (unfold weight; by rewrite (proj2 (Z.ltb_lt _ _))).
    rewrite IH by lia. lia.
  - assert (weight a = Z.sqrt (stake a)) as E by (unfold weight; by rewrite (proj2 (Z.ltb_ge _ _))).
    rewrite ac_isqrt_sqrt, <- E by apply Ha. simpl. rewrite u64_id by (unfold is_u64; lia).
    rewrite IH by lia. lia.
Qed.

(** The 64-bit sum of the code is the sum of the weights: it cannot wrap while
    the supply fits 64 bits. *)
Lemma total_sqrt_stake_sum c : state_wf (c_state c) → supply (c_state c) < U64 →
  ac_chain_total_sqrt_stake c = total weight (c_state c).
Proof.
  intros Hs Hb. unfold ac_chain_total_sqrt_stake, ac_chain_each_validator.
  pose proof (weights_bound _ Hs). unfold total in *.
  rewrite each_validator_sum; [lia | apply Hs | lia | lia].
Qed.

(** ** Meta file *)

Record chain_wf (c : ac_chain_t) : Prop := {
  cw_state : state_wf (c_state c);
  cw_chain_id : is_u64 (c_chain_id c);
  cw_height : is_u64 (c_height c);
  cw_last_slot : is_u64 (c_last_slot c);
  cw_last_ts : is_u64 (c_last_timestamp_ms c);
  cw_base_fee : is_u64 (c_base_fee c);
  cw_genesis_ts : is_u64 (c_genesis_timestamp_ms c);
  cw_ids : chain_id (c_state c) = c_chain_id c
}.

Lemma meta_save_total c ok : meta_save c ok =
  Some (ok, if ok then set_files c (mkFiles (Some (concat (meta_chunks c))) (f_state (c_files c)) (f_blocks (c_files c)))
            else c).
Proof.
  unfold meta_save, wcur_new. rewrite (wput_chunks (meta_chunks c) [] 256) by done.
  rewrite app_nil_l, fits_ok; [done|]. cbn [meta_chunks concat]. rewrite !length_app.
  change (length META_MAGIC) with 12%nat. len.
Qed.

Lemma meta_parse_bytes c : chain_wf c →
  meta_parse (concat (meta_chunks c)) =
  OK (c_chain_id c, c_height c, c_tip_hash c, c_last_slot c, c_last_timestamp_ms c, c_base_fee c,
      c_genesis_timestamp_ms c).
Proof.
  intros [_ H1 H2 H3 H4 H5 H6 _]. unfold meta_parse. cbn [meta_chunks concat].
  set (m := META_MAGIC). set (w := [byte_of META_VERSION]). set (x1 := ac_be64 (c_chain_id c)).
  set (x2 := ac_be64 (c_height c)). set (x3 := b (c_tip_hash c)). set (x4 := ac_be64 (c_last_slot c)).
  set (x5 := ac_be64 (c_last_timestamp_ms c)). set (x6 := ac_be64 (c_base_fee c)).
  set (x7 := ac_be64 (c_genesis_timestamp_ms c)).
  assert (length x3 = 32%nat) as L3 by apply b_length.
  assert (length m = 12 ∧ length w = 1 ∧ length x1 = 8 ∧ length x2 = 8 ∧ length x4 = 8 ∧ length x5 = 8 ∧
          length x6 = 8 ∧ length x7 = 8)%nat as (? & ? & ? & ? & ? & ? & ? & ?) by done.
  rewrite (proj2 (Nat.ltb_ge _ _)) by (rewrite !length_app; lia). cbn [fail_if mbind outcome_bind].
  remember w as w0 eqn:Ew. remember m as m0 eqn:Em.
  assert ((at_ w0 0 =? META_VERSION) = true) as Hver by by rewrite Ew.
  rewrite (read_at_mid [] m0 (w0 ++ x1 ++ x2 ++ x3 ++ x4 ++ x5 ++ x6 ++ x7 ++ []) _ 0 12) by mid.
  cbn [mbind outcome_bind]. rewrite memcmp_lex, Em, (cmp_refl lex_cmp) by done.
  cbn [is_eq negb fail_if mbind outcome_bind]. rewrite <- Em.
  rewrite (read_at_mid m0 w0 (x1 ++ x2 ++ x3 ++ x4 ++ x5 ++ x6 ++ x7 ++ []) _ 12 1) by mid.
  cbn [mbind outcome_bind]. rewrite Hver.
  cbn [negb fail_if mbind outcome_bind].
  rewrite (read_at_mid (m0 ++ w0) x1 (x2 ++ x3 ++ x4 ++ x5 ++ x6 ++ x7 ++ []) _ 13 8) by mid.
  rewrite (read_at_mid (m0 ++ w0 ++ x1) x2 (x3 ++ x4 ++ x5 ++ x6 ++ x7 ++ []) _ 21 8) by mid.
  rewrite (read_at_mid (m0 ++ w0 ++ x1 ++ x2) x3 (x4 ++ x5 ++ x6 ++ x7 ++ []) _ 29 32) by mid.
  rewrite (read_at_mid (m0 ++ w0 ++ x1 ++ x2 ++ x3) x4 (x5 ++ x6 ++ x7 ++ []) _ 61 8) by mid.
  rewrite (read_at_mid (m0 ++ w0 ++ x1 ++ x2 ++ x3 ++ x4) x5 (x6 ++ x7 ++ []) _ 69 8) by mid.
  rewrite (read_at_mid (m0 ++ w0 ++ x1 ++ x2 ++ x3 ++ x4 ++ x5) x6 (x7 ++ []) _ 77 8) by mid.
  rewrite (read_at_mid (m0 ++ w0 ++ x1 ++ x2 ++ x3 ++ x4 ++ x5 ++ x6) x7 [] _ 85 8) by mid.
  cbn [mbind outcome_bind]. unfold x1, x2, x3, x4, x5, x6, x7.
  by rewrite !ac_rd64_be64, !u64_id, bytes_of_b by done.
Qed.

(** ** Epoch seed cache *)

Section SeedFacts.
Context `{!Sodium}.

(** What the seed of an epoch depends on. *)
Lemma compute_epoch_seed_ext c c' e :
  f_blocks (c_files c) = f_blocks (c_files c') → c_height c = c_height c' → c_chain_id c = c_chain_id c' →
  c_genesis_timestamp_ms c = c_genesis_timestamp_ms c' → compute_epoch_seed c e = compute_epoch_seed c' e.
Proof.
  intros Hf Hh Hc Hg.
  assert (∀ h, ac_chain_get_header_by_height c h = ac_chain_get_header_by_height c' h) as Hhdr.
  { intros h. unfold ac_chain_get_header_by_height, block_read. by rewrite Hf. }
  assert (∀ s n, seed_scan c s n = seed_scan c' s n) as Hscan.
  { intros s n. induction n as [|n IH]; [done|]. cbn [seed_scan]. rewrite Hhdr. by rewrite IH. }
  unfold compute_epoch_seed. rewrite Hscan, Hh, Hc, Hg, !Hhdr.
  destruct (e =? 0); [done|]. destruct (seed_scan _ _ _); [|done]. by rewrite Hhdr.
Qed.

Definition cache_ok (c : ac_chain_t) : Prop :=
  c_cached_valid c = true → c_cached_seed c = compute_epoch_seed c (c_cached_epoch c).

Lemma epoch_seed_spec c e : cache_ok c →
  (ac_chain_epoch_seed c e).1 = compute_epoch_seed c e ∧
  cache_ok (ac_chain_epoch_seed c e).2 ∧
  (∃ e' s' v', (ac_chain_epoch_seed c e).2 = set_cache c e' s' v').
Proof.
  intros Hok. unfold ac_chain_epoch_seed.
  destruct (c_cached_valid c && (c_cached_epoch c =? e)) eqn:E.
  - apply andb_true_iff in E as [Hv <-%Z.eqb_eq]. split; [by apply Hok|]. split; [done|].
    exists (c_cached_epoch c), (c_cached_seed c), (c_cached_valid c). by destruct c.
  - split; [done|]. split; [|by eexists _, _, _]. intros _. simpl. by apply compute_epoch_seed_ext.
Qed.
End SeedFacts.

(** ** Witnesses *)

Definition sample_indexes : ac_chain_t :=
  mkChain (mkFiles None None ∅) (ac_state_new 7) 7 2 (hash_of 1) 0 0 1 0 0 (hash_of 0) false
    [mkTxIdx (hash_of 9) 1 0; mkTxIdx (hash_of 3) 2 0; mkTxIdx (hash_of 5) 2 1] false
    [mkAddrIdx (addr_of 4) 1 0 0; mkAddrIdx (addr_of 2) 1 0 1; mkAddrIdx (addr_of 4) 2 1 0] false [].

Lemma chain_addr_txs_spec_witness :
  (ac_chain_addr_txs sample_indexes (addr_of 4) 5).1 = [mkAddrTx 2 1 0; mkAddrTx 1 0 0] ∧
  ∃ l, l ≡ₚ c_addr_index sample_indexes ∧ StronglySorted (cmp_le addr_index_cmp) l.
Proof.
  split; [by vm_compute|].
  pose proof (chain_addr_txs_spec sample_indexes (addr_of 4) 5 ltac:(by intros ?%(f_equal id))) as H.
  destruct (ac_chain_addr_txs sample_indexes (addr_of 4) 5) as [out c']. destruct H as (l & Hl & Hs & _). eauto.
Defined.
