(* ===== verification/Accept.v ===== *)
(** * chain.c, lines 420-556 and 829-1270: genesis, open, block acceptance and
      construction

    [ac_chain_accept_block] and [ac_chain_build_block] run under the chain lock,
    so a call is one step. They read the clock once and write up to three
    files: the clock value and which writes succeed are the [env_t] argument. *)

From S2P Require Import Prelude Common Crypto Cursor Codec SortedArray State Apply Econ Chain.

Record env_t := mkEnv { now_ms : Z; w_block : bool; w_state : bool; w_meta : bool }.

Inductive ac_accept_t :=
  | AC_ACCEPT_OK | AC_ACCEPT_DUP | AC_ACCEPT_REJECT_BAD_HEADER | AC_ACCEPT_REJECT_BAD_PARENT
  | AC_ACCEPT_REJECT_BAD_TIME | AC_ACCEPT_REJECT_BAD_PROPOSER | AC_ACCEPT_REJECT_BAD_TX
  | AC_ACCEPT_REJECT_BAD_STATE_ROOT | AC_ACCEPT_REJECT_BAD_COMMIT | AC_ACCEPT_REJECT_BAD_GAS
  | AC_ACCEPT_REJECT_FUTURE | AC_ACCEPT_INTERNAL.
#[export] Instance ac_accept_eq_dec : EqDecision ac_accept_t.
Proof. solve_decision. Defined.

Definition ac_accept_str (r : ac_accept_t) : string :=
  match r with
  | AC_ACCEPT_OK => "ok"
  | AC_ACCEPT_DUP => "duplicate"
  | AC_ACCEPT_REJECT_BAD_HEADER => "bad header"
  | AC_ACCEPT_REJECT_BAD_PARENT => "bad parent"
  | AC_ACCEPT_REJECT_BAD_TIME => "bad timestamp"
  | AC_ACCEPT_REJECT_BAD_PROPOSER => "bad proposer"
  | AC_ACCEPT_REJECT_BAD_TX => "bad tx"
  | AC_ACCEPT_REJECT_BAD_STATE_ROOT => "bad state_root"
  | AC_ACCEPT_REJECT_BAD_COMMIT => "insufficient commit"
  | AC_ACCEPT_REJECT_BAD_GAS => "bad gas accounting"
  | AC_ACCEPT_REJECT_FUTURE => "from the future"
  | AC_ACCEPT_INTERNAL => "internal error"
  end.

Record ac_genesis_account_t := mkGenAcc { ga_addr : ac_addr_t; ga_balance : Z; ga_stake : Z }.
Record ac_genesis_t := mkGenesis {
  g_chain_id : Z; g_timestamp_ms : Z; g_accounts : list ac_genesis_account_t }.

Definition SYS_REWARD_POOL : ac_addr_t := bytes_of 32 (str "RWDP").

Section Accept.
Context `{!Sodium} `{!LongDouble}.

(** ** Validation *)

Definition validate_proposer_vrf (c : ac_chain_t) (h : ac_block_header_t) : bool * ac_chain_t :=
  let '(found, acc) := ac_state_get (c_state c) (h_proposer h) in
  if negb found then (false, c)
  else if stake acc <? AC_MIN_STAKE_UCRD then (false, c)
  else
    let '(seed, c) := ac_chain_epoch_seed c (ac_epoch_of (h_slot h)) in
    let alpha := leader_alpha seed (h_slot h) in
    match ac_vrf_verify (h_proposer_vrf_proof h) alpha (h_proposer h) with
    | Some _ => (true, c)
    | None => (false, c)
    end.

(** The parallel arrays of [ac_pre_lookup_ctx], with room for AC_COMMITTEE_MAX
    signers; a decoded block has no more. *)
Definition pre_signers (s : ac_state_t) (l : list ac_commit_signer_t) : list (ac_addr_t * Z) :=
  (λ x, (cs_signer x, stake (ac_state_get s (cs_signer x)).2)) <$> take 256 l.
Fixpoint ac_chain__pre_stake_lookup (ctx : list (ac_addr_t * Z)) (signer : ac_addr_t) : Z :=
  match ctx with
  | [] => 0
  | (a, st) :: ctx' => if ac_addr_eq a signer then st else ac_chain__pre_stake_lookup ctx' signer
  end.

(** The signer loop: [None] is an early return of -1. *)
Fixpoint commit_loop (ctx : list (ac_addr_t * Z)) (calpha vmsg : list byte) (pre_total_sqrt : Z)
    (l : list ac_commit_signer_t) (signed_sqrt : Z) : option Z :=
  match l with
  | [] => Some signed_sqrt
  | x :: l' =>
      let pre_stake := ac_chain__pre_stake_lookup ctx (cs_signer x) in
      if pre_stake <? AC_MIN_STAKE_UCRD then None
      else
        let sqrt_st := ac_isqrt_u64 pre_stake in
        match ac_vrf_verify (cs_vrf_proof x) calpha (cs_signer x) with
        | None => None
        | Some beta =>
            let draw := ac_rd64 (slice (b beta) 0 8) in
            if negb (committee_eligible draw sqrt_st pre_total_sqrt) then None
            else if negb (ac_verify (cs_sig x) vmsg (cs_signer x)) then None
            else commit_loop ctx calpha vmsg pre_total_sqrt l' (signed_sqrt ⊕ sqrt_st)
        end
  end.

Definition validate_commit (c : ac_chain_t) (k : ac_block_t) (block_hash : ac_hash_t)
    (pre_total_sqrt : Z) (ctx : list (ac_addr_t * Z)) : bool * ac_chain_t :=
  if (length (signers k) =? 0)%nat then (false, c)
  else if pre_total_sqrt =? 0 then (false, c)
  else
    let '(seed, c) := ac_chain_epoch_seed c (ac_epoch_of (h_slot (header k))) in
    let calpha := committee_alpha seed (h_slot (header k)) in
    let vmsg := ac_vote_message (h_height (header k)) block_hash in
    match commit_loop ctx calpha vmsg pre_total_sqrt (signers k) 0 with
    | None => (false, c)
    | Some signed_sqrt =>
        let live_sqrt := ac_chain_live_sqrt_stake c in
        let live_sqrt := if live_sqrt =? 0 then pre_total_sqrt else live_sqrt in
        if (signed_sqrt ⊗ 3) <? (live_sqrt ⊗ 2) then (false, c)
        else if (signed_sqrt ⊗ 2) <=? pre_total_sqrt then (false, c)
        else (true, c)
    end.

(** ** Acceptance *)

(** The transaction loop: [(tx_ok, state, total_gas, total_tips)]. *)
Fixpoint apply_block_txs (s : ac_state_t) (l : list ac_tx_t) (slot base_fee gas tips : Z)
    : bool * ac_state_t * Z * Z :=
  match l with
  | [] => (true, s, gas, tips)
  | t :: l' =>
      if negb (ac_tx_verify t) then (false, s, gas, tips)
      else
        let '(rc, s, r) := ac_state_apply_tx s t slot base_fee in
        if rc <? 0 then (false, s, gas, tips)
        else
          let gas := gas ⊕ res_gas_used r in
          let tips := tips ⊕ res_fee_tip r in
          if AC_BLOCK_GAS_LIMIT <? gas then (false, s, gas, tips)
          else apply_block_txs s l' slot base_fee gas tips
  end.

(** [ac_state_deserialize(c->state, snap, snap_len)], the return value unused. *)
Definition restore (c : ac_chain_t) (snap : list byte) : ac_chain_t :=
  match ac_state_deserialize (c_state c) snap with
  | OK (s, _) => set_state c s
  | _ => c
  end.

Definition pay_leader (s : ac_state_t) (proposer : ac_addr_t) (reward tips : Z) : ac_state_t :=
  ac_state_debit (ac_state_credit s proposer (reward ⊕ tips)) SYS_REWARD_POOL reward.

Definition expected_base_fee (c : ac_chain_t) : Z :=
  if 1 <=? c_height c then
    match ac_chain_get_header_by_height c (c_height c) with
    | Some prev => ac_chain_next_base_fee (h_base_fee prev) (h_gas_used prev) (h_gas_limit prev)
    | None => ac_chain_next_base_fee (c_base_fee c) 0 AC_BLOCK_GAS_LIMIT
    end
  else AC_MIN_BASE_FEE.

Fixpoint record_addr_txs (c : ac_chain_t) (l : list ac_tx_t) (h i : Z) : ac_chain_t :=
  match l with
  | [] => c
  | t :: l' => record_addr_txs (addr_index_record_tx c t h i) l' h (i + 1)
  end.
Fixpoint record_tx_hashes (c : ac_chain_t) (l : list ac_tx_t) (h i : Z) : ac_chain_t :=
  match l with
  | [] => c
  | t :: l' => record_tx_hashes (tx_index_add c (ac_tx_hash t) h i) l' h (i + 1)
  end.

(** Persist block, state and meta, then update the in-memory indexes. *)
Definition commit_block (c : ac_chain_t) (k : ac_block_t) (block_hash : ac_hash_t) (env : env_t)
    : ac_accept_t * ac_chain_t :=
  let h := header k in
  let '(ok, c) := block_write c k (w_block env) in
  if negb ok then (AC_ACCEPT_INTERNAL, c)
  else
    let '(ok, c) := state_save c (w_state env) in
    if negb ok then (AC_ACCEPT_INTERNAL, c)
    else
      let c := set_tip c (c_chain_id c) (h_height h) block_hash (h_slot h) (h_timestamp_ms h)
                 (h_base_fee h) (c_genesis_timestamp_ms c) in
      match meta_save c (w_meta env) with
      | None => (AC_ACCEPT_INTERNAL, c)
      | Some (ok, c) =>
          if negb ok then (AC_ACCEPT_INTERNAL, c)
          else
            let c := record_signers c (signers k) (h_height h) in
            let c := record_addr_txs c (txs k) (h_height h) 0 in
            let c := record_tx_hashes c (txs k) (h_height h) 0 in
            (AC_ACCEPT_OK, set_cache c (c_cached_epoch c) (c_cached_seed c) false)
      end.

(** From the snapshot on: apply, check roots and certificate, restore on any
    failure. *)
Definition accept_body (c : ac_chain_t) (k : ac_block_t) (env : env_t) : ac_accept_t * ac_chain_t :=
  let h := header k in
  let pre_total_sqrt := ac_chain_total_sqrt_stake c in
  let pre_ctx := pre_signers (c_state c) (signers k) in
  match ac_state_serialize (c_state c) with
  | None => (AC_ACCEPT_INTERNAL, c)
  | Some snap =>
      let '(tx_ok, s, total_gas, total_tips) :=
        apply_block_txs (c_state c) (txs k) (h_slot h) (h_base_fee h) 0 0 in
      let c := set_state c s in
      if negb tx_ok || negb (total_gas =? h_gas_used h) then
        (if tx_ok then AC_ACCEPT_REJECT_BAD_GAS else AC_ACCEPT_REJECT_BAD_TX, restore c snap)
      else if negb (ac_hash_eq (ac_block_tx_root (txs k)) (h_tx_root h)) then
        (AC_ACCEPT_REJECT_BAD_TX, restore c snap)
      else
        let reward := ac_chain_block_reward (h_height h) in
        let c := set_state c (pay_leader (c_state c) (h_proposer h) reward total_tips) in
        if negb (ac_hash_eq (ac_state_root (c_state c)) (h_state_root h)) then
          (AC_ACCEPT_REJECT_BAD_STATE_ROOT, restore c snap)
        else
          let block_hash := ac_block_hash h in
          let '(ok, c) := validate_commit c k block_hash pre_total_sqrt pre_ctx in
          if negb ok then (AC_ACCEPT_REJECT_BAD_COMMIT, restore c snap)
          else commit_block c k block_hash env
  end.

Definition ac_chain_accept_block (c : ac_chain_t) (k : ac_block_t) (env : env_t)
    : ac_accept_t * ac_chain_t :=
  let h := header k in
  if negb (h_version h =? AC_BLOCK_VERSION) then (AC_ACCEPT_REJECT_BAD_HEADER, c)
  else if h_height h =? 0 then (AC_ACCEPT_DUP, c)
  else if h_height h <=? c_height c then
    match ac_chain_get_block_hash c (h_height h) with
    | Some x => (if ac_hash_eq x (ac_block_hash h) then AC_ACCEPT_DUP else AC_ACCEPT_REJECT_BAD_PARENT, c)
    | None => (AC_ACCEPT_REJECT_BAD_PARENT, c)
    end
  else if negb (h_height h =? (c_height c ⊕ 1)) then (AC_ACCEPT_REJECT_BAD_PARENT, c)
  else if negb (ac_hash_eq (h_parent_hash h) (c_tip_hash c)) then (AC_ACCEPT_REJECT_BAD_PARENT, c)
  else if h_slot h <=? c_last_slot c then (AC_ACCEPT_REJECT_BAD_TIME, c)
  else
    let slot_start := ac_chain_slot_time_ms c (h_slot h) in
    if (i64 (h_timestamp_ms h) <? i64 slot_start - 3000) || (i64 slot_start + 3000 <? i64 (h_timestamp_ms h))
    then (AC_ACCEPT_REJECT_BAD_TIME, c)
    else if (now_ms env ⊕ 1500) <? h_timestamp_ms h then (AC_ACCEPT_REJECT_FUTURE, c)
    else if negb (h_gas_limit h =? AC_BLOCK_GAS_LIMIT) then (AC_ACCEPT_REJECT_BAD_HEADER, c)
    else
      let '(ok, c) := validate_proposer_vrf c h in
      if negb ok then (AC_ACCEPT_REJECT_BAD_PROPOSER, c)
      else
        let expected := expected_base_fee c in
        if h_base_fee h <? AC_MIN_BASE_FEE then (AC_ACCEPT_REJECT_BAD_HEADER, c)
        else if ((h_base_fee h ⊕ 1) <? expected) || ((expected ⊕ 1) <? h_base_fee h)
        then (AC_ACCEPT_REJECT_BAD_HEADER, c)
        else accept_body c k env.

(** ** Construction *)

(** The selection loop: [(state, kept, total_gas, total_tips)]. *)
Fixpoint select_txs (s : ac_state_t) (l : list ac_tx_t) (slot base_fee gas tips : Z)
    : ac_state_t * list ac_tx_t * Z * Z :=
  match l with
  | [] => (s, [], gas, tips)
  | t :: l' =>
      if negb (ac_tx_verify t) then select_txs s l' slot base_fee gas tips
      else if AC_BLOCK_GAS_LIMIT <? (gas ⊕ ac_tx_total_gas t) then select_txs s l' slot base_fee gas tips
      else
        let '(rc, s', r) := ac_state_apply_tx s t slot base_fee in
        if rc <? 0 then select_txs s' l' slot base_fee gas tips
        else
          let '(s2, kept, g, tp) :=
            select_txs s' l' slot base_fee (gas ⊕ res_gas_used r) (tips ⊕ res_fee_tip r) in
          (s2, t :: kept, g, tp)
  end.

(** [None] is a return of -1; the chain comes back with its state restored. *)
Definition ac_chain_build_block (c : ac_chain_t) (slot : Z) (kp : ac_keypair_t) (cand : list ac_tx_t)
    : option ac_block_t * ac_chain_t :=
  let proposer := pk kp in
  let '(found, acc) := ac_state_get (c_state c) proposer in
  if negb found then (None, c)
  else if stake acc <? AC_MIN_STAKE_UCRD then (None, c)
  else
    let '(seed, c) := ac_chain_epoch_seed c (ac_epoch_of slot) in
    let proof := (ac_vrf_prove (leader_alpha seed slot) kp).1 in
    let base_fee :=
      if c_height c =? 0 then AC_MIN_BASE_FEE
      else match ac_chain_get_header_by_height c (c_height c) with
           | None => AC_MIN_BASE_FEE
           | Some prev => ac_chain_next_base_fee (h_base_fee prev) (h_gas_used prev) (h_gas_limit prev)
           end in
    match ac_state_serialize (c_state c) with
    | None => (None, c)
    | Some snap =>
        let '(s, kept, total_gas, total_tips) := select_txs (c_state c) cand slot base_fee 0 0 in
        let reward := ac_chain_block_reward (c_height c ⊕ 1) in
        let s := pay_leader s proposer reward total_tips in
        let state_root := ac_state_root s in
        let c := restore (set_state c s) snap in
        let tx_root := ac_block_tx_root kept in
        (Some (mkBlock (mkHeader AC_BLOCK_VERSION (c_height c ⊕ 1) slot (c_tip_hash c)
                 (ac_chain_slot_time_ms c slot) proposer proof state_root tx_root base_fee total_gas
                 AC_BLOCK_GAS_LIMIT (zlen kept)) kept []), c)
    end.

(** ** Genesis and opening *)

Fixpoint genesis_accounts (c : ac_chain_t) (l : list ac_genesis_account_t) : ac_chain_t :=
  match l with
  | [] => c
  | ga :: l' =>
      let c := set_state c (ac_state_set (c_state c) (mkAcc (ga_addr ga) (ga_balance ga) 0 (ga_stake ga) 0)) in
      let c := if (AC_MIN_STAKE_UCRD <=? ga_stake ga) && (zlen (c_live_map c) <? AC_MAX_LIVE)
               then set_live c (c_live_map c ++ [mkLive (ga_addr ga) 0]) else c in
      genesis_accounts c l'
  end.

Definition genesis_header (s : ac_state_t) (ts : Z) : ac_block_header_t :=
  mkHeader AC_BLOCK_VERSION 0 0 (zeros 32) ts (zeros 32) (zeros 64) (ac_state_root s) (zeros 32)
    AC_MIN_BASE_FEE 0 AC_BLOCK_GAS_LIMIT 0.

(** The chain and whether it returned 0. *)
Definition chain_apply_genesis (c : ac_chain_t) (g : ac_genesis_t) (env : env_t) : bool * ac_chain_t :=
  let c := set_state c (ac_state_set (c_state c) (mkAcc SYS_REWARD_POOL (60000000 * 1000000) 0 0 0)) in
  let c := genesis_accounts c (g_accounts g) in
  let k := mkBlock (genesis_header (c_state c) (g_timestamp_ms g)) [] [] in
  let '(ok, c) := block_write c k (w_block env) in
  if negb ok then (false, c)
  else
    let c := set_tip c (g_chain_id g) 0 (ac_block_hash (header k)) 0 (g_timestamp_ms g) AC_MIN_BASE_FEE
               (g_timestamp_ms g) in
    match meta_save c (w_meta env) with
    | None => (false, c)
    | Some (ok, c) => if negb ok then (false, c) else state_save c (w_state env)
    end.

(** A zeroed [ac_chain_s] over the files of the data directory. *)
Definition chain_calloc (f : files_t) (s : ac_state_t) : ac_chain_t :=
  mkChain f s 0 0 (zeros 32) 0 0 0 0 0 (zeros 32) false [] false [] false [].

(** [None] is a return of NULL. The existence of the meta file decides between
    loading and genesis. *)
Definition ac_chain_open (f : files_t) (g : option ac_genesis_t) (env : env_t) : option ac_chain_t :=
  match f_meta f with
  | Some _ =>
      match meta_load (chain_calloc f (ac_state_new 0)) with
      | OK c =>
          let c := set_state c (ac_state_new (c_chain_id c)) in
          match f_state f with
          | None => None
          | Some buf =>
              match ac_state_deserialize (c_state c) buf with
              | OK (s, true) => Some (tx_index_rebuild (set_state c s))
              | _ => None
              end
          end
      | _ => None
      end
  | None =>
      match g with
      | None => None
      | Some g =>
          let '(ok, c) := chain_apply_genesis (chain_calloc f (ac_state_new (g_chain_id g))) g env in
          if ok then Some (tx_index_rebuild c) else None
      end
  end.
End Accept.

Create HintDb chain discriminated.

(** ** Well-formed intermediate states *)

Lemma credit_wf s a x : state_wf s → state_wf (ac_state_credit s a x).
Proof.
  intros Hs. unfold ac_state_credit. rewrite ac_state_get_spec by done. apply ac_state_set_wf; [done|].
  destruct (view_wf s a Hs). simpl. constructor; simpl; auto using u64_range.
Qed.
Lemma debit_wf s a x : state_wf s → 0 <= x → state_wf (ac_state_debit s a x).
Proof.
  intros Hs Hx. unfold ac_state_debit. rewrite ac_state_get_spec by done. apply ac_state_set_wf; [done|].
  destruct (view_wf s a Hs) as [Hb ? ? ?]. simpl. constructor; simpl; auto.
  unfold is_u64 in *. destruct (Z.ltb_spec (balance (view s a)) x); lia.
Qed.
Lemma block_reward_nonneg h : 0 <= h → 0 <= ac_chain_block_reward h.
Proof. intros. rewrite block_reward_values by done. destruct (_ <? _); lia. Qed.
Lemma pay_leader_wf s p reward tips : state_wf s → 0 <= reward →
  state_wf (pay_leader s p reward tips) ∧ chain_id (pay_leader s p reward tips) = chain_id s.
Proof.
  intros. split; [by apply debit_wf; [apply credit_wf|]|].
  unfold pay_leader, ac_state_debit, ac_state_credit. by rewrite !(proj1 (ac_state_set_frame _ _)).
Qed.

(** ** Frame of the indexes

    The updates after the commit point touch the indexes and the liveness map
    only. *)
Definition set_indexes (c i : ac_chain_t) : ac_chain_t :=
  set_live (set_addr_index (set_tx_index c (c_tx_index i) (c_tx_index_sorted i))
              (c_addr_index i) (c_addr_index_sorted i)) (c_live_map i).
Definition index_only (c c' : ac_chain_t) : Prop := c' = set_indexes c c'.

#[export] Instance index_only_refl : Reflexive index_only.
Proof. by intros []. Qed.
#[export] Instance index_only_trans : Transitive index_only.
Proof. unfold index_only. intros c1 c2 c3 E1 E2. rewrite E2, E1. done. Qed.

Lemma live_record_signer_frame c a h : index_only c (live_record_signer c a h).
Proof.
  unfold live_record_signer. destruct (live_update _ _ _); [by destruct c|].
  destruct (_ <? _); [by destruct c | reflexivity].
Qed.
Lemma record_signers_frame c l h : index_only c (record_signers c l h).
Proof.
  revert c. induction l as [|x l IH]; intros c; simpl; [reflexivity|].
  etrans; [|apply IH]. apply live_record_signer_frame.
Qed.
Lemma addr_index_record_tx_frame c t h i : index_only c (addr_index_record_tx c t h i).
Proof. unfold addr_index_record_tx. by repeat case_match; destruct c. Qed.
Lemma record_addr_txs_frame c l h i : index_only c (record_addr_txs c l h i).
Proof.
  revert c i. induction l as [|x l IH]; intros c i; simpl; [reflexivity|].
  etrans; [|apply IH]. apply addr_index_record_tx_frame.
Qed.

Section AcceptFacts.
Context `{!Sodium} `{!LongDouble}.

(** ** Frame of the seed cache

    Validation touches nothing of the chain but the epoch-seed cache, and
    leaves that coherent. *)
Definition cache_only (c c' : ac_chain_t) : Prop :=
  (∃ e s v, c' = set_cache c e s v) ∧ (cache_ok c → cache_ok c').

Lemma cache_ok_set_state c s : cache_ok (set_state c s) ↔ cache_ok c.
Proof. unfold cache_ok. simpl. by rewrite (compute_epoch_seed_ext (set_state c s) c). Qed.

Lemma cache_only_refl c : cache_only c c.
Proof.
  split; [|done]. exists (c_cached_epoch c), (c_cached_seed c), (c_cached_valid c). by destruct c.
Qed.
Lemma cache_only_trans c1 c2 c3 : cache_only c1 c2 → cache_only c2 c3 → cache_only c1 c3.
Proof. intros [(e & s & v & ->) H1] [(e' & s' & v' & ->) H2]. split; [by exists e', s', v' | auto]. Qed.
Hint Resolve cache_only_refl : chain.

Lemma record_tx_hashes_frame c l h i : index_only c (record_tx_hashes c l h i).
Proof.
  revert c i. induction l as [|x l IH]; intros c i; simpl; [reflexivity|].
  etrans; [|apply IH]. by destruct c.
Qed.

Lemma apply_block_txs_wf l s slot bf g tp : state_wf s → Forall tx_wf l →
  let '(_, s', _, _) := apply_block_txs s l slot bf g tp in state_wf s' ∧ chain_id s' = chain_id s.
Proof.
  intros Hs Hl. revert s g tp Hs. induction Hl as [|t l Ht Hl IH]; intros s g tp Hs; simpl; [done|].
  destruct (negb (ac_tx_verify t)); [done|].
  pose proof (apply_tx_wf s t slot bf Hs Ht) as Ha.
  destruct (ac_state_apply_tx s t slot bf) as [[rc s1] r]. destruct Ha as (Hw & _ & Hc & _).
  destruct (rc <? 0); [done|]. destruct (_ <? _); [done|].
  specialize (IH s1 (g ⊕ res_gas_used r) (tp ⊕ res_fee_tip r) Hw).
  destruct (apply_block_txs _ _ _ _ _ _) as [[[ok s'] g'] tp']. destruct IH. split; congruence.
Qed.

(** Rolling back to the snapshot of a chain's state. *)
Lemma restore_snapshot c s : state_wf (c_state c) → zlen (accounts (c_state c)) < U32 →
  zlen (names (c_state c)) < U32 → chain_id s = chain_id (c_state c) →
  restore (set_state c s) (snapshot_bytes (c_state c)) = c.
Proof.
  intros. unfold restore. simpl. rewrite deserialize_snapshot by done. by destruct c.
Qed.

Lemma epoch_seed_cache_only c e : cache_only c (ac_chain_epoch_seed c e).2.
Proof.
  split; [|by intros Hc; apply epoch_seed_spec].
  unfold ac_chain_epoch_seed. destruct (_ && _); [apply cache_only_refl|]. by eexists _, _, _.
Qed.

Lemma proposer_cache_only c h : cache_only c (validate_proposer_vrf c h).2.
Proof.
  unfold validate_proposer_vrf. destruct (ac_state_get _ _) as [f a].
  destruct (negb f); [apply cache_only_refl|]. destruct (_ <? _); [apply cache_only_refl|].
  pose proof (epoch_seed_cache_only c (ac_epoch_of (h_slot h))) as H1.
  destruct (ac_chain_epoch_seed _ _) as [sd c1]. by destruct (ac_vrf_verify _ _ _).
Qed.
Lemma commit_cache_only c k bh T ctx : cache_only c (validate_commit c k bh T ctx).2.
Proof.
  unfold validate_commit. destruct (_ =? _)%nat; [apply cache_only_refl|].
  destruct (_ =? _); [apply cache_only_refl|].
  pose proof (epoch_seed_cache_only c (ac_epoch_of (h_slot (header k)))) as H1.
  destruct (ac_chain_epoch_seed _ _) as [sd c1]. destruct (commit_loop _ _ _ _ _ _); [|done].
  by repeat case_match.
Qed.
(** A certificate that passes leaves its epoch in the cache. *)
Lemma commit_epoch c k bh T ctx : (validate_commit c k bh T ctx).1 = true →
  c_cached_epoch (validate_commit c k bh T ctx).2 = ac_epoch_of (h_slot (header k)).
Proof.
  unfold validate_commit. destruct (_ =? _)%nat; [done|]. destruct (_ =? _); [done|].
  assert (c_cached_epoch (ac_chain_epoch_seed c (ac_epoch_of (h_slot (header k)))).2 = ac_epoch_of (h_slot (header k))) as E.
  { unfold ac_chain_epoch_seed. destruct (_ && _) eqn:E; [|done]. by apply andb_true_iff in E as [_ ?%Z.eqb_eq]. }
  destruct (ac_chain_epoch_seed _ _) as [sd c1]. cbn [snd] in E. destruct (commit_loop _ _ _ _ _ _); [|done].
  by repeat case_match.
Qed.
Hint Resolve epoch_seed_cache_only proposer_cache_only commit_cache_only : chain.

(** ** The two halves of acceptance *)

(** The checks on the header, before any state is touched. *)
Record header_ok (c : ac_chain_t) (h : ac_block_header_t) (now : Z) : Prop := {
  ho_version : h_version h = AC_BLOCK_VERSION;
  ho_height : h_height h = c_height c ⊕ 1;
  ho_above : c_height c < h_height h;
  ho_parent : h_parent_hash h = c_tip_hash c;
  ho_slot : c_last_slot c < h_slot h;
  ho_time : i64 (ac_chain_slot_time_ms c (h_slot h)) - 3000 <= i64 (h_timestamp_ms h)
            <= i64 (ac_chain_slot_time_ms c (h_slot h)) + 3000;
  ho_now : h_timestamp_ms h <= (now ⊕ 1500);
  ho_gas_limit : h_gas_limit h = AC_BLOCK_GAS_LIMIT;
  ho_proposer : (validate_proposer_vrf c h).1 = true;
  ho_min_fee : AC_MIN_BASE_FEE <= h_base_fee h;
  ho_fee : expected_base_fee c <= (h_base_fee h ⊕ 1) ∧ h_base_fee h <= (expected_base_fee c ⊕ 1)
}.

Definition rejection (r : ac_accept_t) : Prop := r ≠ AC_ACCEPT_OK ∧ r ≠ AC_ACCEPT_INTERNAL.

Ltac early := left; eexists; split_and!; [done | done | intros []; lia || congruence | auto with chain].

(** Either an early return that changed the seed cache at most, or all header
    checks passed and the rest of the function runs. *)
Lemma accept_header_cases c k env : 0 <= c_height c →
  (∃ r, (ac_chain_accept_block c k env).1 = r ∧ rejection r ∧ (¬ header_ok c (header k) (now_ms env)) ∧
        cache_only c (ac_chain_accept_block c k env).2) ∨
  (header_ok c (header k) (now_ms env) ∧
   ac_chain_accept_block c k env = accept_body (validate_proposer_vrf c (header k)).2 k env).
Proof.
  intros Hh. unfold ac_chain_accept_block. set (h := header k). set (now := now_ms env).
  destruct (Z.eqb_spec (h_version h) AC_BLOCK_VERSION) as [Hv|Hv]; cbn [negb]; [|early].
  destruct (Z.eqb_spec (h_height h) 0) as [E0|E0]; [early|].
  destruct (Z.leb_spec (h_height h) (c_height c)) as [Ele|Egt].
  { destruct (ac_chain_get_block_hash _ _); [destruct (ac_hash_eq _ _)|]; early. }
  destruct (Z.eqb_spec (h_height h) (c_height c ⊕ 1)) as [Es|Es]; cbn [negb]; [|early].
  destruct (ac_hash_eq (h_parent_hash h) (c_tip_hash c)) eqn:Ep; cbn [negb];
    [apply ac_hash_eq_true in Ep | apply ac_hash_eq_false in Ep; early].
  destruct (Z.leb_spec (h_slot h) (c_last_slot c)) as [Esl|Esl]; [early|].
  cbv zeta. destruct (_ || _) eqn:Et; [left|].
  { eexists; split_and!; [done | done | | auto with chain]. intros [].
    apply orb_true_iff in Et as [?%Z.ltb_lt | ?%Z.ltb_lt]; lia. }
  apply orb_false_iff in Et as [Et1%Z.ltb_ge Et2%Z.ltb_ge].
  destruct (Z.ltb_spec (now ⊕ 1500) (h_timestamp_ms h)) as [En|En]; [early|].
  destruct (Z.eqb_spec (h_gas_limit h) AC_BLOCK_GAS_LIMIT) as [Eg|Eg]; cbn [negb]; [|early].
  pose proof (proposer_cache_only c h) as Hc1.
  destruct (validate_proposer_vrf c h) as [ok c1] eqn:Evrf. cbn [snd] in *.
  assert (expected_base_fee c1 = expected_base_fee c) as Eexp by by destruct Hc1 as [(? & ? & ? & ->) _].
  rewrite Eexp. destruct ok; cbn [negb].
  2:{ left. eexists; split_and!; [done | done | intros [] | done]. rewrite Evrf in *. done. }
  destruct (Z.ltb_spec (h_base_fee h) AC_MIN_BASE_FEE) as [Em|Em].
  { left; eexists; split_and!; [done | done | intros []; lia | done]. }
  destruct (_ || _) eqn:Ef.
  { left; eexists; split_and!; [done | done | intros [] | done].
    apply orb_true_iff in Ef as [?%Z.ltb_lt | ?%Z.ltb_lt]; lia. }
  apply orb_false_iff in Ef as [Ef1%Z.ltb_ge Ef2%Z.ltb_ge].
  right. split; [|done]. constructor; try done; try lia. by rewrite Evrf.
Qed.

(** What the rest of the function computes, and checks. *)
Definition block_result (c : ac_chain_t) (k : ac_block_t) : bool * ac_state_t * Z * Z :=
  apply_block_txs (c_state c) (txs k) (h_slot (header k)) (h_base_fee (header k)) 0 0.
Definition post_state (c : ac_chain_t) (k : ac_block_t) : ac_state_t :=
  let '(_, s, _, tips) := block_result c k in
  pay_leader s (h_proposer (header k)) (ac_chain_block_reward (h_height (header k))) tips.
Definition check_commit (c : ac_chain_t) (k : ac_block_t) : bool * ac_chain_t :=
  validate_commit (set_state c (post_state c k)) k (ac_block_hash (header k))
    (ac_chain_total_sqrt_stake c) (pre_signers (c_state c) (signers k)).

Record body_ok (c : ac_chain_t) (k : ac_block_t) : Prop := {
  bk_txs : (block_result c k).1.1.1 = true;
  bk_gas : (block_result c k).1.2 = h_gas_used (header k);
  bk_tx_root : ac_block_tx_root (txs k) = h_tx_root (header k);
  bk_state_root : ac_state_root (post_state c k) = h_state_root (header k);
  bk_commit : (check_commit c k).1 = true
}.

(** A chain whose state a snapshot can hold. *)
Record chain_fits (c : ac_chain_t) : Prop := {
  cf_state : state_wf (c_state c);
  cf_accounts : zlen (accounts (c_state c)) < U32;
  cf_names : zlen (names (c_state c)) < U32
}.

Lemma post_state_wf c k : state_wf (c_state c) → Forall tx_wf (txs k) → 0 <= h_height (header k) →
  state_wf (post_state c k) ∧ chain_id (post_state c k) = chain_id (c_state c).
Proof.
  intros Hs Ht Hh. unfold post_state, block_result.
  pose proof (apply_block_txs_wf (txs k) (c_state c) (h_slot (header k)) (h_base_fee (header k)) 0 0 Hs Ht) as Hw.
  destruct (apply_block_txs _ _ _ _ _ _) as [[[ok s] g] tp]. destruct Hw as [Hw <-].
  apply pay_leader_wf; [done | by apply block_reward_nonneg].
Qed.

(** Either a rejection, after which the chain is as before but for the seed
    cache, or every check passed and the block is committed. *)
Lemma accept_body_cases c k env : chain_fits c → block_wf k →
  (∃ r, (accept_body c k env).1 = r ∧ rejection r ∧ (¬ body_ok c k) ∧ cache_only c (accept_body c k env).2) ∨
  (body_ok c k ∧
   accept_body c k env = commit_block (check_commit c k).2 k (ac_block_hash (header k)) env).
Proof.
  intros [Hs Ha Hn] [Hh Ht _ _ _]. pose proof (wf_h_height _ Hh) as Hh0. unfold is_u64 in Hh0.
  destruct (post_state_wf c k Hs Ht ltac:(lia)) as [Hw Hid].
  unfold accept_body. rewrite ac_state_serialize_bytes by done. fold (block_result c k).
  assert (∀ s, chain_id s = chain_id (c_state c) →
    cache_only c (restore (set_state c s) (snapshot_bytes (c_state c)))) as Hres.
  { intros s Hc. rewrite restore_snapshot by done. apply cache_only_refl. }
  assert (chain_id (block_result c k).1.1.2 = chain_id (c_state c)) as Hid1.
  { pose proof (apply_block_txs_wf (txs k) (c_state c) (h_slot (header k)) (h_base_fee (header k)) 0 0 Hs Ht) as E.
    fold (block_result c k) in E. destruct (block_result c k) as [[[? ?] ?] ?]. apply E. }
  assert (post_state c k = pay_leader (block_result c k).1.1.2 (h_proposer (header k))
    (ac_chain_block_reward (h_height (header k))) (block_result c k).2) as Epost.
  { unfold post_state. by destruct (block_result c k) as [[[? ?] ?] ?]. }
  pose proof (bk_txs c k) as B1. pose proof (bk_gas c k) as B2.
  destruct (block_result c k) as [[[ok s] g] tp] eqn:Er. cbn [fst snd c_state set_state] in *.
  destruct (negb ok || negb (g =? h_gas_used (header k))) eqn:E1.
  { left. eexists. split; [done|]. split; [by destruct ok|]. split; [|by apply Hres].
    intros Hb. rewrite (B1 Hb), (B2 Hb), Z.eqb_refl in E1. done. }
  apply orb_false_iff in E1 as [E1 E1']. apply negb_false_iff in E1, E1'.
  apply Z.eqb_eq in E1'. subst ok g.
  destruct (ac_hash_eq (ac_block_tx_root (txs k)) (h_tx_root (header k))) eqn:E2; cbn [negb];
    [apply ac_hash_eq_true in E2 | apply ac_hash_eq_false in E2; left].
  2:{ eexists. split; [done|]. split; [done|]. split; [by intros [] | by apply Hres]. }
  rewrite <- Epost. change (set_state (set_state c s) (post_state c k)) with (set_state c (post_state c k)).
  cbn [c_state set_state].
  destruct (ac_hash_eq (ac_state_root (post_state c k)) (h_state_root (header k))) eqn:E3; cbn [negb];
    [apply ac_hash_eq_true in E3 | apply ac_hash_eq_false in E3; left].
  2:{ eexists. split; [done|]. split; [done|]. split; [by intros [] | by apply Hres]. }
  fold (check_commit c k). pose proof (commit_cache_only (set_state c (post_state c k)) k
    (ac_block_hash (header k)) (ac_chain_total_sqrt_stake c) (pre_signers (c_state c) (signers k))) as Hco.
  fold (check_commit c k) in Hco.
  destruct (check_commit c k) as [ok c2] eqn:E4. cbn [snd] in *. destruct ok; cbn [negb].
  - right. split; [|done]. constructor; try done; [by rewrite Er..|]. by rewrite E4.
  - left. eexists. split; [done|]. split; [done|]. split; [intros []; by rewrite E4 in *|].
    destruct Hco as [(e & sd & v & ->) Hck]. cbn [snd].
    change (restore (set_cache (set_state c (post_state c k)) e sd v) (snapshot_bytes (c_state c))) with
      (restore (set_state (set_cache c e sd v) (post_state c k)) (snapshot_bytes (c_state (set_cache c e sd v)))).
    rewrite restore_snapshot by done. split; [by exists e, sd, v|]. intros Hc.
    apply (cache_ok_set_state _ (post_state c k)), Hck. by apply cache_ok_set_state.
Qed.

(** ** The commit point *)

(** The chain as written and indexed, with the disk contents spelled out. *)
Record committed (c : ac_chain_t) (k : ac_block_t) (bh : ac_hash_t) (c' : ac_chain_t) : Prop := {
  cm_state : c_state c' = c_state c;
  cm_chain_id : c_chain_id c' = c_chain_id c;
  cm_height : c_height c' = h_height (header k);
  cm_tip : c_tip_hash c' = bh;
  cm_slot : c_last_slot c' = h_slot (header k);
  cm_ts : c_last_timestamp_ms c' = h_timestamp_ms (header k);
  cm_fee : c_base_fee c' = h_base_fee (header k);
  cm_genesis : c_genesis_timestamp_ms c' = c_genesis_timestamp_ms c;
  cm_cache : c_cached_valid c' = false;
  cm_files : c_files c' = mkFiles (Some (concat (meta_chunks c'))) (Some (snapshot_bytes (c_state c')))
                            (<[h_height (header k) := block_bytes k]> (f_blocks (c_files c)))
}.

Definition writes_ok (env : env_t) : bool := w_block env && w_state env && w_meta env.

Lemma commit_block_spec c k bh env : block_wf k → state_wf (c_state c) →
  if writes_ok env
  then (commit_block c k bh env).1 = AC_ACCEPT_OK ∧ committed c k bh (commit_block c k bh env).2
  else (commit_block c k bh env).1 = AC_ACCEPT_INTERNAL.
Proof.
  intros Hk Hs. unfold commit_block, block_write, writes_ok. rewrite ac_block_encode_bytes by done.
  destruct (w_block env); cbn [negb andb]; [|done].
  unfold state_save. cbn [c_state set_files]. rewrite ac_state_serialize_bytes by done.
  destruct (w_state env); cbn [negb andb]; [|done].
  rewrite meta_save_total. destruct (w_meta env); cbn [negb]; [|done].
  match goal with |- context [record_signers ?x ?l ?h] => set (c1 := x) end.
  set (c2 := record_tx_hashes _ _ _ _).
  assert (index_only c1 c2) as Hi.
  { etrans; [|apply record_tx_hashes_frame]. etrans; [|apply record_addr_txs_frame]. apply record_signers_frame. }
  clearbody c2. split; [done|]. rewrite Hi. by constructor.
Qed.

Lemma committed_read c k bh c' : block_wf k → committed c k bh c' →
  block_read c' (h_height (header k)) = Some k ∧
  ∀ h, h ≠ h_height (header k) → block_read c' h = block_read c h.
Proof.
  intros Hk Hc. unfold block_read. rewrite (cm_files _ _ _ _ Hc). cbn [f_blocks]. split.
  - rewrite lookup_insert_eq. pose proof (ac_block_decode_bytes k [] Hk) as E. rewrite app_nil_r in E.
    by rewrite E.
  - intros h Hne. by rewrite lookup_insert_ne.
Qed.

(** ** Acceptance does not depend on the state of the cache *)

Lemma live_sum_loop_ext c c' l sum n : c_height c = c_height c' → c_state c = c_state c' →
  live_sum_loop c l sum n = live_sum_loop c' l sum n.
Proof.
  intros Eh Es. revert sum n. induction l as [|e l IH]; intros sum n; simpl; [done|].
  unfold live_is_within_window. rewrite Eh, Es. destruct (negb _); [done|].
  destruct (ac_state_get _ _) as [[] a]; simpl; [|done]. by destruct (_ <? _).
Qed.
Lemma live_sqrt_stake_cache c e s v : ac_chain_live_sqrt_stake (set_cache c e s v) = ac_chain_live_sqrt_stake c.
Proof. unfold ac_chain_live_sqrt_stake. by rewrite (live_sum_loop_ext _ c). Qed.

(** The certificate check with the seed as an argument. *)
Definition commit_valid (c : ac_chain_t) (seed : ac_hash_t) (k : ac_block_t) (bh : ac_hash_t) (T : Z)
    (ctx : list (ac_addr_t * Z)) : Prop :=
  signers k ≠ [] ∧ T ≠ 0 ∧
  ∃ signed, commit_loop ctx (committee_alpha seed (h_slot (header k)))
              (ac_vote_message (h_height (header k)) bh) T (signers k) 0 = Some signed ∧
    let live := if ac_chain_live_sqrt_stake c =? 0 then T else ac_chain_live_sqrt_stake c in
    (live ⊗ 2) <= (signed ⊗ 3) ∧ T < (signed ⊗ 2).

Lemma validate_commit_valid c k bh T ctx : cache_ok c →
  ((validate_commit c k bh T ctx).1 = true ↔
   commit_valid c (compute_epoch_seed c (ac_epoch_of (h_slot (header k)))) k bh T ctx).
Proof.
  intros Hc. unfold validate_commit, commit_valid.
  destruct (signers k) as [|x l] eqn:El; [by split; [|intros [? _]]|]. cbn [length Nat.eqb].
  destruct (Z.eqb_spec T 0); [by split; [|intros (_ & ? & _)]|].
  destruct (epoch_seed_spec c (ac_epoch_of (h_slot (header k))) Hc) as (Es & _ & e & s' & v & Ec).
  destruct (ac_chain_epoch_seed _ _) as [sd c1]. cbn [fst snd] in *. subst sd c1.
  rewrite live_sqrt_stake_cache. destruct (commit_loop _ _ _ _ _ _) as [signed|].
  2:{ split; [done|]. by intros (_ & _ & ? & ? & _). }
  match goal with |- context [(signed ⊗ 3) <? ?y] => destruct (Z.ltb_spec (signed ⊗ 3) y) end.
  { split; [done|]. intros (_ & _ & ? & [= <-] & ? & _). lia. }
  destruct (Z.leb_spec (signed ⊗ 2) T); (split; [try done; intros _ | intros (_ & _ & ? & [= <-] & ? & ?); try lia; done]).
  split; [done|]. split; [done|]. eexists. split; [done|]. lia.
Qed.

Lemma cache_ok_compute c c' e : cache_only c c' → compute_epoch_seed c' e = compute_epoch_seed c e.
Proof. intros [(? & ? & ? & ->) _]. by apply compute_epoch_seed_ext. Qed.

Lemma body_ok_cache c c' k : cache_only c c' → cache_ok c → (body_ok c' k ↔ body_ok c k).
Proof.
  intros Hco Hc. pose proof (proj2 Hco Hc) as Hc'. pose proof (cache_ok_compute c c') as Eseed.
  assert (∀ d, cache_ok d → ((check_commit d k).1 = true ↔ commit_valid (set_state d (post_state d k))
    (compute_epoch_seed d (ac_epoch_of (h_slot (header k)))) k (ac_block_hash (header k))
    (ac_chain_total_sqrt_stake d) (pre_signers (c_state d) (signers k)))) as E.
  { intros d Hd. unfold check_commit. rewrite validate_commit_valid by by apply cache_ok_set_state.
    by rewrite (compute_epoch_seed_ext (set_state d _) d). }
  assert ((check_commit c' k).1 = true ↔ (check_commit c k).1 = true) as Ecc.
  { rewrite (E c' Hc'), (E c Hc), Eseed by done. destruct Hco as [(e & sd & v & ->) _].
    unfold commit_valid. change (set_state (set_cache c e sd v) (post_state (set_cache c e sd v) k)) with
      (set_cache (set_state c (post_state c k)) e sd v).
    rewrite live_sqrt_stake_cache. done. }
  destruct Hco as [(e & sd & v & ->) _].
  split; intros []; (constructor; [done..|]); by apply Ecc.
Qed.

(** ** Acceptance as a whole *)

Lemma chain_fits_cache c c' : cache_only c c' → chain_fits c → chain_fits c'.
Proof. by intros [(? & ? & ? & ->) _] []. Qed.

(** The three outcomes: a rejection without effect; a commit; an I/O failure. *)
Lemma accept_cases c k env : chain_fits c → block_wf k → 0 <= c_height c → cache_ok c →
  (rejection (ac_chain_accept_block c k env).1 ∧ cache_only c (ac_chain_accept_block c k env).2 ∧
   ¬ (header_ok c (header k) (now_ms env) ∧ body_ok c k)) ∨
  (header_ok c (header k) (now_ms env) ∧ body_ok c k ∧
   ∃ c1, cache_only (set_state c (post_state c k)) c1 ∧ c_cached_epoch c1 = ac_epoch_of (h_slot (header k)) ∧
     ac_chain_accept_block c k env = commit_block c1 k (ac_block_hash (header k)) env).
Proof.
  intros Hf Hk Hh Hc.
  destruct (accept_header_cases c k env Hh) as [(r & <- & Hr & Hno & Hco)|[Hho ->]].
  { left. split_and!; [done|done|]. tauto. }
  pose proof (proposer_cache_only c (header k)) as Hpc. set (c0 := (validate_proposer_vrf c (header k)).2) in *.
  clearbody c0. pose proof (body_ok_cache c c0 k Hpc Hc) as Eb.
  destruct (accept_body_cases c0 k env (chain_fits_cache _ _ Hpc Hf) Hk) as [(r & <- & Hr & Hno & Hco)|[Hbo ->]].
  - left. split_and!; [done | by eapply cache_only_trans | tauto].
  - right. split; [done|]. split; [tauto|]. exists (check_commit c0 k).2.
    split; [|split; [by apply commit_epoch, Hbo | done]].
    eapply cache_only_trans; [|apply commit_cache_only]. destruct Hpc as [(e & sd & v & ->) Hpc].
    split; [by exists e, sd, v|]. intros H'%cache_ok_set_state. by apply cache_ok_set_state, Hpc.
Qed.

Lemma committing_wf c k c1 : state_wf (c_state c) → block_wf k →
  cache_only (set_state c (post_state c k)) c1 → state_wf (c_state c1).
Proof.
  intros Hs Hk [(? & ? & ? & ->) _]. simpl. apply post_state_wf; [done | apply Hk|].
  pose proof (wf_h_height _ (wf_header _ Hk)) as Hh. unfold is_u64 in Hh. lia.
Qed.

Lemma accept_ok_inv c k env : chain_fits c → block_wf k → 0 <= c_height c → cache_ok c →
  (ac_chain_accept_block c k env).1 = AC_ACCEPT_OK →
  header_ok c (header k) (now_ms env) ∧ body_ok c k ∧
  committed (set_state c (post_state c k)) k (ac_block_hash (header k)) (ac_chain_accept_block c k env).2.
Proof.
  intros Hf Hk Hh Hc Hok. destruct (accept_cases c k env Hf Hk Hh Hc) as [([? _] & _)|(Hho & Hbo & c1 & Hco & _ & E)]; [done|].
  split; [done|]. split; [done|]. rewrite E in *.
  pose proof (committing_wf c k c1 (cf_state c Hf) Hk Hco) as Hs1.
  pose proof (commit_block_spec c1 k (ac_block_hash (header k)) env Hk Hs1) as Hsp.
  destruct (writes_ok env); [|rewrite Hsp in Hok; done]. destruct Hsp as [_ []].
  destruct Hco as [(? & ? & ? & ->) _]. by constructor.
Qed.

(** C5. A rejected block leaves no trace: whatever the reason, the state (restored from the
    snapshot taken before the transactions ran), the tip, the indexes, the liveness map
    and the files are as before; only the epoch-seed cache may have been filled, and it
    stays coherent. With working file writes the call never fails internally. *)
Theorem accept_reject_no_effect c k env :
  chain_fits c → block_wf k → 0 <= c_height c → cache_ok c →
  let '(r, c') := ac_chain_accept_block c k env in
  (rejection r → (∃ e s v, c' = set_cache c e s v) ∧ cache_ok c') ∧
  (writes_ok env = true → r ≠ AC_ACCEPT_INTERNAL).
Proof.
  intros Hf Hk Hh Hc. destruct (ac_chain_accept_block c k env) as [r c'] eqn:E.
  destruct (accept_cases c k env Hf Hk Hh Hc) as [(Hr & [Hco Hck] & _)|(_ & _ & c1 & Hco & _ & E')].
  - rewrite E in *. cbn [fst snd] in *. split; [auto|]. by intros _ ->; destruct Hr.
  - rewrite E in E'. pose proof (committing_wf c k c1 (cf_state c Hf) Hk Hco) as Hs1.
    pose proof (commit_block_spec c1 k (ac_block_hash (header k)) env Hk Hs1) as Hsp.
    rewrite <- E' in Hsp. cbn [fst snd] in Hsp. destruct (writes_ok env).
    + destruct Hsp as [-> _]. by split; [intros [? _]|].
    + rewrite Hsp. by split; [intros [_ ?]|].
Qed.

Lemma accept_iff c k env :
  chain_fits c → block_wf k → 0 <= c_height c → cache_ok c →
  ((ac_chain_accept_block c k env).1 = AC_ACCEPT_OK ↔
   header_ok c (header k) (now_ms env) ∧ body_ok c k ∧ writes_ok env = true).
Proof.
  intros Hf Hk Hh Hc. destruct (accept_cases c k env Hf Hk Hh Hc) as [([? _] & _ & Hno)|(Hho & Hbo & c1 & Hco & _ & ->)].
  { split; [done | tauto]. }
  pose proof (committing_wf c k c1 (cf_state c Hf) Hk Hco) as Hs1.
  pose proof (commit_block_spec c1 k (ac_block_hash (header k)) env Hk Hs1) as Hsp.
  destruct (writes_ok env); [tauto|]. rewrite Hsp. split; [done | by intros (_ & _ & ?)].
Qed.

(** C4. Acceptance is exactly the conjunction of the protocol's checks: the header follows the
    tip, its time and proposer are valid, its base fee is at least the minimum and within
    one of the expected one (for the first block, of the minimum), every transaction
    applies, gas, roots and certificate match, and the three files were written. The chain
    is one whose state a snapshot can hold and whose seed cache is coherent. *)
Theorem accept_ok_iff c k env :
  chain_fits c → block_wf k → 0 <= c_height c → cache_ok c →
  ((ac_chain_accept_block c k env).1 = AC_ACCEPT_OK ↔
   header_ok c (header k) (now_ms env) ∧ body_ok c k ∧ writes_ok env = true).
Proof. apply accept_iff. Qed.

(** C6. An accepted block extends the chain by one: it names the old tip as parent and a later
    slot, becomes the new tip, is readable at its height with all older blocks untouched;
    the new state is the transactions and reward applied to the old one, with the root the
    header announces; the chain stays well formed, its caches coherent. *)
Theorem accept_ok_extends c k env :
  chain_wf c → chain_fits c → block_wf k → cache_ok c →
  (ac_chain_accept_block c k env).1 = AC_ACCEPT_OK →
  let c' := (ac_chain_accept_block c k env).2 in
  c_height c' = c_height c + 1 ∧ h_parent_hash (header k) = c_tip_hash c ∧
  c_last_slot c < c_last_slot c' ∧ c_tip_hash c' = ac_block_hash (header k) ∧
  c_state c' = post_state c k ∧ ac_state_root (c_state c') = h_state_root (header k) ∧
  block_read c' (c_height c') = Some k ∧
  (∀ h, h <= c_height c → block_read c' h = block_read c h) ∧
  chain_wf c' ∧ cache_ok c'.
Proof.
  intros Hw Hf Hk Hc Hok. cbv zeta. pose proof (cw_height c Hw) as Hh. unfold is_u64 in Hh.
  destruct (accept_ok_inv c k env Hf Hk ltac:(lia) Hc Hok) as (Hho & Hbo & Hcm).
  set (c' := (ac_chain_accept_block c k env).2) in *. clearbody c'.
  destruct (committed_read _ _ _ _ Hk Hcm) as [Hr1 Hr2]. destruct Hho, Hbo.
  pose proof (wf_h_height _ (wf_header _ Hk)) as Hhk. unfold is_u64 in Hhk.
  assert (h_height (header k) = c_height c + 1) as Eh.
  { rewrite ho_height0 in ho_above0 |- *. revert ho_above0. warith. }
  destruct (post_state_wf c k (cf_state c Hf) (wf_txs k Hk) ltac:(lia)) as [Hps Hpi].
  destruct Hcm. cbn [c_state c_chain_id c_genesis_timestamp_ms c_files set_state] in *.
  split; [lia|]. split; [done|]. split; [lia|]. split; [done|]. split; [done|].
  split; [by rewrite cm_state0|]. split; [by rewrite cm_height0|].
  split; [intros h Hle; rewrite Hr2 by lia; done|]. split; [|unfold cache_ok; by rewrite cm_cache0].
  destruct Hw, (wf_header _ Hk). by constructor; rewrite ?cm_state0, ?cm_chain_id0, ?cm_height0, ?cm_slot0, ?cm_ts0,
    ?cm_fee0, ?cm_genesis0, ?Hpi.
Qed.

(** ** Quorums *)

Lemma view_elem s a : state_wf s → a ∈ accounts s → view s (addr a) = a.
Proof.
  intros Hs Ha. unfold view, acc_map. assert (to_map addr (accounts s) !! addr a = Some a) as ->; [|done].
  apply to_map_lookup; [apply (sorted_nodup addr ac_addr_cmp), Hs | done].
Qed.

(** Distinct addresses weigh at most the whole validator set. *)
Lemma weights_of_distinct s l : state_wf s → NoDup l →
  sum_with (λ a, weight (view s a)) l <= total weight s.
Proof.
  intros Hs Hl. set (f := λ a, weight (view s a)).
  assert (∀ a, 0 <= f a) as Hf by (intros a; apply weight_bound, view_wf, Hs).
  assert (total weight s = sum_with f (addr <$> accounts s)) as ->.
  { unfold total. assert (∀ a, a ∈ accounts s → weight a = f (addr a)) as E.
    { intros a Ha. unfold f. by rewrite view_elem. }
    clear -E. induction (accounts s) as [|a l IH]; [done|]. simpl. rewrite E by by left.
    rewrite IH; [done|]. intros. apply E. by right. }
  transitivity (sum_with f (filter (λ a, a ∈ addr <$> accounts s) l)).
  - clear Hl. induction l as [|a l IH]; [done|]. rewrite filter_cons. simpl. case_decide as Hin; simpl; [lia|].
    assert (f a = 0); [|lia]. unfold f, view. destruct (acc_map s !! a) as [e|] eqn:E; [|done].
    destruct Hin. apply acc_map_lookup in E as [He <-]; [|done]. by apply list_elem_of_fmap_2.
  - apply sum_with_submseteq; [done|]. apply NoDup_submseteq; [by apply NoDup_filter|].
    intros a [? _]%list_elem_of_filter. done.
Qed.

Lemma pre_stake_lookup_spec s l a : state_wf s → zlen l <= AC_COMMITTEE_MAX → a ∈ cs_signer <$> l →
  ac_chain__pre_stake_lookup (pre_signers s l) a = stake (view s a).
Proof.
  intros Hs Hl. unfold pre_signers. rewrite take_ge by lia. clear Hl.
  induction l as [|x l IH]; [by intros ?%elem_of_nil|].
  cbn [fmap list_fmap]. rewrite elem_of_cons. intros Ha. cbn [ac_chain__pre_stake_lookup].
  destruct (ac_addr_eq (cs_signer x) a) eqn:E.
  - apply ac_addr_eq_true in E as ->. by rewrite ac_state_get_spec.
  - apply ac_addr_eq_false in E. apply IH. destruct Ha as [-> | ?]; [congruence | done].
Qed.

(** A signer the certificate check went through. *)
Record signer_ok (s : ac_state_t) (calpha vmsg : list byte) (x : ac_commit_signer_t) : Prop := {
  so_active : AC_MIN_STAKE_UCRD <= stake (view s (cs_signer x));
  so_vrf : is_Some (ac_vrf_verify (cs_vrf_proof x) calpha (cs_signer x));
  so_sig : ac_verify (cs_sig x) vmsg (cs_signer x) = true
}.

Lemma commit_loop_spec s L calpha vmsg T l acc signed : state_wf s → zlen L <= AC_COMMITTEE_MAX →
  (∀ x, x ∈ l → cs_signer x ∈ cs_signer <$> L) →
  0 <= acc → acc + sum_with (λ x, weight (view s (cs_signer x))) l < U64 →
  commit_loop (pre_signers s L) calpha vmsg T l acc = Some signed →
  signed = acc + sum_with (λ x, weight (view s (cs_signer x))) l ∧ Forall (signer_ok s calpha vmsg) l.
Proof.
  intros Hs HL. revert acc. induction l as [|x l IH]; intros acc Hin Hacc Hb; simpl in *.
  { intros [= <-]. split; [lia | done]. }
  rewrite pre_stake_lookup_spec by (done || apply Hin; by left).
  destruct (Z.ltb_spec (stake (view s (cs_signer x))) AC_MIN_STAKE_UCRD) as [|Hge]; [done|].
  destruct (ac_vrf_verify _ _ _) as [beta|] eqn:Ev; [|done].
  destruct (committee_eligible _ _ _); [|done]. destruct (ac_verify _ _ _) eqn:Es; [|done]. simpl.
  pose proof (view_wf s (cs_signer x) Hs) as Hw. destruct (weight_bound _ Hw) as [Hw0 _].
  assert (0 <= sum_with (λ x, weight (view s (cs_signer x))) l) as Hn.
  { apply sum_with_nonneg. intros y _. apply weight_bound, view_wf, Hs. }
  assert (weight (view s (cs_signer x)) = Z.sqrt (stake (view s (cs_signer x)))) as E.
  { unfold weight. by rewrite (proj2 (Z.ltb_ge _ _)). }
  rewrite ac_isqrt_sqrt, <- E, u64_id by (apply Hw || (unfold is_u64; lia)). intros Hl.
  apply IH in Hl as [-> Hf]; [|intros; apply Hin; by right|lia|lia].
  split; [lia|]. constructor; [constructor; [done | by rewrite Ev | done] | done].
Qed.

(** A valid certificate without repeated signers carries more than half of the
    total weight. *)
Lemma commit_majority c c0 seed k bh : state_wf (c_state c) → supply (c_state c) < U64 →
  zlen (signers k) <= AC_COMMITTEE_MAX → NoDup (cs_signer <$> signers k) →
  commit_valid c0 seed k bh (ac_chain_total_sqrt_stake c) (pre_signers (c_state c) (signers k)) →
  total weight (c_state c) < 2 * sum_with (λ a, weight (view (c_state c) a)) (cs_signer <$> signers k) ∧
  Forall (signer_ok (c_state c) (committee_alpha seed (h_slot (header k)))
            (ac_vote_message (h_height (header k)) bh)) (signers k).
Proof.
  intros Hs Hsup Hl Hn (_ & _ & signed & Hloop & _ & Hmaj).
  assert (∀ l, sum_with (λ x, weight (view (c_state c) (cs_signer x))) l =
               sum_with (λ a, weight (view (c_state c) a)) (cs_signer <$> l)) as Ef.
  { intros l. induction l as [|x l IH]; [done|]. rewrite fmap_cons. cbn [sum_with]. by rewrite IH. }
  pose proof (weights_of_distinct (c_state c) _ Hs Hn) as Hw. pose proof (weights_bound _ Hs) as Hwb.
  assert (0 <= sum_with (λ a, weight (view (c_state c) a)) (cs_signer <$> signers k)) as Hnn.
  { apply sum_with_nonneg. intros y _. apply weight_bound, view_wf, Hs. }
  apply commit_loop_spec in Hloop as [-> Hf]; [|done|done|intros; by apply list_elem_of_fmap_2|lia|rewrite Ef; lia].
  rewrite Ef in Hmaj. split; [|done]. rewrite total_sqrt_stake_sum in Hmaj by done.
  rewrite u64_id in Hmaj; [lia | unfold is_u64; lia].
Qed.

(** Two signer sets with more than half of the weight each share a signer. *)
Lemma majorities_meet s l k : state_wf s → NoDup l → NoDup k →
  total weight s < 2 * sum_with (λ a, weight (view s a)) l →
  total weight s < 2 * sum_with (λ a, weight (view s a)) k → ∃ a, a ∈ l ∧ a ∈ k.
Proof.
  intros Hs Hl Hk H1 H2. destruct (decide (Exists (λ a, a ∈ k) l)) as [He|He].
  - apply Exists_exists in He as (a & ? & ?). eauto.
  - assert (NoDup (l ++ k)) as Hn.
    { apply NoDup_app. split; [done|]. split; [|done]. intros a Ha Hk'. destruct He. apply Exists_exists. eauto. }
    pose proof (weights_of_distinct s _ Hs Hn) as Hw. rewrite sum_with_app in Hw. lia.
Qed.

Lemma body_ok_commit c k : cache_ok c → body_ok c k →
  commit_valid (set_state c (post_state c k)) (compute_epoch_seed c (ac_epoch_of (h_slot (header k)))) k
    (ac_block_hash (header k)) (ac_chain_total_sqrt_stake c) (pre_signers (c_state c) (signers k)).
Proof.
  intros Hc [_ _ _ _ Hb]. unfold check_commit in Hb.
  apply validate_commit_valid in Hb; [|by apply cache_ok_set_state].
  by rewrite (compute_epoch_seed_ext (set_state c _) c) in Hb.
Qed.

(** Quorum intersection, the safety argument of the commit rule: two nodes in the same
    state that accept two blocks, with whatever liveness maps, clocks and caches, have
    accepted certificates that share an active validator; that validator's key signed
    both blocks. So if no validator votes for two blocks of one height, no two different
    blocks are finalised there. It needs certificates that list no signer twice, which the
    code does not check. *)
Theorem accept_quorum_intersection c1 c2 k1 k2 env1 env2 :
  chain_fits c1 → chain_fits c2 → c_state c1 = c_state c2 → supply (c_state c1) < U64 →
  0 <= c_height c1 → 0 <= c_height c2 → cache_ok c1 → cache_ok c2 → block_wf k1 → block_wf k2 →
  NoDup (cs_signer <$> signers k1) → NoDup (cs_signer <$> signers k2) →
  (ac_chain_accept_block c1 k1 env1).1 = AC_ACCEPT_OK →
  (ac_chain_accept_block c2 k2 env2).1 = AC_ACCEPT_OK →
  ∃ x y, x ∈ signers k1 ∧ y ∈ signers k2 ∧ cs_signer x = cs_signer y ∧
    AC_MIN_STAKE_UCRD <= stake (view (c_state c1) (cs_signer x)) ∧
    ac_verify (cs_sig x) (ac_vote_message (h_height (header k1)) (ac_block_hash (header k1))) (cs_signer x) = true ∧
    ac_verify (cs_sig y) (ac_vote_message (h_height (header k2)) (ac_block_hash (header k2))) (cs_signer y) = true.
Proof.
  intros Hf1 Hf2 Es Hsup Hh1 Hh2 Hc1 Hc2 Hk1 Hk2 Hn1 Hn2 Hok1 Hok2.
  destruct (accept_ok_inv c1 k1 env1) as (_ & Hb1 & _); [done..|].
  destruct (accept_ok_inv c2 k2 env2) as (_ & Hb2 & _); [done..|].
  apply body_ok_commit in Hb1, Hb2; [|done..].
  apply commit_majority in Hb1 as [M1 F1], Hb2 as [M2 F2];
    try done; try apply Hf1; try apply Hf2; try apply Hk1; try apply Hk2; [|by rewrite <- Es].
  rewrite <- Es in *. destruct (majorities_meet _ _ _ (cf_state _ Hf1) Hn1 Hn2 M1 M2) as (a & Ha1 & Ha2).
  apply list_elem_of_fmap in Ha1 as (x & -> & Hx), Ha2 as (y & Hxy & Hy).
  rewrite Forall_forall in F1, F2. exists x, y. by destruct (F1 x Hx), (F2 y Hy).
Qed.

(** ** Building and accepting agree *)

Lemma apply_tx_gas s t slot bf : state_wf s → tx_wf t →
  let '(rc, s', r) := ac_state_apply_tx s t slot bf in
  (rc < 0 ∧ s' = s) ∨
  (0 <= rc ∧ state_wf s' ∧ 0 <= res_gas_used r <= 20000 ∧ 0 <= ac_tx_total_gas t <= 10000).
Proof.
  intros Hs Ht. pose proof (apply_tx_wf s t slot bf Hs Ht) as Hw.
  destruct (decide ((ac_state_apply_tx s t slot bf).1.1 = -1)) as [E|E].
  - destruct (ac_state_apply_tx s t slot bf) as [[rc s'] r]. cbn [fst] in E. subst rc. left. by split; [|apply Hw].
  - destruct (apply_accepted s t slot bf Hs Ht E) as (v & Hadm & _ & Hp & Eq). rewrite Eq in *. right.
    pose proof (adm_kind _ _ _ _ _ Hadm) as Hkind. pose proof (needed_gas_range t Ht Hkind) as Hn.
    pose proof (bp_gas _ _ _ _ _ Hp) as Hg. pose proof (wf_tx_gas_limit t Ht) as Hgl. unfold is_u32 in Hgl.
    split; [by destruct (bo_err _)|]. split; [apply Hw|]. cbn [res_gas_used]. unfold gas_charged.
    split; [lia|]. unfold ac_tx_total_gas. destruct (intrinsic_gas_range (tx_kind t) (wf_tx_kind t Ht)); [|lia].
    rewrite (proj2 (Z.ltb_ge _ _)) by lia. unfold needed_gas in Hn. rewrite u64_id by (unfold is_u64; lia). lia.
Qed.

(** What the builder selects, a validator applies with the same result, as long
    as the gas stays within the limit. *)
Lemma select_txs_spec l s slot bf g tp : state_wf s → Forall tx_wf l → 0 <= g <= AC_BLOCK_GAS_LIMIT + 20000 →
  let '(s2, kept, g2, tp2) := select_txs s l slot bf g tp in
  g <= g2 <= AC_BLOCK_GAS_LIMIT + 20000 ∧ sublist kept l ∧ Forall tx_wf kept ∧ state_wf s2 ∧ chain_id s2 = chain_id s ∧
  (g2 <= AC_BLOCK_GAS_LIMIT → apply_block_txs s kept slot bf g tp = (true, s2, g2, tp2)).
Proof.
  intros Hs Hl. revert s g tp Hs. induction Hl as [|t l Ht Hl IH]; intros s g tp Hs Hg; simpl.
  { split_and!; [lia|lia|constructor|constructor|done|done|done]. }
  assert (let '(s2, kept, g2, tp2) := select_txs s l slot bf g tp in
    g <= g2 <= AC_BLOCK_GAS_LIMIT + 20000 ∧ sublist kept (t :: l) ∧ Forall tx_wf kept ∧ state_wf s2 ∧ chain_id s2 = chain_id s ∧
    (g2 <= AC_BLOCK_GAS_LIMIT → apply_block_txs s kept slot bf g tp = (true, s2, g2, tp2))) as Hskip.
  { specialize (IH s g tp Hs Hg). destruct (select_txs s l slot bf g tp) as [[[s2 kept] g2] tp2].
    destruct IH as (? & ? & ?). split; [done|]. split; [by constructor | done]. }
  destruct (ac_tx_verify t) eqn:Ev; cbn [negb]; [|done].
  destruct (Z.ltb_spec AC_BLOCK_GAS_LIMIT (g ⊕ ac_tx_total_gas t)) as [|Hpre]; [done|].
  pose proof (apply_tx_gas s t slot bf Hs Ht) as Ha. pose proof (apply_tx_wf s t slot bf Hs Ht) as Hw.
  destruct (ac_state_apply_tx s t slot bf) as [[rc s1] r] eqn:Eap.
  destruct Ha as [[Hrc ->]|(Hrc & Hs1 & Hgas & Htot)].
  { by rewrite (proj2 (Z.ltb_lt rc 0) Hrc). }
  rewrite (proj2 (Z.ltb_ge rc 0) Hrc). rewrite u64_id in Hpre by (unfold is_u64; lia).
  assert ((g ⊕ res_gas_used r) = g + res_gas_used r) as Eg by (apply u64_id; unfold is_u64; lia).
  specialize (IH s1 (g ⊕ res_gas_used r) (tp ⊕ res_fee_tip r) Hs1). rewrite Eg in *.
  specialize (IH ltac:(lia)).
  destruct (select_txs s1 l slot bf _ _) as [[[s2 kept] g2] tp2].
  destruct IH as (Hg2 & Hsub & Hwf & Hs2 & Hid & Hap). split; [lia|].
  split; [by constructor|]. split; [by constructor|]. split; [done|]. split; [rewrite Hid; apply Hw|].
  intros Hle. simpl. rewrite Ev, Eap. cbn [negb]. rewrite (proj2 (Z.ltb_ge rc 0) Hrc), Eg.
  rewrite (proj2 (Z.ltb_ge _ _)) by lia. by apply Hap.
Qed.

(** Nodes at the same tip: what building and validating depend on. *)
Record same_tip (c d : ac_chain_t) : Prop := {
  st_state : c_state d = c_state c;
  st_chain_id : c_chain_id d = c_chain_id c;
  st_height : c_height d = c_height c;
  st_tip : c_tip_hash d = c_tip_hash c;
  st_slot : c_last_slot d = c_last_slot c;
  st_genesis : c_genesis_timestamp_ms d = c_genesis_timestamp_ms c;
  st_blocks : f_blocks (c_files d) = f_blocks (c_files c)
}.

(** Past genesis the tip's header is on disk with a fee and gas the protocol allows. *)
Definition tip_sane (c : ac_chain_t) : Prop :=
  c_height c = 0 ∨
  ∃ prev, ac_chain_get_header_by_height c (c_height c) = Some prev ∧
    AC_MIN_BASE_FEE <= h_base_fee prev <= 10 ^ 12 ∧ 0 <= h_gas_used prev <= AC_BLOCK_GAS_LIMIT ∧
    h_gas_limit prev = AC_BLOCK_GAS_LIMIT.

Definition with_signers (k : ac_block_t) (l : list ac_commit_signer_t) : ac_block_t :=
  mkBlock (header k) (txs k) l.

Section Build.
Context `{!SodiumLaws _}.

Lemma expected_fee_built c d : same_tip c d → tip_sane c →
  let fee := if c_height c =? 0 then AC_MIN_BASE_FEE
             else match ac_chain_get_header_by_height c (c_height c) with
                  | None => AC_MIN_BASE_FEE
                  | Some prev => ac_chain_next_base_fee (h_base_fee prev) (h_gas_used prev) (h_gas_limit prev)
                  end in
  0 <= c_height c → expected_base_fee d = fee ∧ AC_MIN_BASE_FEE <= fee <= 2 * 10 ^ 12.
Proof.
  intros [_ _ Eh _ _ _ Eb] Hsane. cbv zeta. intros Hh. unfold expected_base_fee, ac_chain_get_header_by_height, block_read in *.
  rewrite Eh, Eb. destruct (Z.eqb_spec (c_height c) 0) as [E|E].
  { rewrite E. by vm_compute. }
  destruct Hsane as [?|(prev & Hp & Hf & Hg & El)]; [done|]. rewrite (proj2 (Z.leb_le _ _)) by lia.
  unfold ac_chain_get_header_by_height, block_read in Hp. rewrite Hp. split; [done|]. rewrite El.
  destruct (next_base_fee_step (h_base_fee prev) (h_gas_used prev)) as (L & E0 & E1 & E2); [done..|].
  split; [done|]. change (10 ^ 12) with 1000000000000 in *.
  assert (h_base_fee prev / 8 <= 1000000000000) as H8 by (Z.to_euclidean_division_equations; lia).
  destruct (Z.lt_trichotomy (h_gas_used prev) 15000000) as [?|[?|?]]; lia.
Qed.

(** The builder's proof of leadership convinces a validator at the same tip. *)
Lemma built_proposer_valid seed slot c d h :
  let kp := ac_keypair_from_seed seed in
  same_tip c d → cache_ok c → cache_ok d → state_wf (c_state c) →
  (ac_state_get (c_state c) (pk kp)).1 = true → AC_MIN_STAKE_UCRD <= stake (ac_state_get (c_state c) (pk kp)).2 →
  h_slot h = slot → h_proposer h = pk kp →
  h_proposer_vrf_proof h = (ac_vrf_prove (leader_alpha (ac_chain_epoch_seed c (ac_epoch_of slot)).1 slot) kp).1 →
  (validate_proposer_vrf d h).1 = true.
Proof.
  intros kp [Es Ec Eh _ _ Eg Eb] Hc Hd Hs Hf Hst Esl Ep Epr. unfold validate_proposer_vrf.
  rewrite Es, Ep. destruct (ac_state_get (c_state c) (pk kp)) as [f a]. cbn [fst snd] in *. subst f. cbn [negb].
  rewrite (proj2 (Z.ltb_ge _ _)) by done.
  destruct (epoch_seed_spec d (ac_epoch_of (h_slot h)) Hd) as (E1 & _).
  destruct (epoch_seed_spec c (ac_epoch_of slot) Hc) as (E2 & _).
  destruct (ac_chain_epoch_seed d _) as [sd d1]. cbn [fst] in E1. subst sd.
  rewrite Epr, E2, Esl, (compute_epoch_seed_ext d c) by done. unfold kp. by rewrite ac_vrf_complete.
Qed.

(** What a built block contains. *)
Lemma build_block_inv c slot kp cand k c' : chain_fits c → cache_ok c → Forall tx_wf cand →
  ac_chain_build_block c slot kp cand = (Some k, c') →
  let fee := if c_height c =? 0 then AC_MIN_BASE_FEE
             else match ac_chain_get_header_by_height c (c_height c) with
                  | None => AC_MIN_BASE_FEE
                  | Some prev => ac_chain_next_base_fee (h_base_fee prev) (h_gas_used prev) (h_gas_limit prev)
                  end in
  let '(s, kept, gas, tips) := select_txs (c_state c) cand slot fee 0 0 in
  let s2 := pay_leader s (pk kp) (ac_chain_block_reward (c_height c ⊕ 1)) tips in
  (ac_state_get (c_state c) (pk kp)).1 = true ∧ AC_MIN_STAKE_UCRD <= stake (ac_state_get (c_state c) (pk kp)).2 ∧
  k = mkBlock (mkHeader AC_BLOCK_VERSION (c_height c ⊕ 1) slot (c_tip_hash c) (ac_chain_slot_time_ms c slot) (pk kp)
        (ac_vrf_prove (leader_alpha (ac_chain_epoch_seed c (ac_epoch_of slot)).1 slot) kp).1
        (ac_state_root s2) (ac_block_tx_root kept) fee gas AC_BLOCK_GAS_LIMIT (zlen kept)) kept [] ∧
  cache_only c c'.
Proof.
  intros [Hs Ha Hn] Hc Hcand. unfold ac_chain_build_block.
  destruct (ac_state_get (c_state c) (pk kp)) as [f acc]. destruct f; [|done]. cbn [negb fst snd].
  destruct (Z.ltb_spec (stake acc) AC_MIN_STAKE_UCRD); [done|].
  pose proof (epoch_seed_cache_only c (ac_epoch_of slot)) as Hco.
  destruct (ac_chain_epoch_seed c (ac_epoch_of slot)) as [sd c1]. cbn [fst snd] in *.
  pose proof Hco as [(e & s' & v & ->) Hck]. rewrite ac_state_serialize_bytes by done.
  change (c_height (set_cache c e s' v)) with (c_height c). change (c_state (set_cache c e s' v)) with (c_state c).
  change (ac_chain_get_header_by_height (set_cache c e s' v)) with (ac_chain_get_header_by_height c). cbv zeta.
  set (fee := if c_height c =? 0 then _ else _).
  pose proof (select_txs_spec cand (c_state c) slot fee 0 0 Hs Hcand ltac:(lia)) as Hsel.
  destruct (select_txs (c_state c) cand slot fee 0 0) as [[[s kept] gas] tips].
  destruct Hsel as (_ & _ & _ & Hs2 & Hid & _).
  assert (chain_id (pay_leader s (pk kp) (ac_chain_block_reward (c_height c ⊕ 1)) tips) = chain_id (c_state c)) as Hid2.
  { rewrite <- Hid. apply pay_leader_wf; [done|]. apply block_reward_nonneg.
    pose proof (u64_range (c_height c + 1)) as Hu. unfold is_u64 in Hu. lia. }
  rewrite (restore_snapshot (set_cache c e s' v)) by done. intros [= <- <-]. done.
Qed.

(** What is built has the shape the wire format takes. *)
Lemma next_base_fee_u64 prev gas lim : is_u64 prev → is_u64 (ac_chain_next_base_fee prev gas lim).
Proof. intros Hp. unfold ac_chain_next_base_fee. destruct (_ =? _); [done | apply u64_range]. Qed.
Lemma header_read_wf c h hd : ac_chain_get_header_by_height c h = Some hd → header_wf hd.
Proof.
  unfold ac_chain_get_header_by_height, block_read. destruct (f_blocks _ !! h) as [buf|]; [|done].
  destruct (ac_block_decode buf) as [[k n]| |] eqn:E; [|done..]. intros [= <-].
  apply ac_block_decode_inv in E as [Hk _]. apply Hk.
Qed.
Lemma build_block_wf c slot kp cand k c' : chain_fits c → cache_ok c → is_u64 slot → Forall tx_wf cand →
  zlen cand <= AC_BLOCK_MAX_TXS → ac_chain_build_block c slot kp cand = (Some k, c') →
  block_wf k ∧ h_slot (header k) = slot ∧ signers k = [].
Proof.
  intros Hf Hc Hslot Hcand Hlen Hb. pose proof (build_block_inv c slot kp cand k c' Hf Hc Hcand Hb) as Hi. cbv zeta in Hi.
  assert (is_u64 (if c_height c =? 0 then AC_MIN_BASE_FEE
             else match ac_chain_get_header_by_height c (c_height c) with
                  | None => AC_MIN_BASE_FEE
                  | Some prev => ac_chain_next_base_fee (h_base_fee prev) (h_gas_used prev) (h_gas_limit prev)
                  end)) as Hfee.
  { destruct (_ =? _); [by vm_compute|]. destruct (ac_chain_get_header_by_height _ _) as [prev|] eqn:E; [|by vm_compute].
    apply next_base_fee_u64. by destruct (header_read_wf _ _ _ E). }
  set (fee := if c_height c =? 0 then _ else _) in *. clearbody fee.
  pose proof (select_txs_spec cand (c_state c) slot fee 0 0 (cf_state c Hf) Hcand ltac:(lia)) as Hsel.
  destruct (select_txs _ _ _ _ _ _) as [[[s kept] gas] tips]. destruct Hi as (_ & _ & -> & _).
  destruct Hsel as (Hg & Hsub & Hkept & _). apply sublist_length in Hsub.
  split; [|done]. constructor; try done; [|cbn; lia].
  constructor; cbn; try apply u64_range; try done; unfold is_u8, is_u32, is_u64 in *; lia.
Qed.

(** What a staked validator builds passes, at every node at the same tip, all checks but
    the one of the certificate, whatever signers are added to it. *)
Lemma built_checks seed slot c c' cand k d sgs now :
  let kp := ac_keypair_from_seed seed in
  chain_wf c → chain_fits c → cache_ok c → tip_sane c → c_height c + 1 < U64 →
  Forall tx_wf cand → zlen cand <= AC_BLOCK_MAX_TXS →
  c_last_slot c < slot → c_genesis_timestamp_ms c + slot * AC_SLOT_DURATION_MS < 2 ^ 63 →
  ac_chain_build_block c slot kp cand = (Some k, c') → h_gas_used (header k) <= AC_BLOCK_GAS_LIMIT →
  same_tip c d → cache_ok d → zlen sgs <= AC_COMMITTEE_MAX →
  is_u64 (now + 1500) → c_genesis_timestamp_ms c + slot * AC_SLOT_DURATION_MS <= now + 1500 →
  block_wf (with_signers k sgs) ∧ header_ok d (header k) now ∧
  ((check_commit d (with_signers k sgs)).1 = true → body_ok d (with_signers k sgs)) ∧
  (∃ e s v, c' = set_cache c e s v).
Proof.
  intros kp Hw Hf Hc Hsane Hh Hcand Hlen Hslot Htime Hb Hgas Hst Hd Hsg Hnow Hstart.
  pose proof (build_block_inv c slot kp cand k c' Hf Hc Hcand Hb) as Hinv. cbv zeta in Hinv.
  pose proof (cw_height c Hw) as Hh0. pose proof (cw_genesis_ts c Hw) as Hg0. pose proof (cw_last_slot c Hw) as Hl0.
  unfold is_u64 in Hh0, Hg0, Hl0, Hnow.
  destruct (expected_fee_built c d Hst Hsane ltac:(lia)) as [Efee Hfee].
  set (fee := if c_height c =? 0 then _ else _) in *. clearbody fee. change (10 ^ 12) with 1000000000000 in Hfee.
  pose proof (select_txs_spec cand (c_state c) slot fee 0 0 (cf_state c Hf) Hcand ltac:(lia)) as Hsel.
  destruct (select_txs (c_state c) cand slot fee 0 0) as [[[s kept] gas] tips].
  destruct Hinv as (Hfound & Hstake & -> & [Hco _]), Hsel as (Hg2 & Hsub & Hkept & _ & _ & Hap).
  cbn [header h_gas_used] in Hgas. specialize (Hap Hgas).
  assert ((c_height c ⊕ 1) = c_height c + 1) as Eh by (apply u64_id; unfold is_u64; lia).
  assert (ac_chain_slot_time_ms c slot = c_genesis_timestamp_ms c + slot * AC_SLOT_DURATION_MS) as Et.
  { unfold ac_chain_slot_time_ms. rewrite (u64_id (slot * _)) by (unfold is_u64; lia). apply u64_id. unfold is_u64. lia. }
  apply sublist_length in Hsub as Hlk. split_and!; [..|done].
  - rewrite Et, Eh. constructor; cbn [with_signers header txs signers h_tx_count]; try done; [|lia].
    constructor; cbn; unfold is_u8, is_u64, is_u32 in *; lia.
  - destruct Hst as [Es Ec Ehh Etip Esl Eg Eb]. constructor; cbn [header h_version h_height h_slot
      h_parent_hash h_timestamp_ms h_gas_limit h_base_fee]; rewrite ?Ehh, ?Eh; try done; try lia.
    + unfold ac_chain_slot_time_ms. rewrite Eg. lia.
    + rewrite Et, u64_id by done. lia.
    + eapply (built_proposer_valid seed slot c d); try done; apply Hf.
    + rewrite Efee, u64_id by (unfold is_u64; lia). lia.
  - set (k := with_signers _ sgs). intros Hcom. assert (block_result d k = (true, s, gas, tips)) as Er.
    { unfold block_result. rewrite (st_state _ _ Hst). done. }
    constructor; try done; [by rewrite Er..|]. unfold post_state. by rewrite Er.
Qed.

End Build.
End AcceptFacts.

(** ** A concrete chain, for the witnesses

    One validator and one plain account at genesis; a block for slot 3 with a
    signed transfer. *)
#[local] Existing Instance toy_sodium.
#[local] Existing Instance x87.

Definition demo_seed : bytes 32 := bytes_of 32 (repeat (byte_of 5) 32).
Definition demo_kp : ac_keypair_t := ac_keypair_from_seed demo_seed.
Definition demo_env : env_t := mkEnv 10000 true true true.
Definition no_files : files_t := mkFiles None None ∅.
Definition demo_genesis : ac_genesis_t :=
  mkGenesis 7 1000 [mkGenAcc (pk demo_kp) 5000000 200000000; mkGenAcc (addr_of 2) 40 0].
Definition demo_chain : ac_chain_t :=
  default (chain_calloc no_files (ac_state_new 0)) (ac_chain_open no_files (Some demo_genesis) demo_env).
Definition demo_tx : ac_tx_t :=
  let t := mkTx 1 7 AC_TX_TRANSFER (pk demo_kp) 0 30 2 1000 (b (addr_of 2) ++ ac_be64 500) [] (sig_of 9) in
  default t (ac_tx_sign t demo_kp).
(** A block with the votes of the given validators. *)
Definition sign_block (c : ac_chain_t) (kps : list ac_keypair_t) (k : ac_block_t) : ac_block_t :=
  let seed := (ac_chain_epoch_seed c (ac_epoch_of (h_slot (header k)))).1 in
  with_signers k ((λ kp, mkSigner (pk kp)
     (ac_sign (ac_vote_message (h_height (header k)) (ac_block_hash (header k))) kp)
     (ac_vrf_prove (committee_alpha seed (h_slot (header k))) kp).1) <$> kps).
Definition demo_unsigned : ac_block_t :=
  default (mkBlock (genesis_header (c_state demo_chain) 0) [] []) (ac_chain_build_block demo_chain 3 demo_kp [demo_tx]).1.
Definition demo_block : ac_block_t := sign_block demo_chain [demo_kp] demo_unsigned.

Lemma demo_fits : chain_fits demo_chain.
Proof.
  constructor; [|by vm_compute..]. constructor; [by vm_compute| | | |]; vm_compute.
  all: repeat constructor; try done.
Qed.
Lemma demo_chain_wf : chain_wf demo_chain.
Proof. constructor; [apply demo_fits | by vm_compute..]. Qed.
Lemma demo_cache : cache_ok demo_chain.
Proof. intros H. by vm_compute in H. Qed.
Lemma demo_tx_wf : tx_wf demo_tx.
Proof. constructor; by vm_compute. Qed.
Lemma demo_block_txs : txs demo_block = [demo_tx].
Proof. by vm_compute. Qed.
Lemma demo_block_wf : block_wf demo_block.
Proof.
  constructor; [constructor; by vm_compute| |by vm_compute..].
  rewrite demo_block_txs. repeat constructor; apply demo_tx_wf.
Qed.
Lemma demo_accepted : (ac_chain_accept_block demo_chain demo_block demo_env).1 = AC_ACCEPT_OK.
Proof. by vm_compute. Qed.
Lemma demo_unsigned_wf : block_wf demo_unsigned.
Proof.
  destruct demo_block_wf. constructor; [done.. | by vm_compute].
Qed.

Lemma accept_reject_no_effect_witness :
  (ac_chain_accept_block demo_chain demo_unsigned demo_env).1 = AC_ACCEPT_REJECT_BAD_COMMIT ∧
  ∃ e s v, (ac_chain_accept_block demo_chain demo_unsigned demo_env).2 = set_cache demo_chain e s v.
Proof.
  assert ((ac_chain_accept_block demo_chain demo_unsigned demo_env).1 = AC_ACCEPT_REJECT_BAD_COMMIT) as E
    by by vm_compute.
  split; [exact E|]. pose proof (accept_reject_no_effect demo_chain demo_unsigned demo_env demo_fits demo_unsigned_wf
    ltac:(by vm_compute) demo_cache) as H.
  destruct (ac_chain_accept_block demo_chain demo_unsigned demo_env) as [r c']. cbn [fst snd] in *. subst r. by apply H.
Defined.

Lemma accept_ok_iff_witness : header_ok demo_chain (header demo_block) 10000.
Proof.
  apply (accept_ok_iff demo_chain demo_block demo_env demo_fits demo_block_wf ltac:(by vm_compute) demo_cache).
  apply demo_accepted.
Defined.

Lemma accept_ok_extends_witness :
  c_height (ac_chain_accept_block demo_chain demo_block demo_env).2 = 1.
Proof.
  exact (proj1 (accept_ok_extends demo_chain demo_block demo_env demo_chain_wf demo_fits demo_block_wf demo_cache
    demo_accepted)).
Defined.

Lemma accept_quorum_intersection_witness :
  ∃ x y, x ∈ signers demo_block ∧ y ∈ signers demo_block ∧ cs_signer x = cs_signer y.
Proof.
  assert (NoDup (cs_signer <$> signers demo_block)) as Hn by (vm_compute; repeat constructor; by intros ?%elem_of_nil).
  destruct (accept_quorum_intersection demo_chain demo_chain demo_block demo_block demo_env demo_env
    demo_fits demo_fits eq_refl ltac:(by vm_compute) ltac:(by vm_compute) ltac:(by vm_compute) demo_cache demo_cache
    demo_block_wf demo_block_wf Hn Hn demo_accepted demo_accepted) as (x & y & Hx & Hy & E & _).
  exists x, y. auto.
Defined.


(** ** Behaviours outside the theorems' hypotheses *)

(** A certificate that lists one signer several times counts it several times: a
    validator with a quarter of the weight finalises a block alone. *)
Definition minority_genesis : ac_genesis_t :=
  mkGenesis 7 1000 [mkGenAcc (pk demo_kp) 5000000 100000000; mkGenAcc (addr_of 2) 0 900000000].
Definition minority_chain : ac_chain_t :=
  default demo_chain (ac_chain_open no_files (Some minority_genesis) demo_env).
Definition minority_block : ac_block_t :=
  sign_block minority_chain (repeat demo_kp 5)
    (default demo_unsigned (ac_chain_build_block minority_chain 3 demo_kp []).1).
Lemma repeated_signer_finalises :
  ac_chain_total_sqrt_stake minority_chain = 40000 ∧
  remove_dups (cs_signer <$> signers minority_block) = [pk demo_kp] ∧
  ac_isqrt_u64 (stake (ac_state_get (c_state minority_chain) (pk demo_kp)).2) = 10000 ∧
  (ac_chain_accept_block minority_chain minority_block demo_env).1 = AC_ACCEPT_OK.
Proof. by vm_compute. Qed.

(** When a file cannot be written after the state changed, the change stays: the
    height is the old one, the state the new one. *)
Lemma internal_error_keeps_new_state :
  let '(r, c') := ac_chain_accept_block demo_chain demo_block (mkEnv 10000 true false true) in
  r = AC_ACCEPT_INTERNAL ∧ c_height c' = c_height demo_chain ∧
  ac_state_root (c_state c') = h_state_root (header demo_block) ∧
  ac_state_root (c_state c') ≠ ac_state_root (c_state demo_chain).
Proof. by vm_compute. Qed.

(** The built block's gas estimate leaves out what a transfer to a new account
    costs on top: the estimate of [demo_tx]'s twin to an unused address is below
    the gas it is charged. *)
Lemma build_gas_underestimates :
  let t := mkTx 1 7 AC_TX_TRANSFER (pk demo_kp) 0 100 2 1000 (b (addr_of 9) ++ ac_be64 500) [] (sig_of 9) in
  let '(rc, _, r) := ac_state_apply_tx (c_state demo_chain) t 3 1 in
  rc = 0 ∧ ac_tx_total_gas t < res_gas_used r.
Proof. by vm_compute. Qed.
