(* ===== verification/Ledger.v ===== *)
(** * The ledger as a whole: reachable chains

    The operations of chain.h as steps of a transition system, from the chain
    [ac_chain_open] creates at genesis. Invariants of every reachable chain:
    the stored blocks form one hash-linked sequence with increasing slots that
    ends in the tip, the state and the fields are well formed, the seed cache
    is coherent; and when no file write failed, the files hold the chain:
    opening them again gives it back. *)

From S2P Require Import Prelude Common Crypto Cursor Codec SortedArray State Apply Econ Chain Accept.

(** ** Hash-linked blocks *)

(** The economic rules of one block over its parent. *)
Record fee_rule (prev h : ac_block_header_t) : Prop := {
  fr_min : AC_MIN_BASE_FEE <= h_base_fee h;
  fr_gas_limit : h_gas_limit h = AC_BLOCK_GAS_LIMIT;
  fr_gas_used : 0 <= h_gas_used h <= AC_BLOCK_GAS_LIMIT;
  fr_step : let next := ac_chain_next_base_fee (h_base_fee prev) (h_gas_used prev) (h_gas_limit prev) in
    next <= (h_base_fee h ⊕ 1) ∧ h_base_fee h <= (next ⊕ 1)
}.

Section Linked.
Context `{!Sodium}.

Record linked (rd : Z → option ac_block_t) (n : Z) (tip : ac_hash_t) (slot : Z) : Prop := {
  lk_height : 0 <= n;
  lk_read h : 0 <= h <= n → ∃ k, rd h = Some k ∧ h_height (header k) = h;
  lk_genesis k : rd 0 = Some k → h_slot (header k) = 0 ∧ h_base_fee (header k) = AC_MIN_BASE_FEE ∧
    h_gas_used (header k) = 0 ∧ h_gas_limit (header k) = AC_BLOCK_GAS_LIMIT;
  lk_next h k k' : 0 <= h < n → rd h = Some k → rd (h + 1) = Some k' →
    h_parent_hash (header k') = ac_block_hash (header k) ∧ h_slot (header k) < h_slot (header k') ∧
    fee_rule (header k) (header k');
  lk_tip k : rd n = Some k → ac_block_hash (header k) = tip ∧ h_slot (header k) = slot
}.

Lemma linked_ext rd rd' n tip slot : (∀ h, h <= n → rd' h = rd h) → linked rd n tip slot → linked rd' n tip slot.
Proof.
  intros E [H1 H2 H3 H4 H5]. constructor.
  - done.
  - intros h Hh. rewrite E by lia. by apply H2.
  - intros k. rewrite E by lia. apply H3.
  - intros h k k' Hh. rewrite !E by lia. by apply H4.
  - intros k. rewrite E by lia. apply H5.
Qed.

Lemma linked_extend rd rd' n tip slot k : linked rd n tip slot →
  (∀ h, h <= n → rd' h = rd h) → rd' (n + 1) = Some k → h_height (header k) = n + 1 →
  h_parent_hash (header k) = tip → slot < h_slot (header k) →
  (∀ prev, rd n = Some prev → fee_rule (header prev) (header k)) →
  linked rd' (n + 1) (ac_block_hash (header k)) (h_slot (header k)).
Proof.
  intros [H1 H2 H3 H4 H5] E Ek Eh Ep Hs Hf. constructor.
  - lia.
  - intros h Hh. destruct (decide (h = n + 1)) as [-> | Hne]; [eauto|]. rewrite E by lia. apply H2. lia.
  - intros k'. rewrite E by lia. apply H3.
  - intros h k1 k2 Hh. rewrite (E h) by lia. destruct (decide (h = n)) as [-> | Hne].
    + rewrite Ek. intros Hk1 [= <-]. destruct (H5 k1 Hk1) as [-> ->]. auto.
    + rewrite E by lia. apply H4. lia.
  - intros k'. rewrite Ek. by intros [= <-].
Qed.

(** Slots increase along the whole chain, not only between neighbours. *)
Lemma linked_slots rd n tip slot i j ki kj : linked rd n tip slot → 0 <= i < j → j <= n →
  rd i = Some ki → rd j = Some kj → h_slot (header ki) < h_slot (header kj).
Proof.
  intros L Hij Hj Hi. assert (0 <= i) as Hi0 by lia. revert kj. replace j with (i + 1 + Z.of_nat (Z.to_nat (j - i - 1))) in * by lia.
  set (m := Z.to_nat (j - i - 1)) in *. clearbody m. clear Hij.
  induction m as [|m IH]; intros kj Hkj.
  - replace (i + 1 + Z.of_nat 0) with (i + 1) in Hkj by lia. by eapply (lk_next _ _ _ _ L i); [lia|..].
  - destruct (lk_read _ _ _ _ L (i + 1 + Z.of_nat m)) as (km & Hkm & _); [lia|].
    transitivity (h_slot (header km)); [apply IH; [lia|done]|].
    eapply (lk_next _ _ _ _ L (i + 1 + Z.of_nat m)); [lia|done|].
    by replace (i + 1 + Z.of_nat m + 1) with (i + 1 + Z.of_nat (S m)) by lia.
Qed.
End Linked.

Section Ledger.
Context `{!Sodium} `{!LongDouble}.

(** ** The invariant *)

Record ledger_ok (c : ac_chain_t) : Prop := {
  lg_wf : chain_wf c;
  lg_cache : cache_ok c;
  lg_linked : linked (block_read c) (c_height c) (c_tip_hash c) (c_last_slot c)
}.

Lemma ledger_ok_cache c c' : cache_only c c' → ledger_ok c → ledger_ok c'.
Proof. intros [(? & ? & ? & ->) Hc] [[] ? []]. constructor; [done | auto | done]. Qed.

Lemma ledger_ok_index c c' : index_only c c' → ledger_ok c → ledger_ok c'.
Proof.
  intros E [Hw Hc Hl]. rewrite E. constructor; [by destruct Hw| |done].
  unfold cache_ok in *. cbn. rewrite (compute_epoch_seed_ext _ c) by done. apply Hc.
Qed.

(** Replacing the state by a well-formed one of the same chain. *)
Lemma ledger_ok_state c s : state_wf s → chain_id s = chain_id (c_state c) → ledger_ok c → ledger_ok (set_state c s).
Proof.
  intros Hs Hi [[] Hc Hl]. constructor; [|by apply cache_ok_set_state|done]. constructor; try done. simpl. by rewrite Hi.
Qed.

(** ** The seed of a block's epoch does not change when the block is appended *)

Lemma seed_scan_ext c c' start n : (∀ h, 0 <= h <= Z.of_nat n → block_read c' h = block_read c h) →
  seed_scan c' start n = seed_scan c start n.
Proof.
  induction n as [|n IH]; intros E; [done|]. cbn [seed_scan].
  unfold ac_chain_get_header_by_height. rewrite E by lia. rewrite IH by (intros; apply E; lia). done.
Qed.

Lemma seed_scan_range c start n p : seed_scan c start n = Some p → 0 <= p <= Z.of_nat n.
Proof.
  induction n as [|n IH]; cbn [seed_scan]; intros Es; [injection Es; lia|].
  destruct (ac_chain_get_header_by_height _ _); [|done]. destruct (_ <? _); [injection Es; lia|].
  apply IH in Es. lia.
Qed.

Lemma compute_epoch_seed_reads c c' e : 0 <= c_height c →
  c_height c' = c_height c → c_chain_id c' = c_chain_id c →
  c_genesis_timestamp_ms c' = c_genesis_timestamp_ms c →
  (∀ h, 0 <= h <= c_height c → block_read c' h = block_read c h) →
  compute_epoch_seed c' e = compute_epoch_seed c e.
Proof.
  intros Hh Eh Ec Eg Eb. unfold compute_epoch_seed. rewrite Eh, Ec, Eg.
  rewrite (seed_scan_ext c c') by (intros; apply Eb; lia).
  destruct (e =? 0); [done|]. unfold ac_chain_get_header_by_height. rewrite (Eb 0) by lia.
  destruct (seed_scan c _ _) as [p|] eqn:Es; [|done].
  apply seed_scan_range in Es. rewrite Eb by lia. done.
Qed.

Lemma epoch_seed_append c c' k : linked (block_read c) (c_height c) (c_tip_hash c) (c_last_slot c) →
  header_wf (header k) →
  c_height c' = c_height c + 1 → c_chain_id c' = c_chain_id c →
  c_genesis_timestamp_ms c' = c_genesis_timestamp_ms c →
  (∀ h, h <= c_height c → block_read c' h = block_read c h) → block_read c' (c_height c + 1) = Some k →
  let e := ac_epoch_of (h_slot (header k)) in compute_epoch_seed c' e = compute_epoch_seed c e.
Proof.
  intros L Hw Eh Ec Eg Eb Ek e. pose proof (lk_height _ _ _ _ L) as Hh. pose proof (wf_h_slot _ Hw) as Hs.
  unfold is_u64 in Hs. unfold compute_epoch_seed. rewrite Ec, Eg.
  destruct (Z.eqb_spec e 0) as [|He]; [done|].
  assert (0 < e ∧ e * AC_EPOCH_SLOTS <= h_slot (header k)) as [He0 Hst].
  { unfold e, ac_epoch_of in *. Z.to_euclidean_division_equations; lia. }
  rewrite u64_id by (unfold is_u64; lia). set (start := e * AC_EPOCH_SLOTS) in *.
  rewrite Eh. replace (Z.to_nat (c_height c + 1)) with (S (Z.to_nat (c_height c))) by lia. cbn [seed_scan].
  replace (Z.of_nat (S (Z.to_nat (c_height c)))) with (c_height c + 1) by lia.
  unfold ac_chain_get_header_by_height at 1. rewrite Ek. cbn [fmap option_fmap option_map].
  rewrite (proj2 (Z.ltb_ge _ _)) by done.
  rewrite (seed_scan_ext c c') by (intros; apply Eb; lia).
  destruct (lk_read _ _ _ _ L 0) as (k0 & Hk0 & _); [lia|]. destruct (lk_genesis _ _ _ _ L k0 Hk0) as [Hg _].
  unfold ac_chain_get_header_by_height. rewrite !(Eb 0), Hk0 by lia. cbn [fmap option_fmap option_map].
  rewrite Hg, (proj2 (Z.ltb_lt 0 start)) by (unfold start; lia). cbn [negb].
  destruct (seed_scan c start _) as [p|] eqn:Es; [|done].
  rewrite !andb_false_r. apply seed_scan_range in Es. rewrite Eb by lia. done.
Qed.

(** ** Accepting a block *)

Lemma apply_block_txs_gas l s slot bf g tp : state_wf s → Forall tx_wf l → 0 <= g <= AC_BLOCK_GAS_LIMIT →
  (apply_block_txs s l slot bf g tp).1.1.1 = true →
  0 <= (apply_block_txs s l slot bf g tp).1.2 <= AC_BLOCK_GAS_LIMIT.
Proof.
  intros Hs Hl. revert s g tp Hs. induction Hl as [|t l Ht Hl IH]; intros s g tp Hs Hg; simpl; [done|].
  destruct (negb (ac_tx_verify t)); [done|]. pose proof (apply_tx_gas s t slot bf Hs Ht) as Ha.
  destruct (ac_state_apply_tx s t slot bf) as [[rc s1] r].
  destruct Ha as [[Hrc ->]|(Hrc & Hs1 & Hgas & _)]; [by rewrite (proj2 (Z.ltb_lt rc 0) Hrc)|].
  rewrite (proj2 (Z.ltb_ge rc 0) Hrc). rewrite (u64_id (g + _)) by (unfold is_u64; lia).
  destruct (Z.ltb_spec AC_BLOCK_GAS_LIMIT (g + res_gas_used r)); [done|]. apply IH; [done | lia].
Qed.

(** What the checks of acceptance say about a block and the tip below it. *)
Record extends (c : ac_chain_t) (k : ac_block_t) : Prop := {
  ex_height : h_height (header k) = c_height c + 1;
  ex_parent : h_parent_hash (header k) = c_tip_hash c;
  ex_slot : c_last_slot c < h_slot (header k);
  ex_fee prev : block_read c (c_height c) = Some prev → fee_rule (header prev) (header k)
}.

Lemma checks_extend c k now : ledger_ok c → block_wf k → header_ok c (header k) now → body_ok c k → extends c k.
Proof.
  intros [Hw _ L] Hk Hho Hbo. pose proof (lk_height _ _ _ _ L) as Hh.
  pose proof (wf_h_height _ (wf_header _ Hk)) as Hhk. unfold is_u64 in Hhk.
  constructor; [|apply Hho|apply Hho|].
  - pose proof (ho_above _ _ _ Hho) as Ha. pose proof (ho_height _ _ _ Hho) as E. revert E Ha Hhk Hh. warith.
  - intros prev Hp. constructor; [apply Hho|apply Hho| |].
    + rewrite <- (bk_gas _ _ Hbo). apply apply_block_txs_gas; [apply Hw | apply Hk | lia | apply Hbo].
    + cbv zeta. pose proof (ho_fee _ _ _ Hho) as Hf. unfold expected_base_fee, ac_chain_get_header_by_height in Hf.
      rewrite Hp in Hf. cbn [fmap option_fmap option_map] in Hf.
      destruct (Z.leb_spec 1 (c_height c)); [done|]. assert (c_height c = 0) as E by lia. rewrite E in Hp.
      destruct (lk_genesis _ _ _ _ L prev Hp) as (_ & -> & -> & ->). exact Hf.
Qed.

(** The block goes to disk under its height. *)
Lemma block_read_write c F k : block_wf k →
  f_blocks F = <[h_height (header k) := block_bytes k]> (f_blocks (c_files c)) →
  block_read (set_files c F) (h_height (header k)) = Some k ∧
  ∀ h, h ≠ h_height (header k) → block_read (set_files c F) h = block_read c h.
Proof.
  intros Hk EF. unfold block_read. cbn [c_files set_files]. rewrite EF. split.
  - rewrite lookup_insert_eq. pose proof (ac_block_decode_bytes k [] Hk) as E. rewrite app_nil_r in E. by rewrite E.
  - intros h Hne. by rewrite lookup_insert_ne.
Qed.

(** Only the blocks up to the tip matter. *)
Lemma ledger_ok_agree c F : ledger_ok c → (∀ h, h <= c_height c → f_blocks F !! h = f_blocks (c_files c) !! h) → ledger_ok (set_files c F).
Proof.
  intros [[] Hc L] EF. pose proof (lk_height _ _ _ _ L) as Hh.
  assert (∀ h, h <= c_height c → block_read (set_files c F) h = block_read c h) as Hr
    by (intros h Hle; unfold block_read; cbn; by rewrite EF).
  constructor; [done| |by eapply linked_ext, L].
  unfold cache_ok in *. rewrite (compute_epoch_seed_reads c); try done. intros h ?. apply Hr. lia.
Qed.
Lemma ledger_ok_files c k F : ledger_ok c → block_wf k → h_height (header k) = c_height c + 1 →
  f_blocks F = <[h_height (header k) := block_bytes k]> (f_blocks (c_files c)) → ledger_ok (set_files c F).
Proof. intros HL Hk Eh EF. apply ledger_ok_agree; [done|]. intros h Hle. rewrite EF, lookup_insert_ne by lia. done. Qed.

Lemma ledger_ok_append c k F : ledger_ok c → block_wf k → extends c k →
  c_cached_epoch c = ac_epoch_of (h_slot (header k)) →
  f_blocks F = <[h_height (header k) := block_bytes k]> (f_blocks (c_files c)) →
  ledger_ok (set_tip (set_files c F) (c_chain_id c) (h_height (header k)) (ac_block_hash (header k))
               (h_slot (header k)) (h_timestamp_ms (header k)) (h_base_fee (header k)) (c_genesis_timestamp_ms c)).
Proof.
  intros [[] Hc L] Hk [Eh Ep Es Hf] Ee EF. destruct (block_read_write c F k Hk EF) as [Hk1 Hr]. rewrite Eh in Hk1, Hr.
  pose proof (wf_header _ Hk) as Hhw.
  assert (∀ h, h <= c_height c → block_read (set_files c F) h = block_read c h) as Hr' by (intros; apply Hr; lia).
  constructor.
  - destruct Hhw. by constructor.
  - unfold cache_ok in *. cbn. rewrite Ee in *. intros Hv. rewrite (Hc Hv). symmetry. apply epoch_seed_append; try done.
  - cbn. rewrite Eh. eapply linked_extend; eauto.
Qed.

Lemma set_files_twice c F G : set_files (set_files c F) G = set_files c G.
Proof. done. Qed.

Lemma accept_ledger c k env : ledger_ok c → chain_fits c → block_wf k →
  ledger_ok (ac_chain_accept_block c k env).2.
Proof.
  intros HL Hf Hk. pose proof (lk_height _ _ _ _ (lg_linked _ HL)) as Hh.
  destruct (accept_cases c k env Hf Hk Hh (lg_cache _ HL)) as [(_ & Hco & _)|(Hho & Hbo & c1 & Hco & Hep & ->)].
  { by eapply ledger_ok_cache. }
  pose proof (checks_extend c k _ HL Hk Hho Hbo) as Hex.
  destruct (post_state_wf c k (cf_state c Hf) (wf_txs k Hk)) as [Hps Hpi].
  { pose proof (ex_height _ _ Hex). lia. }
  assert (extends c1 k) as Hex1 by (destruct Hco as [(? & ? & ? & ->) _]; by destruct Hex).
  assert (ledger_ok c1) as HL1 by (eapply ledger_ok_cache; [exact Hco|]; by apply ledger_ok_state).
  clear Hco Hex Hpi Hps HL Hf Hho Hbo. unfold commit_block, block_write. rewrite ac_block_encode_bytes by done.
  destruct (w_block env); cbn [negb snd]; [|done].
  unfold state_save. cbn [c_state set_files].
  rewrite ac_state_serialize_bytes by apply (lg_wf _ HL1).
  destruct (w_state env); cbn [negb snd].
  2:{ eapply ledger_ok_files; eauto. apply Hex1. }
  rewrite meta_save_total. destruct (w_meta env); cbn [negb snd]; rewrite set_files_twice;
    [|by apply (ledger_ok_append c1 k)].
  match goal with |- ledger_ok (set_cache ?d _ _ _) => assert (ledger_ok d) as HL2 end.
  { eapply ledger_ok_index; [etrans; [|apply record_tx_hashes_frame]; etrans; [|apply record_addr_txs_frame];
      apply record_signers_frame|].
    cbn. match goal with |- ledger_ok (set_files ?d ?F) => change (set_files d F) with
      (set_tip (set_files c1 F) (c_chain_id c1) (h_height (header k)) (ac_block_hash (header k))
         (h_slot (header k)) (h_timestamp_ms (header k)) (h_base_fee (header k)) (c_genesis_timestamp_ms c1)) end.
    by apply (ledger_ok_append c1 k). }
  eapply ledger_ok_cache; [|exact HL2]. split; [by eexists _, _, _ | by intros ? [=]].
Qed.

(** ** Genesis *)

Record genesis_wf (g : ac_genesis_t) : Prop := {
  gw_chain_id : is_u64 (g_chain_id g);
  gw_timestamp : is_u64 (g_timestamp_ms g);
  gw_accounts : Forall (λ a, is_u64 (ga_balance a) ∧ is_u64 (ga_stake a)) (g_accounts g)
}.

Lemma genesis_accounts_spec l c : state_wf (c_state c) →
  Forall (λ a, is_u64 (ga_balance a) ∧ is_u64 (ga_stake a)) l →
  ∃ s lv, genesis_accounts c l = set_live (set_state c s) lv ∧ state_wf s ∧ chain_id s = chain_id (c_state c).
Proof.
  intros Hs Hl. revert c Hs. induction Hl as [|a l [Hb Hst] Hl IH]; intros c Hs; simpl.
  { exists (c_state c), (c_live_map c). by destruct c. }
  set (acc := mkAcc (ga_addr a) (ga_balance a) 0 (ga_stake a) 0).
  assert (state_wf (ac_state_set (c_state c) acc)) as Hw by by apply ac_state_set_wf; [|constructor].
  match goal with |- context [genesis_accounts ?d l] => set (c1 := d) end.
  destruct (IH c1) as (s & lv & -> & Hs' & Hid).
  { unfold c1. by destruct (_ && _). }
  exists s, lv. split; [unfold c1; by destruct (_ && _)|]. split; [done|]. rewrite Hid. unfold c1.
  destruct (_ && _); simpl; apply (ac_state_set_frame (c_state c) acc).
Qed.

(** The accounts of a genesis, as a state, and its block. *)
Definition genesis_set (s : ac_state_t) (ga : ac_genesis_account_t) : ac_state_t :=
  ac_state_set s (mkAcc (ga_addr ga) (ga_balance ga) 0 (ga_stake ga) 0).
Definition genesis_state (g : ac_genesis_t) : ac_state_t :=
  foldl genesis_set (ac_state_set (ac_state_new (g_chain_id g)) (mkAcc SYS_REWARD_POOL (60000000 * 1000000) 0 0 0)) (g_accounts g).
Definition genesis_block (g : ac_genesis_t) : ac_block_t :=
  mkBlock (genesis_header (genesis_state g) (g_timestamp_ms g)) [] [].

Lemma genesis_accounts_state l c : c_state (genesis_accounts c l) = foldl genesis_set (c_state c) l.
Proof. revert c. induction l as [|a l IH]; intros c; cbn [genesis_accounts foldl]; [done|]. rewrite IH. by destruct (_ && _). Qed.

Lemma genesis_block_wf s ts : is_u64 ts → block_wf (mkBlock (genesis_header s ts) [] []).
Proof. intros. constructor; [|by repeat constructor..]. by constructor. Qed.

(** The files hold what is in memory. *)
Record disk_ok (c : ac_chain_t) : Prop := {
  dk_meta : f_meta (c_files c) = Some (concat (meta_chunks c));
  dk_state : f_state (c_files c) = Some (snapshot_bytes (c_state c))
}.

Lemma genesis_ok f g env c : genesis_wf g → f_meta f = None → ac_chain_open f (Some g) env = Some c →
  ledger_ok c ∧ disk_ok c ∧ c_height c = 0 ∧ c_tx_index c = [] ∧ c_addr_index c = [] ∧
  c_state c = genesis_state g ∧ block_read c 0 = Some (genesis_block g).
Proof.
  intros [Hci Hts Hacc] Hm. unfold ac_chain_open, chain_apply_genesis. rewrite Hm.
  match goal with |- context [genesis_accounts ?d (g_accounts g)] =>
    pose proof (genesis_accounts_state (g_accounts g) d) as Es;
    destruct (genesis_accounts_spec (g_accounts g) d) as (s & lv & E & Hs & Hid); [|done|] end.
  2: rewrite E in *; cbn [c_state set_live set_state chain_calloc] in Es; change (s = genesis_state g) in Es.
  { apply ac_state_set_wf; [|by constructor]. constructor; try done; constructor. }
  cbn [c_state set_state set_live chain_id ac_state_new] in Hid.
  rewrite (proj1 (ac_state_set_frame _ _)) in Hid. cbn in Hid.
  set (k := mkBlock (genesis_header _ _) [] []). pose proof (genesis_block_wf s (g_timestamp_ms g) Hts) as Hk.
  unfold block_write. rewrite ac_block_encode_bytes by exact Hk.
  destruct (w_block env); cbn [negb]; [|done]. rewrite meta_save_total.
  destruct (w_meta env); cbn [negb]; [|done]. unfold state_save. cbn [c_state set_files set_tip set_live set_state].
  rewrite ac_state_serialize_bytes by done. destruct (w_state env); [|done].
  intros [= <-]. unfold tx_index_rebuild. cbn.
  assert (∀ d F, f_blocks F = <[0 := block_bytes k]> (f_blocks f) → block_read (set_files d F) 0 = Some k) as Hr.
  { intros d F EF. unfold block_read. cbn. rewrite EF, lookup_insert_eq.
    pose proof (ac_block_decode_bytes k [] Hk) as Ed. rewrite app_nil_r in Ed. by rewrite Ed. }
  split; [|split; [done|]; split; [done|]; split; [done|]; split; [done|]; split; [done|];
    rewrite Hr by done; unfold k; by rewrite Es].
  constructor; [by constructor | done|]. cbn. constructor.
  - done.
  - intros h Hh. assert (h = 0) as -> by lia. exists k. split; [by apply Hr | done].
  - intros k'. rewrite Hr by done. by intros [= <-].
  - lia.
  - intros k'. rewrite Hr by done. by intros [= <-].
Qed.

(** ** Steps *)

(** Calls on a chain. With [io = true] only those whose file writes succeed. *)
Inductive chain_step (io : bool) (c : ac_chain_t) : ac_chain_t → Prop :=
  | step_accept k env : chain_fits c → block_wf k → (io = true → writes_ok env = true) →
      chain_step io c (ac_chain_accept_block c k env).2
  | step_build slot kp cand : chain_fits c → Forall tx_wf cand →
      chain_step io c (ac_chain_build_block c slot kp cand).2
  | step_seed e : chain_step io c (ac_chain_epoch_seed c e).2
  | step_find h : chain_step io c (ac_chain_tx_find c h).2
  | step_addr a cap : chain_step io c (ac_chain_addr_txs c a cap).2.

Lemma build_cache_only c slot kp cand : chain_fits c → Forall tx_wf cand → cache_ok c →
  cache_only c (ac_chain_build_block c slot kp cand).2.
Proof.
  intros Hf Hcand Hc. destruct (ac_chain_build_block c slot kp cand) as [[k|] c'] eqn:E.
  - pose proof (build_block_inv c slot kp cand k c' Hf Hc Hcand E) as Hi. cbv zeta in Hi.
    destruct (select_txs _ _ _ _ _ _) as [[[s kept] gas] tips]. apply Hi.
  - revert E. unfold ac_chain_build_block. destruct (ac_state_get _ _) as [[] a]; cbn [negb].
    2:{ intros [= <-]. apply cache_only_refl. }
    destruct (_ <? _); [intros [= <-]; apply cache_only_refl|].
    pose proof (epoch_seed_cache_only c (ac_epoch_of slot)) as Hco.
    destruct (ac_chain_epoch_seed _ _) as [sd c1]. destruct (ac_state_serialize _).
    + destruct (select_txs _ _ _ _ _ _) as [[[s kept] gas] tips]. done.
    + by intros [= <-].
Qed.

Lemma find_index_only c h : index_only c (ac_chain_tx_find c h).2.
Proof.
  unfold ac_chain_tx_find. destruct (_ =? _)%nat; [reflexivity|].
  destruct (_ <? _); unfold tx_index_sort; destruct (c_tx_index_sorted c); try reflexivity; by destruct c.
Qed.
Lemma addr_index_only c a cap : index_only c (ac_chain_addr_txs c a cap).2.
Proof.
  unfold ac_chain_addr_txs. destruct (_ || _); [reflexivity|].
  unfold addr_index_sort; destruct (c_addr_index_sorted c); try reflexivity; by destruct c.
Qed.

Lemma step_ledger io c c' : chain_step io c c' → ledger_ok c → ledger_ok c'.
Proof.
  intros [k env Hf Hk _|slot kp cand Hf Hcand|e|h|a cap] HL.
  - by apply accept_ledger.
  - eapply ledger_ok_cache; [|exact HL]. by apply build_cache_only; [..|apply HL].
  - eapply ledger_ok_cache; [|exact HL]. apply epoch_seed_cache_only.
  - eapply ledger_ok_index; [|exact HL]. apply find_index_only.
  - eapply ledger_ok_index; [|exact HL]. apply addr_index_only.
Qed.

(** ** What the indexes should hold *)

Fixpoint tx_entries (l : list ac_tx_t) (h i : Z) : list tx_index_entry_t :=
  match l with [] => [] | t :: l' => mkTxIdx (ac_tx_hash t) h i :: tx_entries l' h (i + 1) end.
(** The sender, and the recipient of a transfer to someone else. *)
Definition addr_entry (t : ac_tx_t) (h i : Z) : list addr_index_entry_t :=
  mkAddrIdx (tx_sender t) h i 0 ::
  (if (tx_kind t =? AC_TX_TRANSFER) && (32 <=? zlen (tx_body t))
      && negb (ac_addr_eq (bytes_of 32 (take 32 (tx_body t))) (tx_sender t))
   then [mkAddrIdx (bytes_of 32 (take 32 (tx_body t))) h i 1] else []).
Fixpoint addr_entries (l : list ac_tx_t) (h i : Z) : list addr_index_entry_t :=
  match l with [] => [] | t :: l' => addr_entry t h i ++ addr_entries l' h (i + 1) end.

(** The entries of the blocks at heights [1 .. n]. *)
Fixpoint ledger_entries {E} (ent : list ac_tx_t → Z → Z → list E) (rd : Z → option ac_block_t) (n : nat) : list E :=
  match n with
  | O => []
  | S n' => ledger_entries ent rd n' ++
      match rd (Z.of_nat n) with Some k => ent (txs k) (Z.of_nat n) 0 | None => [] end
  end.

Lemma ledger_entries_ext {E} (ent : list ac_tx_t → Z → Z → list E) rd rd' n :
  (∀ h, 1 <= h <= Z.of_nat n → rd' h = rd h) → ledger_entries ent rd' n = ledger_entries ent rd n.
Proof.
  induction n as [|n IH]; intros E0; [done|]. cbn [ledger_entries]. rewrite IH by (intros; apply E0; lia).
  by rewrite E0 by lia.
Qed.

Record indexed (c : ac_chain_t) : Prop := {
  ix_tx : c_tx_index c ≡ₚ ledger_entries tx_entries (block_read c) (Z.to_nat (c_height c));
  ix_addr : c_addr_index c ≡ₚ ledger_entries addr_entries (block_read c) (Z.to_nat (c_height c));
  ix_tx_sorted : c_tx_index_sorted c = true → StronglySorted (cmp_le tx_index_cmp) (c_tx_index c);
  ix_addr_sorted : c_addr_index_sorted c = true → StronglySorted (cmp_le addr_index_cmp) (c_addr_index c)
}.

Lemma tx_index_cmp_opp x y : tx_index_cmp y x = CompOpp (tx_index_cmp x y).
Proof. apply (cmp_opp ac_hash_cmp). Qed.
Lemma tx_index_cmp_trans x y z : tx_index_cmp x y ≠ Gt → tx_index_cmp y z ≠ Gt → tx_index_cmp x z ≠ Gt.
Proof. apply (cmp_le_trans ac_hash_cmp). Qed.

Lemma tx_index_sort_indexed c : indexed c → indexed (tx_index_sort c) ∧ c_tx_index_sorted (tx_index_sort c) = true.
Proof.
  intros Hi. unfold tx_index_sort. destruct (c_tx_index_sorted c) eqn:E; [done|]. split; [|done]. destruct Hi.
  constructor; cbn; try done; [by etrans; [apply qsort_perm|]|].
  intros _. apply qsort_sorted; [apply tx_index_cmp_opp | apply tx_index_cmp_trans].
Qed.
Lemma addr_index_sort_indexed c : indexed c → indexed (addr_index_sort c) ∧ c_addr_index_sorted (addr_index_sort c) = true.
Proof.
  intros Hi. unfold addr_index_sort. destruct (c_addr_index_sorted c) eqn:E; [done|]. split; [|done]. destruct Hi.
  constructor; cbn; try done; [by etrans; [apply qsort_perm|]|].
  intros _. apply qsort_sorted; [apply addr_index_cmp_opp | apply addr_index_cmp_trans].
Qed.

(** ** The index updates *)

Lemma addr_index_record_tx_entries c t h i :
  c_addr_index (addr_index_record_tx c t h i) = c_addr_index c ++ addr_entry t h i.
Proof.
  unfold addr_index_record_tx, addr_entry.
  destruct ((tx_kind t =? AC_TX_TRANSFER) && (32 <=? zlen (tx_body t))); cbn [andb]; [|done].
  unfold ac_addr_eq. destruct (negb _); [|done]. cbn. by rewrite <- app_assoc.
Qed.
Lemma record_addr_txs_entries l c h i :
  c_addr_index (record_addr_txs c l h i) = c_addr_index c ++ addr_entries l h i ∧
  c_addr_index_sorted (record_addr_txs c l h i) = (match l with [] => c_addr_index_sorted c | _ => false end) ∧
  c_tx_index (record_addr_txs c l h i) = c_tx_index c ∧
  c_tx_index_sorted (record_addr_txs c l h i) = c_tx_index_sorted c.
Proof.
  revert c i. induction l as [|t l IH]; intros c i; cbn [record_addr_txs addr_entries]; [by rewrite app_nil_r|].
  destruct (IH (addr_index_record_tx c t h i) (i + 1)) as (-> & -> & -> & ->).
  rewrite addr_index_record_tx_entries, <- app_assoc. split; [done|].
  unfold addr_index_record_tx. split; [destruct l; [|done]|]; by repeat case_match.
Qed.
Lemma record_tx_hashes_entries l c h i :
  c_tx_index (record_tx_hashes c l h i) = c_tx_index c ++ tx_entries l h i ∧
  c_tx_index_sorted (record_tx_hashes c l h i) = (match l with [] => c_tx_index_sorted c | _ => false end) ∧
  c_addr_index (record_tx_hashes c l h i) = c_addr_index c ∧
  c_addr_index_sorted (record_tx_hashes c l h i) = c_addr_index_sorted c.
Proof.
  revert c i. induction l as [|t l IH]; intros c i; cbn [record_tx_hashes tx_entries]; [by rewrite app_nil_r|].
  destruct (IH (tx_index_add c (ac_tx_hash t) h i) (i + 1)) as (-> & -> & -> & ->). cbn. rewrite <- app_assoc.
  split; [done|]. by destruct l.
Qed.
Lemma record_signers_indexes l c h :
  c_tx_index (record_signers c l h) = c_tx_index c ∧ c_tx_index_sorted (record_signers c l h) = c_tx_index_sorted c ∧
  c_addr_index (record_signers c l h) = c_addr_index c ∧
  c_addr_index_sorted (record_signers c l h) = c_addr_index_sorted c.
Proof.
  revert c. induction l as [|x l IH]; intros c; cbn [record_signers]; [done|].
  destruct (IH (live_record_signer c (cs_signer x) h)) as (-> & -> & -> & ->).
  unfold live_record_signer. by repeat case_match.
Qed.

(** ** Without write failures, files and indexes follow the chain *)

Record stored (c : ac_chain_t) : Prop := { sd_disk : disk_ok c; sd_index : indexed c }.

Lemma stored_cache c c' : cache_only c c' → stored c → stored c'.
Proof. intros [(? & ? & ? & ->) _] [[] []]. by constructor. Qed.

(** The indexes after a commit. *)
Lemma commit_block_indexes c k bh env : (commit_block c k bh env).1 = AC_ACCEPT_OK →
  let c' := (commit_block c k bh env).2 in
  c_tx_index c' = c_tx_index c ++ tx_entries (txs k) (h_height (header k)) 0 ∧
  c_addr_index c' = c_addr_index c ++ addr_entries (txs k) (h_height (header k)) 0 ∧
  c_tx_index_sorted c' = (match txs k with [] => c_tx_index_sorted c | _ => false end) ∧
  c_addr_index_sorted c' = (match txs k with [] => c_addr_index_sorted c | _ => false end).
Proof.
  unfold commit_block, block_write, state_save. destruct (ac_block_encode k) as [buf|]; [|done].
  destruct (w_block env); cbn [negb]; [|done].
  match goal with |- context [ac_state_serialize ?s] => destruct (ac_state_serialize s) as [sn|]; [|done] end.
  destruct (w_state env); cbn [negb]; [|done]. rewrite meta_save_total.
  destruct (w_meta env); cbn [negb]; [|done]. intros _. cbv zeta. cbn [snd].
  match goal with |- context [record_signers ?x ?l ?h] =>
    destruct (record_signers_indexes l x h) as (E1 & E2 & E3 & E4); set (c1 := record_signers x l h) in * end.
  destruct (record_addr_txs_entries (txs k) c1 (h_height (header k)) 0) as (F1 & F2 & F3 & F4).
  set (c2 := record_addr_txs _ _ _ _) in *.
  destruct (record_tx_hashes_entries (txs k) c2 (h_height (header k)) 0) as (G1 & G2 & G3 & G4).
  set (c3 := record_tx_hashes _ _ _ _) in *. cbn [set_cache c_tx_index c_addr_index c_tx_index_sorted c_addr_index_sorted].
  rewrite G1, G2, G3, G4, F1, F2, F3, F4, E1, E2, E3, E4. done.
Qed.

Lemma ledger_entries_append {E} (ent : list ac_tx_t → Z → Z → list E) rd rd' n k :
  0 <= n → (∀ h, h <= n → rd' h = rd h) → rd' (n + 1) = Some k →
  ledger_entries ent rd' (Z.to_nat (n + 1)) = ledger_entries ent rd (Z.to_nat n) ++ ent (txs k) (n + 1) 0.
Proof.
  intros Hn Er Ek. replace (Z.to_nat (n + 1)) with (S (Z.to_nat n)) by lia. cbn [ledger_entries].
  replace (Z.of_nat (S (Z.to_nat n))) with (n + 1) by lia. rewrite Ek.
  by rewrite (ledger_entries_ext ent rd) by (intros; apply Er; lia).
Qed.

Lemma accept_stored c k env : ledger_ok c → chain_fits c → block_wf k → writes_ok env = true →
  stored c → stored (ac_chain_accept_block c k env).2.
Proof.
  intros HL Hf Hk Hio Hst. pose proof (lk_height _ _ _ _ (lg_linked _ HL)) as Hh.
  destruct (accept_cases c k env Hf Hk Hh (lg_cache _ HL)) as [(_ & Hco & _)|(Hho & Hbo & c1 & Hco & _ & E)].
  { by eapply stored_cache. }
  pose proof (ex_height _ _ (checks_extend c k _ HL Hk Hho Hbo)) as Eh.
  pose proof (committing_wf c k c1 (cf_state c Hf) Hk Hco) as Hs1. rewrite E.
  pose proof (commit_block_spec c1 k (ac_block_hash (header k)) env Hk Hs1) as Hsp. rewrite Hio in Hsp.
  destruct Hsp as [Hok Hcm]. destruct (commit_block_indexes c1 k _ env Hok) as (I1 & I2 & I3 & I4).
  destruct (committed_read _ _ _ _ Hk Hcm) as [R1 R2].
  set (c' := (commit_block _ _ _ _).2) in *. clearbody c'. destruct Hco as [(? & ? & ? & ->) _].
  rewrite Eh in *. destruct Hst as [_ [X1 X2 X3 X4]].
  constructor; [constructor; rewrite (cm_files _ _ _ _ Hcm); done|].
  assert (∀ h, h <= c_height c → block_read c' h = block_read c h) as R3 by (intros; apply R2; lia).
  constructor.
  - rewrite I1, (cm_height _ _ _ _ Hcm), Eh, (ledger_entries_append tx_entries (block_read c)) with (k := k) by done.
    cbn. by rewrite X1.
  - rewrite I2, (cm_height _ _ _ _ Hcm), Eh, (ledger_entries_append addr_entries (block_read c)) with (k := k) by done.
    cbn. by rewrite X2.
  - rewrite I1, I3. destruct (txs k); [|done]. cbn. rewrite app_nil_r. done.
  - rewrite I2, I4. destruct (txs k); [|done]. cbn. rewrite app_nil_r. done.
Qed.

Lemma stored_index c c' : index_only c c' → indexed c' → stored c → stored c'.
Proof. intros E Hi [[D1 D2] _]. constructor; [|done]. rewrite E. by constructor. Qed.

Lemma step_stored c c' : chain_step true c c' → ledger_ok c → stored c → stored c'.
Proof.
  intros [k env Hf Hk Hio|slot kp cand Hf Hcand|e|h|a cap] HL Hst.
  - apply accept_stored; auto.
  - eapply stored_cache; [|exact Hst]. by apply build_cache_only; [..|apply HL].
  - eapply stored_cache; [|exact Hst]. apply epoch_seed_cache_only.
  - eapply stored_index; [apply find_index_only| |exact Hst].
    unfold ac_chain_tx_find. destruct (_ =? _)%nat; [apply Hst|].
    destruct (_ <? _); apply tx_index_sort_indexed, Hst.
  - eapply stored_index; [apply addr_index_only| |exact Hst].
    unfold ac_chain_addr_txs. destruct (_ || _); [apply Hst|]. apply addr_index_sort_indexed, Hst.
Qed.

Lemma genesis_stored f g env c : genesis_wf g → f_meta f = None → ac_chain_open f (Some g) env = Some c → stored c.
Proof.
  intros Hg Hm Ho. destruct (genesis_ok f g env c Hg Hm Ho) as (_ & Hd & Hh & Ht & Ha & _). constructor; [done|].
  constructor; rewrite ?Hh, ?Ht, ?Ha; try done; constructor.
Qed.

(** ** Reopening *)

Lemma index_txs_spec l c h i :
  index_only c (index_txs c l h i) ∧
  c_tx_index (index_txs c l h i) = c_tx_index c ++ tx_entries l h i ∧
  c_addr_index (index_txs c l h i) = c_addr_index c ++ addr_entries l h i.
Proof.
  revert c i. induction l as [|t l IH]; intros c i; cbn [index_txs tx_entries addr_entries].
  { rewrite !app_nil_r. split; [reflexivity | done]. }
  destruct (IH (addr_index_record_tx (tx_index_add c (ac_tx_hash t) h i) t h i) (i + 1)) as (I & -> & ->).
  split; [|split].
  - etrans; [|exact I]. etrans; [|apply addr_index_record_tx_frame]. by destruct c.
  - assert (∀ d, c_tx_index (addr_index_record_tx d t h i) = c_tx_index d) as ->.
    { intros d. unfold addr_index_record_tx. by repeat case_match. }
    cbn. by rewrite <- app_assoc.
  - rewrite addr_index_record_tx_entries, <- app_assoc. done.
Qed.

Lemma block_read_index c c' h : index_only c c' → block_read c' h = block_read c h.
Proof. by intros ->. Qed.

Lemma rebuild_loop_snoc c h n :
  rebuild_loop c h (S n) = rebuild_loop (rebuild_loop c h n) (h + Z.of_nat n) 1.
Proof.
  revert c h. induction n as [|n IH]; intros c h; [by replace (h + Z.of_nat 0) with h by lia|].
  change (rebuild_loop c h (S (S n))) with (rebuild_loop (rebuild_loop c h 1) (h + 1) (S n)).
  rewrite IH. change (rebuild_loop c h (S n)) with (rebuild_loop (rebuild_loop c h 1) (h + 1) n).
  by replace (h + 1 + Z.of_nat n) with (h + Z.of_nat (S n)) by lia.
Qed.

Lemma rebuild_step_spec c h :
  index_only c (rebuild_loop c h 1) ∧
  c_tx_index (rebuild_loop c h 1) = c_tx_index c ++ match block_read c h with Some k => tx_entries (txs k) h 0 | None => [] end ∧
  c_addr_index (rebuild_loop c h 1) = c_addr_index c ++ match block_read c h with Some k => addr_entries (txs k) h 0 | None => [] end.
Proof.
  cbn [rebuild_loop]. destruct (block_read c h) as [k|]; [|rewrite !app_nil_r; split; [reflexivity | done]].
  destruct (index_txs_spec (txs k) c h 0) as (I & <- & <-). set (c1 := index_txs _ _ _ _) in *.
  destruct (_ <? _); [|done]. split; [etrans; [exact I | apply record_signers_frame]|].
  by destruct (record_signers_indexes (signers k) c1 (h_height (header k))) as (-> & _ & -> & _).
Qed.

Lemma rebuild_loop_spec c n :
  index_only c (rebuild_loop c 1 n) ∧
  c_tx_index (rebuild_loop c 1 n) = c_tx_index c ++ ledger_entries tx_entries (block_read c) n ∧
  c_addr_index (rebuild_loop c 1 n) = c_addr_index c ++ ledger_entries addr_entries (block_read c) n.
Proof.
  induction n as [|n (I & E1 & E2)]; cbn [ledger_entries].
  { cbn. rewrite !app_nil_r. split; [reflexivity | done]. }
  rewrite rebuild_loop_snoc. destruct (rebuild_step_spec (rebuild_loop c 1 n) (1 + Z.of_nat n)) as (J & -> & ->).
  rewrite E1, E2, !(block_read_index c _ _ I), <- !app_assoc.
  replace (1 + Z.of_nat n) with (Z.of_nat (S n)) in * by lia. split; [by etrans | done].
Qed.

(** Recording leaves the indexes marked unsorted. *)
Definition unsorted (c : ac_chain_t) : Prop := c_tx_index_sorted c = false ∧ c_addr_index_sorted c = false.
Lemma index_txs_unsorted l c h i : unsorted c → unsorted (index_txs c l h i).
Proof.
  revert c i. induction l as [|t l IH]; intros c i Hu; cbn [index_txs]; [done|]. apply IH.
  unfold addr_index_record_tx. by repeat case_match.
Qed.
Lemma rebuild_loop_unsorted n c h : unsorted c → unsorted (rebuild_loop c h n).
Proof.
  revert c h. induction n as [|n IH]; intros c h Hu; cbn [rebuild_loop]; [done|]. apply IH.
  destruct (block_read c h) as [k|]; [|done]. apply (index_txs_unsorted (txs k) c h 0) in Hu.
  destruct (_ <? _); [|done]. unfold unsorted in *.
  by destruct (record_signers_indexes (signers k) (index_txs c (txs k) h 0) (h_height (header k))) as (_ & -> & _ & ->).
Qed.

Lemma tx_index_rebuild_spec c : 0 <= c_height c → c_tx_index c = [] → c_addr_index c = [] →
  c_tx_index_sorted c = false → c_addr_index_sorted c = false →
  let d := tx_index_rebuild c in
  index_only c d ∧
  c_tx_index d ≡ₚ ledger_entries tx_entries (block_read c) (Z.to_nat (c_height c)) ∧
  c_addr_index d ≡ₚ ledger_entries addr_entries (block_read c) (Z.to_nat (c_height c)) ∧
  (c_tx_index_sorted d = true → StronglySorted (cmp_le tx_index_cmp) (c_tx_index d)) ∧
  (c_addr_index_sorted d = true → StronglySorted (cmp_le addr_index_cmp) (c_addr_index d)).
Proof.
  intros Hh Et Ea Fs Fa d. unfold d, tx_index_rebuild. destruct (Z.eqb_spec (c_height c) 0) as [E|E].
  { rewrite E, Et, Ea, Fs, Fa. split; [reflexivity | done]. }
  destruct (rebuild_loop_spec c (Z.to_nat (c_height c))) as (I & E1 & E2). rewrite Et in E1. rewrite Ea in E2.
  pose proof (rebuild_loop_unsorted (Z.to_nat (c_height c)) c 1 (conj Fs Fa)) as U.
  cbn in E1, E2. rewrite <- E1, <- E2. set (c1 := rebuild_loop _ _ _) in *. clearbody c1. clear E1 E2.
  unfold addr_index_sort, tx_index_sort. rewrite (proj1 U). cbn. rewrite (proj2 U). cbn.
  split; [etrans; [exact I|]; by destruct c1|]. split; [apply qsort_perm|]. split; [apply qsort_perm|].
  split; intros _; apply qsort_sorted;
    [apply tx_index_cmp_opp | apply tx_index_cmp_trans | apply addr_index_cmp_opp | apply addr_index_cmp_trans].
Qed.

(** Opening the files of a chain that is stored. *)
Lemma reopen_spec c g env :
  ledger_ok c → stored c → chain_fits c →
  ∃ d, ac_chain_open (c_files c) g env = Some d ∧ same_tip c d ∧ c_files d = c_files c ∧
    c_last_timestamp_ms d = c_last_timestamp_ms c ∧ c_base_fee d = c_base_fee c ∧
    c_tx_index d ≡ₚ c_tx_index c ∧ c_addr_index d ≡ₚ c_addr_index c ∧ ledger_ok d ∧ stored d.
Proof.
  intros HL [[D1 D2] [X1 X2 _ _]] [Hs Ha Hn]. pose proof HL as [Hw _ L]. unfold ac_chain_open, meta_load. cbn [c_files chain_calloc].
  rewrite D1, (meta_parse_bytes c Hw), D2. cbn [mbind outcome_bind c_state set_state set_tip c_chain_id].
  rewrite deserialize_snapshot by (done || symmetry; apply Hw).
  match goal with |- context [tx_index_rebuild ?x] => set (d0 := x) end.
  destruct (tx_index_rebuild_spec d0) as (I & E1 & E2 & E3 & E4); [apply (lk_height _ _ _ _ L) | done..|].
  assert (ledger_ok d0) as HL0.
  { destruct Hw. constructor; [by constructor | done|]. eapply linked_ext; [|exact L]. done. }
  eexists. split; [done|]. apply (ledger_ok_index _ _ I) in HL0. rewrite X1, X2.
  set (d := tx_index_rebuild d0) in *. clearbody d. split; [rewrite I; by constructor|].
  split; [by rewrite I|]. split; [by rewrite I|]. split; [by rewrite I|]. split; [done|]. split; [done|]. split; [done|].
  assert (∀ n ent, @ledger_entries tx_index_entry_t ent (block_read d) n = ledger_entries ent (block_read d0) n) as Et.
  { intros. apply ledger_entries_ext. intros. by apply block_read_index. }
  assert (∀ n ent, @ledger_entries addr_index_entry_t ent (block_read d) n = ledger_entries ent (block_read d0) n) as Ead.
  { intros. apply ledger_entries_ext. intros. by apply block_read_index. }
  constructor; [rewrite I; by constructor|]. constructor; [| |done|done].
  - by rewrite Et, E1, I.
  - by rewrite Ead, E2, I.
Qed.

(** ** What can be recovered from the files

    When writes fail the meta file may lag behind the tip in memory: it describes a tip
    below, whose blocks are still there. *)
Definition recoverable (c : ac_chain_t) : Prop :=
  ∃ m, ledger_ok m ∧ c_files m = c_files c ∧ f_meta (c_files c) = Some (concat (meta_chunks m)) ∧ c_height m <= c_height c.

Lemma recoverable_files c c' : recoverable c → f_meta (c_files c') = f_meta (c_files c) → c_height c <= c_height c' →
  (∀ h, h <= c_height c → f_blocks (c_files c') !! h = f_blocks (c_files c) !! h) → recoverable c'.
Proof.
  intros (m & HL & Ef & Em & Hle) E Hh Hb. exists (set_files m (c_files c')).
  split; [apply ledger_ok_agree; [done|]; intros h ?; rewrite Ef; apply Hb; lia|].
  split; [done|]. split; [by rewrite E|]. cbn. lia.
Qed.
Lemma recoverable_disk c : ledger_ok c → disk_ok c → recoverable c.
Proof. intros HL [Hm _]. by exists c. Qed.

Lemma accept_recoverable c k env : ledger_ok c → chain_fits c → block_wf k →
  recoverable c → recoverable (ac_chain_accept_block c k env).2.
Proof.
  intros HL Hf Hk Hr. pose proof (lk_height _ _ _ _ (lg_linked _ HL)) as Hh.
  pose proof (accept_ledger c k env HL Hf Hk) as HL'. revert HL'.
  destruct (accept_cases c k env Hf Hk Hh (lg_cache _ HL)) as [(_ & [(? & ? & ? & ->) _] & _)|(Hho & Hbo & c1 & Hco & Hep & ->)].
  { intros _. by apply (recoverable_files c). }
  pose proof (checks_extend c k _ HL Hk Hho Hbo) as [Eh _ _ _].
  pose proof (committing_wf c k c1 (cf_state c Hf) Hk Hco) as Hs1.
  assert (recoverable c1 ∧ c_height c1 = c_height c) as [Hr1 Eh1].
  { destruct Hco as [(? & ? & ? & ->) _]. split; [by apply (recoverable_files c)|done]. }
  pose proof (commit_block_spec c1 k (ac_block_hash (header k)) env Hk Hs1) as Hcm.
  destruct (writes_ok env) eqn:Ew.
  { intros HL'. apply recoverable_disk; [done|]. destruct Hcm as [_ Hcm]. constructor; by rewrite (cm_files _ _ _ _ Hcm). }
  intros _. clear Hcm HL Hf Hho Hbo Hco Hr. unfold commit_block, block_write, writes_ok in *. rewrite ac_block_encode_bytes by done.
  assert (∀ h, h <= c_height c1 → <[h_height (header k) := block_bytes k]> (f_blocks (c_files c1)) !! h = f_blocks (c_files c1) !! h) as Hb
    by (intros; by rewrite lookup_insert_ne by lia).
  destruct (w_block env); cbn [negb snd]; [|done]. unfold state_save. cbn [c_state set_files].
  rewrite ac_state_serialize_bytes by done. destruct (w_state env); cbn [negb snd]; [|by apply (recoverable_files c1)].
  rewrite meta_save_total. destruct (w_meta env); [done|]. cbn [negb snd]. apply (recoverable_files c1); [done..| |done]. cbn. lia.
Qed.
Lemma step_recoverable io c c' : ledger_ok c → chain_step io c c' → recoverable c → recoverable c'.
Proof.
  intros HL Hs Hr. assert (∀ d, cache_only c d → recoverable d) as Hca by (intros d [(? & ? & ? & ->) _]; by apply (recoverable_files c)).
  assert (∀ d, index_only c d → recoverable d) as Hix by (intros d E; rewrite E; by apply (recoverable_files c)).
  destruct Hs as [k env Hf Hk Hio|slot kp cand Hf Hcand|e|h|a cap].
  - by apply accept_recoverable.
  - apply Hca, build_cache_only; [done..|apply HL].
  - apply Hca, epoch_seed_cache_only.
  - apply Hix, find_index_only.
  - apply Hix, addr_index_only.
Qed.

(** Opening such files, when it succeeds, gives a sound chain at the tip they describe. *)
Lemma open_recovered c g env d : recoverable c → ac_chain_open (c_files c) g env = Some d → ledger_ok d ∧ recoverable d.
Proof.
  intros (m & HL & Ef & Em & _). pose proof HL as [Hw _ L]. unfold ac_chain_open, meta_load. cbn [c_files chain_calloc].
  rewrite Em, (meta_parse_bytes m Hw). cbn [mbind outcome_bind c_state set_state set_tip c_chain_id].
  destruct (f_state (c_files c)) as [buf|]; [|done].
  destruct (ac_state_deserialize _ buf) as [[s []]| |] eqn:Ed; try done. intros [= <-].
  apply deserialize_sound in Ed as (Hsw & Hid & _).
  match goal with |- context [tx_index_rebuild ?x] => set (d0 := x) end.
  destruct (tx_index_rebuild_spec d0) as (I & _); [apply (lk_height _ _ _ _ L) | done..|].
  assert (ledger_ok d0) as HL0.
  { destruct Hw. constructor; [by constructor | done|]. eapply linked_ext; [|exact L]. intros h _. unfold block_read. cbn. by rewrite Ef. }
  apply (ledger_ok_index _ _ I) in HL0. split; [done|]. exists (tx_index_rebuild d0). split; [done|]. split; [done|].
  split; [|lia]. rewrite I. exact Em.
Qed.

(** ** Reachable chains

    From the chain [ac_chain_open] creates at genesis, by calls, any writes of which may
    fail unless [io], and by closing the chain and opening its files again. *)
Inductive reachable_from (io : bool) (g : ac_genesis_t) : ac_chain_t → Prop :=
  | reach_genesis f env c : f_meta f = None → ac_chain_open f (Some g) env = Some c → reachable_from io g c
  | reach_step c c' : reachable_from io g c → chain_step io c c' → reachable_from io g c'
  | reach_restart c g' env c' : reachable_from io g c → (io = true → chain_fits c) →
      ac_chain_open (c_files c) g' env = Some c' → reachable_from io g c'.
Definition reachable (io : bool) (c : ac_chain_t) : Prop := ∃ g, genesis_wf g ∧ reachable_from io g c.

Lemma reachable_recoverable io g c : genesis_wf g → reachable_from io g c → ledger_ok c ∧ recoverable c.
Proof.
  intros Hg. induction 1 as [f env c Hm Ho|c c' _ [IL IS] Hs|c g' env c' _ [IL IS] _ Ho].
  - destruct (genesis_ok f g env c Hg Hm Ho) as (HL & Hd & _). split; [done|]. by apply recoverable_disk.
  - split; [by eapply step_ledger|]. by eapply step_recoverable.
  - by eapply open_recovered.
Qed.
Lemma reachable_from_ok io g c : genesis_wf g → reachable_from io g c → ledger_ok c ∧ (io = true → stored c).
Proof.
  intros Hg Hr. split; [by eapply reachable_recoverable|]. intros ->.
  induction Hr as [f env c Hm Ho|c c' Hr IS Hs|c g' env c' Hr IS Hf Ho].
  - by eapply genesis_stored.
  - eapply step_stored; [done|by eapply (reachable_recoverable true)|done].
  - destruct (reopen_spec c g' env (proj1 (reachable_recoverable true g c Hg Hr)) IS (Hf eq_refl)) as (d & Ho' & _ & _ & _ & _ & _ & _ & _ & Hst).
    rewrite Ho in Ho'. by injection Ho' as <-.
Qed.
Lemma reachable_ledger io c : reachable io c → ledger_ok c.
Proof. intros (g & Hg & Hr). by eapply reachable_from_ok. Qed.
Lemma reachable_stored c : reachable true c → stored c.
Proof. intros (g & Hg & Hr). by eapply (reachable_from_ok true). Qed.

Lemma reopen_ledger c g env d : reachable true c → chain_fits c → ac_chain_open (c_files c) g env = Some d → ledger_ok d.
Proof.
  intros Hr Hf Ho. destruct (reopen_spec c g env (reachable_ledger _ c Hr) (reachable_stored c Hr) Hf)
    as (d' & Ho' & _ & _ & _ & _ & _ & _ & HL & _).
  rewrite Ho in Ho'. by injection Ho' as <-.
Qed.

(** C1. The ledger invariant: in every chain reachable from genesis by accepting and building
    blocks, by queries and by restarts, whatever blocks arrive, in whatever order, and
    whichever file writes fail in between, the blocks on disk up to the tip form one
    sequence: each decodes, has its own height, names the hash of the one below, has a later
    slot than every block below, a gas total within the limit and a base fee within one of
    the EIP-1559 step; the last one is the tip; the state is well formed and the seed cache
    coherent. *)
Theorem ledger_reachable io c :
  reachable io c →
  chain_wf c ∧ cache_ok c ∧ linked (block_read c) (c_height c) (c_tip_hash c) (c_last_slot c) ∧
  (∀ i j ki kj, 0 <= i < j → j <= c_height c → block_read c i = Some ki → block_read c j = Some kj →
     h_slot (header ki) < h_slot (header kj)).
Proof.
  intros [Hw Hc L]%reachable_ledger. split; [done|]. split; [done|]. split; [done|].
  intros i j ki kj. by eapply linked_slots.
Qed.

(** ** Lookups on reachable chains *)

Lemma elem_of_tx_entries l h i x height idx :
  mkTxIdx x height idx ∈ tx_entries l h i ↔
  height = h ∧ i <= idx ∧ ∃ t, l !! Z.to_nat (idx - i) = Some t ∧ ac_tx_hash t = x.
Proof.
  revert i. induction l as [|t l IH]; intros i; cbn [tx_entries].
  { rewrite elem_of_nil. split; [done|]. intros (_ & _ & t & Ht & _). done. }
  rewrite elem_of_cons, IH. split.
  - intros [[= -> -> ->]|(-> & Hi & t' & Ht' & <-)].
    + split; [done|]. split; [lia|]. exists t. by rewrite Z.sub_diag.
    + split; [done|]. split; [lia|]. exists t'. split; [|done].
      replace (Z.to_nat (idx - i)) with (S (Z.to_nat (idx - (i + 1)))) by lia. done.
  - intros (-> & Hi & t' & Ht' & <-). destruct (decide (idx = i)) as [-> | Hne].
    + rewrite Z.sub_diag in Ht'. injection Ht' as ->. by left.
    + right. split; [done|]. split; [lia|]. exists t'. split; [|done].
      by replace (Z.to_nat (idx - i)) with (S (Z.to_nat (idx - (i + 1)))) in Ht' by lia.
Qed.

Lemma elem_of_ledger_entries rd n x height idx :
  mkTxIdx x height idx ∈ ledger_entries tx_entries rd n ↔
  1 <= height <= Z.of_nat n ∧ 0 <= idx ∧
  ∃ k t, rd height = Some k ∧ txs k !! Z.to_nat idx = Some t ∧ ac_tx_hash t = x.
Proof.
  induction n as [|n IH]; cbn [ledger_entries].
  { rewrite elem_of_nil. split; [done | lia]. }
  rewrite elem_of_app, IH. split.
  - intros [(? & ? & ?)|Hin]; [split; [lia | done]|].
    destruct (rd (Z.of_nat (S n))) as [k|] eqn:Ek; [|by apply elem_of_nil in Hin].
    apply elem_of_tx_entries in Hin as (-> & Hi & t & Ht & Hx). rewrite Z.sub_0_r in Ht.
    split; [lia|]. split; [done|]. eauto.
  - intros (Hh & Hi & k & t & Hk & Ht & Hx). destruct (decide (height = Z.of_nat (S n))) as [-> | Hne].
    + right. rewrite Hk. apply elem_of_tx_entries. rewrite Z.sub_0_r. split_and!; [done|done|by exists t].
    + left. split_and!; [lia|lia|done|by exists k, t].
Qed.

Lemma tx_find_stored c x height idx : ledger_ok c → stored c → NoDup (ti_hash <$> c_tx_index c) →
  ((ac_chain_tx_find c x).1 = Some (height, idx) ↔
   1 <= height <= c_height c ∧ 0 <= idx ∧
   ∃ k t, block_read c height = Some k ∧ txs k !! Z.to_nat idx = Some t ∧ ac_tx_hash t = x).
Proof.
  intros HL [_ [X1 _ X3 _]] Hn. pose proof (lk_height _ _ _ _ (lg_linked _ HL)) as Hh.
  assert (c_tx_index_sorted c = true → sorted ti_hash ac_hash_cmp (c_tx_index c)) as Hs.
  { intros Hf. eapply (strongly_sorted_nodup ti_hash ac_hash_cmp); [|done]. apply X3, Hf. }
  pose proof (tx_find_spec c x height idx Hn Hs) as Hf. destruct (ac_chain_tx_find c x) as [r c'].
  destruct Hf as [Hf _]. cbn [fst]. rewrite Hf, X1, elem_of_ledger_entries, Z2Nat.id by done. done.
Qed.

(** C10. Durability: opening the files of a chain reached without write failures gives the
    chain back, genesis file or not: same state, height, tip, slot, times, base fee and
    blocks, and the rebuilt transaction and address indexes hold the same entries. *)
Theorem reopen_restores c g env :
  reachable true c → chain_fits c →
  ∃ d, ac_chain_open (c_files c) g env = Some d ∧ same_tip c d ∧ c_files d = c_files c ∧
    c_last_timestamp_ms d = c_last_timestamp_ms c ∧ c_base_fee d = c_base_fee c ∧
    c_tx_index d ≡ₚ c_tx_index c ∧ c_addr_index d ≡ₚ c_addr_index c.
Proof.
  intros Hr Hf. destruct (reopen_spec c g env (reachable_ledger _ c Hr) (reachable_stored c Hr) Hf)
    as (d & Ho & Hs & E1 & E2 & E3 & E4 & E5 & _).
  exists d. auto 10.
Qed.
End Ledger.

(** ** Witnesses *)

#[local] Existing Instance toy_sodium.
#[local] Existing Instance x87.

Definition demo_next : ac_chain_t := (ac_chain_accept_block demo_chain demo_block demo_env).2.

Lemma demo_genesis_wf : genesis_wf demo_genesis.
Proof. constructor; [by vm_compute..|]. repeat constructor; by vm_compute. Qed.
Lemma demo_chain_reached io : reachable_from io demo_genesis demo_chain.
Proof. apply (reach_genesis io _ no_files demo_env); [done|by vm_compute]. Qed.
Lemma demo_next_reached io : reachable_from io demo_genesis demo_next.
Proof. eapply reach_step; [apply demo_chain_reached|]. apply step_accept; [apply demo_fits | apply demo_block_wf | done]. Qed.
Lemma demo_reachable io : reachable io demo_next.
Proof. exists demo_genesis. split; [apply demo_genesis_wf | apply demo_next_reached]. Qed.

Lemma demo_next_read : block_read demo_next 1 = Some demo_block.
Proof.
  destruct (accept_ok_inv demo_chain demo_block demo_env demo_fits demo_block_wf) as (_ & _ & Hc);
    [by vm_compute | apply demo_cache | apply demo_accepted|].
  exact (proj1 (committed_read _ _ _ _ demo_block_wf Hc)).
Qed.

Lemma ledger_reachable_witness : chain_wf demo_next ∧ c_height demo_next = 1.
Proof.
  split; [|by vm_compute]. exact (proj1 (ledger_reachable false demo_next (demo_reachable false))).
Defined.

Lemma reopen_restores_witness :
  ∃ d, ac_chain_open (c_files demo_next) None demo_env = Some d ∧ c_height d = 1.
Proof.
  destruct (reopen_restores demo_next None demo_env (demo_reachable true)) as (d & Ho & [_ _ Hh _ _ _ _] & _).
  - constructor; [apply (lg_wf _ (reachable_ledger _ _ (demo_reachable true)))|by vm_compute..].
  - exists d. split; [exact Ho|]. rewrite Hh. by vm_compute.
Defined.

(** A crash after the state file and before the meta file: the node reopens with the old
    height and tip over the new state, and the block it had accepted is rejected from then
    on, as the transactions have already been applied. *)
Definition demo_torn : files_t := mkFiles (f_meta (c_files demo_chain)) (f_state (c_files demo_next)) (f_blocks (c_files demo_next)).
Lemma crash_between_saves :
  ∃ d, ac_chain_open demo_torn None demo_env = Some d ∧ c_height d = 0 ∧
    b (ac_state_root (c_state d)) = b (h_state_root (header demo_block)) ∧
    (ac_chain_accept_block d demo_block demo_env).1 = AC_ACCEPT_REJECT_BAD_TX.
Proof.
  destruct (ac_chain_open demo_torn None demo_env) as [d|] eqn:E; [|vm_compute in E; discriminate].
  assert (d = default demo_chain (ac_chain_open demo_torn None demo_env)) as -> by (rewrite E; reflexivity).
  eexists. split; [reflexivity|]. split; [vm_compute; reflexivity|]. split; vm_compute; reflexivity.
Qed.
