(* ===== verification/Agreement.v ===== *)
(** * Agreement between replicas, and accountability

    What two chains opened with the same genesis can disagree on. The state of a chain is
    a function of the headers and transactions it stores ([replay]), and every stored block
    carries a certificate over the state below it; so at the lowest height where two chains
    differ, the two certificates name a validator whose key signed both blocks. Those two
    votes are the evidence a slash transaction takes, and it takes the whole stake. *)

From S2P Require Import Prelude Common Crypto Cursor Codec SortedArray State Apply Econ Chain Accept Ledger.

Section Agreement.
Context `{!Sodium} `{!LongDouble}.

(** ** Replay *)

(** The transactions of a block and the leader's pay, on a state: what
    [ac_chain_accept_block] does to the state when it accepts. *)
Definition exec_block (s : ac_state_t) (k : ac_block_t) : ac_state_t :=
  let '(_, s, _, tips) := apply_block_txs s (txs k) (h_slot (header k)) (h_base_fee (header k)) 0 0 in
  pay_leader s (h_proposer (header k)) (ac_chain_block_reward (h_height (header k))) tips.

Fixpoint replay (rd : Z → option ac_block_t) (s : ac_state_t) (n : nat) : ac_state_t :=
  match n with
  | O => s
  | S n' => match rd (Z.of_nat n) with Some k => exec_block (replay rd s n') k | None => replay rd s n' end
  end.

Lemma replay_ext rd rd' s n : (∀ h, 1 <= h <= Z.of_nat n → rd' h = rd h) → replay rd' s n = replay rd s n.
Proof.
  induction n as [|n IH]; intros E; [done|]. cbn [replay]. rewrite IH by (intros; apply E; lia). by rewrite E by lia.
Qed.

(** Only headers and transactions matter, not the certificates. *)
Lemma exec_block_ext s k k' : header k = header k' → txs k = txs k' → exec_block s k = exec_block s k'.
Proof. unfold exec_block. by intros -> ->. Qed.

(** ** Certificates *)

(** [k] was checked against state [s]: roots, and a certificate of active signers whose
    votes verify, with more than half of the weight when no signer is repeated. *)
Record finalised (s : ac_state_t) (k : ac_block_t) : Prop := {
  cd_state : state_wf s;
  cd_block : block_wf k;
  cd_txs : (apply_block_txs s (txs k) (h_slot (header k)) (h_base_fee (header k)) 0 0).1.1.1 = true;
  cd_tx_root : ac_block_tx_root (txs k) = h_tx_root (header k);
  cd_state_root : ac_state_root (exec_block s k) = h_state_root (header k);
  cd_quorum : supply s < U64 → NoDup (cs_signer <$> signers k) →
    total weight s < 2 * sum_with (λ a, weight (view s a)) (cs_signer <$> signers k) ∧
    Forall (λ x, AC_MIN_STAKE_UCRD <= stake (view s (cs_signer x)) ∧
      ac_verify (cs_sig x) (ac_vote_message (h_height (header k)) (ac_block_hash (header k))) (cs_signer x) = true) (signers k)
}.

Lemma body_ok_finalised c k : chain_fits c → cache_ok c → block_wf k → body_ok c k → finalised (c_state c) k.
Proof.
  intros Hf Hc Hk Hb. pose proof Hb as [Htx _ Ht Hr _]. constructor; [apply Hf|done..|]. intros Hs Hn.
  apply body_ok_commit in Hb; [|done]. apply commit_majority in Hb as [Hm Hfa]; [|apply Hf|done|apply Hk|done].
  split; [done|]. eapply Forall_impl; [exact Hfa|]. intros x []. done.
Qed.

(** ** Replicas of a genesis *)

Definition state_at (g : ac_genesis_t) (c : ac_chain_t) (h : Z) : ac_state_t :=
  replay (block_read c) (genesis_state g) (Z.to_nat h).

Record replica (g : ac_genesis_t) (c : ac_chain_t) : Prop := {
  rp_state : c_state c = state_at g c (c_height c);
  rp_genesis : block_read c 0 = Some (genesis_block g);
  rp_finalised h k : 1 <= h <= c_height c → block_read c h = Some k → h_height (header k) = h ∧ finalised (state_at g c (h - 1)) k
}.

Lemma replica_same g c d : c_state d = c_state c → c_height d = c_height c →
  f_blocks (c_files d) = f_blocks (c_files c) → replica g c → replica g d.
Proof.
  intros Es Eh Ef [H1 H2 H3]. assert (∀ h, block_read d h = block_read c h) as Er by (intros; unfold block_read; by rewrite Ef).
  assert (∀ h, state_at g d h = state_at g c h) as Ea by (intros; by apply replay_ext).
  constructor; [by rewrite Es, Eh, Ea|by rewrite Er|]. intros h k. rewrite Eh, Er, Ea. apply H3.
Qed.

Lemma replica_accept g c k env : ledger_ok c → chain_fits c → block_wf k → writes_ok env = true →
  replica g c → replica g (ac_chain_accept_block c k env).2.
Proof.
  intros HL Hf Hk Hio Hr. pose proof (lk_height _ _ _ _ (lg_linked _ HL)) as Hh.
  destruct (accept_cases c k env Hf Hk Hh (lg_cache _ HL)) as [(_ & [(? & ? & ? & ->) _] & _)|(Hho & Hbo & _)].
  { by apply (replica_same g c). }
  assert ((ac_chain_accept_block c k env).1 = AC_ACCEPT_OK) as Hok by (apply accept_iff; auto using lg_cache).
  destruct (accept_ok_inv c k env Hf Hk Hh (lg_cache _ HL) Hok) as (_ & _ & Hcm).
  pose proof (ex_height _ _ (checks_extend c k _ HL Hk Hho Hbo)) as Eh.
  destruct (committed_read _ _ _ _ Hk Hcm) as [R1 R2]. set (c' := (ac_chain_accept_block c k env).2) in *. clearbody c'.
  assert (∀ h, h <= c_height c → block_read c' h = block_read c h) as R by (intros; rewrite R2 by lia; done).
  assert (∀ h, h <= c_height c → state_at g c' h = state_at g c h) as Rs.
  { intros h Hle. apply replay_ext. intros. apply R. lia. }
  pose proof (cm_height _ _ _ _ Hcm) as Ec. destruct Hr as [H1 H2 H3]. constructor.
  - rewrite (cm_state _ _ _ _ Hcm), Ec, Eh. unfold state_at. replace (Z.to_nat (c_height c + 1)) with (S (Z.to_nat (c_height c))) by lia.
    cbn [replay]. replace (Z.of_nat (S (Z.to_nat (c_height c)))) with (c_height c + 1) by lia. rewrite <- Eh, R1.
    change (exec_block (c_state c) k = exec_block (state_at g c' (c_height c)) k). by rewrite Rs, <- H1 by lia.
  - by rewrite R by lia.
  - intros h k' Hle Hk'. destruct (decide (h = c_height c + 1)) as [-> | Hne].
    + rewrite <- Eh, R1 in Hk'. injection Hk' as <-. split; [done|].
      replace (c_height c + 1 - 1) with (c_height c) by lia. rewrite Rs, <- H1 by lia.
      apply body_ok_finalised; auto using lg_cache.
    + rewrite Ec, Eh in Hle. rewrite R in Hk' by lia. rewrite Rs by lia. apply H3; [lia | done].
Qed.

Lemma replica_step g c c' : chain_step true c c' → ledger_ok c → replica g c → replica g c'.
Proof.
  assert (∀ d, cache_only c d → replica g c → replica g d) as Hca.
  { intros d [(? & ? & ? & ->) _]. by apply replica_same. }
  assert (∀ d, index_only c d → replica g c → replica g d) as Hix by (intros d E; rewrite E; by apply replica_same).
  intros [k env Hf Hk Hio|slot kp cand Hf Hcand|e|h|a cap] HL.
  - by apply replica_accept; auto.
  - by apply Hca, build_cache_only; [..|apply HL].
  - apply Hca, epoch_seed_cache_only.
  - apply Hix, find_index_only.
  - apply Hix, addr_index_only.
Qed.

(** The state of a chain is the replay of the blocks it stores, and each of them carries a
    certificate over the state below it; across restarts too. *)
Lemma reachable_replica g c : genesis_wf g → reachable_from true g c → replica g c.
Proof.
  intros Hg. induction 1 as [f env c Hm Ho|c c' Hr IH Hs|c g' env c' Hr IH Hf Ho].
  - destruct (genesis_ok f g env c Hg Hm Ho) as (_ & _ & Hh & _ & _ & Es & Eb).
    constructor; [by rewrite Hh|done|]. intros h k. rewrite Hh. lia.
  - destruct (reachable_from_ok true g c Hg Hr) as [HL _]. by eapply replica_step.
  - destruct (reachable_from_ok true g c Hg Hr) as [HL Hst].
    destruct (reopen_spec c g' env HL (Hst eq_refl) (Hf eq_refl)) as (d & Ho' & [E1 _ E2 _ _ _ E3] & _).
    rewrite Ho in Ho'. injection Ho' as <-. by eapply replica_same.
Qed.
(** ** Forks *)

(** Validator [a], active in [s], has valid votes for two different blocks of height [h]. *)
Record equivocation (s : ac_state_t) (h : Z) (a : ac_addr_t) (h1 h2 : ac_hash_t) (sig1 sig2 : ac_sig_t) : Prop := {
  eq_active : AC_MIN_STAKE_UCRD <= stake (view s a);
  eq_vote1 : ac_verify sig1 (ac_vote_message h h1) a = true;
  eq_vote2 : ac_verify sig2 (ac_vote_message h h2) a = true;
  eq_conflict : h1 ≠ h2
}.

(** Two finalised blocks of one height over one state: either the same block, or a
    validator signed both. *)
Lemma finalised_conflict s k1 k2 : supply s < U64 → finalised s k1 → finalised s k2 →
  NoDup (cs_signer <$> signers k1) → NoDup (cs_signer <$> signers k2) →
  h_height (header k1) = h_height (header k2) →
  ac_block_hash (header k1) ≠ ac_block_hash (header k2) →
  ∃ x y, x ∈ signers k1 ∧ y ∈ signers k2 ∧ cs_signer x = cs_signer y ∧
    equivocation s (h_height (header k1)) (cs_signer x) (ac_block_hash (header k1)) (ac_block_hash (header k2)) (cs_sig x) (cs_sig y).
Proof.
  intros Hs C1 C2 N1 N2 Eh Hne. destruct (cd_quorum _ _ C1 Hs N1) as [M1 F1], (cd_quorum _ _ C2 Hs N2) as [M2 F2].
  destruct (majorities_meet s _ _ (cd_state _ _ C1) N1 N2 M1 M2) as (a & (x & -> & Hx)%list_elem_of_fmap & (y & Exy & Hy)%list_elem_of_fmap).
  rewrite Forall_forall in F1, F2. destruct (F1 x Hx) as [A1 V1], (F2 y Hy) as [A2 V2].
  exists x, y. split; [done|]. split; [done|]. split; [done|]. constructor; [done|done| |done]. by rewrite Eh, Exy.
Qed.

(** What the argument takes for granted: between the two chains the hash does not collide
    on headers and transaction lists, certificates repeat no signer, and no state along
    the first chain holds 2^64 or more. *)
Record fork_assumptions (g : ac_genesis_t) (c1 c2 : ac_chain_t) : Prop := {
  fa_header h k1 k2 : block_read c1 h = Some k1 → block_read c2 h = Some k2 →
    ac_block_hash (header k1) = ac_block_hash (header k2) → header k1 = header k2;
  fa_txs h k1 k2 : block_read c1 h = Some k1 → block_read c2 h = Some k2 →
    ac_block_tx_root (txs k1) = ac_block_tx_root (txs k2) → txs k1 = txs k2;
  fa_signers1 h k : 1 <= h <= c_height c1 → block_read c1 h = Some k → NoDup (cs_signer <$> signers k);
  fa_signers2 h k : 1 <= h <= c_height c2 → block_read c2 h = Some k → NoDup (cs_signer <$> signers k);
  fa_supply h : 0 <= h < c_height c1 → supply (state_at g c1 h) < U64
}.

(** The chains hold the same blocks, up to certificates, at heights [0 .. n]. *)
Definition same_blocks (c1 c2 : ac_chain_t) (n : Z) : Prop :=
  ∀ h, 0 <= h <= n → ∃ k1 k2, block_read c1 h = Some k1 ∧ block_read c2 h = Some k2 ∧
    header k1 = header k2 ∧ txs k1 = txs k2.
(** Both chains hold a block at [h], over the same state, and a validator signed both. *)
Definition forked (g : ac_genesis_t) (c1 c2 : ac_chain_t) (h : Z) : Prop :=
  ∃ k1 k2 x y, block_read c1 h = Some k1 ∧ block_read c2 h = Some k2 ∧
    state_at g c1 (h - 1) = state_at g c2 (h - 1) ∧
    x ∈ signers k1 ∧ y ∈ signers k2 ∧ cs_signer x = cs_signer y ∧
    equivocation (state_at g c1 (h - 1)) h (cs_signer x) (ac_block_hash (header k1)) (ac_block_hash (header k2)) (cs_sig x) (cs_sig y).

Lemma same_blocks_state g c1 c2 n : same_blocks c1 c2 n → 0 <= n → state_at g c1 n = state_at g c2 n.
Proof.
  unfold state_at. intros Hsb Hn. assert (∀ m, Z.of_nat m <= n →
    replay (block_read c1) (genesis_state g) m = replay (block_read c2) (genesis_state g) m) as H'; [|apply H'; lia].
  induction m as [|m IH]; intros Hm; [done|]. cbn [replay].
  destruct (Hsb (Z.of_nat (S m)) ltac:(lia)) as (k1 & k2 & -> & -> & Eh & Et). rewrite IH by lia. by apply exec_block_ext.
Qed.

(** One height up: the next blocks agree, or they show an equivocation. *)
Lemma fork_step g c1 c2 n : replica g c1 → replica g c2 → fork_assumptions g c1 c2 →
  ledger_ok c1 → ledger_ok c2 → 0 <= n → n < c_height c1 → n < c_height c2 →
  same_blocks c1 c2 n → same_blocks c1 c2 (n + 1) ∨ forked g c1 c2 (n + 1).
Proof.
  intros R1 R2 [F1 F2 F3 F4 F5] L1 L2 Hn H1 H2 Hsb. pose proof (same_blocks_state g c1 c2 n Hsb Hn) as Est.
  destruct (lk_read _ _ _ _ (lg_linked _ L1) (n + 1)) as (k1 & E1 & _); [lia|].
  destruct (lk_read _ _ _ _ (lg_linked _ L2) (n + 1)) as (k2 & E2 & _); [lia|].
  destruct (rp_finalised _ _ R1 (n + 1) k1) as [Hh1 C1]; [lia|done|].
  destruct (rp_finalised _ _ R2 (n + 1) k2) as [Hh2 C2]; [lia|done|].
  replace (n + 1 - 1) with n in * by lia. rewrite <- Est in C2.
  destruct (decide (ac_block_hash (header k1) = ac_block_hash (header k2))) as [Eh|Hne].
  - left. intros h Hh. destruct (decide (h = n + 1)) as [-> | Hne]; [|apply Hsb; lia].
    exists k1, k2. pose proof (F1 _ _ _ E1 E2 Eh) as Ehd. split; [done|]. split; [done|]. split; [done|].
    apply (F2 _ _ _ E1 E2). by rewrite (cd_tx_root _ _ C1), (cd_tx_root _ _ C2), Ehd.
  - right. destruct (finalised_conflict (state_at g c1 n) k1 k2) as (x & y & Hx & Hy & Exy & Heq); try done.
    { apply F5. lia. } { apply (F3 (n + 1)); [lia|done]. } { apply (F4 (n + 1)); [lia|done]. } { by rewrite Hh1. }
    exists k1, k2, x, y. replace (n + 1 - 1) with n by lia. by rewrite Hh1 in Heq.
Qed.

Lemma fork_or_agree g c1 c2 : replica g c1 → replica g c2 → fork_assumptions g c1 c2 → ledger_ok c1 → ledger_ok c2 →
  same_blocks c1 c2 (Z.min (c_height c1) (c_height c2)) ∨
  ∃ h, 1 <= h <= Z.min (c_height c1) (c_height c2) ∧ same_blocks c1 c2 (h - 1) ∧ forked g c1 c2 h.
Proof.
  intros R1 R2 HF L1 L2. pose proof (lk_height _ _ _ _ (lg_linked _ L1)) as H1. pose proof (lk_height _ _ _ _ (lg_linked _ L2)) as H2.
  set (N := Z.min (c_height c1) (c_height c2)).
  assert (∀ m : nat, Z.of_nat m <= N → same_blocks c1 c2 (Z.of_nat m) ∨
    ∃ h, 1 <= h <= N ∧ same_blocks c1 c2 (h - 1) ∧ forked g c1 c2 h) as H'.
  { induction m as [|m IH]; intros Hm.
    - left. intros h Hh. assert (h = 0) as -> by lia. exists (genesis_block g), (genesis_block g).
      by rewrite (rp_genesis _ _ R1), (rp_genesis _ _ R2).
    - destruct IH as [Hsb|?]; [lia| |by right].
      destruct (fork_step g c1 c2 (Z.of_nat m) R1 R2 HF L1 L2) as [?|?]; [lia..|done| |].
      + left. by replace (Z.of_nat (S m)) with (Z.of_nat m + 1) by lia.
      + right. exists (Z.of_nat m + 1). split; [lia|]. by replace (Z.of_nat m + 1 - 1) with (Z.of_nat m) by lia. }
  replace N with (Z.of_nat (Z.to_nat N)) at 1 by lia. apply H'. lia.
Qed.

(** Agreement, with accountability: two chains opened with the same genesis and grown by
    any calls and restarts hold the same blocks at every height both have, up to their
    certificates, and so the same state and tip when they are equally long; or else, at
    the first height where they differ, some validator active in the common state has
    signed both blocks. *)
Theorem no_fork_unless_equivocation g c1 c2 :
  genesis_wf g → reachable_from true g c1 → reachable_from true g c2 → fork_assumptions g c1 c2 →
  (same_blocks c1 c2 (Z.min (c_height c1) (c_height c2)) ∧
   (c_height c1 = c_height c2 → c_state c1 = c_state c2 ∧ c_tip_hash c1 = c_tip_hash c2)) ∨
  ∃ h, 1 <= h <= Z.min (c_height c1) (c_height c2) ∧ same_blocks c1 c2 (h - 1) ∧ forked g c1 c2 h.
Proof.
  intros Hg Q1 Q2 HF. pose proof (reachable_replica g c1 Hg Q1) as R1. pose proof (reachable_replica g c2 Hg Q2) as R2.
  destruct (reachable_from_ok _ _ _ Hg Q1) as [L1 _], (reachable_from_ok _ _ _ Hg Q2) as [L2 _].
  destruct (fork_or_agree g c1 c2 R1 R2 HF L1 L2) as [Hsb|?]; [left; split; [done|]|by right].
  intros E. rewrite <- E, Z.min_id in Hsb. pose proof (lk_height _ _ _ _ (lg_linked _ L1)) as H1.
  split; [by rewrite (rp_state _ _ R1), (rp_state _ _ R2), <- E, (same_blocks_state g c1 c2)|].
  destruct (Hsb (c_height c1)) as (k1 & k2 & E1 & E2 & Eh & _); [lia|].
  destruct (lk_tip _ _ _ _ (lg_linked _ L1) k1 E1) as [<- _], (lk_tip _ _ _ _ (lg_linked _ L2) k2) as [<- _]; [by rewrite <- E|].
  by rewrite Eh.
Qed.

(** ** Accountability *)

(** The evidence as the body of a slash transaction. *)
Definition evidence (h : Z) (a : ac_addr_t) (h1 h2 : ac_hash_t) (sig1 sig2 : ac_sig_t) : ac_body_slash_t :=
  mkBodySlash a h h1 sig1 h2 sig2.

(** An admitted slash transaction from someone else that carries the two votes of an
    equivocation succeeds, in any later state in which the validator still has stake: it
    takes the whole of it. *)
Theorem equivocation_slashed s0 s t slot bf h a h1 h2 sig1 sig2 :
  equivocation s0 h a h1 h2 sig1 sig2 → is_u64 h →
  state_wf s → tx_wf t → tx_kind t = AC_TX_SLASH_EVIDENCE →
  ac_body_slash_encode AC_TX_BODY_MAX (evidence h a h1 h2 sig1 sig2) = Some (tx_body t) →
  tx_sender t ≠ a → stake (view s a) ≠ 0 → (ac_state_apply_tx s t slot bf).1.1 ≠ -1 →
  let '(rc, s', r) := ac_state_apply_tx s t slot bf in
  rc = 0 ∧ stake (view s' a) = 0 ∧ balance (view s' a) = balance (view s a).
Proof.
  intros [_ V1 V2 Hne] Hh Hs Ht Hk Henc Hsnd Hst Hrc.
  assert (ac_body_slash_decode (tx_body t) = Some (evidence h a h1 h2 sig1 sig2)) as Hd.
  { pose proof (proj2 (proj2 (proj2 bodies_encode_decode)) (evidence h a h1 h2 sig1 sig2) Hh) as E. by rewrite Henc in E. }
  destruct (apply_accepted s t slot bf Hs Ht Hrc) as (v & _ & _ & Hp & ->). cbv zeta.
  assert (body_of s t slot = mkBody (ac_state_set s (with_stake (view s a) 0))
    (with_balance (sender_of s t) (balance (sender_of s t) ⊕ (stake (view s a) / 2))) (needed_gas t) None 0) as Eb.
  { unfold body_of, apply_body. rewrite Hk. cbn. unfold apply_slash. rewrite Hd. cbn [evidence block_hash_a block_hash_b slash_height sig_a sig_b slash_validator].
    destruct (ac_hash_eq h1 h2) eqn:E; [by apply ac_hash_eq_true in E|]. rewrite V1, V2. cbn [negb orb].
    rewrite ac_state_get_spec by done. cbn [snd]. by rewrite (proj2 (Z.eqb_neq _ _) Hst). }
  rewrite Eb. cbn [bo_err bo_state]. split; [done|].
  pose proof (view_wf s a Hs) as Hv. pose proof (view_addr s a Hs) as Ea.
  assert (state_wf (ac_state_set s (with_stake (view s a) 0))) as Hw.
  { apply ac_state_set_wf; [done|]. destruct Hv. by constructor. }
  assert (addr (sender_of s t) = tx_sender t) as Es by by apply view_addr.
  rewrite view_set_ne; [|done|unfold final_sender; cbn [addr with_balance bo_sender]; congruence].
  rewrite view_set, decide_True by done. done.
Qed.
End Agreement.
