(* ===== verification/Unique.v ===== *)
(** * No transaction twice

    The nonces of a sender's transactions on a chain count up from zero, so no two
    transactions of a chain have both sender and nonce in common, and, as the hash covers
    both, the index of transactions has no hash twice unless the hash function collides.
    That makes the lookup by hash exact. *)

From S2P Require Import Prelude Common Crypto Cursor Codec SortedArray State Apply Econ Chain Accept Ledger Agreement.

Section Unique.
Context `{!Sodium} `{!LongDouble}.

(** The transactions of the stored blocks, in order. *)
Definition ledger_txs (rd : Z → option ac_block_t) (n : nat) : list ac_tx_t := ledger_entries (λ l _ _, l) rd n.
Definition txs_of (c : ac_chain_t) : list ac_tx_t := ledger_txs (block_read c) (Z.to_nat (c_height c)).
Definition by_sender (a : ac_addr_t) (L : list ac_tx_t) : list ac_tx_t := filter (λ t, tx_sender t = a) L.

(** Every sender's transactions are numbered from 0, and its account has the next number. *)
Record numbered (L : list ac_tx_t) (s : ac_state_t) : Prop := {
  nb_next a : nonce (view s a) = u64 (zlen (by_sender a L));
  nb_nonce a i t : by_sender a L !! i = Some t → tx_nonce t = u64 (Z.of_nat i)
}.

Lemma by_sender_snoc a L t : by_sender a (L ++ [t]) = by_sender a L ++ (if decide (tx_sender t = a) then [t] else []).
Proof. unfold by_sender. rewrite filter_app. by destruct (decide (tx_sender t = a)); [rewrite filter_cons_True|rewrite filter_cons_False]. Qed.
Lemma numbered_same L s s' : (∀ a, nonce (view s' a) = nonce (view s a)) → numbered L s → numbered L s'.
Proof. intros E [H1 H2]. constructor; [intros a; by rewrite E|done]. Qed.

Lemma numbered_apply L s t slot bf : state_wf s → tx_wf t → (ac_state_apply_tx s t slot bf).1.1 ≠ -1 →
  numbered L s → numbered (L ++ [t]) (ac_state_apply_tx s t slot bf).1.2.
Proof.
  intros Hs Ht Hrc [H1 H2]. destruct (apply_nonces s t slot bf Hs Ht Hrc) as (En & Es & Eo & _). constructor.
  - intros a. rewrite by_sender_snoc. destruct (decide (tx_sender t = a)) as [<- |Hne]; [|by rewrite app_nil_r, Eo].
    rewrite Es, En, H1, length_app. cbn. replace (Z.of_nat (_ + 1)) with (zlen (by_sender (tx_sender t) L) + 1) by lia. warith.
  - intros a i u. rewrite by_sender_snoc. destruct (decide (tx_sender t = a)) as [<- |Hne]; [|rewrite app_nil_r; apply H2].
    intros [Hi|[Hi [Hz Hu]%list_lookup_singleton_Some]]%lookup_app_Some; [by eapply H2|].
    subst u. rewrite En, H1. do 2 f_equal. lia.
Qed.
Lemma numbered_block l L s slot bf g tp : state_wf s → Forall tx_wf l → (apply_block_txs s l slot bf g tp).1.1.1 = true →
  numbered L s → numbered (L ++ l) (apply_block_txs s l slot bf g tp).1.1.2.
Proof.
  intros Hs Hl. revert L s g tp Hs. induction Hl as [|t l Ht Hl IH]; intros L s g tp Hs; cbn [apply_block_txs]; [by rewrite app_nil_r|].
  destruct (negb (ac_tx_verify t)); [done|]. pose proof (apply_tx_wf s t slot bf Hs Ht) as Hw.
  pose proof (numbered_apply L s t slot bf Hs Ht) as Hn. destruct (ac_state_apply_tx s t slot bf) as [[rc s1] r]. destruct Hw as [Hw _].
  destruct (Z.ltb_spec rc 0); [done|]. destruct (_ <? _); [done|]. intros Hok HL.
  change (L ++ t :: l) with (L ++ [t] ++ l). rewrite app_assoc. apply IH; [done|done|]. apply Hn; [cbn; lia|done].
Qed.

(** Rewards leave nonces alone. *)
Lemma credit_nonce s a x y : state_wf s → nonce (view (ac_state_credit s a x) y) = nonce (view s y).
Proof.
  intros Hs. unfold ac_state_credit. rewrite ac_state_get_spec by done. cbn [snd]. rewrite view_set by done. cbn [addr].
  rewrite view_addr by done. destruct (decide (y = a)) as [-> |]; done.
Qed.
Lemma debit_nonce s a x y : state_wf s → nonce (view (ac_state_debit s a x) y) = nonce (view s y).
Proof.
  intros Hs. unfold ac_state_debit. rewrite ac_state_get_spec by done. cbn [snd]. rewrite view_set by done. cbn [addr].
  rewrite view_addr by done. destruct (decide (y = a)) as [-> |]; done.
Qed.
Lemma numbered_exec L s k : finalised s k → numbered L s → numbered (L ++ txs k) (exec_block s k).
Proof.
  intros [Hs Hk Htx _ _ _] HL. unfold exec_block.
  pose proof (numbered_block (txs k) L s _ _ 0 0 Hs (wf_txs k Hk) Htx HL) as Hn.
  pose proof (apply_block_txs_wf (txs k) s (h_slot (header k)) (h_base_fee (header k)) 0 0 Hs (wf_txs k Hk)) as Hw.
  destruct (apply_block_txs _ _ _ _ _ _) as [[[ok s1] g] tp]. cbn in Hn. destruct Hw as [Hw _].
  eapply numbered_same; [|exact Hn]. intros a. unfold pay_leader. rewrite debit_nonce by (by apply credit_wf). by apply credit_nonce.
Qed.

(** A genesis starts all nonces at 0. *)
Lemma genesis_numbered g : genesis_wf g → numbered [] (genesis_state g).
Proof.
  intros [Hid _ Hg]. assert (∀ l s, Forall (λ a, is_u64 (ga_balance a) ∧ is_u64 (ga_stake a)) l → state_wf s →
    numbered [] s → numbered [] (foldl genesis_set s l)) as Hl.
  { induction l as [|a l IH]; intros s; [done|]. intros [[Hb Hst] Hl]%Forall_cons Hs HN. cbn [foldl].
    apply IH; [done|by apply ac_state_set_wf; [|constructor]|]. eapply numbered_same; [|exact HN]. intros x. unfold genesis_set.
    rewrite view_set by done. cbn [addr]. destruct (decide (x = ga_addr a)) as [-> |]; [|done]. by rewrite (nb_next _ _ HN). }
  assert (state_wf (ac_state_new (g_chain_id g))) as Hn by (constructor; [exact Hid|apply SSorted_nil|constructor|apply SSorted_nil|constructor]).
  apply Hl; [done|apply ac_state_set_wf; [done|by constructor]|]. constructor; [|by intros]. intros a.
  rewrite view_set by done. cbn [addr]. by destruct (decide (a = SYS_REWARD_POOL)).
Qed.

Lemma ledger_txs_numbered g c n : genesis_wf g → replica g c → Z.of_nat n <= c_height c →
  (∀ h, 1 <= h <= c_height c → is_Some (block_read c h)) →
  numbered (ledger_txs (block_read c) n) (replay (block_read c) (genesis_state g) n).
Proof.
  intros Hg Hr Hn Hb. induction n as [|n IH]; [by apply genesis_numbered|]. unfold ledger_txs. cbn [ledger_entries replay].
  destruct (Hb (Z.of_nat (S n))) as [k Hk]; [lia|]. rewrite Hk. apply numbered_exec; [|apply IH; lia].
  destruct (rp_finalised _ _ Hr (Z.of_nat (S n)) k) as [_ Hf]; [lia|done|]. unfold state_at in Hf.
  by replace (Z.to_nat (Z.of_nat (S n) - 1)) with n in Hf by lia.
Qed.

(** ** Distinct transactions, distinct hashes *)

Lemma numbered_nodup L : (∀ a i t, by_sender a L !! i = Some t → tx_nonce t = u64 (Z.of_nat i)) → zlen L < U64 →
  NoDup ((λ t, (tx_sender t, tx_nonce t)) <$> L).
Proof.
  induction L as [|t L IH] using rev_ind; intros Hn Hl; [constructor|]. rewrite length_app in Hl. cbn in Hl.
  assert (∀ a i u, by_sender a L !! i = Some u → tx_nonce u = u64 (Z.of_nat i)) as Hp.
  { intros a i u Hi. eapply (Hn a). rewrite by_sender_snoc. by apply lookup_app_l_Some. }
  rewrite fmap_app. apply NoDup_app. split; [apply IH; [done|lia]|]. split; [|apply NoDup_singleton].
  intros p (u & -> & Hu)%list_elem_of_fmap [= Es En]%list_elem_of_singleton.
  assert (u ∈ by_sender (tx_sender t) L) as [i Hi]%list_elem_of_lookup by (by apply list_elem_of_filter).
  pose proof (length_filter (λ x, tx_sender x = tx_sender t) L) as Hf. pose proof (lookup_lt_Some _ _ _ Hi) as Hlt. unfold by_sender in Hlt.
  assert (tx_nonce t = u64 (zlen (by_sender (tx_sender t) L))) as Et.
  { eapply (Hn (tx_sender t)). rewrite by_sender_snoc, decide_True by done. rewrite lookup_app_r by lia. by rewrite Nat.sub_diag. }
  rewrite (Hp _ _ _ Hi), Et in En. unfold by_sender in En. rewrite !u64_id in En by (unfold is_u64; lia). lia.
Qed.
Lemma NoDup_fmap_finer {A B C} (f : A → B) (g : A → C) l :
  (∀ x y, x ∈ l → y ∈ l → f x = f y → g x = g y) → NoDup (g <$> l) → NoDup (f <$> l).
Proof.
  induction l as [|x l IH]; intros Hfg; cbn [fmap list_fmap]; [constructor|]. intros [Hx Hl]%NoDup_cons. apply NoDup_cons. split.
  - intros (y & E & Hy)%list_elem_of_fmap. apply Hx. apply list_elem_of_fmap. exists y. split; [|done].
    apply Hfg; [by left|by right|done].
  - apply IH; [|done]. intros u v Hu Hv. apply Hfg; by right.
Qed.
Lemma tx_entries_hashes l h i : ti_hash <$> tx_entries l h i = ac_tx_hash <$> l.
Proof. revert i. induction l as [|t l IH]; intros i; [done|]. cbn. by rewrite IH. Qed.
Lemma ledger_hashes rd n : ti_hash <$> ledger_entries tx_entries rd n = ac_tx_hash <$> ledger_txs rd n.
Proof.
  unfold ledger_txs. induction n as [|n IH]; [done|]. cbn [ledger_entries]. rewrite !fmap_app, IH. f_equal.
  destruct (rd _); [apply tx_entries_hashes|done].
Qed.

(** The hash does not confuse transactions of the chain that differ in sender or nonce, and
    there are fewer than 2^64 of them. *)
Record hashes_apart (c : ac_chain_t) : Prop := {
  ha_few : zlen (txs_of c) < U64;
  ha_apart t u : t ∈ txs_of c → u ∈ txs_of c → ac_tx_hash t = ac_tx_hash u → tx_sender t = tx_sender u ∧ tx_nonce t = tx_nonce u
}.

Lemma index_nodup c : reachable true c → hashes_apart c → NoDup (ti_hash <$> c_tx_index c).
Proof.
  intros (g & Hg & Hr) [Hf Ha]. destruct (reachable_from_ok true g c Hg Hr) as [HL Hst]. pose proof (lg_linked _ HL) as Hlk.
  pose proof (lk_height _ _ _ _ Hlk) as Hh. rewrite (ix_tx _ (sd_index _ (Hst eq_refl))), ledger_hashes.
  apply (NoDup_fmap_finer _ (λ t, (tx_sender t, tx_nonce t))).
  { intros t u Ht Hu E. by destruct (Ha t u Ht Hu E) as [-> ->]. }
  apply numbered_nodup; [|done]. apply (ledger_txs_numbered g c); [done|by apply reachable_replica|lia|].
  intros h Hle. destruct (lk_read _ _ _ _ Hlk h) as (k & Hk & _); [lia|]. by exists k.
Qed.

Lemma reachable_accept c k env : reachable true c → chain_fits c → block_wf k → writes_ok env = true →
  reachable true (ac_chain_accept_block c k env).2.
Proof. intros (g & Hg & Hr) Hf Hk Hw. exists g. split; [done|]. eapply reach_step; [exact Hr|]. by apply step_accept. Qed.

(** C15. Transaction lookup, end to end: on a chain reached without write failures, unless the
    hash function confuses two of its transactions with different sender or nonce, looking
    up a hash returns a height and a position exactly when the block stored at that height
    holds a transaction with that hash at that position, whatever was indexed, sorted and
    queried before. (That no transaction is on the chain twice is part of the proof.) *)
Theorem reachable_tx_find c x height idx :
  reachable true c → hashes_apart c →
  ((ac_chain_tx_find c x).1 = Some (height, idx) ↔
   1 <= height <= c_height c ∧ 0 <= idx ∧
   ∃ k t, block_read c height = Some k ∧ txs k !! Z.to_nat idx = Some t ∧ ac_tx_hash t = x).
Proof.
  intros Hr Ha. apply tx_find_stored; [by eapply reachable_ledger | by apply reachable_stored | by apply index_nodup].
Qed.
End Unique.

(** ** Witness *)

#[local] Existing Instance toy_sodium.
#[local] Existing Instance x87.

Lemma demo_next_txs : txs_of demo_next = [demo_tx].
Proof.
  unfold txs_of. assert (Z.to_nat (c_height demo_next) = 1%nat) as -> by (vm_compute; reflexivity).
  unfold ledger_txs. cbn [ledger_entries app]. change (Z.of_nat 1) with 1. by rewrite demo_next_read, demo_block_txs.
Qed.
Lemma reachable_tx_find_witness :
  (ac_chain_tx_find demo_next (ac_tx_hash demo_tx)).1 = Some (1, 0).
Proof.
  apply (reachable_tx_find demo_next (ac_tx_hash demo_tx) 1 0 (demo_reachable true)).
  - constructor; rewrite demo_next_txs; [reflexivity|]. intros t u ->%list_elem_of_singleton ->%list_elem_of_singleton _. done.
  - split; [by vm_compute|]. split; [done|]. exists demo_block, demo_tx.
    split; [apply demo_next_read|]. split; [|done]. by rewrite demo_block_txs.
Defined.
