(* ===== verification/Consensus.v ===== *)
(** * consensus.h / consensus.c: proposals, votes and sealing

    The state of [ac_consensus_s] with the two fixed arrays, and the handlers.
    A pointer into an array is an index. What a handler broadcasts is appended
    to [cs_sent]. Handlers run under the consensus mutex and are one step each;
    the leader's slot routine builds its block before it takes the mutex, so it
    is two steps. The clock is read several times in a handler: each read is a
    field of [cenv_t]. *)

From S2P Require Import Prelude Common Crypto Cursor Codec SortedArray State Apply Mempool Econ Chain Accept.

Abbreviation AC_PENDING_MAX := 8%nat.
Abbreviation AC_HDRS_REQ_MIN_INTERVAL_MS := 4000.
Abbreviation AC_SEAL_GRACE_MS := 300.
Abbreviation AC_MSG_BLOCK_ANN := 6.
Abbreviation AC_MSG_COMMIT_VOTE := 8.
Abbreviation AC_MSG_HEADERS_REQ := 2.
Abbreviation AC_VOTE_WIRE_LEN := 200%nat.

Abbreviation priority_t := (bytes 16).

Record pending_t := mkPending {
  pn_occupied : bool;
  pn_committed : bool;
  pn_height : Z;
  pn_slot : Z;
  pn_block_hash : ac_hash_t;
  pn_block : ac_block_t;
  pn_signers : list ac_commit_signer_t;
  pn_first_seen_ms : Z;
  pn_priority : priority_t;
  pn_threshold_reached_ms : Z
}.

Record slot_vote_t := mkSlotVote {
  sv_slot : Z;
  sv_best_priority : priority_t;
  sv_voted_block : ac_hash_t;
  sv_voted : bool
}.

Record ac_consensus_t := mkCs {
  cs_chain : ac_chain_t;
  cs_mempool : ac_mempool_t;
  cs_kp : ac_keypair_t;
  cs_my_addr : ac_addr_t;
  cs_bcast : bool;
  cs_validator : bool;
  cs_pending : list pending_t;
  cs_slot_votes : list slot_vote_t;
  cs_last_hdrs_req_ms : Z;
  cs_last_hdrs_req_target : Z;
  cs_vote_height : Z;
  cs_vote_block : ac_hash_t;
  cs_vote_priority : priority_t;
  cs_sent : list (Z * list byte)
}.

(** The clock reads of a handler: [ac_now_ms] in [pending_alloc], in
    [try_commit_inner], in [ac_chain_current_slot] called from there, and before
    a header request; then what [ac_chain_accept_block] sees. *)
Record cenv_t := mkCEnv { t_alloc : Z; t_commit : Z; t_wall : Z; t_req : Z; e_io : env_t }.

(** Field updates. *)
Definition set_chain (cs : ac_consensus_t) (c : ac_chain_t) : ac_consensus_t :=
  mkCs c (cs_mempool cs) (cs_kp cs) (cs_my_addr cs) (cs_bcast cs) (cs_validator cs) (cs_pending cs)
    (cs_slot_votes cs) (cs_last_hdrs_req_ms cs) (cs_last_hdrs_req_target cs) (cs_vote_height cs)
    (cs_vote_block cs) (cs_vote_priority cs) (cs_sent cs).
Definition set_mempool (cs : ac_consensus_t) (m : ac_mempool_t) : ac_consensus_t :=
  mkCs (cs_chain cs) m (cs_kp cs) (cs_my_addr cs) (cs_bcast cs) (cs_validator cs) (cs_pending cs)
    (cs_slot_votes cs) (cs_last_hdrs_req_ms cs) (cs_last_hdrs_req_target cs) (cs_vote_height cs)
    (cs_vote_block cs) (cs_vote_priority cs) (cs_sent cs).
Definition set_pending (cs : ac_consensus_t) (l : list pending_t) : ac_consensus_t :=
  mkCs (cs_chain cs) (cs_mempool cs) (cs_kp cs) (cs_my_addr cs) (cs_bcast cs) (cs_validator cs) l
    (cs_slot_votes cs) (cs_last_hdrs_req_ms cs) (cs_last_hdrs_req_target cs) (cs_vote_height cs)
    (cs_vote_block cs) (cs_vote_priority cs) (cs_sent cs).
Definition set_slot_votes (cs : ac_consensus_t) (l : list slot_vote_t) : ac_consensus_t :=
  mkCs (cs_chain cs) (cs_mempool cs) (cs_kp cs) (cs_my_addr cs) (cs_bcast cs) (cs_validator cs)
    (cs_pending cs) l (cs_last_hdrs_req_ms cs) (cs_last_hdrs_req_target cs) (cs_vote_height cs)
    (cs_vote_block cs) (cs_vote_priority cs) (cs_sent cs).
Definition set_hdrs_req (cs : ac_consensus_t) (ms target : Z) : ac_consensus_t :=
  mkCs (cs_chain cs) (cs_mempool cs) (cs_kp cs) (cs_my_addr cs) (cs_bcast cs) (cs_validator cs)
    (cs_pending cs) (cs_slot_votes cs) ms target (cs_vote_height cs)
    (cs_vote_block cs) (cs_vote_priority cs) (cs_sent cs).
Definition set_vote (cs : ac_consensus_t) (h : Z) (bh : ac_hash_t) (pr : priority_t) : ac_consensus_t :=
  mkCs (cs_chain cs) (cs_mempool cs) (cs_kp cs) (cs_my_addr cs) (cs_bcast cs) (cs_validator cs)
    (cs_pending cs) (cs_slot_votes cs) (cs_last_hdrs_req_ms cs) (cs_last_hdrs_req_target cs) h bh pr
    (cs_sent cs).
(** [if (cs->bcast) cs->bcast(type, payload, ...)]. *)
Definition bcast (cs : ac_consensus_t) (type : Z) (payload : list byte) : ac_consensus_t :=
  if cs_bcast cs then
    mkCs (cs_chain cs) (cs_mempool cs) (cs_kp cs) (cs_my_addr cs) (cs_bcast cs) (cs_validator cs)
      (cs_pending cs) (cs_slot_votes cs) (cs_last_hdrs_req_ms cs) (cs_last_hdrs_req_target cs)
      (cs_vote_height cs) (cs_vote_block cs) (cs_vote_priority cs) (cs_sent cs ++ [(type, payload)])
  else cs.
Definition put_pending (cs : ac_consensus_t) (i : nat) (p : pending_t) : ac_consensus_t :=
  set_pending cs (<[i := p]> (cs_pending cs)).
Definition put_slot_vote (cs : ac_consensus_t) (i : nat) (v : slot_vote_t) : ac_consensus_t :=
  set_slot_votes cs (<[i := v]> (cs_slot_votes cs)).

Definition with_pn_signers (p : pending_t) (l : list ac_commit_signer_t) : pending_t :=
  mkPending (pn_occupied p) (pn_committed p) (pn_height p) (pn_slot p) (pn_block_hash p) (pn_block p) l
    (pn_first_seen_ms p) (pn_priority p) (pn_threshold_reached_ms p).

(** ** The pending table *)

Definition zero_block : ac_block_t :=
  mkBlock (mkHeader 0 0 0 (zeros 32) 0 (zeros 32) (zeros 64) (zeros 32) (zeros 32) 0 0 0 0) [] [].
Definition pending_init (occupied : bool) (first_seen : Z) : pending_t :=
  mkPending occupied false 0 0 (zeros 32) zero_block [] first_seen (zeros 16) 0.

Definition pending_find (cs : ac_consensus_t) (bh : ac_hash_t) : option nat :=
  scan (λ p, pn_occupied p && ac_hash_eq (pn_block_hash p) bh) (cs_pending cs) 0.

(** The first free entry, else the first among those seen earliest. *)
Fixpoint alloc_index (l : list pending_t) (i : nat) (oldest : option (nat * Z)) : option nat :=
  match l with
  | [] => fst <$> oldest
  | p :: l' =>
      if negb (pn_occupied p) then Some i
      else alloc_index l' (S i)
             (match oldest with
              | None => Some (i, pn_first_seen_ms p)
              | Some (j, t) => if pn_first_seen_ms p <? t then Some (i, pn_first_seen_ms p) else oldest
              end)
  end.
Definition pending_alloc (cs : ac_consensus_t) (now : Z) : nat * ac_consensus_t :=
  let i := default O (alloc_index (cs_pending cs) 0 None) in
  (i, put_pending cs i (pending_init true now)).

(** ** Slot votes *)

Definition ff16 : priority_t := bytes_of 16 (repeat (byte_of 255) 16).
Definition priority_cmp (x y : priority_t) : comparison := memcmp (b x) (b y) 16.

(** [inl] of the entry with that slot, [inr] of the first with the lowest slot. *)
Fixpoint slot_index (l : list slot_vote_t) (slot : Z) (i : nat) (oldest : option (nat * Z)) : nat + nat :=
  match l with
  | [] => inr (default O (fst <$> oldest))
  | v :: l' =>
      if sv_slot v =? slot then inl i
      else slot_index l' slot (S i)
             (match oldest with
              | None => Some (i, sv_slot v)
              | Some (j, t) => if sv_slot v <? t then Some (i, sv_slot v) else oldest
              end)
  end.
Definition slot_vote_for (cs : ac_consensus_t) (slot : Z) : nat * ac_consensus_t :=
  match slot_index (cs_slot_votes cs) slot 0 None with
  | inl i => (i, cs)
  | inr i => (i, put_slot_vote cs i (mkSlotVote slot ff16 (zeros 32) false))
  end.
Definition slot_vote_at (cs : ac_consensus_t) (i : nat) : slot_vote_t :=
  default (mkSlotVote 0 (zeros 16) (zeros 32) false) (cs_slot_votes cs !! i).

(** ** Vote wire format *)

Record vote_t := mkVote {
  v_height : Z; v_block_hash : ac_hash_t; v_signer : ac_addr_t; v_sig : ac_sig_t; v_proof : ac_vrf_proof_t }.

Definition vote_encode (v : vote_t) : list byte :=
  ac_be64 (v_height v) ++ b (v_block_hash v) ++ b (v_signer v) ++ b (v_sig v) ++ b (v_proof v).
Definition vote_decode (buf : list byte) : option vote_t :=
  if negb (length buf =? AC_VOTE_WIRE_LEN)%nat then None
  else Some (mkVote (ac_rd64 (slice buf 0 8)) (bytes_of 32 (slice buf 8 32)) (bytes_of 32 (slice buf 40 32))
               (bytes_of 64 (slice buf 72 64)) (bytes_of 64 (slice buf 136 64))).

Section Consensus.
Context `{!Sodium} `{!LongDouble}.

(** ** Sortition *)

Definition ld_gt_1 (x : ld_t) : bool := if 0 <=? x.2 then 1 <? x.1 * 2 ^ x.2 else 2 ^ (- x.2) <? x.1.

(** The draw of a proof: [ac_vrf_verify] writes beta when the proof verifies, as
    it does for a proof just made with the same key pair; otherwise beta is
    uninitialised memory. *)
Definition own_beta (kp : ac_keypair_t) (proof : ac_vrf_proof_t) (alpha : list byte) : ac_vrf_out_t :=
  default (zeros 32) (ac_vrf_verify proof alpha (pk kp)).

(** The proof when eligible; the chain's seed cache may be filled. *)
Definition am_i_leader (cs : ac_consensus_t) (slot : Z) : option ac_vrf_proof_t * ac_consensus_t :=
  let '(has, me) := ac_state_get (c_state (cs_chain cs)) (cs_my_addr cs) in
  if negb has || (stake me <? AC_MIN_STAKE_UCRD) then (None, cs)
  else
    let '(seed, c) := ac_chain_epoch_seed (cs_chain cs) (ac_epoch_of slot) in
    let cs := set_chain cs c in
    let alpha := leader_alpha seed slot in
    let proof := (ac_vrf_prove alpha (cs_kp cs)).1 in
    let nactive := ac_chain_active_count c in
    if nactive =? 0 then (None, cs)
    else
      let beta := own_beta (cs_kp cs) proof alpha in
      let p := ld_div (ld_of_u64 2) (ld_of_u64 nactive) in
      let p := if ld_gt_1 p then ld_of_u64 1 else p in
      let thr := ld_mul p (ld_of_u64 UINT64_MAX) in
      let draw := ac_rd64 (slice (b beta) 0 8) in
      (if draw <? ld_to_u64 thr then Some proof else None, cs).

Definition am_i_committee (cs : ac_consensus_t) (slot : Z) : option ac_vrf_proof_t * ac_consensus_t :=
  let '(has, me) := ac_state_get (c_state (cs_chain cs)) (cs_my_addr cs) in
  if negb has || (stake me <? AC_MIN_STAKE_UCRD) then (None, cs)
  else
    let '(seed, c) := ac_chain_epoch_seed (cs_chain cs) (ac_epoch_of slot) in
    let cs := set_chain cs c in
    let total_sqrt := ac_chain_total_sqrt_stake c in
    let sqrt_me := ac_isqrt_u64 (stake me) in
    let alpha := committee_alpha seed slot in
    let proof := (ac_vrf_prove alpha (cs_kp cs)).1 in
    let beta := own_beta (cs_kp cs) proof alpha in
    let draw := ac_rd64 (slice (b beta) 0 8) in
    (if committee_eligible draw sqrt_me total_sqrt then Some proof else None, cs).

Definition PRIO_DOMAIN : list byte := str "AGCH:PRIO".
Definition compute_priority (beta : ac_vrf_out_t) (sqrt_stake : Z) : priority_t :=
  if sqrt_stake =? 0 then ff16
  else
    let h := ac_hash_multi [PRIO_DOMAIN; b beta] in
    let hi := ac_rd64 (slice (b h) 0 8) in
    let lo := ac_rd64 (slice (b h) 8 8) in
    let q_hi := hi / sqrt_stake in
    let r_hi := hi mod sqrt_stake in
    let q_lo := lo / sqrt_stake in
    let q_lo := if 0 <? sqrt_stake then q_lo ⊕ ((UINT64_MAX / sqrt_stake) ⊗ r_hi) else q_lo in
    bytes_of 16 (ac_be64 q_hi ++ ac_be64 q_lo).

(** ** Voting *)

Definition signed_by (l : list ac_commit_signer_t) (a : ac_addr_t) : bool :=
  existsb (λ x, ac_addr_eq (cs_signer x) a) l.

(** Add our vote to entry [i] unless it is there, mark the slot, broadcast. *)
Definition our_vote_now (cs : ac_consensus_t) (i : nat) : ac_consensus_t :=
  match cs_pending cs !! i with
  | None => cs
  | Some p =>
      match am_i_committee cs (pn_slot p) with
      | (None, cs) => cs
      | (Some cproof, cs) =>
          let vmsg := ac_vote_message (pn_height p) (pn_block_hash p) in
          let sig := ac_sign vmsg (cs_kp cs) in
          let p :=
            if negb (signed_by (pn_signers p) (cs_my_addr cs)) && (zlen (pn_signers p) <? AC_COMMITTEE_MAX)
            then with_pn_signers p (pn_signers p ++ [mkSigner (cs_my_addr cs) sig cproof]) else p in
          let cs := put_pending cs i p in
          let '(j, cs) := slot_vote_for cs (pn_slot p) in
          let cs := put_slot_vote cs j
            (mkSlotVote (sv_slot (slot_vote_at cs j)) (pn_priority p) (pn_block_hash p) true) in
          bcast cs AC_MSG_COMMIT_VOTE
            (vote_encode (mkVote (pn_height p) (pn_block_hash p) (cs_my_addr cs) sig cproof))
      end
  end.

(** ** Sealing *)

Fixpoint commit_sum (s : ac_state_t) (l : list ac_commit_signer_t) (sum : Z) : Z :=
  match l with
  | [] => sum
  | x :: l' =>
      let a := (ac_state_get s (cs_signer x)).2 in
      commit_sum s l' (if AC_MIN_STAKE_UCRD <=? stake a then sum ⊕ ac_isqrt_u64 (stake a) else sum)
  end.

Fixpoint remove_txs (mp : ac_mempool_t) (l : list ac_tx_t) : ac_mempool_t :=
  match l with [] => mp | t :: l' => remove_txs (ac_mempool_remove mp (ac_tx_hash t)) l' end.

(** The two gates on the votes gathered so far. *)
Definition quorum_reached (c : ac_chain_t) (l : list ac_commit_signer_t) : bool :=
  let live_sqrt := ac_chain_live_sqrt_stake c in
  let total_sqrt := ac_chain_total_sqrt_stake c in
  let live_sqrt := if live_sqrt =? 0 then total_sqrt else live_sqrt in
  if live_sqrt =? 0 then false
  else
    let sum_sqrt := commit_sum (c_state c) l 0 in
    if (sum_sqrt ⊗ 3) <? (live_sqrt ⊗ 2) then false
    else negb ((0 <? total_sqrt) && ((sum_sqrt ⊗ 2) <=? total_sqrt)).

(** [p] after the accept: committed with its certificate, or without one. *)
Definition sealed (p : pending_t) (committed : bool) (k : ac_block_t) (reached : Z) : pending_t :=
  mkPending (pn_occupied p) committed (pn_height p) (pn_slot p) (pn_block_hash p) k (pn_signers p)
    (pn_first_seen_ms p) (pn_priority p) reached.

Definition try_commit_inner (cs : ac_consensus_t) (i : nat) (force_seal : bool) (env : cenv_t) : ac_consensus_t :=
  match cs_pending cs !! i with
  | None => cs
  | Some p =>
      if negb (pn_occupied p) || pn_committed p then cs
      else if negb (quorum_reached (cs_chain cs) (pn_signers p)) then cs
      else
        let now := t_commit env in
        let wall_slot := ac_chain_current_slot (cs_chain cs) (t_wall env) in
        let catching_up := (pn_slot p ⊕ 1) <? wall_slot in
        let reached := if pn_threshold_reached_ms p =? 0 then now else pn_threshold_reached_ms p in
        if negb force_seal && negb catching_up && ((now ⊖ reached) <? AC_SEAL_GRACE_MS)
        then put_pending cs i (sealed p false (pn_block p) reached)
        else
          let k := with_signers (pn_block p) (pn_signers p) in
          let '(r, c) := ac_chain_accept_block (cs_chain cs) k (e_io env) in
          let cs := set_chain cs c in
          match r with
          | AC_ACCEPT_OK | AC_ACCEPT_DUP =>
              let cs := put_pending cs i (sealed p true k reached) in
              let cs := set_mempool cs (remove_txs (cs_mempool cs) (txs k)) in
              match ac_block_encode k with
              | Some enc => bcast cs AC_MSG_BLOCK_ANN enc
              | None => cs
              end
          | _ => put_pending cs i (sealed p false (with_signers (pn_block p) []) reached)
          end
  end.
Definition try_commit (cs : ac_consensus_t) (i : nat) (env : cenv_t) : ac_consensus_t :=
  try_commit_inner cs i false env.

(** ** Incoming blocks *)

(** Fold foreign signers into ours: by address, while there is room. *)
Fixpoint merge_signers (mine l : list ac_commit_signer_t) : list ac_commit_signer_t :=
  match l with
  | [] => mine
  | x :: l' =>
      merge_signers (if negb (signed_by mine (cs_signer x)) && (zlen mine <? AC_COMMITTEE_MAX)
                     then mine ++ [x] else mine) l'
  end.

(** A block past our next height: ask for the gap, not too often. *)
Definition request_headers (cs : ac_consensus_t) (target : Z) (now : Z) : ac_consensus_t :=
  let our_height := c_height (cs_chain cs) in
  let stale := AC_HDRS_REQ_MIN_INTERVAL_MS <=? (now ⊖ cs_last_hdrs_req_ms cs) in
  let gap_grew := (cs_last_hdrs_req_target cs ⊕ 64) <? target in
  if cs_bcast cs && (stale || gap_grew) then
    let cs := set_hdrs_req cs now target in
    let count := u32 (target ⊖ our_height) in
    let count := if 256 <? count then 256 else count in
    bcast cs AC_MSG_HEADERS_REQ (ac_be64 (our_height ⊕ 1) ++ ac_be32 count)
  else cs.

(** Lower the best priority seen in a slot. *)
Definition note_priority (cs : ac_consensus_t) (slot : Z) (pr : priority_t) : ac_consensus_t :=
  let '(j, cs) := slot_vote_for cs slot in
  let sv := slot_vote_at cs j in
  if is_lt (priority_cmp pr (sv_best_priority sv))
  then put_slot_vote cs j (mkSlotVote (sv_slot sv) pr (sv_voted_block sv) (sv_voted sv)) else cs.

(** A proposal in a fresh entry of the table; its own signers are kept beside
    it. *)
Definition stash (cs : ac_consensus_t) (k : ac_block_t) (bh : ac_hash_t) (slot : Z)
    (sg : list ac_commit_signer_t) (pr : priority_t) (now : Z) : nat * ac_consensus_t :=
  let '(i, cs) := pending_alloc cs now in
  (i, put_pending cs i (mkPending true false (h_height (header k)) slot bh (with_signers k []) sg now pr 0)).

Definition ac_consensus_handle_block (cs : ac_consensus_t) (buf : list byte) (env : cenv_t) : ac_consensus_t :=
  match ac_block_decode buf with
  | ERR | OOB => cs
  | OK (k, _) =>
      let h := header k in
      if negb (h_version h =? AC_BLOCK_VERSION) then cs
      else
        let bh := ac_block_hash h in
        match pending_find cs bh with
        | Some i =>
            match cs_pending cs !! i with
            | None => cs
            | Some p =>
                let cs := put_pending cs i (with_pn_signers p (merge_signers (pn_signers p) (signers k))) in
                try_commit cs i env
            end
        | None =>
            let our_height := c_height (cs_chain cs) in
            if (our_height ⊕ 1) <? h_height h then request_headers cs (h_height h) (t_req env)
            else if negb (h_height h =? (our_height ⊕ 1)) || negb (ac_hash_eq (h_parent_hash h) (c_tip_hash (cs_chain cs)))
            then cs
            else
              let '(seed, c) := ac_chain_epoch_seed (cs_chain cs) (ac_epoch_of (h_slot h)) in
              let cs := set_chain cs c in
              match ac_vrf_verify (h_proposer_vrf_proof h) (leader_alpha seed (h_slot h)) (h_proposer h) with
              | None => cs
              | Some beta =>
                  let pa := (ac_state_get (c_state (cs_chain cs)) (h_proposer h)).2 in
                  let pr := compute_priority beta (ac_isqrt_u64 (stake pa)) in
                  let '(i, cs) := stash cs k bh (h_slot h) (take 256 (signers k)) pr (t_alloc env) in
                  let cs := note_priority cs (h_slot h) pr in
                  try_commit cs i env
              end
        end
  end.

(** ** Incoming votes *)

Definition ac_consensus_handle_vote (cs : ac_consensus_t) (buf : list byte) (env : cenv_t) : ac_consensus_t :=
  match vote_decode buf with
  | None => cs
  | Some v =>
      let vmsg := ac_vote_message (v_height v) (v_block_hash v) in
      if negb (ac_verify (v_sig v) vmsg (v_signer v)) then cs
      else
        match pending_find cs (v_block_hash v) with
        | None => cs
        | Some i =>
            match cs_pending cs !! i with
            | None => cs
            | Some p =>
                let '(seed, c) := ac_chain_epoch_seed (cs_chain cs) (ac_epoch_of (pn_slot p)) in
                let cs := set_chain cs c in
                let total_sqrt := ac_chain_total_sqrt_stake c in
                let sa := (ac_state_get (c_state c) (v_signer v)).2 in
                if stake sa <? AC_MIN_STAKE_UCRD then cs
                else
                  match ac_vrf_verify (v_proof v) (committee_alpha seed (pn_slot p)) (v_signer v) with
                  | None => cs
                  | Some beta =>
                      let draw := ac_rd64 (slice (b beta) 0 8) in
                      if negb (committee_eligible draw (ac_isqrt_u64 (stake sa)) total_sqrt) then cs
                      else if signed_by (pn_signers p) (v_signer v) then cs
                      else
                        let p := if zlen (pn_signers p) <? AC_COMMITTEE_MAX
                                 then with_pn_signers p (pn_signers p ++ [mkSigner (v_signer v) (v_sig v) (v_proof v)])
                                 else p in
                        try_commit (put_pending cs i p) i env
                  end
            end
        end
  end.

(** ** The slot's phases *)

(** Leadership, mempool and block building, before the consensus mutex. *)
Definition slot_build (cs : ac_consensus_t) (slot : Z) : option (ac_block_t * ac_vrf_proof_t) * ac_consensus_t :=
  if negb (cs_validator cs) then (None, cs)
  else
    match am_i_leader cs slot with
    | (None, cs) => (None, cs)
    | (Some lproof, cs) =>
        let snap := ac_mempool_snapshot (cs_mempool cs) 256 in
        let cs := set_mempool cs (ac_mempool_prune_expired (cs_mempool cs) slot).2 in
        let '(r, c) := ac_chain_build_block (cs_chain cs) slot (cs_kp cs) snap in
        ((λ k, (k, lproof)) <$> r, set_chain cs c)
    end.

Definition with_vrf (k : ac_block_t) (proof : ac_vrf_proof_t) : ac_block_t :=
  let h := header k in
  mkBlock (mkHeader (h_version h) (h_height h) (h_slot h) (h_parent_hash h) (h_timestamp_ms h) (h_proposer h)
             proof (h_state_root h) (h_tx_root h) (h_base_fee h) (h_gas_used h) (h_gas_limit h) (h_tx_count h))
          (txs k) (signers k).

(** The rest, under the mutex. *)
Definition slot_propose (cs : ac_consensus_t) (slot : Z) (k : ac_block_t) (lproof : ac_vrf_proof_t)
    (env : cenv_t) : ac_consensus_t :=
  let k := with_vrf k lproof in
  let bh := ac_block_hash (header k) in
  let me := (ac_state_get (c_state (cs_chain cs)) (cs_my_addr cs)).2 in
  let '(pseed, c) := ac_chain_epoch_seed (cs_chain cs) (ac_epoch_of slot) in
  let cs := set_chain cs c in
  let pbeta := own_beta (cs_kp cs) lproof (leader_alpha pseed slot) in
  let pr := compute_priority pbeta (ac_isqrt_u64 (stake me)) in
  let '(i, cs) := stash cs k bh slot [] pr (t_alloc env) in
  let cs := note_priority cs slot pr in
  let cs := match ac_block_encode (with_signers k []) with
            | Some enc => bcast cs AC_MSG_BLOCK_ANN enc
            | None => cs
            end in
  try_commit cs i env.

Definition slot_routine (cs : ac_consensus_t) (slot : Z) (env : cenv_t) : ac_consensus_t :=
  match slot_build cs slot with
  | (Some (k, lproof), cs) => slot_propose cs slot k lproof env
  | (None, cs) => cs
  end.

(** The first entry with the lowest priority among the open ones at a height. *)
Fixpoint best_pending (l : list pending_t) (target : Z) (i : nat) (best : option (nat * pending_t))
    : option (nat * pending_t) :=
  match l with
  | [] => best
  | p :: l' =>
      best_pending l' target (S i)
        (if negb (pn_occupied p) || pn_committed p || negb (pn_height p =? target) then best
         else match best with
              | None => Some (i, p)
              | Some (_, q) => if is_lt (priority_cmp (pn_priority p) (pn_priority q)) then Some (i, p) else best
              end)
  end.

Definition vote_phase (cs : ac_consensus_t) (slot : Z) (env : cenv_t) : ac_consensus_t :=
  if negb (cs_validator cs) then cs
  else
    let '(j, cs) := slot_vote_for cs slot in
    if sv_voted (slot_vote_at cs j) then cs
    else
      let target_h := c_height (cs_chain cs) ⊕ 1 in
      match best_pending (cs_pending cs) target_h 0 None with
      | None => cs
      | Some (i, best) =>
          if (cs_vote_height cs =? target_h) && negb (is_lt (priority_cmp (pn_priority best) (cs_vote_priority cs)))
          then
            match scan (λ q, pn_occupied q && negb (pn_committed q) && (pn_height q =? target_h)
                             && ac_hash_eq (pn_block_hash q) (cs_vote_block cs)) (cs_pending cs) 0 with
            | None => cs
            | Some q => try_commit (our_vote_now cs q) q env
            end
          else
            let cs := our_vote_now cs i in
            let cs := set_vote cs target_h (pn_block_hash best) (pn_priority best) in
            try_commit cs i env
      end.

(** Entries [i .. i + n - 1]. *)
Fixpoint seal_loop (cs : ac_consensus_t) (slot : Z) (i n : nat) (env : nat → cenv_t) : ac_consensus_t :=
  match n with
  | O => cs
  | S n' =>
      let cs :=
        match cs_pending cs !! i with
        | Some p => if negb (pn_occupied p) || negb (pn_slot p =? slot) || pn_committed p then cs
                    else try_commit_inner cs i true (env i)
        | None => cs
        end in
      seal_loop cs slot (S i) n' env
  end.
Definition seal_phase (cs : ac_consensus_t) (slot : Z) (env : nat → cenv_t) : ac_consensus_t :=
  seal_loop cs slot 0 AC_PENDING_MAX env.

Definition ac_consensus_new (c : ac_chain_t) (mp : ac_mempool_t) (kp : ac_keypair_t) (has_bcast validator : bool)
    : ac_consensus_t :=
  mkCs c mp kp (pk kp) has_bcast validator (repeat (pending_init false 0) AC_PENDING_MAX)
    (repeat (mkSlotVote 0 (zeros 16) (zeros 32) false) AC_PENDING_MAX) 0 0 0 (zeros 32) (zeros 16) [].
End Consensus.
