(* ===== verification/ConsensusFacts.v ===== *)
(** * Properties of the consensus handlers

    The invariant of the consensus state under every handler and every input;
    what a counted vote has been checked for; how votes move; what sealing
    does. *)

From S2P Require Import Prelude Common Crypto Cursor Codec SortedArray State Apply Mempool Econ Chain Accept Ledger Consensus.

(** ** Votes on the wire *)

(** The vote format round-trips, is exactly 200 bytes, and a buffer that decodes is
    the encoding of the vote it decodes to; other lengths are refused. *)
Theorem vote_wire_roundtrip v :
  is_u64 (v_height v) →
  length (vote_encode v) = AC_VOTE_WIRE_LEN ∧ vote_decode (vote_encode v) = Some v ∧
  ∀ buf w, vote_decode buf = Some w → buf = vote_encode w.
Proof.
  intros Hh. assert (length (vote_encode v) = AC_VOTE_WIRE_LEN) as Hl by (unfold vote_encode; len).
  split; [done|]. split.
  - unfold vote_decode. rewrite Hl, Nat.eqb_refl. cbn [negb]. unfold vote_encode.
    set (x1 := ac_be64 (v_height v)). set (x2 := b (v_block_hash v)). set (x3 := b (v_signer v)).
    set (x4 := b (v_sig v)). set (x5 := b (v_proof v)).
    assert (length x1 = 8 ∧ length x2 = 32 ∧ length x3 = 32 ∧ length x4 = 64 ∧ length x5 = 64)%nat as (L1 & L2 & L3 & L4 & L5)
      by (repeat split; apply b_length || done).
    pose proof (slice_app_mid [] x1 (x2 ++ x3 ++ x4 ++ x5)) as S1.
    pose proof (slice_app_mid x1 x2 (x3 ++ x4 ++ x5)) as S2.
    pose proof (slice_app_mid (x1 ++ x2) x3 (x4 ++ x5)) as S3.
    pose proof (slice_app_mid (x1 ++ x2 ++ x3) x4 x5) as S4.
    pose proof (slice_app_mid (x1 ++ x2 ++ x3 ++ x4) x5 []) as S5.
    rewrite <- ?app_assoc, ?length_app, ?L1, ?L2, ?L3, ?L4, ?L5, ?app_nil_r in *.
    cbn [app length Nat.add] in *. rewrite S1, S2, S3, S4, S5. unfold x1, x2, x3, x4, x5.
    rewrite ac_rd64_be64, u64_id, !bytes_of_b by done. by destruct v.
  - intros buf w. unfold vote_decode. destruct (Nat.eqb_spec (length buf) AC_VOTE_WIRE_LEN) as [E|]; [|done].
    intros [= <-]. unfold vote_encode. cbn [v_height v_block_hash v_signer v_sig v_proof].
    assert (∀ o n, (o + n <= 200)%nat → length (slice buf o n) = n) as Hs by (intros; apply slice_length; lia).
    rewrite ac_be64_rd64, !b_bytes_of by (apply Hs; lia).
    pose proof (slice_whole buf) as W. rewrite E in W. change AC_VOTE_WIRE_LEN with (8 + (32 + (32 + (64 + 64))))%nat in W.
    rewrite !slice_split in W. by rewrite <- W at 1.
Qed.

(** ** The invariant *)

Section Safety.
Context `{!Sodium} `{!LongDouble}.

Record pn_ok (p : pending_t) : Prop := {
  po_block : block_wf (with_signers (pn_block p) []);
  po_signers : zlen (pn_signers p) <= AC_COMMITTEE_MAX;
  po_hash : pn_block_hash p = ac_block_hash (header (pn_block p));
  po_height : pn_height p = h_height (header (pn_block p));
  po_slot : pn_slot p = h_slot (header (pn_block p))
}.

Record cs_ok (cs : ac_consensus_t) : Prop := {
  co_ledger : ledger_ok (cs_chain cs);
  co_pending : Forall (λ p, pn_occupied p = true → pn_ok p) (cs_pending cs);
  co_pending_n : length (cs_pending cs) = AC_PENDING_MAX;
  co_votes_n : length (cs_slot_votes cs) = AC_PENDING_MAX;
  co_mempool : Forall (λ e, tx_wf (e_tx e)) (mp_entries (cs_mempool cs));
  co_addr : cs_my_addr cs = pk (cs_kp cs)
}.

Lemma cs_ok_chain cs c : cs_ok cs → ledger_ok c → cs_ok (set_chain cs c).
Proof. by intros [] ?. Qed.
Lemma cs_ok_cache cs c : cs_ok cs → cache_only (cs_chain cs) c → cs_ok (set_chain cs c).
Proof. intros Hcs Hc. apply cs_ok_chain; [done|]. by eapply ledger_ok_cache, Hcs. Qed.
Lemma cs_ok_put cs i p : cs_ok cs → (pn_occupied p = true → pn_ok p) → cs_ok (put_pending cs i p).
Proof.
  intros [] Hp. constructor; try done; cbn; [|by rewrite length_insert]. by apply Forall_insert.
Qed.
Lemma cs_ok_slot_votes cs i v : cs_ok cs → cs_ok (put_slot_vote cs i v).
Proof. intros []. constructor; try done. cbn. by rewrite length_insert. Qed.
Lemma cs_ok_slot_vote_for cs slot : cs_ok cs → cs_ok (slot_vote_for cs slot).2.
Proof. intros Hcs. unfold slot_vote_for. destruct (slot_index _ _ _ _); [done|]. by apply cs_ok_slot_votes. Qed.
Lemma cs_ok_bcast cs t x : cs_ok cs → cs_ok (bcast cs t x).
Proof. intros Hcs. unfold bcast. destruct (cs_bcast cs) eqn:E; [|done]. by destruct Hcs. Qed.
Lemma cs_ok_vote cs h bh pr : cs_ok cs → cs_ok (set_vote cs h bh pr).
Proof. by intros []. Qed.
Lemma cs_ok_hdrs cs m t : cs_ok cs → cs_ok (set_hdrs_req cs m t).
Proof. by intros []. Qed.
Lemma cs_ok_mempool cs mp : cs_ok cs → mp_entries mp ⊆ mp_entries (cs_mempool cs) → cs_ok (set_mempool cs mp).
Proof.
  intros [] Hs. constructor; try done. cbn. rewrite Forall_forall in *. auto.
Qed.
Lemma cs_ok_seed cs e : cs_ok cs → cs_ok (set_chain cs (ac_chain_epoch_seed (cs_chain cs) e).2).
Proof. intros. apply cs_ok_cache; [done | apply epoch_seed_cache_only]. Qed.
Lemma cs_ok_note cs slot pr : cs_ok cs → cs_ok (note_priority cs slot pr).
Proof.
  intros Hcs. unfold note_priority. pose proof (cs_ok_slot_vote_for cs slot Hcs) as Hv.
  destruct (slot_vote_for cs slot) as [j cs1]. destruct (is_lt _); [by apply cs_ok_slot_votes | done].
Qed.
Hint Resolve cs_ok_put cs_ok_slot_votes cs_ok_bcast cs_ok_vote cs_ok_hdrs cs_ok_seed cs_ok_note : chain.

Lemma pending_ok cs i p : cs_ok cs → cs_pending cs !! i = Some p → pn_occupied p = true → pn_ok p.
Proof. intros Hcs Hi. eapply Forall_lookup_1 in Hi; [|apply Hcs]. done. Qed.

Lemma with_signers_wf k l : block_wf (with_signers k []) → zlen l <= AC_COMMITTEE_MAX → block_wf (with_signers k l).
Proof. intros []. by constructor. Qed.

(** ** What a handler does to the chain

    A handler keeps the invariant and moves the chain only by calls of chain.h. With
    [io = true] every file write of those calls succeeds. *)
Record cs_adv (io : bool) (cs cs' : ac_consensus_t) : Prop := {
  adv_ok : cs_ok cs';
  adv_run : rtc (chain_step io) (cs_chain cs) (cs_chain cs')
}.
Definition io_ok (io : bool) (env : cenv_t) : Prop := io = true → writes_ok (e_io env) = true.

Lemma adv_same io cs cs' : cs_ok cs' → cs_chain cs' = cs_chain cs → cs_adv io cs cs'.
Proof. intros Hok E. constructor; [done|]. by rewrite E. Qed.
Lemma adv_refl io cs : cs_ok cs → cs_adv io cs cs.
Proof. intros. by apply adv_same. Qed.
Lemma adv_trans io cs1 cs2 cs3 : cs_adv io cs1 cs2 → cs_adv io cs2 cs3 → cs_adv io cs1 cs3.
Proof. intros [_ R1] [H2 R2]. constructor; [done|]. by etrans. Qed.
Lemma adv_step io cs cs' c : cs_ok cs' → chain_step io (cs_chain cs) c → cs_chain cs' = c → cs_adv io cs cs'.
Proof. intros Hok Hs <-. constructor; [done|]. by apply rtc_once. Qed.
Lemma adv_seed io cs e : cs_ok cs → cs_adv io cs (set_chain cs (ac_chain_epoch_seed (cs_chain cs) e).2).
Proof. intros. eapply adv_step; [by apply cs_ok_seed | by apply step_seed | done]. Qed.

Lemma bcast_chain cs t x : cs_chain (bcast cs t x) = cs_chain cs.
Proof. unfold bcast. by destruct (cs_bcast cs). Qed.
Lemma slot_vote_chain cs slot : cs_chain (slot_vote_for cs slot).2 = cs_chain cs.
Proof. unfold slot_vote_for. by destruct (slot_index _ _ _ _). Qed.
Lemma note_chain cs slot pr : cs_chain (note_priority cs slot pr) = cs_chain cs.
Proof.
  unfold note_priority. pose proof (slot_vote_chain cs slot) as E. destruct (slot_vote_for cs slot) as [j cs1].
  by destruct (is_lt _).
Qed.

Lemma committee_adv io cs slot : cs_ok cs → cs_adv io cs (am_i_committee cs slot).2.
Proof.
  intros Hcs. unfold am_i_committee. destruct (ac_state_get _ _) as [has me]. destruct (_ || _); [by apply adv_refl|].
  pose proof (adv_seed io cs (ac_epoch_of slot) Hcs) as Hs. by destruct (ac_chain_epoch_seed _ _) as [sd c].
Qed.
Lemma leader_adv io cs slot : cs_ok cs → cs_adv io cs (am_i_leader cs slot).2.
Proof.
  intros Hcs. unfold am_i_leader. destruct (ac_state_get _ _) as [has me]. destruct (_ || _); [by apply adv_refl|].
  pose proof (adv_seed io cs (ac_epoch_of slot) Hcs) as Hs. destruct (ac_chain_epoch_seed _ _) as [sd c].
  by destruct (_ =? _).
Qed.

Lemma committee_chain cs slot :
  cs_ok cs → cs_ok (am_i_committee cs slot).2 ∧
  cs_pending (am_i_committee cs slot).2 = cs_pending cs ∧
  cs_sent (am_i_committee cs slot).2 = cs_sent cs.
Proof.
  intros Hcs. unfold am_i_committee. destruct (ac_state_get _ _) as [has me]. destruct (_ || _); [done|].
  pose proof (cs_ok_seed cs (ac_epoch_of slot) Hcs) as Hs. by destruct (ac_chain_epoch_seed _ _) as [sd c].
Qed.
Lemma our_vote_adv io cs i : cs_ok cs → cs_adv io cs (our_vote_now cs i).
Proof.
  intros Hcs. unfold our_vote_now. destruct (cs_pending cs !! i) as [p|] eqn:Ei; [|by apply adv_refl].
  pose proof (committee_adv io cs (pn_slot p) Hcs) as Hadv.
  destruct (committee_chain cs (pn_slot p) Hcs) as (Hc & Hp & _).
  destruct (am_i_committee cs (pn_slot p)) as [[cproof|] cs1]; [|done]. cbn [snd] in *.
  match goal with |- context [put_pending cs1 i ?q] => set (p1 := q) end.
  assert (cs_ok (put_pending cs1 i p1)) as H1.
  { apply cs_ok_put; [done|]. intros Ho.
    assert (pn_ok p) as Hpo. { apply (pending_ok cs i); [done|done|]. unfold p1 in Ho. by destruct (_ && _). }
    unfold p1. destruct (negb _ && _) eqn:E; [|done]. apply andb_true_iff in E as [_ E%Z.ltb_lt].
    destruct Hpo. constructor; try done. cbn. rewrite length_app. cbn. lia. }
  pose proof (cs_ok_slot_vote_for _ (pn_slot p1) H1) as H2. pose proof (slot_vote_chain (put_pending cs1 i p1) (pn_slot p1)) as Ec.
  destruct (slot_vote_for _ _) as [j cs2]. eapply adv_trans; [exact Hadv|].
  apply adv_same; [auto with chain|]. by rewrite bcast_chain.
Qed.

Lemma remove_txs_subset l mp : mp_entries (remove_txs mp l) ⊆ mp_entries mp.
Proof.
  revert mp. induction l as [|t l IH]; intros mp; cbn [remove_txs]; [done|].
  etrans; [apply IH|]. unfold ac_mempool_remove. destruct (_ <=? _); [|done]. cbn.
  unfold remove_at. intros x [Hx|Hx]%elem_of_app; [by eapply subseteq_take | by eapply subseteq_drop].
Qed.

Lemma try_commit_adv io cs i force env : cs_ok cs → chain_fits (cs_chain cs) → io_ok io env →
  cs_adv io cs (try_commit_inner cs i force env).
Proof.
  intros Hcs Hf Hio. unfold try_commit_inner. destruct (cs_pending cs !! i) as [p|] eqn:Ei; [|by apply adv_refl].
  destruct (pn_occupied p) eqn:Eo; cbn [negb orb]; [|by apply adv_refl]. destruct (pn_committed p); [by apply adv_refl|].
  destruct (quorum_reached _ _); cbn [negb]; [|by apply adv_refl].
  pose proof (pending_ok cs i p Hcs Ei Eo) as Hp.
  destruct (_ && _). { apply adv_same; [|done]. apply cs_ok_put; [done|]. intros _. by destruct Hp. }
  pose proof (with_signers_wf (pn_block p) (pn_signers p) (po_block _ Hp) (po_signers _ Hp)) as Hk.
  pose proof (step_accept io (cs_chain cs) _ (e_io env) Hf Hk Hio) as Hst.
  pose proof (step_ledger _ _ _ Hst (co_ledger _ Hcs)) as HL.
  destruct (ac_chain_accept_block _ _ _) as [r c]. cbn [snd] in HL, Hst.
  assert (∀ com l rc, (pn_occupied p = true → pn_ok (sealed p com (with_signers (pn_block p) l) rc))) as Hse.
  { intros com l rc _. by destruct Hp. }
  assert (cs_ok (set_chain cs c)) as H1 by by apply cs_ok_chain.
  apply (adv_step io cs _ c); [|done|]; destruct r; try (apply cs_ok_put; auto); try done;
    (destruct (ac_block_encode _); [|try done]);
    [apply cs_ok_bcast|..|rewrite bcast_chain; done|rewrite bcast_chain; done];
    try apply cs_ok_bcast; (apply cs_ok_mempool; [apply cs_ok_put; auto | apply remove_txs_subset]).
Qed.

Lemma merge_signers_bound l mine : zlen mine <= AC_COMMITTEE_MAX → zlen (merge_signers mine l) <= AC_COMMITTEE_MAX.
Proof.
  revert mine. induction l as [|x l IH]; intros mine Hm; cbn [merge_signers]; [done|]. apply IH.
  destruct (_ && _) eqn:E; [|done]. apply andb_true_iff in E as [_ E%Z.ltb_lt]. rewrite length_app. cbn. lia.
Qed.

Lemma pending_find_spec cs bh i : pending_find cs bh = Some i →
  ∃ p, cs_pending cs !! i = Some p ∧ pn_occupied p = true ∧ pn_block_hash p = bh.
Proof.
  unfold pending_find. intros E. pose proof (scan_spec (λ p, pn_occupied p && ac_hash_eq (pn_block_hash p) bh) (cs_pending cs) 0) as Hs.
  rewrite E in Hs. destruct Hs as (l1 & p & l2 & -> & -> & [Ho Hh%ac_hash_eq_true]%andb_true_iff & _).
  exists p. by rewrite Nat.add_0_l, list_lookup_middle.
Qed.

Lemma stash_ok cs k bh slot sg pr now : cs_ok cs → block_wf k → bh = ac_block_hash (header k) →
  slot = h_slot (header k) → zlen sg <= AC_COMMITTEE_MAX → cs_ok (stash cs k bh slot sg pr now).2.
Proof.
  intros Hcs Hk -> -> Hl. unfold stash, pending_alloc, put_pending. cbn [snd set_pending cs_pending].
  rewrite list_insert_insert_eq. change (cs_ok (put_pending cs (default 0%nat (alloc_index (cs_pending cs) 0 None))
    (mkPending true false (h_height (header k)) (h_slot (header k)) (ac_block_hash (header k)) (with_signers k []) sg now pr 0))).
  apply cs_ok_put; [done|]. intros _. constructor; try done. cbn. apply with_signers_wf; [|done]. by destruct Hk.
Qed.

Lemma handle_block_adv io cs buf env : cs_ok cs → chain_fits (cs_chain cs) → io_ok io env →
  cs_adv io cs (ac_consensus_handle_block cs buf env).
Proof.
  intros Hcs Hf Hio. pose proof (adv_refl io cs Hcs) as Hr. unfold ac_consensus_handle_block.
  destruct (ac_block_decode buf) as [[k n]| |] eqn:Ed; [|done..]. apply ac_block_decode_inv in Ed as [Hk _].
  destruct (negb _); [done|]. destruct (pending_find _ _) as [i|] eqn:Ef.
  { apply pending_find_spec in Ef as (p & Ei & Eo & _). rewrite Ei.
    eapply adv_trans; [|apply try_commit_adv; [|done..]]; [apply adv_same; [|done]|];
      (apply cs_ok_put; [done|]; intros _; pose proof (pending_ok cs i p Hcs Ei Eo) as []; constructor; try done;
       by apply merge_signers_bound). }
  destruct (_ <? _).
  { unfold request_headers. destruct (_ && _); [|done]. apply adv_same; [auto with chain|]. by rewrite bcast_chain. }
  destruct (_ || _); [done|]. pose proof (epoch_seed_cache_only (cs_chain cs) (ac_epoch_of (h_slot (header k)))) as Hc.
  pose proof (adv_seed io cs (ac_epoch_of (h_slot (header k))) Hcs) as Ha. destruct (ac_chain_epoch_seed _ _) as [sd c]. cbn [snd] in *.
  pose proof (chain_fits_cache _ _ Hc Hf) as Hf1.
  destruct (ac_vrf_verify _ _ _) as [beta|]; [|done]. set (pr := compute_priority _ _).
  pose proof (stash_ok (set_chain cs c) k (ac_block_hash (header k)) (h_slot (header k)) (take 256 (signers k)) pr
    (t_alloc env) (adv_ok _ _ _ Ha) Hk eq_refl eq_refl) as H2.
  assert (cs_chain (stash (set_chain cs c) k (ac_block_hash (header k)) (h_slot (header k)) (take 256 (signers k)) pr
    (t_alloc env)).2 = c) as Ec by done.
  destruct (stash _ _ _ _ _ _ _) as [i cs2]. cbn [snd] in *.
  assert (cs_ok cs2) as H3. { apply H2. pose proof (wf_signers_max _ Hk). rewrite length_take. lia. }
  pose proof (note_chain cs2 (h_slot (header k)) pr) as En. rewrite Ec in En.
  eapply adv_trans; [exact Ha|]. eapply adv_trans; [|apply try_commit_adv; [by apply cs_ok_note|by rewrite En|done]].
  apply adv_same; [by apply cs_ok_note | done].
Qed.

Lemma handle_vote_adv io cs buf env : cs_ok cs → chain_fits (cs_chain cs) → io_ok io env →
  cs_adv io cs (ac_consensus_handle_vote cs buf env).
Proof.
  intros Hcs Hf Hio. pose proof (adv_refl io cs Hcs) as Hr. unfold ac_consensus_handle_vote. destruct (vote_decode buf) as [v|]; [|done].
  destruct (negb _); [done|]. destruct (pending_find _ _) as [i|] eqn:Ef; [|done].
  apply pending_find_spec in Ef as (p & Ei & Eo & _). rewrite Ei.
  pose proof (epoch_seed_cache_only (cs_chain cs) (ac_epoch_of (pn_slot p))) as Hc.
  pose proof (adv_seed io cs (ac_epoch_of (pn_slot p)) Hcs) as Ha. destruct (ac_chain_epoch_seed _ _) as [sd c]. cbn [snd] in *.
  pose proof (chain_fits_cache _ _ Hc Hf) as Hf1.
  destruct (_ <? _); [done|]. destruct (ac_vrf_verify _ _ _); [|done]. destruct (negb _); [done|].
  destruct (signed_by _ _); [done|]. eapply adv_trans; [exact Ha|].
  match goal with |- context [try_commit (put_pending ?x i ?q)] => assert (cs_ok (put_pending x i q)) as H1 end.
  { apply cs_ok_put; [apply Ha|].
    pose proof (pending_ok cs i p Hcs Ei Eo) as Hp. destruct (Z.ltb_spec (zlen (pn_signers p)) AC_COMMITTEE_MAX); [|done].
    intros _. destruct Hp. constructor; try done. cbn. rewrite length_app. cbn. lia. }
  eapply adv_trans; [|by apply try_commit_adv]. by apply adv_same.
Qed.

Lemma handle_block_ok cs buf env : cs_ok cs → chain_fits (cs_chain cs) → cs_ok (ac_consensus_handle_block cs buf env).
Proof. intros. by apply (handle_block_adv false cs). Qed.

Lemma snapshot_txs mp n : Forall (λ e, tx_wf (e_tx e)) (mp_entries mp) → Forall tx_wf (ac_mempool_snapshot mp n) ∧
  (length (ac_mempool_snapshot mp n) <= n)%nat.
Proof.
  intros Hm. unfold ac_mempool_snapshot. split; [|rewrite length_fmap, length_take; destruct (Nat.ltb_spec (length (mp_entries mp)) n); lia].
  apply Forall_fmap. by apply Forall_take.
Qed.

Lemma leader_frame cs slot : cache_only (cs_chain cs) (cs_chain (am_i_leader cs slot).2) ∧
  cs_mempool (am_i_leader cs slot).2 = cs_mempool cs.
Proof.
  unfold am_i_leader. destruct (ac_state_get _ _) as [has me]. destruct (_ || _); [split; [apply cache_only_refl | done]|].
  pose proof (epoch_seed_cache_only (cs_chain cs) (ac_epoch_of slot)) as Hc.
  destruct (ac_chain_epoch_seed _ _) as [sd c]. by destruct (_ =? _).
Qed.

(** The leader's block, on its way to the table. *)
Lemma slot_build_ok io cs slot : cs_ok cs → chain_fits (cs_chain cs) → is_u64 slot →
  cs_adv io cs (slot_build cs slot).2 ∧
  ∀ k pr, (slot_build cs slot).1 = Some (k, pr) → block_wf k ∧ h_slot (header k) = slot ∧ signers k = [].
Proof.
  intros Hcs Hf Hs. unfold slot_build. destruct (negb _); [split; [by apply adv_refl | done]|].
  pose proof (leader_adv io cs slot Hcs) as Ha. pose proof (adv_ok _ _ _ Ha) as H1. destruct (leader_frame cs slot) as [Hc Em].
  destruct (am_i_leader cs slot) as [[lp|] cs1]; [|done]. cbn [snd] in *.
  pose proof (chain_fits_cache _ _ Hc Hf) as Hf1.
  destruct (snapshot_txs (cs_mempool cs1) 256 (co_mempool _ H1)) as [Hcand Hlen].
  set (snap := ac_mempool_snapshot (cs_mempool cs1) 256) in *.
  assert (cs_ok (set_mempool cs1 (ac_mempool_prune_expired (cs_mempool cs1) slot).2)) as H2.
  { apply cs_ok_mempool; [done|]. rewrite (proj1 (ac_mempool_prune_entries _ _)). intros x [_ ?]%list_elem_of_filter. done. }
  pose proof (step_build io (cs_chain cs1) slot (cs_kp cs1) snap Hf1 Hcand) as Hb.
  pose proof (build_block_wf (cs_chain cs1) slot (cs_kp cs1) snap) as Hw.
  change (cs_chain (set_mempool cs1 _)) with (cs_chain cs1). change (cs_kp (set_mempool cs1 _)) with (cs_kp cs1).
  destruct (ac_chain_build_block _ _ _ _) as [[k|] c]; cbn [fst snd fmap option_fmap option_map] in *;
    (split; [eapply adv_trans; [exact Ha|]; eapply adv_step; [|exact Hb|done];
       apply cs_ok_chain; [done|]; exact (step_ledger _ _ _ Hb (co_ledger _ H1))|]); [|done].
  intros k' pr [= -> _]. eapply Hw; try done; [apply H1 | lia].
Qed.

Lemma slot_propose_adv io cs slot k lp env : cs_ok cs → chain_fits (cs_chain cs) → block_wf k → h_slot (header k) = slot →
  io_ok io env → cs_adv io cs (slot_propose cs slot k lp env).
Proof.
  intros Hcs Hf Hk Hs Hio. unfold slot_propose.
  pose proof (epoch_seed_cache_only (cs_chain cs) (ac_epoch_of slot)) as Hc.
  pose proof (adv_seed io cs (ac_epoch_of slot) Hcs) as Ha. destruct (ac_chain_epoch_seed _ _) as [sd c]. cbn [snd] in *.
  pose proof (chain_fits_cache _ _ Hc Hf) as Hf1. set (pr := compute_priority _ _).
  assert (block_wf (with_vrf k lp)) as Hkv. { destruct Hk as [[] ? ? ? ?]. by constructor. }
  pose proof (stash_ok (set_chain cs c) (with_vrf k lp) _ slot [] pr (t_alloc env) (adv_ok _ _ _ Ha) Hkv eq_refl (eq_sym Hs)) as H2.
  match type of H2 with _ → cs_ok (?x).2 => assert (cs_chain x.2 = c) as Ec by done end.
  destruct (stash _ _ _ _ _ _ _) as [i cs2]. cbn [snd] in *. specialize (H2 ltac:(done)).
  pose proof (note_chain cs2 slot pr) as Ec2. rewrite Ec in Ec2.
  eapply adv_trans; [exact Ha|].
  match goal with |- context [try_commit ?x i env] => assert (cs_ok x ∧ cs_chain x = c) as [H3 E3] end.
  { destruct (ac_block_encode _); [|by split; [apply cs_ok_note|]]. rewrite bcast_chain. by split; [apply cs_ok_bcast, cs_ok_note|]. }
  eapply adv_trans; [|apply try_commit_adv; [exact H3|by rewrite E3|done]]. by apply adv_same.
Qed.

Lemma our_vote_chain cs i : cache_only (cs_chain cs) (cs_chain (our_vote_now cs i)).
Proof.
  unfold our_vote_now. destruct (cs_pending cs !! i) as [p|]; [|apply cache_only_refl].
  assert (cache_only (cs_chain cs) (cs_chain (am_i_committee cs (pn_slot p)).2)) as Hc.
  { unfold am_i_committee. destruct (ac_state_get _ _) as [has me]. destruct (_ || _); [apply cache_only_refl|].
    pose proof (epoch_seed_cache_only (cs_chain cs) (ac_epoch_of (pn_slot p))) as Hc. by destruct (ac_chain_epoch_seed _ _). }
  destruct (am_i_committee cs (pn_slot p)) as [[cp|] cs1]; [|done]. cbn [snd] in Hc. cbv zeta.
  match goal with |- context [slot_vote_for ?x ?y] =>
    assert (cs_chain (slot_vote_for x y).2 = cs_chain cs1) as E by (unfold slot_vote_for; by destruct (slot_index _ _ _ _));
    destruct (slot_vote_for x y) as [j cs2] end.
  cbn [snd] in E. unfold bcast. destruct (cs_bcast _); cbn; by rewrite E.
Qed.

Lemma vote_phase_adv io cs slot env : cs_ok cs → chain_fits (cs_chain cs) → io_ok io env → cs_adv io cs (vote_phase cs slot env).
Proof.
  intros Hcs Hf Hio. unfold vote_phase. destruct (negb _); [by apply adv_refl|].
  pose proof (cs_ok_slot_vote_for cs slot Hcs) as H1. pose proof (slot_vote_chain cs slot) as Ec.
  destruct (slot_vote_for cs slot) as [j cs1]. cbn [snd] in *. rewrite <- Ec in Hf. pose proof (adv_same io cs cs1 H1 Ec) as Ha.
  destruct (sv_voted _); [done|]. destruct (best_pending _ _ _ _) as [[i best]|]; [|done]. eapply adv_trans; [exact Ha|].
  assert (∀ q, chain_fits (cs_chain (our_vote_now cs1 q))) as Hfq by (intros q; by eapply chain_fits_cache; [apply our_vote_chain|]).
  destruct (_ && _).
  - destruct (scan _ _ _) as [q|]; [|by apply adv_refl]. eapply adv_trans; [by apply (our_vote_adv io cs1 q)|].
    apply try_commit_adv; [by apply (our_vote_adv io cs1 q)|done..].
  - pose proof (our_vote_adv io cs1 i H1) as Hv. eapply adv_trans; [exact Hv|].
    eapply adv_trans; [|apply try_commit_adv; [by apply cs_ok_vote, Hv|apply Hfq|done]].
    apply adv_same; [by apply cs_ok_vote, Hv | done].
Qed.

(** The chain fits a snapshot at every entry the sealing loop tries. *)
Fixpoint seal_fits (cs : ac_consensus_t) (slot : Z) (i n : nat) (env : nat → cenv_t) : Prop :=
  match n with
  | O => True
  | S n' => chain_fits (cs_chain cs) ∧ seal_fits (seal_loop cs slot i 1 env) slot (S i) n' env
  end.

Lemma seal_loop_adv io n cs slot i env : cs_ok cs → seal_fits cs slot i n env → (∀ j, io_ok io (env j)) →
  cs_adv io cs (seal_loop cs slot i n env).
Proof.
  intros Hcs Hfits Hio. revert cs i Hcs Hfits. induction n as [|n IH]; intros cs i Hcs; [intros _; by apply adv_refl|]. intros [Hf Hr].
  change (seal_loop cs slot i (S n) env) with (seal_loop (seal_loop cs slot i 1 env) slot (S i) n env).
  assert (cs_adv io cs (seal_loop cs slot i 1 env)) as Ha.
  { cbn [seal_loop]. destruct (cs_pending cs !! i) as [p|]; [|by apply adv_refl].
    destruct (_ || _); [by apply adv_refl|]. by apply try_commit_adv. }
  eapply adv_trans; [exact Ha|]. by apply IH; [apply Ha|].
Qed.

(** ** Reachable consensus states

    A step is a handler call on any bytes, a phase of the slot timer, or a
    transaction from a client or a peer; steps interleave freely. The block of
    a proposal step was built earlier, by a [cs_build] step: such a block is well
    formed ([slot_build_ok]), which is all the step asks for. *)

Inductive cs_step (io : bool) (cs : ac_consensus_t) : ac_consensus_t → Prop :=
  | cs_block buf env : chain_fits (cs_chain cs) → io_ok io env → cs_step io cs (ac_consensus_handle_block cs buf env)
  | cs_vote buf env : chain_fits (cs_chain cs) → io_ok io env → cs_step io cs (ac_consensus_handle_vote cs buf env)
  | cs_build slot : chain_fits (cs_chain cs) → is_u64 slot → cs_step io cs (slot_build cs slot).2
  | cs_propose slot k lp env : chain_fits (cs_chain cs) → block_wf k → h_slot (header k) = slot → io_ok io env →
      cs_step io cs (slot_propose cs slot k lp env)
  | cs_vote_phase slot env : chain_fits (cs_chain cs) → io_ok io env → cs_step io cs (vote_phase cs slot env)
  | cs_seal_phase slot env : seal_fits cs slot 0 AC_PENDING_MAX env → (∀ j, io_ok io (env j)) → cs_step io cs (seal_phase cs slot env)
  | cs_add t slot : tx_wf t →
      cs_step io cs (set_mempool cs (ac_mempool_add (cs_mempool cs) (c_state (cs_chain cs)) t slot).2).

(** From a fresh consensus state over a chain that satisfies the invariant (one
    just created or reopened) and an empty pool. *)
Definition cs_reachable (cs : ac_consensus_t) : Prop :=
  ∃ c mp kp has_bcast validator, ledger_ok c ∧ mp_entries mp = [] ∧
    rtc (cs_step false) (ac_consensus_new c mp kp has_bcast validator) cs.

Lemma mempool_add_txs mp s t slot : tx_wf t → Forall (λ e, tx_wf (e_tx e)) (mp_entries mp) →
  Forall (λ e, tx_wf (e_tx e)) (mp_entries (ac_mempool_add mp s t slot).2).
Proof.
  intros Ht Hm.
  assert (∀ l i, Forall (λ e, tx_wf (e_tx e)) l → Forall (λ e, tx_wf (e_tx e)) (remove_at l i)) as Hrem.
  { intros l i Hl. apply Forall_app. split; [by apply Forall_take | by apply Forall_drop]. }
  assert (∀ m h, Forall (λ e, tx_wf (e_tx e)) (mp_entries m) →
    Forall (λ e, tx_wf (e_tx e)) (mp_entries (mp_insert m (mkEntry t h (tx_tip t) slot)))) as Hins.
  { intros m h Hl. unfold mp_insert, insert_at. cbn. apply Forall_app. split; [by apply Forall_take|].
    constructor; [done | by apply Forall_drop]. }
  unfold ac_mempool_add. repeat (destruct (negb _); [done|]). destruct (_ <? _); [done|]. destruct (_ <=? _); [done|].
  destruct (_ <? _); [done|]. repeat (destruct (negb _); [done|]). destruct (_ <? _); [done|].
  unfold mp_admit. destruct (_ <=? _); [done|].
  assert (∀ m, mp_replace mp t = Some m → Forall (λ e, tx_wf (e_tx e)) (mp_entries m)) as Hrep.
  { intros m. unfold mp_replace. destruct (scan _ _ _); [|by intros [= <-]]. destruct (mp_entries mp !! _); [|done].
    destruct (_ <=? _); [done|]. intros [= <-]. by apply Hrem. }
  destruct (mp_replace mp t) as [m|]; [|done]. specialize (Hrep m eq_refl).
  destruct (_ <=? _); [|by apply Hins]. destruct (mp_entries m !! _); [|done]. destruct (_ <=? _); [done|].
  apply Hins. by apply Forall_take.
Qed.

(** Every step moves the chain by calls of chain.h only. *)
Lemma cs_step_adv io cs cs' : cs_step io cs cs' → cs_ok cs → cs_adv io cs cs'.
Proof.
  intros [] Hcs.
  - by apply handle_block_adv.
  - by apply handle_vote_adv.
  - by apply slot_build_ok.
  - by apply slot_propose_adv.
  - by apply vote_phase_adv.
  - by apply seal_loop_adv.
  - apply adv_same; [|done]. destruct Hcs. constructor; try done. by apply mempool_add_txs.
Qed.
Lemma cs_step_ok io cs cs' : cs_step io cs cs' → cs_ok cs → cs_ok cs'.
Proof. intros. by eapply cs_step_adv. Qed.

Lemma cs_ok_new c mp kp bc v : ledger_ok c → mp_entries mp = [] → cs_ok (ac_consensus_new c mp kp bc v).
Proof. intros Hl Hm. constructor; try done; [by repeat constructor|]. cbn. by rewrite Hm. Qed.

Lemma cs_reachable_ok cs : cs_reachable cs → cs_ok cs.
Proof.
  intros (c & mp & kp & bc & v & Hl & Hm & Hr). pose proof (cs_ok_new c mp kp bc v Hl Hm) as H0'.
  induction Hr as [|x y z Hs _ IH]; [done|]. apply IH. by eapply cs_step_ok.
Qed.

(** Safety of a node against its peers: whatever blocks and votes arrive, as any bytes in
    any order, interleaved with the slot timer's phases and with transactions, the chain
    below keeps the ledger invariant, every entry of the pending table holds a well-formed
    block under its own hash, height and slot with at most 256 signers, and both tables
    keep their size. *)
Theorem consensus_safe cs :
  cs_reachable cs →
  ledger_ok (cs_chain cs) ∧
  length (cs_pending cs) = AC_PENDING_MAX ∧ length (cs_slot_votes cs) = AC_PENDING_MAX ∧
  ∀ i p, cs_pending cs !! i = Some p → pn_occupied p = true →
    block_wf (with_signers (pn_block p) (pn_signers p)) ∧
    pn_block_hash p = ac_block_hash (header (pn_block p)) ∧
    pn_height p = h_height (header (pn_block p)) ∧ pn_slot p = h_slot (header (pn_block p)).
Proof.
  intros Hr%cs_reachable_ok. split; [apply Hr|]. split; [apply Hr|]. split; [apply Hr|].
  intros i p Hi Ho. destruct (pending_ok cs i p Hr Hi Ho). split; [|done]. by apply with_signers_wf.
Qed.
End Safety.

(** ** Votes that count *)

Section Votes.
Context `{!Sodium} `{!LongDouble}.

(** What sealing leaves alone. *)
Lemma put_pending_lookup cs i p j q : cs_pending (put_pending cs i p) !! j = Some q →
  (j = i ∧ q = p) ∨ (j ≠ i ∧ cs_pending cs !! j = Some q).
Proof.
  cbn. intros Hj. destruct (decide (i = j)) as [<- | Hne].
  - left. split; [done|]. assert (i < length (cs_pending cs))%nat.
    { apply lookup_lt_Some in Hj. by rewrite length_insert in Hj. }
    rewrite list_lookup_insert_eq in Hj by done. congruence.
  - right. rewrite list_lookup_insert_ne in Hj by done. auto.
Qed.

Lemma try_commit_signers cs i force env j q : cs_pending (try_commit_inner cs i force env) !! j = Some q →
  ∃ p, cs_pending cs !! j = Some p ∧ pn_signers q = pn_signers p ∧ pn_block_hash q = pn_block_hash p ∧
       pn_slot q = pn_slot p ∧ pn_height q = pn_height p ∧ pn_occupied q = pn_occupied p.
Proof.
  unfold try_commit_inner. destruct (cs_pending cs !! i) as [p|] eqn:Ei; [|by eauto 10].
  destruct (_ || _); [by eauto 10|]. destruct (negb _); [by eauto 10|].
  assert (∀ cs1 com k rc, cs_pending cs1 = cs_pending cs →
    cs_pending (put_pending cs1 i (sealed p com k rc)) !! j = Some q →
    ∃ p0, cs_pending cs !! j = Some p0 ∧ pn_signers q = pn_signers p0 ∧ pn_block_hash q = pn_block_hash p0 ∧
       pn_slot q = pn_slot p0 ∧ pn_height q = pn_height p0 ∧ pn_occupied q = pn_occupied p0) as Hput.
  { intros cs1 com k rc E Hj. apply put_pending_lookup in Hj as [[-> ->]|[_ Hj]]; [by eauto 10|].
    rewrite E in Hj. by eauto 10. }
  destruct (_ && _); [by apply Hput|]. destruct (ac_chain_accept_block _ _ _) as [r c].
  destruct r; try (by apply Hput); (destruct (ac_block_encode _); unfold bcast; [destruct (cs_bcast _)|]; by apply Hput).
Qed.

(** The checks a vote from the network went through. *)
Record vote_ok (c : ac_chain_t) (slot : Z) (v : vote_t) : Prop := {
  vk_sig : ac_verify (v_sig v) (ac_vote_message (v_height v) (v_block_hash v)) (v_signer v) = true;
  vk_active : AC_MIN_STAKE_UCRD <= stake (ac_state_get (c_state c) (v_signer v)).2;
  vk_eligible : ∃ beta, ac_vrf_verify (v_proof v) (committee_alpha (ac_chain_epoch_seed c (ac_epoch_of slot)).1 slot) (v_signer v) = Some beta ∧
    committee_eligible (ac_rd64 (slice (b beta) 0 8)) (ac_isqrt_u64 (stake (ac_state_get (c_state c) (v_signer v)).2))
      (ac_chain_total_sqrt_stake c) = true
}.

(** C22. A vote message can add at most one signer, to the one entry of the block it names, and
    only after its signature, the signer's stake, committee proof and eligibility were
    checked and the signer is not yet among the signers; any other bytes add nothing. *)
Theorem handle_vote_counts cs buf env j q :
  cs_pending (ac_consensus_handle_vote cs buf env) !! j = Some q →
  ∃ p, cs_pending cs !! j = Some p ∧
    (pn_signers q = pn_signers p ∨
     ∃ v, vote_decode buf = Some v ∧ v_block_hash v = pn_block_hash p ∧ pn_occupied p = true ∧
       signed_by (pn_signers p) (v_signer v) = false ∧ vote_ok (cs_chain cs) (pn_slot p) v ∧
       pn_signers q = pn_signers p ++ [mkSigner (v_signer v) (v_sig v) (v_proof v)]).
Proof.
  unfold ac_consensus_handle_vote. destruct (vote_decode buf) as [v|]; [|by eauto].
  destruct (ac_verify _ _ _) eqn:Ev; cbn [negb]; [|by eauto].
  destruct (pending_find cs (v_block_hash v)) as [i|] eqn:Ef; [|by eauto].
  apply pending_find_spec in Ef as (p & Ei & Eo & Eh). rewrite Ei.
  assert (c_state (ac_chain_epoch_seed (cs_chain cs) (ac_epoch_of (pn_slot p))).2 = c_state (cs_chain cs)) as Es.
  { unfold ac_chain_epoch_seed. by destruct (_ && _). }
  assert (ac_chain_total_sqrt_stake (ac_chain_epoch_seed (cs_chain cs) (ac_epoch_of (pn_slot p))).2 =
          ac_chain_total_sqrt_stake (cs_chain cs)) as Et.
  { unfold ac_chain_epoch_seed. by destruct (_ && _). }
  pose proof (Build_vote_ok (cs_chain cs) (pn_slot p) v Ev) as Hok.
  destruct (ac_chain_epoch_seed _ _) as [sd c]. cbn [fst snd] in *. rewrite Es, Et.
  destruct (Z.ltb_spec (stake (ac_state_get (c_state (cs_chain cs)) (v_signer v)).2) AC_MIN_STAKE_UCRD); [by eauto|].
  destruct (ac_vrf_verify _ _ _) as [beta|] eqn:Evrf; [|by eauto].
  destruct (committee_eligible _ _ _) eqn:Ee; cbn [negb]; [|by eauto].
  destruct (signed_by _ _) eqn:Esg; [by eauto|]. intros Hq.
  apply try_commit_signers in Hq as (q0 & Hq0 & -> & _).
  apply put_pending_lookup in Hq0 as [[-> ->]|[_ Hq0]]; [|by eauto].
  exists p. split; [done|]. destruct (_ <? _); [right|by left]. exists v. eauto 10.
Qed.

(** ** How the vote moves *)

Definition open_at (target : Z) (p : pending_t) : bool :=
  pn_occupied p && negb (pn_committed p) && (pn_height p =? target).

#[local] Instance priority_cmp_laws : CmpLaws priority_cmp := memcmp_bytes_laws 16.

Definition prio_le (x y : priority_t) : Prop := priority_cmp x y ≠ Gt.

Lemma prio_le_trans x y z : prio_le x y → prio_le y z → prio_le x z.
Proof. apply (cmp_le_trans priority_cmp). Qed.
Lemma prio_le_refl x : prio_le x x.
Proof. unfold prio_le. by rewrite (cmp_refl priority_cmp). Qed.
Lemma prio_total x y : is_lt (priority_cmp x y) = false → prio_le y x.
Proof. unfold prio_le. rewrite (cmp_opp priority_cmp x y). by destruct (priority_cmp x y). Qed.
Lemma prio_lt_le x y : is_lt (priority_cmp x y) = true → prio_le x y.
Proof. intros E%is_lt_true. unfold prio_le. by rewrite E. Qed.
Lemma prio_antisym x y : prio_le x y → prio_le y x → x = y.
Proof.
  unfold prio_le. rewrite (cmp_opp priority_cmp x y). destruct (priority_cmp x y) eqn:E; try done.
  intros. by apply (cmp_eq priority_cmp).
Qed.

(** The selection finds an open entry of lowest priority, if there is any. *)
Lemma best_pending_spec l target i best :
  match best_pending l target i best with
  | None => best = None ∧ ∀ q, q ∈ l → open_at target q = false
  | Some (k, p) =>
      (best = Some (k, p) ∨ ∃ j, k = (i + j)%nat ∧ l !! j = Some p ∧ open_at target p = true) ∧
      (∀ q, q ∈ l → open_at target q = true → prio_le (pn_priority p) (pn_priority q)) ∧
      (∀ n q, best = Some (n, q) → prio_le (pn_priority p) (pn_priority q))
  end.
Proof.
  revert i best. induction l as [|x l IH]; intros i best; cbn [best_pending].
  { destruct best as [[k p]|].
    - split; [by left|]. split; [by intros ? ?%elem_of_nil|]. intros n q [= _ ->]. apply prio_le_refl.
    - split; [done|]. by intros ? ?%elem_of_nil. }
  assert (negb (pn_occupied x) || pn_committed x || negb (pn_height x =? target) = negb (open_at target x)) as ->.
  { unfold open_at. by destruct (pn_occupied x), (pn_committed x), (_ =? _). }
  destruct (open_at target x) eqn:Ex; cbn [negb].
  2:{ specialize (IH (S i) best). destruct (best_pending l target (S i) best) as [[k p]|].
      - destruct IH as (H1 & H2 & H3). split; [|split; [|done]].
        + destruct H1 as [-> |(j & -> & Hj & Ho)]; [by left|]. right. exists (S j). split; [lia | done].
        + intros q [-> |Hq]%elem_of_cons Ho; [congruence | by apply H2].
      - destruct IH as [-> H2]. split; [done|]. by intros q [-> |Hq]%elem_of_cons; [|apply H2]. }
  set (b' := match best with None => Some (i, x) | Some (_, q) => _ end).
  assert (∃ n0 y, b' = Some (n0, y) ∧ prio_le (pn_priority y) (pn_priority x) ∧
    (b' = best ∨ (n0 = i ∧ y = x)) ∧ ∀ n q, best = Some (n, q) → prio_le (pn_priority y) (pn_priority q)) as (n0 & y & Eb & Hx & Hb & Hle).
  { unfold b'. destruct best as [[n q]|].
    - destruct (is_lt _) eqn:El.
      + exists i, x. split; [done|]. split; [apply prio_le_refl|]. split; [by right|].
        intros ? ? [= -> ->]. by apply prio_lt_le.
      + exists n, q. split; [done|]. split; [by apply prio_total|]. split; [by left|].
        intros ? ? [= -> ->]. apply prio_le_refl.
    - exists i, x. split; [done|]. split; [apply prio_le_refl|]. split; [by right|]. done. }
  specialize (IH (S i) b'). clearbody b'. destruct (best_pending l target (S i) b') as [[k p]|].
  2:{ destruct IH as [IH _]. congruence. }
  destruct IH as (H1 & H2 & H3). specialize (H3 _ _ Eb). split; [|split].
  - destruct H1 as [-> |(j & -> & Hj & Ho)].
    + injection Eb as -> ->. destruct Hb as [<- |[-> ->]]; [by left|]. right. exists 0%nat. split; [lia | done].
    + right. exists (S j). split; [lia | done].
  - intros q [-> |Hq]%elem_of_cons Ho; [by eapply prio_le_trans | by apply H2].
  - intros n q Hq. eapply prio_le_trans; [exact H3 | by eapply Hle].
Qed.

(** The vote lock: only the vote phase writes it. *)
Definition lock_of (cs : ac_consensus_t) : Z * ac_hash_t * priority_t :=
  (cs_vote_height cs, cs_vote_block cs, cs_vote_priority cs).

Lemma lock_bcast cs t x : lock_of (bcast cs t x) = lock_of cs.
Proof. unfold bcast. by destruct (cs_bcast cs). Qed.
Lemma lock_slot_vote_for cs slot : lock_of (slot_vote_for cs slot).2 = lock_of cs.
Proof. unfold slot_vote_for. by destruct (slot_index _ _ _ _). Qed.
Lemma lock_note cs slot pr : lock_of (note_priority cs slot pr) = lock_of cs.
Proof.
  unfold note_priority. rewrite <- (lock_slot_vote_for cs slot). destruct (slot_vote_for cs slot) as [j cs1].
  by destruct (is_lt _).
Qed.
Lemma lock_try_commit cs i force env : lock_of (try_commit_inner cs i force env) = lock_of cs.
Proof.
  unfold try_commit_inner. destruct (cs_pending cs !! i) as [p|]; [|done]. destruct (_ || _); [done|].
  destruct (negb _); [done|]. destruct (_ && _); [done|]. destruct (ac_chain_accept_block _ _ _) as [r c].
  destruct r; try done; (destruct (ac_block_encode _); [by rewrite lock_bcast | done]).
Qed.
Lemma lock_our_vote cs i : lock_of (our_vote_now cs i) = lock_of cs.
Proof.
  unfold our_vote_now. destruct (cs_pending cs !! i) as [p|]; [|done].
  assert (lock_of (am_i_committee cs (pn_slot p)).2 = lock_of cs) as E.
  { unfold am_i_committee. destruct (ac_state_get _ _) as [has me]. destruct (_ || _); [done|].
    by destruct (ac_chain_epoch_seed _ _). }
  destruct (am_i_committee cs (pn_slot p)) as [[cp|] cs1]; [|done]. cbv zeta.
  match goal with |- context [slot_vote_for ?x ?y] =>
    pose proof (lock_slot_vote_for x y) as E2; destruct (slot_vote_for x y) as [j cs2] end.
  rewrite lock_bcast. cbn [snd] in E, E2. rewrite <- E. exact E2.
Qed.
Lemma lock_seal n cs slot i env : lock_of (seal_loop cs slot i n env) = lock_of cs.
Proof.
  revert cs i. induction n as [|n IH]; intros cs i; [done|]. cbn [seal_loop]. rewrite IH.
  destruct (cs_pending cs !! i) as [p|]; [|done]. destruct (_ || _); [done|]. apply lock_try_commit.
Qed.
Lemma lock_seed cs e : lock_of (set_chain cs (ac_chain_epoch_seed (cs_chain cs) e).2) = lock_of cs.
Proof. done. Qed.
Lemma lock_handle_block cs buf env : lock_of (ac_consensus_handle_block cs buf env) = lock_of cs.
Proof.
  unfold ac_consensus_handle_block, try_commit. destruct (ac_block_decode buf) as [[k n]| |]; [|done..].
  destruct (negb _); [done|]. destruct (pending_find _ _) as [i|].
  { destruct (cs_pending cs !! i); [|done]. by rewrite lock_try_commit. }
  destruct (_ <? _). { unfold request_headers. destruct (_ && _); [by rewrite lock_bcast | done]. }
  destruct (_ || _); [done|]. destruct (ac_chain_epoch_seed _ _) as [sd c].
  destruct (ac_vrf_verify _ _ _) as [beta|]; [|done]. cbn [stash pending_alloc fst snd].
  by rewrite lock_try_commit, lock_note.
Qed.
Lemma lock_handle_vote cs buf env : lock_of (ac_consensus_handle_vote cs buf env) = lock_of cs.
Proof.
  unfold ac_consensus_handle_vote, try_commit. destruct (vote_decode buf) as [v|]; [|done].
  destruct (negb _); [done|]. destruct (pending_find _ _) as [i|]; [|done].
  destruct (cs_pending cs !! i) as [p|]; [|done]. destruct (ac_chain_epoch_seed _ _) as [sd c].
  destruct (_ <? _); [done|]. destruct (ac_vrf_verify _ _ _); [|done]. destruct (negb _); [done|].
  destruct (signed_by _ _); [done|]. by rewrite lock_try_commit.
Qed.
Lemma lock_build cs slot : lock_of (slot_build cs slot).2 = lock_of cs.
Proof.
  unfold slot_build. destruct (negb _); [done|].
  assert (lock_of (am_i_leader cs slot).2 = lock_of cs) as E.
  { unfold am_i_leader. destruct (ac_state_get _ _) as [has me]. destruct (_ || _); [done|].
    destruct (ac_chain_epoch_seed _ _). by destruct (_ =? _). }
  destruct (am_i_leader cs slot) as [[lp|] cs1]; [|done]. cbv zeta.
  by destruct (ac_chain_build_block _ _ _ _) as [r c].
Qed.
Lemma lock_propose cs slot k lp env : lock_of (slot_propose cs slot k lp env) = lock_of cs.
Proof.
  unfold slot_propose, try_commit. destruct (ac_chain_epoch_seed _ _) as [sd c]. cbn [stash pending_alloc fst snd].
  rewrite lock_try_commit. destruct (ac_block_encode _); rewrite ?lock_bcast; by rewrite lock_note.
Qed.

(** The vote phase keeps the lock, or locks an open block of lowest priority. *)
Lemma vote_phase_lock cs slot env :
  let target := c_height (cs_chain cs) ⊕ 1 in
  lock_of (vote_phase cs slot env) = lock_of cs ∨
  ∃ p, p ∈ cs_pending cs ∧ open_at target p = true ∧
    lock_of (vote_phase cs slot env) = (target, pn_block_hash p, pn_priority p) ∧
    (∀ q, q ∈ cs_pending cs → open_at target q = true → prio_le (pn_priority p) (pn_priority q)) ∧
    (cs_vote_height cs = target → priority_cmp (pn_priority p) (cs_vote_priority cs) = Lt).
Proof.
  intros target. unfold vote_phase, try_commit. destruct (negb _); [by left|].
  pose proof (lock_slot_vote_for cs slot) as E1.
  assert (cs_pending (slot_vote_for cs slot).2 = cs_pending cs ∧ cs_chain (slot_vote_for cs slot).2 = cs_chain cs) as [E2 E3].
  { unfold slot_vote_for. by destruct (slot_index _ _ _ _). }
  destruct (slot_vote_for cs slot) as [j cs1]. cbn [snd] in *. destruct (sv_voted _); [by left|].
  rewrite E2, E3. fold target. pose proof (best_pending_spec (cs_pending cs) target 0 None) as Hb.
  destruct (best_pending _ _ _ _) as [[i best]|]; [|by left].
  destruct Hb as ([?|(j' & -> & Hj & Ho)] & Hmin & _); [done|].
  injection E1 as Eh Ebk Epr. rewrite Eh, Epr.
  destruct ((cs_vote_height cs =? target) && _) eqn:Ec.
  - left. destruct (scan _ _ _) as [q|]; [|unfold lock_of; congruence].
    rewrite lock_try_commit, lock_our_vote. unfold lock_of. congruence.
  - right. exists best. split; [by eapply list_elem_of_lookup_2|]. split; [done|]. split; [by rewrite lock_try_commit|].
    split; [done|]. intros Hv. rewrite Hv, Z.eqb_refl in Ec. cbn in Ec. apply negb_false_iff in Ec. by apply is_lt_true.
Qed.

(** C24. Vote convergence: whatever step the engine takes, its recorded vote stays as it is,
    unless the step is a vote phase; then the vote is for the open block of lowest priority
    of all it has seen for the next height, and if it was for that height before, for one
    of strictly lower priority than before. No message, proposal or seal can move it. *)
Theorem vote_lock_monotone io cs cs' :
  cs_step io cs cs' →
  lock_of cs' = lock_of cs ∨
  (∃ slot env p, cs' = vote_phase cs slot env ∧ p ∈ cs_pending cs ∧ open_at (c_height (cs_chain cs) ⊕ 1) p = true ∧
    lock_of cs' = (c_height (cs_chain cs) ⊕ 1, pn_block_hash p, pn_priority p) ∧
    (∀ q, q ∈ cs_pending cs → open_at (c_height (cs_chain cs) ⊕ 1) q = true → prio_le (pn_priority p) (pn_priority q)) ∧
    (cs_vote_height cs' = cs_vote_height cs → priority_cmp (cs_vote_priority cs') (cs_vote_priority cs) = Lt)).
Proof.
  intros Hs. destruct Hs as [buf env _ _|buf env _ _|slot _ _|slot k lp env _ _ _ _|slot env _ _|slot env _ _|t slot _];
    [left; apply lock_handle_block | left; apply lock_handle_vote | left; apply lock_build
    | left; apply lock_propose | | left; apply lock_seal | by left].
  destruct (vote_phase_lock cs slot env) as [E|(p & Hp & Ho & E & Hm & Hlt)]; [by left|]. right.
  exists slot, env, p. split; [done|]. split; [done|]. split; [done|]. split; [done|]. split; [done|]. injection E as -> _ ->. auto.
Qed.

(** Two nodes with the same open proposals for the next height choose the same block, in
    whatever order and slots the proposals sit in their tables, provided different blocks
    have different priorities. *)
Theorem vote_choice_agrees l1 l2 target i1 p1 :
  (∀ bh pr, (∃ p, p ∈ l1 ∧ open_at target p = true ∧ pn_block_hash p = bh ∧ pn_priority p = pr) ↔
            (∃ p, p ∈ l2 ∧ open_at target p = true ∧ pn_block_hash p = bh ∧ pn_priority p = pr)) →
  (∀ p q, p ∈ l2 → q ∈ l2 → pn_priority p = pn_priority q → pn_block_hash p = pn_block_hash q) →
  best_pending l1 target 0 None = Some (i1, p1) →
  ∃ i2 p2, best_pending l2 target 0 None = Some (i2, p2) ∧ pn_block_hash p2 = pn_block_hash p1.
Proof.
  intros Hsame Hinj E1. pose proof (best_pending_spec l1 target 0 None) as S1. rewrite E1 in S1.
  destruct S1 as ([?|(j1 & _ & Hj1 & Ho1)] & Hm1 & _); [done|].
  destruct (proj1 (Hsame (pn_block_hash p1) (pn_priority p1))) as (q & Hq & Hoq & Hhq & Hpq).
  { exists p1. split; [by eapply list_elem_of_lookup_2|]. done. }
  pose proof (best_pending_spec l2 target 0 None) as S2.
  destruct (best_pending l2 target 0 None) as [[i2 p2]|].
  2:{ destruct S2 as [_ S2]. by rewrite S2 in Hoq. }
  destruct S2 as ([?|(j2 & _ & Hj2 & Ho2)] & Hm2 & _); [done|]. exists i2, p2. split; [done|].
  apply list_elem_of_lookup_2 in Hj2 as Hp2.
  destruct (proj2 (Hsame (pn_block_hash p2) (pn_priority p2))) as (r & Hr & Hor & _ & Hpr); [by exists p2|].
  rewrite <- Hhq. apply Hinj; [done..|]. apply prio_antisym; [by apply Hm2|].
  rewrite Hpq, <- Hpr. by apply Hm1.
Qed.

(** ** Sealing *)

Lemma mempool_has_false mp h : ac_mempool_has mp h = false ↔ h ∉ e_hash <$> mp_entries mp.
Proof.
  unfold ac_mempool_has. destruct (mp_find_spec mp h) as [(l1 & e & l2 & Hl & -> & He)|[-> Hh]]; [|done].
  rewrite (proj2 (Z.leb_le _ _)) by lia. split; [done|]. intros []. rewrite Hl, <- He. apply list_elem_of_fmap.
  exists e. set_solver.
Qed.

Lemma remove_txs_spec l mp : mp_wf mp →
  mp_wf (remove_txs mp l) ∧ mp_entries (remove_txs mp l) = filter (λ e, e_hash e ∉ ac_tx_hash <$> l) (mp_entries mp).
Proof.
  revert mp. induction l as [|t l IH]; intros mp Hw; cbn [remove_txs].
  { split; [done|]. rewrite filter_id; [done|]. apply Forall_forall. intros e _ ?%elem_of_nil. done. }
  destruct (mp_remove_spec mp (ac_tx_hash t) Hw) as (Hw1 & _ & _ & E1). destruct (IH _ Hw1) as [Hw2 E2].
  split; [done|]. rewrite E2, E1, list_filter_filter. apply list_filter_iff. intros e.
  rewrite fmap_cons, not_elem_of_cons. tauto.
Qed.

(** C23. Sealing: a block is marked committed only when its signers pass both quorum gates, the
    grace period for late votes is over (or the slot is being closed, or the node is
    catching up) and the chain accepted it or already had it; the chain is then the result
    of that acceptance, and no transaction of the block is left in the pool. Otherwise the
    pool is untouched and nothing is sent. *)
Theorem seal_commits cs i force env p :
  cs_pending cs !! i = Some p → pn_occupied p = true → pn_committed p = false → mp_wf (cs_mempool cs) →
  let k := with_signers (pn_block p) (pn_signers p) in
  let cs' := try_commit_inner cs i force env in
  ∃ q, cs_pending cs' !! i = Some q ∧
  if pn_committed q then
    quorum_reached (cs_chain cs) (pn_signers p) = true ∧
    (force = true ∨ (pn_slot p ⊕ 1) < ac_chain_current_slot (cs_chain cs) (t_wall env) ∨
     AC_SEAL_GRACE_MS <= (t_commit env ⊖ pn_threshold_reached_ms q)) ∧
    (∃ r, ac_chain_accept_block (cs_chain cs) k (e_io env) = (r, cs_chain cs') ∧ (r = AC_ACCEPT_OK ∨ r = AC_ACCEPT_DUP)) ∧
    (∀ t, t ∈ txs (pn_block p) → ac_mempool_has (cs_mempool cs') (ac_tx_hash t) = false)
  else cs_mempool cs' = cs_mempool cs ∧ cs_sent cs' = cs_sent cs.
Proof.
  intros Hi Ho Hc Hmp. cbv zeta. unfold try_commit_inner. rewrite Hi, Ho, Hc. cbn [negb orb].
  assert (i < length (cs_pending cs))%nat as Hlt by by apply lookup_lt_Some in Hi.
  destruct (quorum_reached _ _); cbn [negb]; [|by exists p; rewrite Hi, Hc].
  set (reached := if pn_threshold_reached_ms p =? 0 then _ else _).
  destruct (negb force && negb _ && _) eqn:Eg.
  { eexists. cbn. rewrite list_lookup_insert_eq by done. split; [done|]. done. }
  assert (force = true ∨ (pn_slot p ⊕ 1) < ac_chain_current_slot (cs_chain cs) (t_wall env) ∨
     AC_SEAL_GRACE_MS <= (t_commit env ⊖ reached)) as Hgr.
  { apply andb_false_iff in Eg as [[?%negb_false_iff|?%negb_false_iff%Z.ltb_lt]%andb_false_iff|?%Z.ltb_ge]; auto. }
  destruct (ac_chain_accept_block _ _ _) as [r c] eqn:Ea.
  destruct (decide (r = AC_ACCEPT_OK ∨ r = AC_ACCEPT_DUP)) as [Hr|Hr].
  - set (cs1 := set_mempool _ _).
    assert (∀ cs2, cs2 = cs1 ∨ (∃ t x, cs2 = bcast cs1 t x) →
      ∃ q, cs_pending cs2 !! i = Some q ∧ pn_committed q = true ∧ pn_threshold_reached_ms q = reached ∧
        cs_chain cs2 = c ∧ cs_mempool cs2 = cs_mempool cs1) as Hcs.
    { intros cs2 H2. exists (sealed p true (with_signers (pn_block p) (pn_signers p)) reached).
      destruct H2 as [-> |(t & x & ->)]; unfold bcast; [|destruct (cs_bcast cs1)]; cbn;
        by rewrite list_lookup_insert_eq. }
    destruct (Hcs (match ac_block_encode (with_signers (pn_block p) (pn_signers p)) with
      | Some enc => bcast cs1 AC_MSG_BLOCK_ANN enc | None => cs1 end)) as (q & Hq & Hqc & Hqr & Hch & Hm).
    { destruct (ac_block_encode _); [right; by eexists _, _ | by left]. }
    exists q. destruct Hr as [-> | ->]; (split; [exact Hq|]); rewrite Hqc, Hqr, Hch, Hm; (split; [done|]); (split; [done|]);
      (split; [eexists; split; [done | auto]|]); intros t Ht; apply mempool_has_false; unfold cs1; cbn;
      rewrite (proj2 (remove_txs_spec _ _ Hmp)); intros (e & Eh & [Hn _]%list_elem_of_filter)%list_elem_of_fmap;
      apply Hn; rewrite <- Eh; by apply list_elem_of_fmap_2.
  - exists (sealed p false (with_signers (pn_block p) []) reached).
    destruct r; try (exfalso; apply Hr; by auto); cbn; by rewrite list_lookup_insert_eq.
Qed.
End Votes.

(** ** A two-validator network, for the witnesses *)

#[local] Existing Instance toy_sodium.
#[local] Existing Instance x87.

Definition rival_kp : ac_keypair_t := ac_keypair_from_seed (bytes_of 32 (repeat (byte_of 9) 32)).
Definition duo_genesis : ac_genesis_t :=
  mkGenesis 7 1000 [mkGenAcc (pk demo_kp) 5000000 200000000; mkGenAcc (pk rival_kp) 0 900000000].
Definition duo_chain : ac_chain_t :=
  default demo_chain (ac_chain_open no_files (Some duo_genesis) demo_env).
(** The rival's proposal for the first height in a slot, and its vote for it. *)
Definition duo_block (slot : Z) : ac_block_t :=
  default demo_unsigned (ac_chain_build_block duo_chain slot rival_kp []).1.
Definition wire (k : ac_block_t) : list byte := default [] (ac_block_encode k).
Definition rival_vote (slot : Z) : list byte :=
  let k := duo_block slot in
  let x := sign_block duo_chain [rival_kp] k in
  match signers x with
  | [s] => vote_encode (mkVote (h_height (header k)) (ac_block_hash (header k)) (cs_signer s) (cs_sig s) (cs_vrf_proof s))
  | _ => []
  end.
Definition duo_env : cenv_t := mkCEnv 9000 9000 9000 9000 demo_env.
(** Our node, before and after the proposal of slot 3 arrived. *)
Definition duo_cs : ac_consensus_t := ac_consensus_new duo_chain (ac_mempool_new 7) demo_kp true true.
Definition duo_cs3 : ac_consensus_t := ac_consensus_handle_block duo_cs (wire (duo_block 3)) duo_env.

Lemma duo_genesis_wf : genesis_wf duo_genesis.
Proof. constructor; [by vm_compute..|]. repeat constructor; by vm_compute. Qed.
Lemma duo_reached io : reachable_from io duo_genesis duo_chain.
Proof. apply (reach_genesis io _ no_files demo_env); [done|by vm_compute]. Qed.
Lemma duo_ledger : ledger_ok duo_chain.
Proof. apply (reachable_from_ok true _ _ duo_genesis_wf (duo_reached true)). Qed.
Lemma duo_fits : chain_fits duo_chain.
Proof. constructor; [apply (lg_wf _ duo_ledger)|by vm_compute..]. Qed.
Lemma duo_step3 : cs_step false duo_cs duo_cs3.
Proof. apply cs_block; [apply duo_fits | done]. Qed.

Lemma consensus_safe_witness :
  length (cs_pending duo_cs3) = AC_PENDING_MAX ∧
  (pn_occupied <$> cs_pending duo_cs3) = true :: repeat false 7.
Proof.
  split; [|by vm_compute].
  refine (proj1 (proj2 (consensus_safe duo_cs3 _))).
  exists duo_chain, (ac_mempool_new 7), demo_kp, true, true.
  split; [apply duo_ledger|]. split; [done|]. eapply rtc_once, duo_step3.
Defined.

Definition entry0 (cs : ac_consensus_t) : pending_t := default (pending_init false 0) (cs_pending cs !! 0%nat).

Lemma handle_vote_counts_witness :
  length (pn_signers (entry0 (ac_consensus_handle_vote duo_cs3 (rival_vote 3) duo_env))) = 1%nat ∧
  ∃ p, cs_pending duo_cs3 !! 0%nat = Some p.
Proof.
  split; [by vm_compute|].
  destruct (handle_vote_counts duo_cs3 (rival_vote 3) duo_env 0
    (entry0 (ac_consensus_handle_vote duo_cs3 (rival_vote 3) duo_env))) as (p & Hp & _); [|by exists p].
  unfold entry0. destruct (cs_pending (ac_consensus_handle_vote duo_cs3 (rival_vote 3) duo_env) !! 0%nat) eqn:E; [done|].
  exfalso. by vm_compute in E.
Defined.

Lemma vote_lock_monotone_witness :
  cs_vote_height (vote_phase duo_cs3 3 duo_env) = 1 ∧
  (lock_of (vote_phase duo_cs3 3 duo_env) = lock_of duo_cs3 ∨ ∃ p, p ∈ cs_pending duo_cs3 ∧ open_at 1 p = true).
Proof.
  split; [by vm_compute|].
  destruct (vote_lock_monotone false duo_cs3 (vote_phase duo_cs3 3 duo_env)) as [E|(_ & _ & p & _ & Hp & Ho & _)].
  - apply cs_vote_phase; [|discriminate]. constructor; [|by vm_compute..].
    apply (lg_wf _ (co_ledger _ (handle_block_ok duo_cs _ duo_env
      (cs_reachable_ok duo_cs (ex_intro _ duo_chain (ex_intro _ (ac_mempool_new 7) (ex_intro _ demo_kp
        (ex_intro _ true (ex_intro _ true (conj duo_ledger (conj eq_refl (rtc_refl _ _)))))))))
      duo_fits))).
  - left. exact E.
  - right. exists p. split; [exact Hp|]. exact Ho.
Defined.

Definition open_entry (i : Z) (pr : Z) : pending_t :=
  mkPending true false 1 i (hash_of i) zero_block [] 0 (bytes_of 16 (ac_be64 pr)) 0.
Lemma vote_choice_agrees_witness :
  ∃ i2 p2, best_pending [open_entry 4 9; open_entry 5 2] 1 0 None = Some (i2, p2) ∧ pn_block_hash p2 = hash_of 5.
Proof.
  apply (vote_choice_agrees [open_entry 5 2; open_entry 4 9] _ 1 0 (open_entry 5 2)); [| |by vm_compute].
  - intros bh pr. split; intros (p & Hp & H); exists p; set_solver.
  - intros p q Hp Hq. set_unfold. destruct Hp as [-> |[-> |[]]], Hq as [-> |[-> |[]]]; try done;
      intros E%(f_equal b); by vm_compute in E.
Defined.

Lemma seal_commits_witness :
  let cs := ac_consensus_handle_vote duo_cs3 (rival_vote 3) duo_env in
  ∃ q, cs_pending (try_commit_inner cs 0 true duo_env) !! 0%nat = Some q.
Proof.
  intros cs. destruct (seal_commits cs 0 true duo_env (entry0 cs)) as (q & Hq & _); [| | | |by exists q].
  - unfold entry0. destruct (cs_pending cs !! 0%nat) eqn:E; [done|]. exfalso. by vm_compute in E.
  - by vm_compute.
  - by vm_compute.
  - assert (cs_mempool cs = ac_mempool_new 7) as -> by by vm_compute. apply (mp_new_wf 7).
Defined.

(** ** Behaviours the comments of consensus.c rule out *)

(** A validator signs two blocks of one height: it votes for the proposal of slot 3,
    and when a proposal of lower priority arrives in slot 5 it votes for that one too.
    The two votes are valid slashing evidence against it. *)
Definition votes_sent (cs : ac_consensus_t) : list vote_t :=
  omap (λ m, if m.1 =? AC_MSG_COMMIT_VOTE then vote_decode m.2 else None) (cs_sent cs).
Definition duo_cs5 : ac_consensus_t :=
  vote_phase (ac_consensus_handle_block (vote_phase duo_cs3 3 duo_env) (wire (duo_block 5)) duo_env) 5 duo_env.
Definition duo_evidence : ac_tx_t :=
  match votes_sent duo_cs5 with
  | [x; y] => mkTx 1 7 AC_TX_SLASH_EVIDENCE (pk rival_kp) 0 600 0 1000
      (b (v_signer x) ++ ac_be64 1 ++ b (v_block_hash x) ++ b (v_sig x) ++ b (v_block_hash y) ++ b (v_sig y)) [] (sig_of 0)
  | _ => demo_tx
  end.
Lemma validator_votes_twice_at_one_height :
  (v_height <$> votes_sent duo_cs5) = [1; 1] ∧ NoDup (v_block_hash <$> votes_sent duo_cs5) ∧
  Forall (λ v, v_signer v = pk demo_kp ∧
    ac_verify (v_sig v) (ac_vote_message (v_height v) (v_block_hash v)) (v_signer v) = true) (votes_sent duo_cs5) ∧
  let s := ac_state_credit (c_state duo_chain) (pk rival_kp) 1000000 in
  let '(rc, s', _) := ac_state_apply_tx s duo_evidence 6 1 in
  rc = 0 ∧ stake (ac_state_get s (pk demo_kp)).2 = 200000000 ∧ stake (ac_state_get s' (pk demo_kp)).2 = 0.
Proof.
  split; [by vm_compute|]. split; [apply (bool_decide_unpack _); by vm_compute|].
  split; [apply (bool_decide_unpack _); by vm_compute | by vm_compute].
Qed.

(** Signers folded in from a repeated block announcement are not verified: a copy of a
    pending block with a forged signer makes every certificate the node assembles for
    it invalid, and the signer's real vote is then dropped as a duplicate. Without the
    forged copy the same vote seals the block. *)
Definition forged_copy : ac_block_t :=
  with_signers (duo_block 3) [mkSigner (pk rival_kp) (sig_of 0) (sig_of 0)].
Lemma forged_signer_blocks_sealing :
  let good := seal_phase (ac_consensus_handle_vote duo_cs3 (rival_vote 3) duo_env) 3 (λ _, duo_env) in
  let bad := seal_phase (ac_consensus_handle_vote
    (ac_consensus_handle_block duo_cs3 (wire forged_copy) duo_env) (rival_vote 3) duo_env) 3 (λ _, duo_env) in
  (c_height (cs_chain good), pn_committed (entry0 good)) = (1, true) ∧
  (c_height (cs_chain bad), pn_committed (entry0 bad)) = (0, false).
Proof. by vm_compute. Qed.

(** A vote signed for another height is counted for the block, and then spoils its
    certificate in the same way. *)
Definition wrong_height_vote : list byte :=
  let k := duo_block 3 in
  match signers (sign_block duo_chain [rival_kp] k) with
  | [s] => vote_encode (mkVote 77 (ac_block_hash (header k)) (pk rival_kp)
             (ac_sign (ac_vote_message 77 (ac_block_hash (header k))) rival_kp) (cs_vrf_proof s))
  | _ => []
  end.
Lemma wrong_height_vote_blocks_sealing :
  let bad := seal_phase (ac_consensus_handle_vote
    (ac_consensus_handle_vote duo_cs3 wrong_height_vote duo_env) (rival_vote 3) duo_env) 3 (λ _, duo_env) in
  length (pn_signers (entry0 bad)) = 1%nat ∧ (c_height (cs_chain bad), pn_committed (entry0 bad)) = (0, false).
Proof. by vm_compute. Qed.
