(* ===== verification/Inclusion.v ===== *)
(** * From the pool to the ledger

    What becomes of a transaction a node has in its pool: the leader's selection as a
    greedy pass in tip order, the place of the transaction in the block it builds, and the
    lookup that finds it on every chain that accepts the block. *)

From S2P Require Import Prelude Common Crypto Cursor Codec SortedArray State Apply Mempool Econ Chain Accept Ledger Agreement Unique Consensus ConsensusFacts.

Section Inclusion.
Context `{!Sodium} `{!LongDouble}.

(** The pass over the candidates, cut in two. *)
Lemma select_txs_app l1 l2 s slot bf g tp :
  select_txs s (l1 ++ l2) slot bf g tp =
  let '(s1, k1, g1, tp1) := select_txs s l1 slot bf g tp in
  let '(s2, k2, g2, tp2) := select_txs s1 l2 slot bf g1 tp1 in (s2, k1 ++ k2, g2, tp2).
Proof.
  revert s g tp. induction l1 as [|t l1 IH]; intros s g tp; cbn [app select_txs]; [by destruct (select_txs s l2 slot bf g tp) as [[[? ?] ?] ?]|].
  destruct (negb _); [done|]. destruct (_ <? _); [done|]. destruct (ac_state_apply_tx s t slot bf) as [[rc s'] r].
  destruct (_ <? _); [done|]. rewrite IH. destruct (select_txs s' l1 _ _ _ _) as [[[s1 k1] g1] tp1].
  by destruct (select_txs s1 l2 _ _ _ _) as [[[? ?] ?] ?].
Qed.
(** A candidate that is signed, fits and applies when its turn comes is taken. *)
Lemma select_txs_takes t l s slot bf g tp : state_wf s → tx_wf t → 0 <= g → ac_tx_verify t = true →
  g + ac_tx_total_gas t <= AC_BLOCK_GAS_LIMIT → (ac_state_apply_tx s t slot bf).1.1 ≠ -1 →
  ∃ kept, (select_txs s (t :: l) slot bf g tp).1.1.2 = t :: kept.
Proof.
  intros Hs Ht Hg Hv Hfit Hap. cbn [select_txs]. rewrite Hv. cbn [negb].
  pose proof (apply_tx_gas s t slot bf Hs Ht) as Ha. pose proof (apply_accepted s t slot bf Hs Ht Hap) as (v & _ & _ & _ & E).
  destruct (ac_state_apply_tx s t slot bf) as [[rc s'] r]. cbn [fst] in Hap.
  destruct Ha as [[Hrc _]|(Hrc & _ & _ & Htot)].
  { injection E as -> _ _. by destruct (bo_err _). }
  rewrite u64_id by (unfold is_u64; lia). rewrite (proj2 (Z.ltb_ge _ _)), (proj2 (Z.ltb_ge rc 0)) by lia.
  destruct (select_txs s' l _ _ _ _) as [[[s2 kept] g2] tp2]. by exists kept.
Qed.

Lemma snapshot_split mp l1 e l2 n : mp_entries mp = l1 ++ e :: l2 → (length l1 < n)%nat →
  ∃ rest, ac_mempool_snapshot mp n = (e_tx <$> l1) ++ e_tx e :: rest.
Proof.
  intros E Hn. unfold ac_mempool_snapshot. rewrite E.
  match goal with |- context [take ?x] => set (m := x) end.
  assert (∃ j, m = (length l1 + S j)%nat) as [j ->].
  { unfold m. rewrite length_app, length_cons. exists (if (length l1 + S (length l2) <? n)%nat then length l2 else n - length l1 - 1)%nat.
    destruct (Nat.ltb_spec (length l1 + S (length l2)) n); lia. }
  rewrite take_app_add. cbn [take]. rewrite fmap_app, fmap_cons. by eexists.
Qed.

(** What a leader builds, seen from one entry of its pool. *)
Lemma built_includes cs slot k pr cs' l1 e l2 :
  cs_ok cs → mp_wf (cs_mempool cs) → chain_fits (cs_chain cs) →
  mp_entries (cs_mempool cs) = l1 ++ e :: l2 → (length l1 < 256)%nat → slot_build cs slot = (Some (k, pr), cs') →
  let '(s1, before, gas, _) := select_txs (c_state (cs_chain cs)) (e_tx <$> l1) slot (h_base_fee (header k)) 0 0 in
  gas + ac_tx_total_gas (e_tx e) <= AC_BLOCK_GAS_LIMIT →
  (ac_state_apply_tx s1 (e_tx e) slot (h_base_fee (header k))).1.1 ≠ -1 →
  txs k !! length before = Some (e_tx e) ∧ Forall (λ t, tx_tip (e_tx e) <= tx_tip t) before.
Proof.
  intros Hcs Hmp Hf El Hl. unfold slot_build. destruct (negb _); [done|].
  destruct (leader_frame cs slot) as [Hc Em]. destruct (am_i_leader cs slot) as [[lp|] cs1]; [|done]. cbn [snd] in *.
  pose proof (chain_fits_cache _ _ Hc Hf) as Hf1. rewrite Em.
  destruct (snapshot_split _ _ _ _ 256 El Hl) as [rest Esnap].
  destruct (snapshot_txs (cs_mempool cs) 256 (co_mempool _ Hcs)) as [Hcand _]. rewrite Esnap in *.
  cbn [cs_chain cs_kp set_mempool]. destruct (ac_chain_build_block _ _ _ _) as [[k'|] c] eqn:Eb; [|done].
  intros [= -> _ _]. pose proof (build_block_inv _ _ _ _ _ _ Hf1 (proj2 Hc (lg_cache _ (co_ledger _ Hcs))) Hcand Eb) as Hinv. cbv zeta in Hinv.
  set (fee := if c_height (cs_chain cs1) =? 0 then _ else _) in *. clearbody fee.
  assert (c_state (cs_chain cs1) = c_state (cs_chain cs)) as Es by (destruct Hc as [(? & ? & ? & ->) _]; done). rewrite Es in Hinv.
  apply Forall_app in Hcand as [Hc1 [He Hrest]%Forall_cons].
  pose proof (select_txs_spec (e_tx <$> l1) (c_state (cs_chain cs)) slot fee 0 0 (cf_state _ Hf) Hc1 ltac:(lia)) as Hsel.
  rewrite select_txs_app in Hinv.
  destruct (select_txs _ (e_tx <$> l1) slot fee 0 0) as [[[s1 before] gas] tips1] eqn:E1.
  destruct Hsel as (Hg & Hsub & _ & Hs1 & _ & _).
  pose proof (select_txs_takes (e_tx e) rest s1 slot fee gas tips1 Hs1 He ltac:(lia)) as Htake.
  destruct (select_txs s1 (e_tx e :: rest) _ _ _ _) as [[[s2 k2] g2] tp2]. destruct Hinv as (_ & _ & -> & _).
  cbn [header h_base_fee txs fst snd] in *. rewrite E1. intros Hgas Hap.
  pose proof (mw_ok _ Hmp) as Hok. pose proof (mw_sorted _ Hmp) as Hsort. rewrite El in Hok, Hsort.
  rewrite Forall_app, Forall_cons in Hok. destruct Hok as (Hok1 & Hoke & _).
  destruct Htake as [kept ->]; [apply Hoke|done|done|].
  split; [by rewrite lookup_app_r, Nat.sub_diag by lia|].
  apply Forall_forall. intros t Ht. assert (t ∈ e_tx <$> l1) as (x & -> & Hx)%list_elem_of_fmap by (by eapply elem_of_sublist).
  rewrite Forall_forall in Hok1. rewrite <- (eo_tip _ _ Hoke), <- (eo_tip _ _ (Hok1 x Hx)).
  exact (StronglySorted_app_1_elem_of _ _ _ _ e Hsort Hx ltac:(by left)).
Qed.

(** C9. From the pool to the ledger: when a leader builds a block, an entry among the first
    256 of its pool is in it, provided that after the entries before it the gas suffices
    and it still applies; then only transactions with at least its tip stand before it in
    the block. And whichever chain, on whatever node whose file writes succeed, accepts a
    block with these transactions, a lookup of its hash there returns that block and
    position (unless the hash function confuses two transactions of that chain), and the
    entry is gone from a pool the block's transactions were removed from. *)
Theorem tx_confirmed cs slot k pr cs' l1 e l2 :
  cs_ok cs → mp_wf (cs_mempool cs) → chain_fits (cs_chain cs) →
  mp_entries (cs_mempool cs) = l1 ++ e :: l2 → (length l1 < 256)%nat → slot_build cs slot = (Some (k, pr), cs') →
  let '(s1, before, gas, _) := select_txs (c_state (cs_chain cs)) (e_tx <$> l1) slot (h_base_fee (header k)) 0 0 in
  gas + ac_tx_total_gas (e_tx e) <= AC_BLOCK_GAS_LIMIT →
  (ac_state_apply_tx s1 (e_tx e) slot (h_base_fee (header k))).1.1 ≠ -1 →
  txs k !! length before = Some (e_tx e) ∧ Forall (λ t, tx_tip (e_tx e) <= tx_tip t) before ∧
  ∀ d k' env mp, reachable true d → chain_fits d → block_wf k' → txs k' = txs k → writes_ok env = true → mp_wf mp →
    (ac_chain_accept_block d k' env).1 = AC_ACCEPT_OK →
    let d' := (ac_chain_accept_block d k' env).2 in
    hashes_apart d' →
    (ac_chain_tx_find d' (ac_tx_hash (e_tx e))).1 = Some (c_height d + 1, Z.of_nat (length before)) ∧
    ac_mempool_has (remove_txs mp (txs k')) (ac_tx_hash (e_tx e)) = false.
Proof.
  intros Hcs Hmp Hf El Hl Hb. pose proof (built_includes cs slot k pr cs' l1 e l2 Hcs Hmp Hf El Hl Hb) as Hi.
  destruct (select_txs _ _ _ _ _ _) as [[[s1 before] gas] tips]. intros Hgas Hap. destruct (Hi Hgas Hap) as [Hin Htip].
  split; [done|]. split; [done|]. intros d k' env mp Hr Hfd Hk Et Hio Hw Hok d' Hn.
  pose proof (reachable_ledger _ d Hr) as HL. pose proof (lk_height _ _ _ _ (lg_linked _ HL)) as Hh.
  destruct (accept_ok_inv d k' env Hfd Hk Hh (lg_cache _ HL) Hok) as (Hho & Hbo & Hc).
  pose proof (ex_height _ _ (checks_extend d k' _ HL Hk Hho Hbo)) as Eh.
  pose proof (proj1 (committed_read _ _ _ _ Hk Hc)) as Hread. fold d' in Hc, Hread. rewrite Eh in Hread. split.
  - apply tx_find_stored; [by apply accept_ledger | apply accept_stored; try done; by apply reachable_stored | apply index_nodup; [|done]; by apply (reachable_accept d)|].
    rewrite (cm_height _ _ _ _ Hc), Eh. split; [lia|]. split; [lia|]. exists k', (e_tx e). rewrite Nat2Z.id, Et. done.
  - destruct (remove_txs_spec (txs k') mp Hw) as [Hw' Er]. apply not_true_is_false. intros Hhas.
    apply (proj1 (proj2 (mp_remove_spec _ (ac_tx_hash (e_tx e)) Hw'))) in Hhas. rewrite Er in Hhas.
    apply list_elem_of_fmap in Hhas as (x & Ex & [Hx _]%list_elem_of_filter). apply Hx. rewrite <- Ex, Et.
    apply list_elem_of_fmap. exists (e_tx e). split; [done|]. by eapply list_elem_of_lookup_2.
Qed.
End Inclusion.

(** ** Witness *)

#[local] Existing Instance toy_sodium.
#[local] Existing Instance x87.

(** The validator of the demonstration chain with one transfer in its pool, the block it
    builds for slot 3, and its vote for it. *)
Definition demo_pool : ac_mempool_t := (ac_mempool_add (ac_mempool_new 7) (c_state demo_chain) demo_tx 3).2.
Definition pool_engine : ac_consensus_t :=
  set_mempool (ac_consensus_new demo_chain (ac_mempool_new 7) demo_kp true true) demo_pool.
Definition pool_proposal : ac_block_t := (default (zero_block, zeros 64) (slot_build pool_engine 3).1).1.
Definition pool_sealed : ac_block_t := sign_block demo_chain [demo_kp] pool_proposal.
Definition pool_entry : mp_entry_t := default (mkEntry demo_tx (zeros 32) 0 0) (mp_entries (cs_mempool pool_engine) !! 0%nat).

Lemma pool_engine_ok : cs_ok pool_engine.
Proof.
  apply cs_reachable_ok. exists demo_chain, (ac_mempool_new 7), demo_kp, true, true.
  split; [apply (reachable_from_ok true _ _ demo_genesis_wf (demo_chain_reached true))|]. split; [done|].
  apply rtc_once, (cs_add false (ac_consensus_new demo_chain (ac_mempool_new 7) demo_kp true true) demo_tx 3), demo_tx_wf.
Qed.
Lemma pool_engine_wf : mp_wf (cs_mempool pool_engine).
Proof.
  change (cs_mempool pool_engine) with demo_pool.
  apply ac_mempool_add_wf, mp_new_wf.
Qed.
Lemma pool_engine_entries : mp_entries (cs_mempool pool_engine) = [] ++ pool_entry :: [].
Proof.
  unfold pool_entry. assert (length (mp_entries (cs_mempool pool_engine)) = 1%nat) as E by (vm_compute; reflexivity).
  destruct (mp_entries (cs_mempool pool_engine)) as [|x [|y l]]; [discriminate E | reflexivity | discriminate E].
Qed.
Lemma pool_engine_builds : ∃ pr cs', slot_build pool_engine 3 = (Some (pool_proposal, pr), cs').
Proof.
  unfold pool_proposal. assert (bool_decide (is_Some (slot_build pool_engine 3).1) = true) as E by (vm_compute; reflexivity).
  destruct (slot_build pool_engine 3) as [[[k pr]|] cs']; [by exists pr, cs' | discriminate E].
Qed.
Lemma sign_block_wf c kps k : block_wf k → zlen kps <= AC_COMMITTEE_MAX → block_wf (sign_block c kps k).
Proof. intros [] Hn. constructor; [done..|]. unfold sign_block. cbn. by rewrite length_fmap. Qed.
Lemma pool_sealed_wf : block_wf pool_sealed.
Proof.
  assert (is_u64 3) as H3 by by vm_compute. pose proof (proj2 (slot_build_ok true pool_engine 3 pool_engine_ok demo_fits H3)) as H.
  destruct pool_engine_builds as (pr & cs' & E). rewrite E in H.
  destruct (H pool_proposal pr eq_refl) as [Hk _]. apply sign_block_wf; [exact Hk | vm_compute; discriminate].
Qed.

Lemma tx_confirmed_witness :
  (ac_chain_tx_find (ac_chain_accept_block demo_chain pool_sealed demo_env).2 (ac_tx_hash (e_tx pool_entry))).1 = Some (1, 0).
Proof.
  destruct pool_engine_builds as (pr & cs' & E).
  pose proof (tx_confirmed pool_engine 3 pool_proposal pr cs' [] pool_entry []
    pool_engine_ok pool_engine_wf demo_fits pool_engine_entries ltac:(apply Nat.ltb_lt; reflexivity) E) as H.
  cbn [fmap list_fmap select_txs] in H.
  destruct H as (_ & _ & H); [apply Z.leb_le; vm_compute; reflexivity | vm_compute; discriminate|].
  assert (reachable true demo_chain) as Hr by exact (ex_intro _ demo_genesis (conj demo_genesis_wf (demo_chain_reached true))).
  refine (proj1 (H demo_chain pool_sealed demo_env (ac_mempool_new 7) Hr demo_fits pool_sealed_wf eq_refl eq_refl _ _ _)).
  - apply (mp_new_wf 7).
  - vm_compute. reflexivity.
  - assert (txs_of (ac_chain_accept_block demo_chain pool_sealed demo_env).2 = [e_tx pool_entry]) as Et by (vm_compute; reflexivity).
    constructor; rewrite Et; [reflexivity|]. intros t u ->%list_elem_of_singleton ->%list_elem_of_singleton _. split; reflexivity.
Defined.
