(* ===== verification/Slots.v ===== *)
(** * consensus.c: the slot timer

    [slot_loop] with the clock readings as inputs: which phase runs for which slot, how
    long the thread sleeps before it, and what the phases do to the engine. *)

From S2P Require Import Prelude Common Crypto Cursor Codec SortedArray State Apply Mempool Econ Chain Accept Ledger Consensus ConsensusFacts.

Abbreviation AC_VOTE_DELAY_MS := 1100.

Inductive phase_t := Propose | Vote | Seal.

(** A sleep until [at_ms], after the clock read [now]. *)
Definition sleep_until (at_ms now : Z) : Z := if now <? at_ms then at_ms ⊖ now else 0.

(** The alignment: the sleep until genesis; then, with a second clock reading, the first
    slot and the sleep until it. *)
Definition align_genesis (genesis now : Z) : Z := if now <? genesis then genesis ⊖ now else 0.
Definition align_slot (genesis now : Z) : Z * Z :=
  let current_slot := (now ⊖ genesis) / AC_SLOT_DURATION_MS in
  let slot_start := genesis ⊕ ((current_slot ⊕ 1) ⊗ AC_SLOT_DURATION_MS) in
  (current_slot ⊕ 1, sleep_until slot_start now).

(** What one turn of the loop reads: the clock before each sleep, whether the engine still
    runs after it, and the inputs of the three phases. *)
Record turn_t := mkTurn {
  tn_propose : cenv_t;
  tn_vote_now : Z; tn_vote_runs : bool; tn_vote : cenv_t;
  tn_seal_now : Z; tn_seal_runs : bool; tn_seal : nat → cenv_t;
  tn_next_now : Z
}.

Section Timer.
Context `{!Sodium} `{!LongDouble}.

(** The engine after the turns, and the phases run, each with its slot and the sleep
    before it. The turns end when the engine stops at the head of the loop. *)
Fixpoint slot_loop (genesis : Z) (cs : ac_consensus_t) (slot before : Z) (turns : list turn_t)
    : ac_consensus_t * list (phase_t * Z * Z) :=
  match turns with
  | [] => (cs, [])
  | t :: turns =>
      let cs := slot_routine cs slot (tn_propose t) in
      let slot_start := genesis ⊕ (slot ⊗ AC_SLOT_DURATION_MS) in
      let d1 := sleep_until (slot_start ⊕ AC_VOTE_DELAY_MS) (tn_vote_now t) in
      if negb (tn_vote_runs t) then (cs, [(Propose, slot, before)])
      else
        let cs := vote_phase cs slot (tn_vote t) in
        let d2 := sleep_until ((slot_start ⊕ AC_VOTE_DELAY_MS) ⊕ AC_SEAL_GRACE_MS) (tn_seal_now t) in
        if negb (tn_seal_runs t) then (cs, [(Propose, slot, before); (Vote, slot, d1)])
        else
          let cs := seal_phase cs slot (tn_seal t) in
          let slot' := slot ⊕ 1 in
          let d3 := sleep_until (genesis ⊕ (slot' ⊗ AC_SLOT_DURATION_MS)) (tn_next_now t) in
          let '(cs, l) := slot_loop genesis cs slot' d3 turns in
          (cs, (Propose, slot, before) :: (Vote, slot, d1) :: (Seal, slot, d2) :: l)
  end.
End Timer.

(** ** The schedule *)

(** When a phase of a slot is due. *)
Definition due (genesis slot : Z) (p : phase_t) : Z :=
  genesis + slot * AC_SLOT_DURATION_MS + match p with Propose => 0 | Vote => AC_VOTE_DELAY_MS | Seal => AC_VOTE_DELAY_MS + AC_SEAL_GRACE_MS end.
(** The sleep that ends when it is due, or none when that is past. *)
Definition wait_for (now at_ms : Z) : Z := Z.max 0 (at_ms - now).

Lemma sleep_until_spec at_ms now : is_u64 at_ms → is_u64 now → sleep_until at_ms now = wait_for now at_ms.
Proof.
  intros Ha Hn. unfold sleep_until, wait_for. destruct (Z.ltb_spec now at_ms); [|lia].
  rewrite Z.max_r by lia. warith.
Qed.

(** The phases of a slot, with their waits. *)
Definition slot_phases (genesis slot before : Z) (t : turn_t) : list (phase_t * Z * Z) :=
  [(Propose, slot, before); (Vote, slot, wait_for (tn_vote_now t) (due genesis slot Vote));
   (Seal, slot, wait_for (tn_seal_now t) (due genesis slot Seal))].
Fixpoint schedule (genesis slot before : Z) (turns : list turn_t) : list (phase_t * Z * Z) :=
  match turns with
  | [] => []
  | t :: turns => slot_phases genesis slot before t ++
                  schedule genesis (slot + 1) (wait_for (tn_next_now t) (due genesis (slot + 1) Propose)) turns
  end.

(** The calls of a slot with their inputs, and those of the slots from [slot] on. *)
Inductive call_t := CallPropose (slot : Z) (env : cenv_t) | CallVote (slot : Z) (env : cenv_t) | CallSeal (slot : Z) (env : nat → cenv_t).
Fixpoint calls (slot : Z) (turns : list turn_t) : list call_t :=
  match turns with
  | [] => []
  | t :: turns => [CallPropose slot (tn_propose t); CallVote slot (tn_vote t); CallSeal slot (tn_seal t)] ++ calls (slot + 1) turns
  end.

(** While the engine runs. *)
Definition turn_ok (t : turn_t) : Prop :=
  tn_vote_runs t = true ∧ tn_seal_runs t = true ∧ is_u64 (tn_vote_now t) ∧ is_u64 (tn_seal_now t) ∧ is_u64 (tn_next_now t).

Section Schedule.
Context `{!Sodium} `{!LongDouble}.

(** Aligning with the wall clock: the first slot is the next one to begin, and the sleep
    ends with its beginning. *)
Lemma align_spec genesis now : 0 <= genesis <= now → now + 2 * AC_SLOT_DURATION_MS < U64 →
  let '(slot, d) := align_slot genesis now in
  d = due genesis slot Propose - now ∧ 0 < d <= AC_SLOT_DURATION_MS ∧ align_genesis genesis now = 0.
Proof.
  intros Hg Hn. unfold align_slot, align_genesis. pose proof (Z.div_mod (now - genesis) AC_SLOT_DURATION_MS ltac:(lia)) as Hd.
  pose proof (Z.mod_pos_bound (now - genesis) AC_SLOT_DURATION_MS ltac:(lia)) as Hm.
  replace (now ⊖ genesis) with (now - genesis) by warith.
  assert (0 <= (now - genesis) / AC_SLOT_DURATION_MS) as Hq by (apply Z.div_pos; lia).
  set (q := (now - genesis) / AC_SLOT_DURATION_MS) in *. clearbody q.
  replace (q ⊕ 1) with (q + 1) by warith. replace ((q + 1) ⊗ AC_SLOT_DURATION_MS) with ((q + 1) * AC_SLOT_DURATION_MS) by warith.
  replace (genesis ⊕ ((q + 1) * AC_SLOT_DURATION_MS)) with (genesis + (q + 1) * AC_SLOT_DURATION_MS) by warith.
  rewrite sleep_until_spec by (split; lia). unfold wait_for, due. destruct (Z.ltb_spec now genesis); [lia|].
  rewrite Z.max_r by lia. lia.
Qed.

Definition run_call (cs : ac_consensus_t) (c : call_t) : ac_consensus_t :=
  match c with
  | CallPropose slot env => slot_routine cs slot env
  | CallVote slot env => vote_phase cs slot env
  | CallSeal slot env => seal_phase cs slot env
  end.

(** C25. The timer keeps the schedule: while the engine runs it visits every slot from its first,
    in order and without skipping one even when late; the engine it leaves is the one on
    which the routines of proposing, voting and sealing were run for each slot, in this
    order and nothing else; before each it sleeps exactly until the phase is due (0, 1100
    and 1400 ms after the slot begins), and not at all when that time is past. *)
Theorem slot_loop_schedule genesis cs slot before turns :
  0 <= genesis → 0 <= slot → due genesis (slot + zlen turns) Seal < U64 → Forall turn_ok turns →
  slot_loop genesis cs slot before turns = (foldl run_call cs (calls slot turns), schedule genesis slot before turns).
Proof.
  intros Hg Hs Hb Ht. revert cs slot before Hs Hb. induction Ht as [|t turns (R1 & R2 & N1 & N2 & N3) _ IH]; intros cs slot before Hs Hb; [done|].
  cbn [slot_loop schedule calls app foldl run_call]. rewrite R1, R2. cbn [negb]. unfold due in Hb. rewrite length_cons in Hb.
  assert (genesis ⊕ (slot ⊗ AC_SLOT_DURATION_MS) = genesis + slot * AC_SLOT_DURATION_MS) as E0 by warith.
  assert (genesis ⊕ ((slot ⊕ 1) ⊗ AC_SLOT_DURATION_MS) = genesis + (slot + 1) * AC_SLOT_DURATION_MS) as E1.
  { replace (slot ⊕ 1) with (slot + 1) by warith. warith. }
  rewrite E0, E1. replace (slot ⊕ 1) with (slot + 1) by warith.
  replace (genesis + slot * AC_SLOT_DURATION_MS ⊕ AC_VOTE_DELAY_MS) with (due genesis slot Vote) by (unfold due; warith).
  replace (due genesis slot Vote ⊕ AC_SEAL_GRACE_MS) with (due genesis slot Seal) by (unfold due; warith).
  replace (genesis + (slot + 1) * AC_SLOT_DURATION_MS) with (due genesis (slot + 1) Propose) by (unfold due; lia).
  rewrite !sleep_until_spec by (done || unfold due; split; lia).
  match goal with |- context [slot_loop genesis ?c ?s ?d turns] => rewrite (IH c s d) end; [done | lia|]. unfold due. lia.
Qed.
End Schedule.

(** ** The seal phase *)

Section SealPhase.
Context `{!Sodium} `{!LongDouble}.

(** An entry the seal phase of a slot looks at. *)
Definition open_at (slot : Z) (p : pending_t) : Prop :=
  pn_occupied p = true ∧ pn_slot p = slot ∧ pn_committed p = false.

Lemma try_commit_other cs i force env j : i ≠ j →
  cs_pending (try_commit_inner cs i force env) !! j = cs_pending cs !! j ∧
  cs_sent cs `prefix_of` cs_sent (try_commit_inner cs i force env).
Proof.
  intros Hij. unfold try_commit_inner. assert (cs_sent cs `prefix_of` cs_sent cs) as Hrefl by reflexivity.
  destruct (cs_pending cs !! i) as [p|]; [|done].
  destruct (_ || _); [done|]. destruct (negb _); [done|]. cbv zeta. destruct (_ && _).
  { cbn. by rewrite list_lookup_insert_ne. }
  destruct (ac_chain_accept_block _ _ _) as [r c].
  destruct r; try solve [cbn; by rewrite list_lookup_insert_ne].
  all: destruct (ac_block_encode (with_signers (pn_block p) (pn_signers p))) as [enc|]; [|cbn; by rewrite list_lookup_insert_ne].
  all: unfold bcast; case_match; cbn; rewrite list_lookup_insert_ne by done; split; try done; by apply prefix_app_r.
Qed.

Lemma seal_loop_other n cs slot i env j : (j < i)%nat →
  cs_pending (seal_loop cs slot i n env) !! j = cs_pending cs !! j ∧ cs_sent cs `prefix_of` cs_sent (seal_loop cs slot i n env).
Proof.
  revert cs i. induction n as [|n IH]; intros cs i Hj; [by split|]. cbn [seal_loop].
  match goal with |- context [seal_loop ?c slot (S i) n env] => destruct (IH c (S i) ltac:(lia)) as [E P]; rewrite E; clear E;
    assert (cs_pending c !! j = cs_pending cs !! j ∧ cs_sent cs `prefix_of` cs_sent c) as [E P'] end.
  { destruct (cs_pending cs !! i); [|done]. destruct (_ || _); [done|]. apply try_commit_other. lia. }
  split; [done|]. by etrans.
Qed.

Lemma seal_loop_skip n cs slot i env k : (k <= n)%nat →
  (∀ j q, (i <= j < i + k)%nat → cs_pending cs !! j = Some q → open_at slot q → quorum_reached (cs_chain cs) (pn_signers q) = false) →
  seal_loop cs slot i n env = seal_loop cs slot (i + k) (n - k) env.
Proof.
  revert i k. induction n as [|n IH]; intros i k Hk Hq; [by replace k with 0%nat by lia|].
  destruct k as [|k]; [by rewrite Nat.add_0_r|]. cbn [seal_loop].
  match goal with |- seal_loop ?c _ _ _ _ = _ => assert (c = cs) as -> end.
  { destruct (cs_pending cs !! i) as [q|] eqn:Ei; [|done].
    destruct (negb (pn_occupied q) || negb (pn_slot q =? slot) || pn_committed q) eqn:Eo; [done|].
    apply orb_false_iff in Eo as [[E1%negb_false_iff E2%negb_false_iff%Z.eqb_eq]%orb_false_iff E3].
    unfold try_commit_inner. rewrite Ei, E1, E3, (Hq i q ltac:(lia) Ei) by done. done. }
  rewrite (IH (S i) k); [f_equal; lia | lia | intros j q Hj; apply Hq; lia].
Qed.

(** The seal phase seals: the first open block of the slot that has a quorum, if the chain
    accepts it with the signers collected, is committed and announced whatever its age. *)
Theorem seal_phase_seals cs slot env i p :
  length (cs_pending cs) = AC_PENDING_MAX → cs_bcast cs = true →
  cs_pending cs !! i = Some p → open_at slot p → quorum_reached (cs_chain cs) (pn_signers p) = true →
  (∀ j q, (j < i)%nat → cs_pending cs !! j = Some q → open_at slot q → quorum_reached (cs_chain cs) (pn_signers q) = false) →
  let k := with_signers (pn_block p) (pn_signers p) in
  block_wf k →
  (ac_chain_accept_block (cs_chain cs) k (e_io (env i))).1 = AC_ACCEPT_OK →
  let cs' := seal_phase cs slot env in
  (pn_committed <$> cs_pending cs' !! i) = Some true ∧ (AC_MSG_BLOCK_ANN, block_bytes k) ∈ cs_sent cs'.
Proof.
  intros Hl Hbc Hi (Ho & Hs & Hc) Hq Hbefore k Hk Ha cs'. assert (i < AC_PENDING_MAX)%nat as Hlt by (rewrite <- Hl; by apply lookup_lt_Some in Hi).
  unfold cs', seal_phase. rewrite (seal_loop_skip AC_PENDING_MAX cs slot 0 env i); [|lia|intros j q Hj; apply Hbefore; lia].
  cbn [Nat.add]. destruct (AC_PENDING_MAX - i)%nat as [|m] eqn:Em; [lia|]. cbn [seal_loop]. rewrite Hi, Ho, Hs, Hc, Z.eqb_refl. cbn [negb orb].
  destruct (seal_loop_other m (try_commit_inner cs i true (env i)) slot (S i) env i ltac:(lia)) as [-> [l ->]].
  unfold try_commit_inner. rewrite Hi, Ho, Hc, Hq. cbn [negb orb andb]. fold k.
  destruct (ac_chain_accept_block _ k _) as [r c]. cbn in Ha. subst r. rewrite ac_block_encode_bytes by done.
  unfold bcast. cbn. rewrite Hbc. cbn. rewrite list_lookup_insert_eq by lia. split; [done|].
  apply elem_of_app. left. apply elem_of_app. right. by apply list_elem_of_singleton.
Qed.
End SealPhase.

(** ** Witness: two slots, the second of them entered late *)

#[local] Existing Instance toy_sodium.
#[local] Existing Instance x87.

Definition idle_engine : ac_consensus_t := ac_consensus_new demo_chain (ac_mempool_new 7) demo_kp true false.
Definition idle_turn (vote_now seal_now next_now : Z) : turn_t :=
  mkTurn duo_env vote_now true duo_env seal_now true (λ _, duo_env) next_now.
Lemma slot_loop_schedule_witness :
  slot_loop 1000 idle_engine 3 20 [idle_turn 7005 8150 12300; idle_turn 12310 12310 12320] =
  (foldl run_call idle_engine (calls 3 [idle_turn 7005 8150 12300; idle_turn 12310 12310 12320]),
   [(Propose, 3, 20); (Vote, 3, 1095); (Seal, 3, 250); (Propose, 4, 0); (Vote, 4, 0); (Seal, 4, 0)]).
Proof.
  rewrite (slot_loop_schedule 1000 idle_engine 3 20 [idle_turn 7005 8150 12300; idle_turn 12310 12310 12320]);
    [f_equal; vm_compute; reflexivity | lia | lia | vm_compute; reflexivity|].
  repeat constructor; vm_compute; (reflexivity || discriminate).
Defined.
