(* ===== verification/Text.v ===== *)
(** * C text: strings, numbers and the ad hoc JSON of rpc.c and main.c

    A C string is the list of its characters without the final NUL. The functions
    of the C library that the sources call on text ([strstr], [strtoull], ...), the
    decimal printing of [printf], and the small extractors of rpc.c and main.c over
    them. A double quote cannot be written in a literal, so [jstr] writes it as an
    apostrophe. *)

From S2P Require Import Prelude Common.

(** A C string in a buffer: what precedes the first NUL. *)
Fixpoint cstr (l : list byte) : list byte :=
  match l with
  | [] => []
  | c :: l' => if bool_decide (c = x00) then [] else c :: cstr l'
  end.

Abbreviation DQ := x22.
Definition unquote (c : byte) : byte := if bool_decide (c = x27) then DQ else c.
Definition jstring (l : list byte) : list byte := unquote <$> l.
Abbreviation jstr s := (jstring (str s)).

(** ** Numbers *)

(** [%u], [%zu] and [PRIu64]: the decimal digits of a 64-bit number. *)
Definition digit (d : Z) : byte := byte_of (48 + d).
Fixpoint dec_fuel (fuel : nat) (z : Z) : list byte :=
  match fuel with
  | O => []
  | S f => if z <? 10 then [digit z] else dec_fuel f (z / 10) ++ [digit (z mod 10)]
  end.
Definition dec (z : Z) : list byte := dec_fuel 20 z.

Definition isdigit (c : byte) : bool := (48 <=? byte_val c) && (byte_val c <=? 57).
Definition isspace (c : byte) : bool := (byte_val c =? 32) || ((9 <=? byte_val c) && (byte_val c <=? 13)).
Fixpoint skip_while (f : byte → bool) (l : list byte) : list byte :=
  match l with
  | [] => []
  | c :: l' => if f c then skip_while f l' else l
  end.
Fixpoint take_while (f : byte → bool) (l : list byte) : list byte :=
  match l with
  | [] => []
  | c :: l' => if f c then c :: take_while f l' else []
  end.

(** The value of a run of digits, and what follows it. *)
Definition digits_value (ds : list byte) : Z := foldl (λ v c, v * 10 + (byte_val c - 48)) 0 ds.
(** White space, sign, digits; [None] when there is no digit. *)
Definition scan_number (l : list byte) : option (bool * Z * list byte) :=
  let l := skip_while isspace l in
  let '(neg, l) :=
    match l with
    | x2d :: l' => (true, l')
    | x2b :: l' => (false, l')
    | _ => (false, l)
    end in
  match take_while isdigit l with
  | [] => None
  | ds => Some (neg, digits_value ds, skip_while isdigit l)
  end.
(** [strtoull(p, NULL, 10)]: saturates, a minus sign negates modulo 2^64. *)
Definition u64_of_scan (neg : bool) (v : Z) : Z :=
  if UINT64_MAX <? v then UINT64_MAX else if neg then u64 (- v) else v.
Definition strtoull (l : list byte) : Z :=
  match scan_number l with Some (neg, v, _) => u64_of_scan neg v | None => 0 end.
(** [atoi], as [(int) strtol(p, NULL, 10)]. *)
Definition atoi (l : list byte) : Z :=
  match scan_number l with
  | None => 0
  | Some (neg, v, _) =>
      let v := if neg then Z.max (- 2 ^ 63) (- v) else Z.min (2 ^ 63 - 1) v in
      let w := u32 v in if w <? 2 ^ 31 then w else w - 2 ^ 32
  end.

Definition is_blank (c : byte) : bool := bool_decide (c = x20) || bool_decide (c = x09).

(** ** Searching *)

Fixpoint prefix_of (x l : list byte) : bool :=
  match x, l with
  | [], _ => true
  | c :: x', d :: l' => bool_decide (c = d) && prefix_of x' l'
  | _, [] => false
  end.
(** The rest of the text from the first occurrence on. *)
Fixpoint strstr (l x : list byte) : option (list byte) :=
  if prefix_of x l then Some l
  else match l with [] => None | _ :: l' => strstr l' x end.
Fixpoint strchr (l : list byte) (c : byte) : option (list byte) :=
  match l with
  | [] => None
  | d :: l' => if bool_decide (d = c) then Some l else strchr l' c
  end.
(** What precedes and follows the last occurrence. *)
Fixpoint strrchr (l : list byte) (c : byte) : option (list byte * list byte) :=
  match l with
  | [] => None
  | d :: l' =>
      match strrchr l' c with
      | Some (x, y) => Some (d :: x, y)
      | None => if bool_decide (d = c) then Some ([], l') else None
      end
  end.

(** ** JSON by searching *)

(** [snprintf] into a buffer of [cap] bytes. *)
Definition snprintf (cap : nat) (l : list byte) : list byte := take (cap - 1) l.

Definition json_pattern (name : list byte) : list byte := snprintf 64 (DQ :: name ++ [DQ]).
Definition is_sep (c : byte) : bool := bool_decide (c = x20) || bool_decide (c = x09) || bool_decide (c = x3a).
(** What follows a key and its separators. *)
Definition json_after (body name : list byte) : option (list byte) :=
  match strstr body (json_pattern name) with
  | None => None
  | Some p => Some (skip_while is_sep (drop (length (json_pattern name)) p))
  end.

(** Copies up to the closing quote, at most [room] characters; whether it was
    reached. *)
Fixpoint copy_string (l : list byte) (room : nat) : list byte * bool :=
  match l with
  | [] => ([], false)
  | c :: l' =>
      if bool_decide (c = DQ) then ([], true)
      else match room with
           | O => ([], false)
           | S r => let '(s, ok) := copy_string l' r in (c :: s, ok)
           end
  end.

(** rpc.c: [None] is a return of 0. *)
Definition json_string (body name : list byte) (cap : nat) : option (list byte) :=
  match json_after body name with
  | Some (c :: p) =>
      if bool_decide (c = DQ) then
        let '(s, ok) := copy_string p (cap - 1) in if ok then Some s else None
      else None
  | _ => None
  end.
Definition json_uint64 (body name : list byte) : option Z :=
  match json_after body name with
  | Some (c :: p) => if isdigit c then Some (strtoull (c :: p)) else None
  | _ => None
  end.

(** main.c: the client's extractors; [None] is a return of -1. *)
Definition json_get_uint64 (body key : list byte) : option Z := json_uint64 body key.
Definition json_get_hex (body key : list byte) (cap : nat) : option (list byte) :=
  match strstr body (json_pattern key) with
  | None => None
  | Some p =>
      let p := skip_while (λ c, is_sep c || bool_decide (c = DQ)) (drop (length (json_pattern key)) p) in
      Some (copy_string p (cap - 1)).1
  end.

(** ** Facts *)

Lemma skip_while_app f l x : Forall (λ c, f c = true) l → skip_while f (l ++ x) = skip_while f x.
Proof. induction 1 as [|c l Hc _ IH]; [done|]. cbn. by rewrite Hc. Qed.
Lemma skip_while_stop f c l : f c = false → skip_while f (c :: l) = c :: l.
Proof. intros H. cbn. by rewrite H. Qed.
Lemma take_while_app f l c x : Forall (λ c, f c = true) l → f c = false → take_while f (l ++ c :: x) = l.
Proof. intros Hl Hc. induction Hl as [|d l Hd _ IH]; cbn; [by rewrite Hc|]. by rewrite Hd, IH. Qed.
Lemma take_while_all f l : Forall (λ c, f c = true) l → take_while f l = l.
Proof. induction 1 as [|d l Hd _ IH]; cbn; [done|]. by rewrite Hd, IH. Qed.

Lemma digit_val d : 0 <= d < 10 → byte_val (digit d) = 48 + d.
Proof. intros H. unfold digit. rewrite byte_val_of. warith. Qed.
Lemma digit_isdigit d : 0 <= d < 10 → isdigit (digit d) = true.
Proof. intros H. unfold isdigit. rewrite digit_val by done. apply andb_true_iff. split; apply Z.leb_le; lia. Qed.

Lemma digits_value_snoc ds c : digits_value (ds ++ [c]) = digits_value ds * 10 + (byte_val c - 48).
Proof. unfold digits_value. by rewrite foldl_app. Qed.

Lemma dec_fuel_spec f z : 0 <= z < 10 ^ Z.of_nat f → (0 < f)%nat →
  Forall (λ c, isdigit c = true) (dec_fuel f z) ∧ dec_fuel f z ≠ [] ∧ digits_value (dec_fuel f z) = z ∧
  (length (dec_fuel f z) <= f)%nat.
Proof.
  revert z. induction f as [|f IH]; intros z Hz Hf; [lia|]. cbn [dec_fuel].
  destruct (Z.ltb_spec z 10).
  - split; [constructor; [apply digit_isdigit; lia|constructor]|]. split; [done|]. split; [|simpl; lia].
    unfold digits_value. cbn. rewrite digit_val by lia. lia.
  - assert (0 <= z / 10 < 10 ^ Z.of_nat f) as Hd.
    { rewrite Nat2Z.inj_succ, Z.pow_succ_r in Hz by lia. split; [apply Z.div_pos; lia | apply Z.div_lt_upper_bound; lia]. }
    assert (0 < f)%nat as Hf'.
    { destruct f; [|lia]. change (10 ^ Z.of_nat 1) with 10 in Hz. lia. }
    destruct (IH _ Hd Hf') as (H1 & H2 & H3 & H4). pose proof (Z.mod_pos_bound z 10 ltac:(lia)).
    split; [apply Forall_app; split; [done|]; constructor; [by apply digit_isdigit|constructor]|].
    split; [by destruct (dec_fuel f (z / 10))|]. split; [|len].
    rewrite digits_value_snoc, H3, digit_val by lia. pose proof (Z.div_mod z 10 ltac:(lia)). lia.
Qed.

Lemma dec_spec z : is_u64 z →
  Forall (λ c, isdigit c = true) (dec z) ∧ dec z ≠ [] ∧ digits_value (dec z) = z ∧ (length (dec z) <= 20)%nat.
Proof. intros H. apply dec_fuel_spec; [|lia]. split; [apply H|]. apply Z.lt_le_trans with U64; [apply H | by vm_compute]. Qed.

Lemma isdigit_not_space c : isdigit c = true → isspace c = false.
Proof.
  unfold isdigit, isspace. intros [H1%Z.leb_le H2%Z.leb_le]%andb_true_iff.
  apply orb_false_iff. split; [by apply Z.eqb_neq; lia|]. apply andb_false_iff. right. apply Z.leb_gt. lia.
Qed.

(** Text that does not go on with a digit. *)
Definition no_digit (x : list byte) : Prop := take_while isdigit x = [].
Lemma no_digit_cons c x : isdigit c = false → no_digit (c :: x).
Proof. intros H. unfold no_digit. cbn. by rewrite H. Qed.

Lemma take_while_split f l x : Forall (λ c, f c = true) l → take_while f x = [] →
  take_while f (l ++ x) = l ∧ skip_while f (l ++ x) = x.
Proof.
  intros Hl Hx. induction Hl as [|d l Hd _ [IH1 IH2]]; cbn.
  - split; [done|]. destruct x as [|c x]; [done|]. cbn in *. by destruct (f c).
  - by rewrite Hd, IH1, IH2.
Qed.

(** Reading a printed number back, past white space. *)
Lemma scan_number_dec sp z x : Forall (λ c, isspace c = true) sp → is_u64 z → no_digit x →
  scan_number (sp ++ dec z ++ x) = Some (false, z, x).
Proof.
  intros Hsp Hz Hx. destruct (dec_spec z Hz) as (Hd & Hne & Hv & _).
  unfold scan_number. rewrite skip_while_app by done. destruct (dec z) as [|d ds] eqn:E; [done|].
  pose proof (take_while_split isdigit (d :: ds) x Hd Hx) as [H1 H2]. inversion_clear Hd as [|? ? Hd1 Hds].
  cbn [app] in *. rewrite skip_while_stop by by apply isdigit_not_space.
  replace (match d :: ds ++ x with x2d :: l' => (true, l') | x2b :: l' => (false, l') | _ => (false, d :: ds ++ x) end)
    with (false, d :: ds ++ x) by by destruct d.
  by rewrite H1, H2, Hv.
Qed.
Lemma u64_of_scan_id z : is_u64 z → u64_of_scan false z = z.
Proof. intros [H0 H1]. unfold u64_of_scan. destruct (Z.ltb_spec UINT64_MAX z); [lia|done]. Qed.

Lemma strtoull_dec sp z x : Forall (λ c, isspace c = true) sp → is_u64 z → no_digit x → strtoull (sp ++ dec z ++ x) = z.
Proof. intros. unfold strtoull. rewrite scan_number_dec by done. by apply u64_of_scan_id. Qed.

Lemma digits_value_nonneg l : Forall (λ c, isdigit c = true) l → 0 <= digits_value l.
Proof.
  intros Hl. induction l as [|c l IH] using rev_ind; [done|]. apply Forall_app in Hl as [Hl Hc%Forall_inv].
  rewrite digits_value_snoc. specialize (IH Hl). unfold isdigit in Hc. apply andb_true_iff in Hc as [Hc%Z.leb_le _]. lia.
Qed.
Lemma take_while_Forall f l : Forall (λ c, f c = true) (take_while f l).
Proof. induction l as [|c l IH]; cbn; [done|]. destruct (f c) eqn:E; by constructor. Qed.
Lemma strtoull_range l : is_u64 (strtoull l).
Proof.
  unfold strtoull. destruct (scan_number l) as [[[neg v] x]|] eqn:E; [|by vm_compute].
  assert (0 <= v) as Hv.
  { unfold scan_number in E. destruct (match skip_while isspace l with x2d :: _ => _ | _ => _ end) as [ng y].
    pose proof (digits_value_nonneg _ (take_while_Forall isdigit y)). destruct (take_while isdigit y); [done|].
    by injection E as <- <- <-. }
  unfold u64_of_scan. destruct (Z.ltb_spec UINT64_MAX v); [by vm_compute|].
  destruct neg; [apply u64_range|]. unfold is_u64. lia.
Qed.

Lemma cstr_id l : x00 ∉ l → cstr l = l.
Proof.
  induction l as [|c l IH]; [done|]. rewrite not_elem_of_cons. intros [Hc Hl]. simpl.
  rewrite bool_decide_false by done. by rewrite IH.
Qed.

(** The characters of numbers and of hex text. *)
Definition is_hex (c : byte) : bool := isdigit c || ((97 <=? byte_val c) && (byte_val c <=? 102)).
Lemma isdigit_hex c : isdigit c = true → is_hex c = true.
Proof. unfold is_hex. by intros ->. Qed.
Lemma hex_char c : is_hex c = true →
  c ≠ x0a ∧ c ≠ x00 ∧ c ≠ DQ ∧ c ≠ x3a ∧ isspace c = false ∧ is_sep c = false.
Proof. destruct c; vm_compute; intros; try congruence; by repeat split. Qed.
Lemma hex_text l : Forall (λ c, is_hex c = true) (ac_hex_encode l).
Proof.
  induction l as [|c l IH]; [constructor|]. rewrite ac_hex_encode_cons.
  repeat (constructor; [by destruct c|]). done.
Qed.
Lemma dec_text z : is_u64 z → Forall (λ c, is_hex c = true) (dec z).
Proof. intros Hz. eapply Forall_impl; [apply (dec_spec z Hz)|]. intros c. apply isdigit_hex. Qed.
#[global] Opaque dec.

(** ** Finding a pattern behind text that cannot match it

    [skips p l]: no occurrence of [p] starts inside [l], whatever follows it. *)
Fixpoint compat (p l : list byte) : bool :=
  match p, l with
  | c :: p', d :: l' => bool_decide (c = d) && compat p' l'
  | _, _ => true
  end.
Fixpoint skips (p l : list byte) : bool :=
  match l with
  | [] => true
  | _ :: l' => negb (compat p l) && skips p l'
  end.

Lemma compat_app p l x : compat p l = false → compat p (l ++ x) = false.
Proof.
  revert l. induction p as [|c p IH]; intros [|d l]; cbn; try done.
  destruct (bool_decide _); [apply IH | done].
Qed.
Lemma prefix_compat p l : prefix_of p l = true → compat p l = true.
Proof.
  revert l. induction p as [|c p IH]; intros [|d l]; cbn; try done.
  destruct (bool_decide _); [apply IH | done].
Qed.
Lemma prefix_of_app p x : prefix_of p (p ++ x) = true.
Proof. induction p as [|c p IH]; cbn; [done|]. by rewrite bool_decide_true, IH. Qed.
Lemma prefix_of_length p l : prefix_of p l = true → (length p <= length l)%nat.
Proof.
  revert l. induction p as [|c p IH]; intros [|d l]; cbn; try done; [lia|].
  destruct (bool_decide _); [|done]. intros ?%IH. lia.
Qed.

Lemma skips_app p l x : skips p l = true → skips p x = true → skips p (l ++ x) = true.
Proof.
  intros Hl Hx. induction l as [|c l IH]; [done|]. cbn [app]. cbn [skips] in Hl |- *.
  apply andb_true_iff in Hl as [Hc%negb_true_iff Hl].
  rewrite app_comm_cons, (compat_app p (c :: l) x Hc). cbn. auto.
Qed.
Lemma skips_none c p l : (c ∉ l) → skips (c :: p) l = true.
Proof.
  induction l as [|d l IH]; [done|]. rewrite not_elem_of_cons. intros [Hd Hl]. cbn.
  rewrite bool_decide_false by done. auto.
Qed.
Lemma skips_hex p l : Forall (λ c, is_hex c = true) l → skips (DQ :: p) l = true.
Proof.
  intros Hl. apply skips_none. intros Hin. rewrite Forall_forall in Hl. by destruct (hex_char _ (Hl _ Hin)) as (_ & _ & ? & _).
Qed.

Lemma strstr_skip p l x : skips p l = true → strstr (l ++ x) p = strstr x p.
Proof.
  induction l as [|c l IH]; [done|]. cbn [skips]. intros [Hc%negb_true_iff Hl]%andb_true_iff.
  pose proof (compat_app p (c :: l) x Hc) as Hx. cbn [app strstr].
  destruct (prefix_of p (c :: l ++ x)) eqn:E; [|auto]. apply prefix_compat in E. cbn [app] in Hx. by rewrite E in Hx.
Qed.
Lemma strstr_here p x : strstr (p ++ x) p = Some (p ++ x).
Proof. destruct (p ++ x) eqn:E; cbn; by rewrite <- E, prefix_of_app. Qed.
(** The first occurrence, behind text that skips. *)
Lemma strstr_found p l x : skips p l = true → strstr (l ++ p ++ x) p = Some (p ++ x).
Proof. intros H. rewrite strstr_skip by done. apply strstr_here. Qed.

(** ** Reading printed JSON back *)

Definition short_key (name : list byte) : Prop := (length name + 2 <= 63)%nat.
Lemma json_pattern_short name : short_key name → json_pattern name = DQ :: name ++ [DQ].
Proof. intros H. unfold short_key in H. apply take_ge. cbn. rewrite length_app. cbn. lia. Qed.

Lemma json_after_found pre name x : short_key name → skips (json_pattern name) pre = true →
  json_after (pre ++ json_pattern name ++ x3a :: x) name = Some (skip_while is_sep x).
Proof. intros Hn Hp. unfold json_after. rewrite strstr_found by done. by rewrite drop_app_length. Qed.

Lemma dec_first z : is_u64 z → ∃ c l, dec z = c :: l ∧ isdigit c = true.
Proof.
  intros Hz. destruct (dec_spec z Hz) as (H1 & H2 & _). destruct (dec z) as [|c l]; [done|]. inversion_clear H1. by exists c, l.
Qed.
Lemma json_uint64_found pre name z x : short_key name → skips (json_pattern name) pre = true → is_u64 z → no_digit x →
  json_uint64 (pre ++ json_pattern name ++ x3a :: dec z ++ x) name = Some z.
Proof.
  intros Hn Hp Hz Hx. unfold json_uint64. rewrite json_after_found by done. destruct (dec_first z Hz) as (c & l & E & Hc).
  pose proof (strtoull_dec [] z x ltac:(constructor) Hz Hx) as Hs. cbn [app] in Hs. rewrite E in Hs |- *. cbn [app] in Hs |- *.
  destruct (hex_char c (isdigit_hex c Hc)) as (_ & _ & _ & _ & _ & Hsep). rewrite skip_while_stop by done. by rewrite Hc, Hs.
Qed.

Lemma copy_string_found l x room : (DQ ∉ l) → (length l <= room)%nat → copy_string (l ++ DQ :: x) room = (l, true).
Proof.
  intros Hl. revert room. induction l as [|c l IH]; intros room Hr; cbn; [done|].
  apply not_elem_of_cons in Hl as [Hc Hl]. rewrite bool_decide_false by done.
  destruct room as [|room]; cbn in Hr; [lia|]. by rewrite IH by (done || lia).
Qed.
Lemma json_string_found pre name l x cap : short_key name → skips (json_pattern name) pre = true →
  (DQ ∉ l) → (length l < cap)%nat →
  json_string (pre ++ json_pattern name ++ x3a :: DQ :: l ++ DQ :: x) name cap = Some l.
Proof.
  intros Hn Hp Hl Hc. unfold json_string. rewrite json_after_found by done.
  rewrite skip_while_stop by done. rewrite bool_decide_true by done. by rewrite copy_string_found by (done || lia).
Qed.
Lemma json_get_hex_found pre name l x cap : short_key name → skips (json_pattern name) pre = true →
  Forall (λ c, is_hex c = true) l → (length l < cap)%nat →
  json_get_hex (pre ++ json_pattern name ++ x3a :: DQ :: l ++ DQ :: x) name cap =
    Some (if bool_decide (l = []) then (copy_string (skip_while (λ c, is_sep c || bool_decide (c = DQ)) x) (cap - 1)).1 else l).
Proof.
  intros Hn Hp Hl Hc. unfold json_get_hex. rewrite strstr_found by done. rewrite drop_app_length.
  change (x3a :: DQ :: l ++ DQ :: x) with ([x3a; DQ] ++ l ++ DQ :: x). rewrite skip_while_app by (by repeat constructor).
  destruct l as [|c l]; [done|]. inversion_clear Hl as [|? ? Hc1 Hl'].
  destruct (hex_char c Hc1) as (_ & _ & Hq & _ & _ & Hs). cbn [app].
  rewrite skip_while_stop by (rewrite Hs, bool_decide_false; done). rewrite bool_decide_false by done.
  rewrite app_comm_cons, copy_string_found; [done| |lia].
  apply not_elem_of_cons. split; [congruence|]. intros Hin. rewrite Forall_forall in Hl'.
  by destruct (hex_char _ (Hl' _ Hin)) as (_ & _ & ? & _).
Qed.
