(* ===== verification/Files.v ===== *)
(** * common.c: reading and replacing files

    The file helpers over a store of files by path, with what each system call returns as
    input. [ac_file_write_atomic] also gives every state the store goes through, which is
    what a crash may leave behind. Loss of unsynchronised data at a power cut is not
    modelled. *)

From S2P Require Import Prelude Common Text.

Definition fs_t := list byte → option (list byte).
Definition fs_set (fs : fs_t) (path : list byte) (x : option (list byte)) : fs_t := λ p, if bool_decide (p = path) then x else fs p.
Definition fs_write (fs : fs_t) (path text : list byte) : fs_t := fs_set fs path (Some text).

Definition ac_file_exists (fs : fs_t) (path : list byte) : bool := bool_decide (is_Some (fs path)).
(** The text left in [out]; callers ignore the truncation it reports. *)
Definition ac_join_path (cap : nat) (dir name : list byte) : list byte := snprintf cap (dir ++ x2f :: name).

(** ** Reading *)

(** One [read] or [write]: a count, an interruption, or an error. *)
Inductive io_ev := IoCount (n : nat) | IoEintr | IoFail.

(** The loop; [None] is NULL. The events end when the file is shorter than [fstat] said. *)
Fixpoint read_loop (evs : list io_ev) (content : list byte) (read_total len : nat) : option nat :=
  if (read_total <? len)%nat then
    match evs with
    | [] => Some read_total
    | IoEintr :: evs => read_loop evs content read_total len
    | IoFail :: _ => None
    | IoCount r :: evs => if (r =? 0)%nat then Some read_total else read_loop evs content (read_total + r) len
    end
  else Some read_total.
(** The bytes returned. [read] gives at most what is asked and what the file has. *)
Definition ac_file_read_all (fs : fs_t) (path : list byte) (evs : list io_ev) : option (list byte) :=
  content ← fs path;
  n ← read_loop evs content 0 (length content);
  Some (take n content).

(** ** Replacing *)

(** The results of the calls; [io_unlink] is whether the target could be removed, which
    only the Windows build tries. *)
Record io_t := mkIo { io_open : bool; io_writes : list io_ev; io_fsync : bool; io_unlink : bool; io_rename : bool }.

(** The states of the write loop, and whether it wrote everything; [None] when the events
    end first. *)
Fixpoint write_loop (evs : list io_ev) (fs : fs_t) (tmp buf : list byte) (written : nat) : list fs_t * option bool :=
  if (written <? length buf)%nat then
    match evs with
    | [] => ([], None)
    | IoEintr :: evs => write_loop evs fs tmp buf written
    | IoFail :: _ => ([], Some false)
    | IoCount w :: evs =>
        let fs := fs_write fs tmp (take (written + w) buf) in
        let '(l, r) := write_loop evs fs tmp buf (written + w) in (fs :: l, r)
    end
  else ([], Some true).

(** The states, the last one first, and the result: [Some true] is 0, [Some false] is -1.
    [win32] is the build: there the target is removed before the temporary file gets its
    name. (The synchronisation of the directory at the end of the other builds changes no
    file.) *)
Definition ac_file_write_atomic (win32 : bool) (fs : fs_t) (path buf : list byte) (io : io_t) : list fs_t * option bool :=
  let tmp := path ++ str ".tmp" in
  if (1024 <=? length tmp)%nat then ([fs], Some false)
  else if negb (io_open io) then ([fs], Some false)
  else
    let fs0 := fs_write fs tmp [] in
    let '(l, r) := write_loop (io_writes io) fs0 tmp buf 0 in
    let trace := reverse (fs :: fs0 :: l) in
    let now := default fs0 (last l) in
    match r with
    | None => (trace, None)
    | Some false => (fs_set now tmp None :: trace, Some false)
    | Some true =>
        if negb (io_fsync io) then (fs_set now tmp None :: trace, Some false)
        else
          let cleared := if win32 && io_unlink io then fs_set now path None else now in
          let trace := if win32 then cleared :: trace else trace in
          if negb (io_rename io) then (fs_set cleared tmp None :: trace, Some false)
          else (fs_set (fs_set cleared path (now tmp)) tmp None :: trace, Some true)
    end.

(** ** Directories *)

Definition is_dir_sep (c : byte) : bool := bool_decide (c = x2f) || bool_decide (c = x5c).
(** The directories made on the way to a path, from its second character on. (For the
    empty path the code looks at a character it has not set; here the walk is empty.) *)
Fixpoint parents (done rest : list byte) : list (list byte) :=
  match rest with
  | [] => []
  | c :: rest' => (if is_dir_sep c then [done] else []) ++ parents (done ++ [c]) rest'
  end.
Definition mkdir_steps (path : list byte) : list (list byte) :=
  match path with [] => [[]] | c :: rest => parents [c] rest ++ [path] end.
(** [mkdir] says whether the directory is there afterwards; the steps taken and whether
    all succeeded. *)
Fixpoint mkdir_run (mkdir : list byte → bool) (l : list (list byte)) : list (list byte) * bool :=
  match l with
  | [] => ([], true)
  | d :: l' => if mkdir d then let '(x, ok) := mkdir_run mkdir l' in (d :: x, ok) else ([], false)
  end.
Definition ac_mkdir_p (mkdir : list byte → bool) (path : list byte) : list (list byte) * bool :=
  if (1024 <=? length path)%nat then ([], false) else mkdir_run mkdir (mkdir_steps path).

(** ** Facts *)

Lemma fs_set_here fs p x : fs_set fs p x p = x.
Proof. unfold fs_set. by rewrite bool_decide_true. Qed.
Lemma fs_set_other fs p x q : q ≠ p → fs_set fs p x q = fs q.
Proof. intros. unfold fs_set. by rewrite bool_decide_false. Qed.
Lemma fs_write_here fs p text : fs_write fs p text p = Some text.
Proof. apply fs_set_here. Qed.
Lemma fs_write_other fs p text q : q ≠ p → fs_write fs p text q = fs q.
Proof. apply fs_set_other. Qed.
Lemma snprintf_fits cap l : (length l < cap)%nat → snprintf cap l = l.
Proof. intros H. unfold snprintf. apply take_ge. lia. Qed.

(** The same but for one path. *)
Definition same_but (tmp : list byte) (fs st : fs_t) : Prop := ∀ p, p ≠ tmp → st p = fs p.

Lemma write_loop_spec evs fs tmp buf n : fs tmp = Some (take n buf) →
  let '(l, r) := write_loop evs fs tmp buf n in
  Forall (same_but tmp fs) l ∧ (r = Some true → default fs (last l) tmp = Some buf) ∧ same_but tmp fs (default fs (last l)).
Proof.
  revert fs n. induction evs as [|e evs IH]; intros fs n Hf; cbn [write_loop]; destruct (Nat.ltb_spec n (length buf)) as [Hn|Hn].
  1: done.
  1, 3: split; [done|]; split; [|done]; intros _; cbn; by rewrite Hf, take_ge.
  destruct e as [w| |]; [|by apply IH|done].
  specialize (IH (fs_write fs tmp (take (n + w) buf)) (n + w)%nat (fs_write_here _ _ _)).
  destruct (write_loop evs _ tmp buf (n + w)) as [l r]. destruct IH as (H1 & H2 & H3).
  assert (∀ st, same_but tmp (fs_write fs tmp (take (n + w) buf)) st → same_but tmp fs st) as Hs.
  { intros st Hst p Hp. rewrite Hst by done. by apply fs_write_other. }
  replace (default fs (last (fs_write fs tmp (take (n + w) buf) :: l))) with (default (fs_write fs tmp (take (n + w) buf)) (last l))
    by (rewrite last_cons; by destruct (last l)).
  split; [constructor; [by apply Hs | by eapply Forall_impl]|]. split; [done|]. by apply Hs.
Qed.

(** What a replacement may leave: the old file or the new one, and in a Windows build none;
    other files than the temporary one are as before. *)
Definition replaced (win32 : bool) (path buf : list byte) (fs st : fs_t) : Prop :=
  (st path = fs path ∨ st path = Some buf ∨ win32 = true ∧ st path = None) ∧
  ∀ p, p ≠ path → p ≠ path ++ str ".tmp" → st p = fs p.

(** Replacing a file: in every state it goes through, and so after a crash at any point, the
    file holds either its old contents or all of the new, or, in a Windows build, it is
    missing; only the temporary file beside it may differ. A result of 0 means the new
    contents are there, and one of -1 that nothing but the temporary file changed, except
    that a Windows build may have removed the file. *)
Theorem write_atomic_safe win32 fs path buf io :
  let tmp := path ++ str ".tmp" in
  let '(trace, r) := ac_file_write_atomic win32 fs path buf io in
  Forall (replaced win32 path buf fs) trace ∧
  (r = Some true → hd fs trace path = Some buf) ∧
  (r = Some false → same_but tmp fs (hd fs trace) ∨ win32 = true ∧ hd fs trace path = None).
Proof.
  cbv zeta. set (tmp := path ++ str ".tmp"). assert (path ≠ tmp) as Hne.
  { unfold tmp. intros E%(f_equal length). rewrite length_app in E. cbn in E. lia. }
  assert (∀ st, same_but tmp fs st → replaced win32 path buf fs st) as Hold.
  { intros st Hst. split; [left; by apply Hst|]. intros p _. apply Hst. }
  unfold ac_file_write_atomic. fold tmp. destruct (_ <=? _)%nat; [split; [constructor; [by apply Hold|done]|split; [done|by left]]|].
  destruct (negb _); [split; [constructor; [by apply Hold|done]|split; [done|by left]]|].
  pose proof (write_loop_spec (io_writes io) (fs_write fs tmp []) tmp buf 0 (fs_write_here _ _ _)) as Hw.
  destruct (write_loop _ _ tmp buf 0) as [l r]. destruct Hw as (H1 & H2 & H3).
  assert (∀ st, same_but tmp (fs_write fs tmp []) st → same_but tmp fs st) as Hs.
  { intros st Hst p Hp. rewrite Hst by done. by apply fs_write_other. }
  set (now := default (fs_write fs tmp []) (last l)) in *.
  assert (Forall (replaced win32 path buf fs) (reverse (fs :: fs_write fs tmp [] :: l))) as Ht.
  { apply Forall_reverse. constructor; [by apply Hold|]. constructor; [apply Hold, Hs; by intros p Hp|].
    eapply Forall_impl; [exact H1|]. intros st Hst. by apply Hold, Hs. }
  assert (same_but tmp fs (fs_set now tmp None)) as Hu.
  { intros p Hp. rewrite fs_set_other by done. by apply (Hs now). }
  destruct r as [[]|]; [|split; [constructor; [by apply Hold|done]|split; [done|by left]]|done].
  destruct (negb (io_fsync io)); [split; [constructor; [by apply Hold|done]|split; [done|by left]]|].
  cbv zeta. set (cleared := if win32 && io_unlink io then _ else now).
  assert (same_but tmp fs cleared ∨ win32 = true ∧ cleared path = None ∧ ∀ p, p ≠ path → p ≠ tmp → cleared p = fs p) as Hc.
  { unfold cleared. destruct win32; cbn [andb]; [|left; by apply Hs]. destruct (io_unlink io); [|left; by apply Hs].
    right. split; [done|]. split; [apply fs_set_here|]. intros p Hp Hp'. rewrite fs_set_other by done. by apply (Hs now). }
  assert (replaced win32 path buf fs cleared) as Hcr.
  { destruct Hc as [Hc|(-> & Hc & Ho)]; [by apply Hold|]. split; [by right; right|done]. }
  assert (Forall (replaced win32 path buf fs) (if win32 then cleared :: reverse (fs :: fs_write fs tmp [] :: l)
    else reverse (fs :: fs_write fs tmp [] :: l))) as Ht' by (destruct win32; [by constructor|done]).
  destruct (negb (io_rename io)).
  - assert (replaced win32 path buf fs (fs_set cleared tmp None)) as Hr.
    { destruct Hcr as [Hcr Ho]. split; [by rewrite fs_set_other|]. intros p H4 H5. rewrite fs_set_other by done. by apply Ho. }
    split; [by constructor|]. split; [done|]. intros _. destruct Hc as [Hc|(Hwin & Hc & Ho)]; [left|right]; cbn [hd].
    + intros p Hp. rewrite fs_set_other by done. by apply Hc.
    + split; [done|]. by rewrite fs_set_other.
  - assert (fs_set (fs_set cleared path (now tmp)) tmp None path = Some buf) as Hp.
    { rewrite fs_set_other, fs_set_here by done. by apply H2. }
    split; [|split; [done|discriminate]]. constructor; [|done]. split; [by right; left|].
    intros p H4 H5. rewrite !fs_set_other by done. by apply Hcr.
Qed.
(** So without the removal a file is never missing or torn. *)
Lemma write_atomic_posix fs path buf io :
  let '(trace, r) := ac_file_write_atomic false fs path buf io in
  Forall (λ st, st path = fs path ∨ st path = Some buf) trace ∧
  (r = Some false → same_but (path ++ str ".tmp") fs (hd fs trace)).
Proof.
  pose proof (write_atomic_safe false fs path buf io) as H. cbv zeta in H. destruct (ac_file_write_atomic _ _ _ _ _) as [trace r].
  destruct H as (H1 & _ & H3). split; [|intros Hr; by destruct (H3 Hr) as [|[]]].
  eapply Forall_impl; [exact H1|]. by intros st [[?|[?|[]]] _]; auto.
Qed.

(** Without failures the new contents arrive, whatever sizes the writes take. *)
Lemma write_loop_total evs fs tmp buf n :
  Forall (λ e, match e with IoFail => False | _ => True end) evs →
  (length buf <= n + sum_list_with (λ e, match e with IoCount w => w | _ => 0 end) evs)%nat →
  (write_loop evs fs tmp buf n).2 = Some true.
Proof.
  intros Hf. revert fs n. induction Hf as [|e evs He _ IH]; intros fs n Hl; cbn [write_loop]; destruct (Nat.ltb_spec n (length buf)); try done.
  - cbn in Hl. lia.
  - destruct e as [w| |]; [|apply IH; cbn in Hl; lia|done].
    specialize (IH (fs_write fs tmp (take (n + w) buf)) (n + w)%nat). destruct (write_loop evs _ tmp buf (n + w)). apply IH. cbn in Hl. lia.
Qed.

(** Reading without failures, in whatever pieces, gives the contents. *)
Lemma read_loop_all evs content n len :
  Forall (λ e, match e with IoFail => False | IoCount r => r ≠ 0%nat | _ => True end) evs →
  (len <= n + sum_list_with (λ e, match e with IoCount r => r | _ => 0 end) evs)%nat →
  ∃ m, read_loop evs content n len = Some m ∧ (len <= m)%nat.
Proof.
  intros Hf. revert n. induction Hf as [|e evs He _ IH]; intros n Hl; cbn [read_loop]; destruct (Nat.ltb_spec n len); try (by exists n; split; [|lia]).
  - cbn in Hl. lia.
  - destruct e as [r| |]; [|apply IH; cbn in Hl; lia|done]. destruct (Nat.eqb_spec r 0); [done|]. apply IH. cbn in Hl. lia.
Qed.
Lemma write_read_roundtrip win32 fs path buf io evs :
  (length path < 1020)%nat → io_open io = true → io_fsync io = true → io_rename io = true →
  Forall (λ e, match e with IoFail => False | _ => True end) (io_writes io) →
  (length buf <= sum_list_with (λ e, match e with IoCount w => w | _ => 0 end) (io_writes io))%nat →
  Forall (λ e, match e with IoFail => False | IoCount r => r ≠ 0%nat | _ => True end) evs →
  (length buf <= sum_list_with (λ e, match e with IoCount r => r | _ => 0 end) evs)%nat →
  ac_file_read_all (hd fs (ac_file_write_atomic win32 fs path buf io).1) path evs = Some buf.
Proof.
  intros Hp Ho Hs Hr Hw Hl Hf Hn. pose proof (write_atomic_safe win32 fs path buf io) as H. cbv zeta in H.
  assert ((ac_file_write_atomic win32 fs path buf io).2 = Some true) as E.
  { unfold ac_file_write_atomic. rewrite Ho, Hs, Hr. rewrite length_app. cbn [length str String.list_byte_of_string].
    match goal with |- context [(1024 <=? ?x)%nat] => destruct (Nat.leb_spec 1024 x) as [L|L]; [cbn in L; lia|] end. cbn [negb].
    match goal with |- context [write_loop ?e ?f ?t buf 0] => pose proof (write_loop_total e f t buf 0 Hw ltac:(lia)) as E; destruct (write_loop e f t buf 0) as [l r] end.
    cbn in E. by subst r. }
  destruct (ac_file_write_atomic win32 fs path buf io) as [trace r]. cbn in E. subst r. destruct H as (_ & H & _).
  unfold ac_file_read_all. cbn [fst]. rewrite H by done. cbn [mbind option_bind].
  destruct (read_loop_all evs buf 0 (length buf) Hf Hn) as (m & -> & Hm). cbn [mbind option_bind]. by rewrite take_ge.
Qed.
