(* ===== verification/Store.v ===== *)
(** * chain.c on the file system: the data directory

    [Chain] keeps the files of a data directory as a record: meta, state, and blocks by
    height. Here they are files with the names chain.c gives them, replaced by
    [ac_file_write_atomic]. The names are distinct, so the record is a faithful view of the
    directory; and the three replacements of an accepted block are followed through every
    state a crash can leave. *)

From S2P Require Import Prelude Common Crypto Cursor Codec SortedArray State Apply Mempool Econ Chain Accept Ledger Text Files.

(** ** Names *)

Definition blocks_dir (data_dir : list byte) : list byte := snprintf 512 (data_dir ++ str "/blocks").
Definition meta_path (data_dir : list byte) : list byte := snprintf 512 (data_dir ++ str "/meta.bin").
Definition state_path (data_dir : list byte) : list byte := snprintf 512 (data_dir ++ str "/state.bin").
(** [%012llu]. *)
Definition dec12 (z : Z) : list byte := replicate (12 - length (dec z)) x30 ++ dec z.
Definition block_path (data_dir : list byte) (h : Z) (cap : nat) : list byte :=
  snprintf cap (blocks_dir data_dir ++ str "/" ++ dec12 h ++ str ".blk").

(** The files of a chain. *)
Inductive item_t := IMeta | IState | IBlock (h : Z).
Definition item_ok (i : item_t) : Prop := match i with IBlock h => is_u64 h | _ => True end.
Definition path (dir : list byte) (i : item_t) : list byte :=
  match i with IMeta => meta_path dir | IState => state_path dir | IBlock h => block_path dir h 1024 end.
#[export] Instance item_dec : EqDecision item_t.
Proof. solve_decision. Defined.

(** The buffers hold the names untruncated. *)
Definition short_dir (dir : list byte) : Prop := (length dir <= 480)%nat.

Lemma digits_value_zeros n l : digits_value (replicate n x30 ++ l) = digits_value l.
Proof.
  unfold digits_value. rewrite foldl_app. f_equal. induction n as [|n IH]; [done|]. cbn [replicate foldl].
  change (0 * 10 + (byte_val x30 - 48)) with 0. exact IH.
Qed.
Lemma dec12_spec z : is_u64 z → digits_value (dec12 z) = z ∧ (length (dec12 z) <= 20)%nat.
Proof.
  intros Hz. destruct (dec_spec z Hz) as (_ & _ & Hv & Hl). unfold dec12. rewrite digits_value_zeros, length_app, length_replicate.
  split; [done|lia].
Qed.
Lemma dec12_inj x y : is_u64 x → is_u64 y → dec12 x = dec12 y → x = y.
Proof. intros Hx Hy E. by rewrite <- (proj1 (dec12_spec x Hx)), E, (proj1 (dec12_spec y Hy)). Qed.

Definition tail_of (i : item_t) : list byte :=
  match i with IMeta => str "/meta.bin" | IState => str "/state.bin" | IBlock h => str "/blocks/" ++ dec12 h ++ str ".blk" end.
Lemma path_tail dir i : short_dir dir → item_ok i → path dir i = dir ++ tail_of i.
Proof.
  unfold short_dir. intros Hd Hi. destruct i as [| |h]; cbn [path tail_of].
  1, 2: apply snprintf_fits; rewrite length_app; cbn; lia.
  unfold block_path, blocks_dir. destruct (dec12_spec h Hi) as [_ Hl].
  rewrite (snprintf_fits 512) by (rewrite length_app; cbn; lia).
  rewrite snprintf_fits by (rewrite !length_app; cbn; lia). by rewrite <- app_assoc.
Qed.
(** No two files share a name, and none has the name of another's temporary file. *)
Lemma path_inj dir i j : short_dir dir → item_ok i → item_ok j → path dir i = path dir j → i = j.
Proof.
  intros Hd Hi Hj. rewrite !path_tail by done. intros E%app_inv_head.
  destruct i as [| |h], j as [| |h']; try done. cbn in E. injection E as E. apply app_inv_tail in E.
  f_equal. by apply dec12_inj.
Qed.
Lemma last_app_ne {A} (l k : list A) : k ≠ [] → last (l ++ k) = last k.
Proof. destruct k as [|x k _] using rev_ind; [done|]. intros _. by rewrite app_assoc, !last_snoc. Qed.
Lemma path_tmp dir i j : short_dir dir → item_ok i → item_ok j → path dir i ≠ path dir j ++ str ".tmp".
Proof.
  intros Hd Hi Hj. rewrite path_tail by done. intros E%(f_equal last). rewrite (last_app_ne (path dir j)) in E by done.
  assert (last (tail_of i) = Some x6e ∨ last (tail_of i) = Some x6b) as Hl.
  { destruct i as [| |h]; [by left..|right]. cbn [tail_of]. rewrite app_assoc. by rewrite last_app_ne. }
  rewrite last_app_ne in E by (destruct Hl as [Hl|Hl]; intros Hn; by rewrite Hn in Hl).
  rewrite E in Hl. by destruct Hl.
Qed.

(** ** The record is a view of the directory *)

Definition get (f : files_t) (i : item_t) : option (list byte) :=
  match i with IMeta => f_meta f | IState => f_state f | IBlock h => f_blocks f !! h end.
Definition put (f : files_t) (i : item_t) (buf : list byte) : files_t :=
  match i with
  | IMeta => mkFiles (Some buf) (f_state f) (f_blocks f)
  | IState => mkFiles (f_meta f) (Some buf) (f_blocks f)
  | IBlock h => mkFiles (f_meta f) (f_state f) (<[h := buf]> (f_blocks f))
  end.
(** Without the file. *)
Definition cut (f : files_t) (i : item_t) : files_t :=
  match i with
  | IMeta => mkFiles None (f_state f) (f_blocks f)
  | IState => mkFiles (f_meta f) None (f_blocks f)
  | IBlock h => mkFiles (f_meta f) (f_state f) (delete h (f_blocks f))
  end.
Record on_disk (dir : list byte) (fs : fs_t) (f : files_t) : Prop := {
  od_get i : item_ok i → fs (path dir i) = get f i;
  od_blocks h buf : f_blocks f !! h = Some buf → is_u64 h
}.

Lemma get_put f i buf j : get (put f i buf) j = if decide (j = i) then Some buf else get f j.
Proof.
  destruct (decide (j = i)) as [-> | Hne]; [destruct i; cbn; by rewrite ?lookup_insert_eq|].
  destruct i, j; try done. cbn. rewrite lookup_insert_ne; [done|congruence].
Qed.
Lemma get_cut f i j : get (cut f i) j = if decide (j = i) then None else get f j.
Proof.
  destruct (decide (j = i)) as [-> | Hne]; [destruct i; cbn; by rewrite ?lookup_delete_eq|].
  destruct i, j; try done. cbn. rewrite lookup_delete_ne; [done|congruence].
Qed.
(** The directory determines the record. *)
Lemma on_disk_unique dir fs f f' : on_disk dir fs f → on_disk dir fs f' → f = f'.
Proof.
  intros [G B] [G' B']. destruct f as [m s bl], f' as [m' s' bl'].
  assert (∀ i, item_ok i → get (mkFiles m s bl) i = get (mkFiles m' s' bl') i) as E by (intros; by rewrite <- G, <- G').
  f_equal; [exact (E IMeta I) | exact (E IState I)|]. apply map_eq. intros h. destruct (decide (is_u64 h)) as [Hh|Hh]; [exact (E (IBlock h) Hh)|].
  cbn in B, B'. destruct (bl !! h) eqn:E1; [destruct Hh; eauto|]. destruct (bl' !! h) eqn:E2; [destruct Hh; eauto|done].
Qed.

(** What a store that holds [buf] at [i], and otherwise what [fs] holds there, represents. *)
Lemma on_disk_put dir fs st f i buf : short_dir dir → item_ok i → on_disk dir fs f →
  st (path dir i) = Some buf → (∀ p, p ≠ path dir i → p ≠ path dir i ++ str ".tmp" → st p = fs p) →
  on_disk dir st (put f i buf).
Proof.
  intros Hd Hi [G B] Hb Ho. constructor.
  - intros j Hj. rewrite get_put. destruct (decide (j = i)) as [-> | Hne]; [done|].
    rewrite Ho, G; [done|done| |by apply path_tmp]. intros E. by apply Hne, (path_inj dir).
  - destruct i as [| |h']; cbn; try exact B. intros h buf'. destruct (decide (h = h')) as [-> | Hne]; [done|].
    rewrite lookup_insert_ne by done. apply B.
Qed.
Lemma on_disk_cut dir fs st f i : short_dir dir → item_ok i → on_disk dir fs f →
  st (path dir i) = None → (∀ p, p ≠ path dir i → p ≠ path dir i ++ str ".tmp" → st p = fs p) →
  on_disk dir st (cut f i).
Proof.
  intros Hd Hi [G B] Hb Ho. constructor.
  - intros j Hj. rewrite get_cut. destruct (decide (j = i)) as [-> | Hne]; [done|].
    rewrite Ho, G; [done|done| |by apply path_tmp]. intros E. by apply Hne, (path_inj dir).
  - destruct i as [| |h']; cbn; try exact B. intros h buf' [_ E]%lookup_delete_Some. by eapply B.
Qed.
Lemma on_disk_same dir fs st f i : short_dir dir → item_ok i → on_disk dir fs f → same_but (path dir i ++ str ".tmp") fs st → on_disk dir st f.
Proof. intros Hd Hi [G B] Hs. constructor; [|done]. intros j Hj. rewrite Hs, G; [done..|by apply path_tmp]. Qed.

(** Replacing one file: at every moment the directory shows the old or the new record, or,
    in a Windows build, the old one without the file. *)
Lemma write_item win32 dir fs f i buf io : short_dir dir → item_ok i → on_disk dir fs f →
  let '(trace, r) := ac_file_write_atomic win32 fs (path dir i) buf io in
  Forall (λ st, on_disk dir st f ∨ on_disk dir st (put f i buf) ∨ win32 = true ∧ on_disk dir st (cut f i)) trace ∧
  (r = Some true → on_disk dir (hd fs trace) (put f i buf)).
Proof.
  intros Hd Hi Hf. pose proof (write_atomic_safe win32 fs (path dir i) buf io) as Hw. cbv zeta in Hw.
  destruct (ac_file_write_atomic _ _ _ _ _) as [trace r]. destruct Hw as (H1 & H2 & _). split.
  - eapply Forall_impl; [exact H1|]. intros st [[E|[E|[Hwin E]]] Ho]; [left|right; left; by eapply on_disk_put|right; right; split; [done|by eapply on_disk_cut]].
    eapply on_disk_same; [done|done|done|]. intros p Hp. destruct (decide (p = path dir i)) as [-> | ?]; auto.
  - intros ->. specialize (H2 eq_refl). eapply on_disk_put; [done..|].
    destruct trace as [|st l]; [done|]. by apply Forall_cons_1 in H1 as [[_ ?] _].
Qed.

(** ** Reading *)

(** Every [read] succeeds and together they cover [n] bytes. *)
Record reads_all (evs : list io_ev) (n : nat) : Prop := {
  ra_ok : Forall (λ e, match e with IoFail => False | IoCount r => r ≠ 0%nat | _ => True end) evs;
  ra_enough : (n <= sum_list_with (λ e, match e with IoCount r => r | _ => 0 end) evs)%nat
}.
Lemma file_read_ok fs p evs buf : fs p = Some buf → reads_all evs (length buf) → ac_file_read_all fs p evs = Some buf.
Proof.
  intros E [H1 H2]. unfold ac_file_read_all. rewrite E. cbn [mbind option_bind].
  destruct (read_loop_all evs buf 0 (length buf) H1 ltac:(lia)) as (m & -> & Hm). cbn. by rewrite take_ge.
Qed.

Definition disk_block_read (dir : list byte) (fs : fs_t) (h : Z) (evs : list io_ev) : option ac_block_t :=
  buf ← ac_file_read_all fs (block_path dir h 1024) evs;
  match ac_block_decode buf with OK (k, _) => Some k | _ => None end.
Definition ac_state_load (fs : fs_t) (s : ac_state_t) (p : list byte) (evs : list io_ev) : outcome (ac_state_t * bool) :=
  match ac_file_read_all fs p evs with
  | None => OK (s, false)
  | Some buf => ac_state_deserialize s buf
  end.

Section Store.
Context `{!Sodium} `{!LongDouble}.

(** Reading the directory is reading the record. *)
Lemma disk_block_read_ok dir fs c h evs : on_disk dir fs (c_files c) → is_u64 h →
  (∀ buf, f_blocks (c_files c) !! h = Some buf → reads_all evs (length buf)) →
  disk_block_read dir fs h evs = block_read c h.
Proof.
  intros [G _] Hh Hr. unfold disk_block_read, block_read. pose proof (G (IBlock h) Hh : fs (block_path dir h 1024) = f_blocks (c_files c) !! h) as E.
  destruct (f_blocks (c_files c) !! h) as [buf|]; [|by unfold ac_file_read_all; rewrite E].
  by rewrite (file_read_ok _ _ _ buf) by auto.
Qed.
Lemma ac_state_load_ok dir fs f s evs buf : on_disk dir fs f → f_state f = Some buf → reads_all evs (length buf) →
  ac_state_load fs s (state_path dir) evs = ac_state_deserialize s buf.
Proof.
  intros [G _] E Hr. unfold ac_state_load. pose proof (G IState Logic.I : fs (state_path dir) = f_state f) as Ep.
  by rewrite (file_read_ok _ _ _ buf) by (done || congruence).
Qed.

(** ** The writes of an accepted block *)

Definition writes_t : Type := list fs_t * option bool.
Definition disk_block_write (win32 : bool) (dir : list byte) (fs : fs_t) (k : ac_block_t) (io : io_t) : writes_t :=
  match ac_block_encode k with
  | None => ([fs], Some false)
  | Some buf => ac_file_write_atomic win32 fs (block_path dir (h_height (header k)) 1024) buf io
  end.
Definition ac_state_save (win32 : bool) (fs : fs_t) (s : ac_state_t) (p : list byte) (io : io_t) : writes_t :=
  match ac_state_serialize s with
  | None => ([fs], Some false)
  | Some buf => ac_file_write_atomic win32 fs p buf io
  end.
(** [None] with the store unchanged would be an overflow of the 256-byte buffer. *)
Definition disk_meta_save (win32 : bool) (dir : list byte) (fs : fs_t) (c : ac_chain_t) (io : io_t) : writes_t :=
  match w_result (foldl wput (wcur_new 256) (meta_chunks c)) with
  | None => ([fs], None)
  | Some buf => ac_file_write_atomic win32 fs (meta_path dir) buf io
  end.

(** The next write, after a success only; the trace grows at its head. *)
Definition and_then (fs : fs_t) (t : writes_t) (write : fs_t → writes_t) : writes_t :=
  match t with
  | (l, Some true) => let x := write (hd fs l) in (x.1 ++ l, x.2)
  | _ => t
  end.
(** The writes of [commit_block] on a directory. *)
Definition commit_writes (win32 : bool) (dir : list byte) (fs : fs_t) (c : ac_chain_t) (k : ac_block_t) (block_hash : ac_hash_t)
    (io1 io2 io3 : io_t) : writes_t :=
  let h := header k in
  let t := disk_block_write win32 dir fs k io1 in
  let t := and_then fs t (λ fs, ac_state_save win32 fs (c_state c) (state_path dir) io2) in
  and_then fs t (λ fs, disk_meta_save win32 dir fs
    (set_tip c (c_chain_id c) (h_height h) block_hash (h_slot h) (h_timestamp_ms h) (h_base_fee h) (c_genesis_timestamp_ms c)) io3).

(** Writes that lead from [f] to [f'], with [P] of every record seen on the way. *)
Definition leads (dir : list byte) (fs : fs_t) (P : files_t → Prop) (t : writes_t) (f' : files_t) : Prop :=
  Forall (λ st, ∃ f, on_disk dir st f ∧ P f) t.1 ∧ (t.2 = Some true → on_disk dir (hd fs t.1) f').

Lemma write_leads win32 dir fs f i buf io (P : files_t → Prop) : short_dir dir → item_ok i → on_disk dir fs f →
  P f → P (put f i buf) → (win32 = true → P (cut f i)) →
  leads dir fs P (ac_file_write_atomic win32 fs (path dir i) buf io) (put f i buf).
Proof.
  intros Hd Hi Hf P1 P2 P3. pose proof (write_item win32 dir fs f i buf io Hd Hi Hf) as Hw. unfold leads.
  destruct (ac_file_write_atomic _ _ _ _ _) as [tr r]. destruct Hw as (H1 & H2). split; [|done].
  eapply Forall_impl; [exact H1|]. intros st [?|[?|[? ?]]]; eauto.
Qed.
Lemma and_then_leads dir fs P t f f' write : leads dir fs P t f →
  (∀ fs', on_disk dir fs' f → leads dir fs' P (write fs') f') → leads dir fs P (and_then fs t write) f'.
Proof.
  intros [H1 H2] Hw. destruct t as [l [[]|]]; cbn [and_then]; [|by split..]. specialize (Hw _ (H2 eq_refl)).
  destruct Hw as [H3 H4]. split; cbn [fst snd] in *; [by apply Forall_app_2|].
  intros E. specialize (H4 E). by destruct (write (hd fs l)).1.
Qed.

(** The records on the way of an accepted block. *)
Definition with_block (f : files_t) (k : ac_block_t) : files_t := put f (IBlock (h_height (header k))) (block_bytes k).
Definition with_state (f : files_t) (s : ac_state_t) : files_t := put f IState (snapshot_bytes s).

Lemma commit_writes_lead win32 dir fs c k bh io1 io2 io3 c' (P : files_t → Prop) :
  short_dir dir → on_disk dir fs (c_files c) → block_wf k → state_wf (c_state c) → committed c k bh c' →
  P (c_files c) → P (with_block (c_files c) k) → P (with_state (with_block (c_files c) k) (c_state c)) → P (c_files c') →
  (win32 = true → P (cut (c_files c) (IBlock (h_height (header k)))) ∧ ∀ f, f_state f = None ∨ f_meta f = None → P f) →
  leads dir fs P (commit_writes win32 dir fs c k bh io1 io2 io3) (c_files c').
Proof.
  intros Hd Hf Hk Hs Hc P0 P1 P2 P3 P4. pose proof (wf_h_height _ (wf_header _ Hk)) as Hh.
  set (m := set_tip c (c_chain_id c) (h_height (header k)) bh (h_slot (header k)) (h_timestamp_ms (header k)) (h_base_fee (header k)) (c_genesis_timestamp_ms c)).
  assert (c_files c' = put (with_state (with_block (c_files c) k) (c_state c)) IMeta (concat (meta_chunks m))) as E.
  { rewrite (cm_files _ _ _ _ Hc), (cm_state _ _ _ _ Hc). cbn. do 3 f_equal. destruct Hc as [_ E1 E2 E3 E4 E5 E6 E7 _ _]. unfold meta_chunks. by rewrite E1, E2, E3, E4, E5, E6, E7. }
  rewrite E in *. unfold commit_writes. apply (and_then_leads _ _ _ _ (with_state (with_block (c_files c) k) (c_state c))).
  - apply (and_then_leads _ _ _ _ (with_block (c_files c) k)).
    + unfold disk_block_write. rewrite ac_block_encode_bytes by done. apply (write_leads win32 dir fs (c_files c) (IBlock _)); try done. apply P4.
    + intros fs1 H1. unfold ac_state_save. rewrite ac_state_serialize_bytes by done. apply (write_leads win32 dir fs1 _ IState); try done. intros Hwin. apply (P4 Hwin). by left.
  - intros fs2 H2. unfold disk_meta_save. fold m.
    assert (w_result (foldl wput (wcur_new 256) (meta_chunks m)) = Some (concat (meta_chunks m))) as ->.
    { pose proof (meta_save_total m true) as Em. unfold meta_save in Em.
      destruct (w_result _) as [buf|]; [|done]. cbn in Em. by injection Em as ->. }
    apply (write_leads win32 dir fs2 _ IMeta); try done. intros Hwin. apply (P4 Hwin). by right.
Qed.

(** ** Crashes *)

(** [d] continues where [c] is: state, tip, times, fee, and the blocks up to the tip. *)
Record resumes (c d : ac_chain_t) : Prop := {
  rs_state : c_state d = c_state c;
  rs_chain_id : c_chain_id d = c_chain_id c;
  rs_height : c_height d = c_height c;
  rs_tip : c_tip_hash d = c_tip_hash c;
  rs_slot : c_last_slot d = c_last_slot c;
  rs_timestamp : c_last_timestamp_ms d = c_last_timestamp_ms c;
  rs_fee : c_base_fee d = c_base_fee c;
  rs_genesis : c_genesis_timestamp_ms d = c_genesis_timestamp_ms c;
  rs_blocks h : 0 <= h <= c_height c → block_read d h = block_read c h
}.

Lemma reopen_resumes c g env : ledger_ok c → stored c → chain_fits c →
  ∃ d, ac_chain_open (c_files c) g env = Some d ∧ resumes c d.
Proof.
  intros HL Hst Hf. destruct (reopen_spec c g env HL Hst Hf) as (d & Ho & [] & Ef & Et & Eb & _).
  exists d. split; [done|]. constructor; try done. intros h _. unfold block_read. by rewrite Ef.
Qed.
(** Files that agree up to the tip do as well: nothing above the tip is read. *)
Lemma files_resume c F g env : ledger_ok c → stored c → chain_fits c → f_meta F = f_meta (c_files c) → f_state F = f_state (c_files c) →
  (∀ h, h ≠ c_height c + 1 → f_blocks F !! h = f_blocks (c_files c) !! h) →
  ∃ d, ac_chain_open F g env = Some d ∧ resumes c d.
Proof.
  intros HL [[D1 D2] [X1 X2 X3 X4]] [Q1 Q2 Q3] Em Es Eb. pose proof (lk_height _ _ _ _ (lg_linked _ HL)) as Hh.
  set (c1 := set_files c F).
  assert (∀ h, h <= c_height c → block_read c1 h = block_read c h) as Hr by (intros h Hle; unfold block_read; cbn; rewrite Eb by lia; done).
  assert (∀ E ent, @ledger_entries E ent (block_read c1) (Z.to_nat (c_height c)) = ledger_entries ent (block_read c) (Z.to_nat (c_height c))) as Ee.
  { intros. apply ledger_entries_ext. intros h Hh'. apply Hr. lia. }
  destruct (reopen_resumes c1 g env) as (d & Ho & []).
  - apply ledger_ok_agree; [done|]. intros h Hle. apply Eb. lia.
  - constructor; [constructor; [exact (eq_trans Em D1)|exact (eq_trans Es D2)]|]. constructor; rewrite ?Ee; done.
  - by constructor.
  - exists d. split; [exact Ho|]. constructor; try done. intros h Hh'. rewrite rs_blocks0 by done. apply Hr. lia.
Qed.
Lemma with_block_resumes c k F g env : ledger_ok c → stored c → chain_fits c →
  h_height (header k) = c_height c + 1 → F = with_block (c_files c) k →
  ∃ d, ac_chain_open F g env = Some d ∧ resumes c d.
Proof.
  intros HL Hst Hf Eh ->. apply files_resume; try done. intros h Hne. cbn. rewrite lookup_insert_ne; [done|congruence].
Qed.

Lemma ledger_ok_state_file c s : ledger_ok c → ledger_ok (set_files c (with_state (c_files c) s)).
Proof.
  intros [[] Hc L]. constructor; [by constructor| |by eapply linked_ext, L].
  unfold cache_ok in *. rewrite (compute_epoch_seed_reads c); try done. apply L.
Qed.

(** C11. A crash at any moment of an acceptance: take a chain reached without write failures
    whose files are in a directory, and a block it accepts. In every state the directory
    goes through while the block is being written, whichever calls fail, the chain can be
    opened again: it continues before the block, or after it, or (between the replacement
    of the state and that of the meta file) at the old tip over the new state; or else the
    build is the Windows one, which removes a file before it replaces it, and the state or
    the meta file is missing at that moment. When the last write succeeds the directory
    holds the files of the new chain. *)
Theorem crash_recovery win32 dir fs c k env g io1 io2 io3 :
  short_dir dir → on_disk dir fs (c_files c) → reachable true c → chain_fits c → block_wf k → writes_ok env = true →
  (ac_chain_accept_block c k env).1 = AC_ACCEPT_OK →
  let c' := (ac_chain_accept_block c k env).2 in
  chain_fits c' →
  let t := commit_writes win32 dir fs (set_state c (post_state c k)) k (ac_block_hash (header k)) io1 io2 io3 in
  Forall (λ st, ∃ f, on_disk dir st f ∧
    ((∃ d, ac_chain_open f g env = Some d ∧ (resumes c d ∨ resumes c' d ∨ resumes (set_state c (c_state c')) d)) ∨
     win32 = true ∧ (f_state f = None ∨ f_meta f = None))) t.1 ∧
  (t.2 = Some true → on_disk dir (hd fs t.1) (c_files c')).
Proof.
  intros Hd Hf Hr Hfit Hk Hio Hok c' Hfit' t. pose proof (reachable_ledger _ c Hr) as HL. pose proof (reachable_stored c Hr) as Hst.
  pose proof (lk_height _ _ _ _ (lg_linked _ HL)) as Hh.
  destruct (accept_ok_inv c k env Hfit Hk Hh (lg_cache _ HL) Hok) as (Hho & Hbo & Hc). fold c' in Hc.
  pose proof (ex_height _ _ (checks_extend c k _ HL Hk Hho Hbo)) as Eh.
  destruct (post_state_wf c k (cf_state c Hfit) (wf_txs k Hk)) as [Hps Hpi]; [lia|].
  pose proof (cm_state _ _ _ _ Hc : c_state c' = post_state c k) as Es.
  apply (commit_writes_lead win32 dir fs (set_state c (post_state c k)) k (ac_block_hash (header k)) io1 io2 io3 c'
    (λ f, (∃ d, ac_chain_open f g env = Some d ∧ (resumes c d ∨ resumes c' d ∨ resumes (set_state c (c_state c')) d)) ∨
      win32 = true ∧ (f_state f = None ∨ f_meta f = None)) Hd Hf Hk Hps Hc).
  - left. destruct (reopen_resumes c g env HL Hst Hfit) as (d & Ho & Hd'). exists d. auto.
  - left. destruct (with_block_resumes c k _ g env HL Hst Hfit Eh eq_refl) as (d & Ho & Hd'). exists d. auto.
  - left. set (c1 := set_state (set_files c (with_state (c_files c) (post_state c k))) (post_state c k)).
    destruct (with_block_resumes c1 k (with_state (with_block (c_files c) k) (post_state c k)) g env) as (d & Ho & Hd'); try done.
    + apply (ledger_ok_state (set_files c _)); [done|done|]. by apply ledger_ok_state_file.
    + destruct Hst as [[D1 _] []]. constructor; by constructor.
    + destruct Hfit' as [? ? ?]. rewrite Es in *. by constructor.
    + exists d. split; [exact Ho|]. right. right. rewrite Es. destruct Hd'. by constructor.
  - left. destruct (reopen_resumes c' g env) as (d & Ho & Hd').
    + by apply accept_ledger.
    + by apply accept_stored.
    + done.
    + exists d. auto.
  - intros Hwin. split; [left|by right]. destruct (files_resume c (cut (c_files c) (IBlock (h_height (header k)))) g env) as (d & Ho & Hd'); try done.
    + intros h Hne. cbn. rewrite lookup_delete_ne; [done|congruence].
    + exists d. auto.
Qed.
End Store.

(** ** Every record is the view of some directory *)

Definition disk_of (dir : list byte) (f : files_t) : fs_t := λ p,
  if bool_decide (p = path dir IMeta) then f_meta f
  else if bool_decide (p = path dir IState) then f_state f
  else '(_, (_, buf)) ← list_find (λ x, path dir (IBlock x.1) = p) (map_to_list (f_blocks f)); Some buf.

Lemma disk_of_spec dir f : short_dir dir → (∀ h buf, f_blocks f !! h = Some buf → is_u64 h) → on_disk dir (disk_of dir f) f.
Proof.
  intros Hd Hu. constructor; [|done]. intros i Hi. unfold disk_of.
  destruct i as [| |h]; [by rewrite bool_decide_true|..]; rewrite bool_decide_false by (by intros E; apply path_inj in E).
  { by rewrite bool_decide_true. }
  rewrite bool_decide_false by (by intros E; apply path_inj in E). cbn [get].
  destruct (list_find _ _) as [[n [h' buf]]|] eqn:Ef; cbn.
  - apply list_find_Some in Ef as (Hn & E & _). apply list_elem_of_lookup_2, elem_of_map_to_list in Hn. cbn in E.
    apply (path_inj dir (IBlock h') (IBlock h)) in E; [|done|by eapply Hu|done]. injection E as <-. by rewrite Hn.
  - destruct (f_blocks f !! h) as [buf|] eqn:E; [|done]. apply list_find_None in Ef. rewrite Forall_forall in Ef.
    by destruct (Ef (h, buf)); [apply elem_of_map_to_list|].
Qed.

(** ** Witness *)

#[local] Existing Instance toy_sodium.
#[local] Existing Instance x87.

Definition demo_dir : list byte := str "/var/lib/agentchain".
Definition demo_fs : fs_t := disk_of demo_dir (c_files demo_chain).
Definition whole_write : io_t := mkIo true [IoCount 700; IoEintr; IoCount 5000] true true true.

Lemma demo_on_disk : on_disk demo_dir demo_fs (c_files demo_chain).
Proof.
  apply disk_of_spec; [apply (bool_decide_unpack _); vm_compute; exact Logic.I|]. intros h buf E.
  assert (h ∈ (map_to_list (f_blocks (c_files demo_chain))).*1) as Hin.
  { apply list_elem_of_fmap. exists (h, buf). split; [reflexivity | by apply elem_of_map_to_list]. }
  assert ((map_to_list (f_blocks (c_files demo_chain))).*1 = [0]) as E0 by (vm_compute; reflexivity).
  rewrite E0 in Hin. apply list_elem_of_singleton in Hin as ->. split; vm_compute; congruence.
Qed.

Lemma crash_recovery_witness :
  on_disk demo_dir (hd demo_fs (commit_writes false demo_dir demo_fs (set_state demo_chain (post_state demo_chain demo_block)) demo_block
    (ac_block_hash (header demo_block)) whole_write whole_write whole_write).1) (c_files demo_next).
Proof.
  assert (short_dir demo_dir) as Hd by (apply (bool_decide_unpack _); vm_compute; exact Logic.I).
  assert (reachable true demo_chain) as Hr by exact (ex_intro _ demo_genesis (conj demo_genesis_wf (demo_chain_reached true))).
  assert (chain_fits demo_next) as Hn.
  { constructor; [apply (lg_wf _ (reachable_ledger _ _ (demo_reachable true)))|by vm_compute..]. }
  pose proof (crash_recovery false demo_dir demo_fs demo_chain demo_block demo_env None whole_write whole_write whole_write
    Hd demo_on_disk Hr demo_fits demo_block_wf eq_refl demo_accepted Hn) as [_ H].
  apply H. vm_compute. reflexivity.
Defined.

(** Genesis writes the meta file before the state file: a crash in between leaves a
    directory that never opens again, with or without the genesis. *)
Definition genesis_torn : files_t := mkFiles (f_meta (c_files demo_chain)) None (f_blocks (c_files demo_chain)).
Lemma crash_during_genesis g env : ac_chain_open genesis_torn g env = None.
Proof. vm_compute. reflexivity. Qed.

(** So does, in a Windows build, a crash between the removal of the state file and the
    renaming of the new one: the directory goes through such a state while a block is
    written, and it does not open again. *)
Definition state_removed : files_t := cut (with_block (c_files demo_chain) demo_block) IState.
Lemma win32_crash_loses_chain g env :
  Exists (λ st, st (meta_path demo_dir) = f_meta state_removed ∧ st (state_path demo_dir) = f_state state_removed)
    (commit_writes true demo_dir demo_fs (set_state demo_chain (post_state demo_chain demo_block)) demo_block
       (ac_block_hash (header demo_block)) whole_write whole_write whole_write).1 ∧
  ac_chain_open state_removed g env = None.
Proof. split; [apply (bool_decide_unpack _); vm_compute; exact Logic.I|vm_compute; reflexivity]. Qed.
