(* ===== verification/Net.v ===== *)
(** * net.h / net.c: frames, gossip and the peer table

    The parts of the transport that are not system calls: reassembling frames
    from a byte stream, the ring of recently seen messages, the bounded output
    queue of a peer, the peer table with its routing, the HELLO handshake and the
    dispatch of a message. What successive [recv] and [send] calls return is an
    argument; a file descriptor is a number, negative when closed. Threads are
    steps: an operation that holds a mutex is one step. *)

From S2P Require Import Prelude Common Crypto Text.

Abbreviation AC_MAX_PEERS := 64%nat.
Abbreviation AC_DEDUP_CAP := 256%nat.
Abbreviation AC_OUT_QUEUE_MAX_BYTES := 4194304.
Abbreviation AC_OUT_QUEUE_MAX_MSGS := 2048.
Abbreviation AC_FRAME_VERSION := 1.
Abbreviation AC_FRAME_MAX_BYTES := 4194304.
Abbreviation AC_HELLO_PEER_MAX := 8.

Abbreviation AC_MSG_HELLO := 1.
Abbreviation AC_MSG_HEADERS_REQ := 2.
Abbreviation AC_MSG_BLOCK_REQ := 4.
Abbreviation AC_MSG_BLOCK_RES := 5.
Abbreviation AC_MSG_BLOCK_ANN := 6.
Abbreviation AC_MSG_TX_ANN := 7.
Abbreviation AC_MSG_COMMIT_VOTE := 8.
Abbreviation AC_MSG_PING := 11.
Abbreviation AC_MSG_PONG := 12.

(** ** Frames *)

(** What is waiting on a socket: pieces of data in the sizes the kernel hands
    them out (an empty piece is an orderly close), interruptions and errors. A
    stream that has run out is closed. *)
Inductive recv_ev := RData (l : list byte) | REintr | RFail.

(** The bytes read, or [None] for -1, and what is left on the socket. *)
Fixpoint read_full (s : list recv_ev) (len : nat) : option (list byte) * list recv_ev :=
  if (len =? 0)%nat then (Some [], s)
  else
    match s with
    | [] => (None, [])
    | RFail :: s' => (None, s')
    | REintr :: s' => read_full s' len
    | RData l :: s' =>
        if (length l =? 0)%nat then (None, s')
        else if (len <? length l)%nat then (Some (take len l), RData (drop len l) :: s')
        else let '(r, s'') := read_full s' (len - length l) in ((app l) <$> r, s'')
    end.

(** Results of successive [send] calls; one that would take more than was offered
    takes what was offered, and no further call succeeds once they run out. *)
Inductive send_ev := SSent (n : nat) | SEintr | SFail.

(** Whether it returned 0, the bytes that went out, the calls left. *)
Fixpoint write_full (evs : list send_ev) (buf : list byte) : bool * list byte * list send_ev :=
  if (length buf =? 0)%nat then (true, [], evs)
  else
    match evs with
    | [] => (false, [], [])
    | SFail :: evs' => (false, [], evs')
    | SEintr :: evs' => write_full evs' buf
    | SSent n :: evs' =>
        let '(ok, wire, rest) := write_full evs' (drop n buf) in (ok, take n buf ++ wire, rest)
    end.

Definition frame_header (type : Z) (len : Z) : list byte :=
  ac_be32 (u32 (len + 2)) ++ [byte_of AC_FRAME_VERSION; byte_of type].

Definition frame_send (evs : list send_ev) (type : Z) (payload : list byte)
    : bool * list byte * list send_ev :=
  if AC_FRAME_MAX_BYTES - 2 <? zlen payload then (false, [], evs)
  else
    let '(ok, w1, evs) := write_full evs (frame_header type (zlen payload)) in
    if negb ok then (false, w1, evs)
    else if 0 <? zlen payload then
      let '(ok, w2, evs) := write_full evs payload in (ok, w1 ++ w2, evs)
    else (true, w1, evs).

(** The type and payload, or [None] for NULL. *)
Definition frame_recv (s : list recv_ev) : option (Z * list byte) * list recv_ev :=
  match read_full s 6 with
  | (None, s) => (None, s)
  | (Some hdr, s) =>
      let total := ac_rd32 (take 4 hdr) in
      if (total <? 2) || (AC_FRAME_MAX_BYTES <? total) then (None, s)
      else if negb (at_ hdr 4 =? AC_FRAME_VERSION) then (None, s)
      else
        let plen := Z.to_nat (total - 2) in
        if (0 <? plen)%nat then
          match read_full s plen with
          | (None, s) => (None, s)
          | (Some buf, s) => (Some (at_ hdr 5, buf), s)
          end
        else (Some (at_ hdr 5, []), s)
  end.

(** ** Recently seen messages *)

Record dedup_t := mkDedup { d_ring : list ac_hash_t; d_n : nat; d_pos : nat }.

Definition dedup_has (d : dedup_t) (h : ac_hash_t) : bool := existsb (λ x, ac_hash_eq x h) (take (d_n d) (d_ring d)).
Definition dedup_remember (d : dedup_t) (h : ac_hash_t) : dedup_t :=
  mkDedup (<[d_pos d := h]> (d_ring d)) (if (d_n d <? AC_DEDUP_CAP)%nat then S (d_n d) else d_n d)
    ((d_pos d + 1) mod AC_DEDUP_CAP)%nat.

(** ** Peers *)

(** The outbound queue with its counters; [o_closing] tells the writer to stop. *)
Record outbox_t := mkOut { o_msgs : list (Z * list byte); o_n : Z; o_bytes : Z; o_closing : bool }.

(** [p_shut] records that the socket was shut down, which ends the reader. *)
Record peer_t := mkPeer {
  p_in_use : bool;
  p_fd : Z;
  p_peer_id : ac_addr_t;
  p_peer_id_known : bool;
  p_inbound : bool;
  p_host : list byte;
  p_port : Z;
  p_last_seen_ms : Z;
  p_out : outbox_t;
  p_shut : bool
}.

Definition set_out (p : peer_t) (o : outbox_t) : peer_t :=
  mkPeer (p_in_use p) (p_fd p) (p_peer_id p) (p_peer_id_known p) (p_inbound p) (p_host p) (p_port p)
    (p_last_seen_ms p) o (p_shut p).
Definition set_shut (p : peer_t) : peer_t :=
  mkPeer (p_in_use p) (p_fd p) (p_peer_id p) (p_peer_id_known p) (p_inbound p) (p_host p) (p_port p)
    (p_last_seen_ms p) (p_out p) true.
Definition set_seen (p : peer_t) (now : Z) : peer_t :=
  mkPeer (p_in_use p) (p_fd p) (p_peer_id p) (p_peer_id_known p) (p_inbound p) (p_host p) (p_port p)
    now (p_out p) (p_shut p).
Definition closing (o : outbox_t) : outbox_t := mkOut (o_msgs o) (o_n o) (o_bytes o) true.

(** A zeroed slot, and a slot just taken. *)
Definition out_empty : outbox_t := mkOut [] 0 0 false.
Definition peer_zero : peer_t := mkPeer false 0 (zeros 32) false false [] 0 0 out_empty false.
Definition peer_fresh : peer_t := mkPeer true (-1) (zeros 32) false false [] 0 0 out_empty false.

Record ac_net_t := mkNet {
  n_chain_id : Z;
  n_keypair : ac_keypair_t;
  n_listen_port : Z;
  n_external_host : list byte;
  n_peers : list peer_t;
  n_dedup : dedup_t
}.

Definition set_peers (n : ac_net_t) (l : list peer_t) : ac_net_t :=
  mkNet (n_chain_id n) (n_keypair n) (n_listen_port n) (n_external_host n) l (n_dedup n).
Definition set_dedup (n : ac_net_t) (d : dedup_t) : ac_net_t :=
  mkNet (n_chain_id n) (n_keypair n) (n_listen_port n) (n_external_host n) (n_peers n) d.
Definition put_peer (n : ac_net_t) (i : nat) (p : peer_t) : ac_net_t := set_peers n (<[i := p]> (n_peers n)).

Definition ac_net_new (chain_id : Z) (kp : ac_keypair_t) (port : Z) (host : list byte) : ac_net_t :=
  mkNet chain_id kp port host (repeat peer_zero AC_MAX_PEERS) (mkDedup (repeat (zeros 32) AC_DEDUP_CAP) 0 0).

(** The first free slot. *)
Fixpoint free_slot (l : list peer_t) (i : nat) : option nat :=
  match l with
  | [] => None
  | p :: l' => if negb (p_in_use p) then Some i else free_slot l' (S i)
  end.
Definition peer_alloc (n : ac_net_t) : option nat * ac_net_t :=
  match free_slot (n_peers n) 0 with
  | Some i => (Some i, put_peer n i peer_fresh)
  | None => (None, n)
  end.

(** A connection from [host]:[port] on [fd]: what [listen_loop] and [dial_peer] set
    up, without the HELLO they write and the threads they start. *)
Definition peer_connect (n : ac_net_t) (fd : Z) (inbound : bool) (host : list byte) (port : Z) : option nat * ac_net_t :=
  match peer_alloc n with
  | (None, n) => (None, n)
  | (Some i, n) => (Some i, put_peer n i (mkPeer true fd (zeros 32) false inbound host port 0 out_empty false))
  end.

Definition out_drop_all_locked (o : outbox_t) : outbox_t := mkOut [] 0 0 (o_closing o).

(** Whether it returned 0. *)
Definition peer_enqueue (p : peer_t) (type : Z) (payload : list byte) : bool * peer_t :=
  let o := p_out p in
  if AC_FRAME_MAX_BYTES - 2 <? zlen payload then (false, p)
  else if o_closing o then (false, p)
  else if (AC_OUT_QUEUE_MAX_MSGS <? o_n o + 1) || (AC_OUT_QUEUE_MAX_BYTES <? o_bytes o + zlen payload) then (false, p)
  else (true, set_out p (mkOut (o_msgs o ++ [(type, payload)]) (o_n o + 1) (o_bytes o + zlen payload) (o_closing o))).

(** One turn of the writer: the oldest message leaves the queue and is framed. The
    bytes written, and whether the thread goes on. *)
Definition writer_turn (p : peer_t) (evs : list send_ev) : bool * peer_t * list byte :=
  if o_closing (p_out p) then (false, p, [])
  else
    match o_msgs (p_out p) with
    | [] => (true, p, [])
    | m :: rest =>
        let o := p_out p in
        let p := set_out p (mkOut rest (o_n o - 1) (o_bytes o - zlen m.2) (o_closing o)) in
        if p_fd p <? 0 then (false, p, [])
        else
          let '(ok, wire, _) := frame_send evs m.1 m.2 in
          if ok then (true, p, wire) else (false, set_shut p, wire)
    end.
(** After the loop. *)
Definition writer_exit (p : peer_t) : peer_t := set_out p (out_drop_all_locked (closing (p_out p))).

Definition peer_close_fd (p : peer_t) : peer_t :=
  if 0 <=? p_fd p then
    mkPeer (p_in_use p) (-1) (p_peer_id p) (p_peer_id_known p) (p_inbound p) (p_host p) (p_port p)
      (p_last_seen_ms p) (p_out p) (p_shut p)
  else p.

Definition outbound_count (n : ac_net_t) : nat :=
  length (filter (λ p, p_in_use p && negb (p_inbound p) && (0 <=? p_fd p) = true) (n_peers n)).
Definition ac_net_peer_count (n : ac_net_t) : nat :=
  length (filter (λ p, p_in_use p && p_peer_id_known p = true) (n_peers n)).

(** Reaping a slot whose reader has closed the socket, after joining its threads. *)
Definition reap_slot (p : peer_t) : peer_t :=
  if p_in_use p && (p_fd p <? 0) then
    mkPeer false (p_fd p) (p_peer_id p) (p_peer_id_known p) (p_inbound p) (p_host p) (p_port p)
      (p_last_seen_ms p) (closing (p_out p)) (p_shut p)
  else p.
Definition reap_dead_peers (n : ac_net_t) : ac_net_t := set_peers n (reap_slot <$> n_peers n).

(** ** Sending *)

(** A slot that messages are routed to. *)
Definition routable (p : peer_t) : bool := p_in_use p && p_peer_id_known p && (0 <=? p_fd p).

(** Queue a message for one peer; a peer whose queue is full is shut down. *)
Definition send_one (p : peer_t) (type : Z) (payload : list byte) : bool * peer_t :=
  match peer_enqueue p type payload with
  | (true, p) => (true, p)
  | (false, p) => (false, if 0 <=? p_fd p then set_shut p else p)
  end.
Definition ac_net_broadcast (n : ac_net_t) (type : Z) (payload : list byte) (exclude : option ac_addr_t) : ac_net_t :=
  set_peers n ((λ p,
    if negb (routable p) then p
    else if match exclude with Some a => ac_addr_eq (p_peer_id p) a | None => false end then p
    else (send_one p type payload).2) <$> n_peers n).

(** The first slot of that peer. *)
Fixpoint route (l : list peer_t) (a : ac_addr_t) (i : nat) : option nat :=
  match l with
  | [] => None
  | p :: l' => if routable p && ac_addr_eq (p_peer_id p) a then Some i else route l' a (S i)
  end.
Definition ac_net_send_to (n : ac_net_t) (a : ac_addr_t) (type : Z) (payload : list byte) : bool * ac_net_t :=
  match route (n_peers n) a 0 with
  | None => (false, n)
  | Some i =>
      match n_peers n !! i with
      | None => (false, n)
      | Some p => let '(ok, p) := send_one p type payload in (ok, put_peer n i p)
      end
  end.

(** ** HELLO *)

(** One gossiped peer: key, port, host with its length. *)
Definition hello_entry (p : peer_t) : list byte :=
  b (p_peer_id p) ++ ac_be16 (p_port p) ++ [byte_of (zlen (p_host p))] ++ p_host p.

(** The peer loop from position [pos] of the 1500-byte buffer, with [cnt] entries
    written so far. *)
Fixpoint hello_peers (l : list peer_t) (pos cnt : Z) : list (list byte) :=
  match l with
  | [] => []
  | q :: l' =>
      if negb (cnt <? AC_HELLO_PEER_MAX) then []
      else if negb (p_in_use q) || negb (p_peer_id_known q) then hello_peers l' pos cnt
      else if bool_decide (p_host q = []) || (p_port q =? 0) then hello_peers l' pos cnt
      else
        let qhl := zlen (p_host q) in
        if 250 <? qhl then hello_peers l' pos cnt
        else if 1500 <? pos + 32 + 2 + 1 + qhl + 32 then []
        else hello_entry q :: hello_peers l' (pos + 35 + qhl) (cnt + 1)
  end.

(** The payload [send_hello] frames. *)
Definition hello_payload (n : ac_net_t) : list byte :=
  let hl := Nat.min 250 (Nat.min 127 (length (n_external_host n))) in
  let self := ac_be64 (n_chain_id n) ++ b (pk (n_keypair n)) ++ ac_be16 (n_listen_port n) ++
              [byte_of (Z.of_nat hl)] ++ take hl (n_external_host n) in
  let es := hello_peers (n_peers n) (zlen self + 1) 0 in
  self ++ [byte_of (zlen es)] ++ concat es.
Definition send_hello (n : ac_net_t) (evs : list send_ev) : bool * list byte * list send_ev :=
  frame_send evs AC_MSG_HELLO (hello_payload n).

Record hello_peer_t := mkHelloPeer { hp_peer_id : ac_addr_t; hp_port : Z; hp_host : list byte }.
Record hello_t := mkHello {
  hl_chain_id : Z; hl_peer_id : ac_addr_t; hl_port : Z; hl_host : list byte; hl_gossip : list hello_peer_t }.

#[export] Instance hello_peer_eq_dec : EqDecision hello_peer_t.
Proof. solve_decision. Defined.
#[export] Instance hello_eq_dec : EqDecision hello_t.
Proof. solve_decision. Defined.

(** The gossip loop; a truncated entry ends it. *)
Fixpoint parse_gossip (buf : list byte) (pos n : nat) : outcome (list hello_peer_t) :=
  match n with
  | O => OK []
  | S n' =>
      if (length buf <? pos + 35)%nat then OK []
      else
        pid ← read_at buf pos 32;
        pp ← read_at buf (pos + 32) 2;
        l ← read_at buf (pos + 34) 1;
        let phl := Z.to_nat (at_ l 0) in
        if (length buf <? pos + 35 + phl)%nat then OK []
        else
          host ← read_at buf (pos + 35) (Nat.min phl 127);
          rest ← parse_gossip buf (pos + 35 + phl) n';
          OK (mkHelloPeer (bytes_of 32 pid) (ac_rd16 pp) (cstr host) :: rest)
  end.

(** With the 128-byte host buffer and the eight gossip entries of [reader_loop]. *)
Definition parse_hello (buf : list byte) : outcome hello_t :=
  _ ← fail_if (length buf <? 43)%nat;
  cid ← read_at buf 0 8;
  pid ← read_at buf 8 32;
  pp ← read_at buf 40 2;
  l ← read_at buf 42 1;
  let hl := Z.to_nat (at_ l 0) in
  _ ← fail_if (length buf <? 43 + hl)%nat;
  host ← read_at buf 43 (Nat.min hl 127);
  gossip ←
    (if (length buf <=? 43 + hl)%nat then OK []
     else
       np ← read_at buf (43 + hl) 1;
       parse_gossip buf (43 + hl + 1) (Nat.min (Z.to_nat (at_ np 0)) 8));
  OK (mkHello (ac_rd64 cid) (bytes_of 32 pid) (ac_rd16 pp) (cstr host) gossip).

(** The checks on the first frame of a connection; [None] closes it. *)
Definition hello_check (n : ac_net_t) (frame : option (Z * list byte)) : option hello_t :=
  match frame with
  | None => None
  | Some (type, buf) =>
      if negb (type =? AC_MSG_HELLO) then None
      else
        match parse_hello buf with
        | OK h =>
            if negb (hl_chain_id h =? n_chain_id n) then None
            else if ac_addr_eq (hl_peer_id h) (pk (n_keypair n)) then None
            else Some h
        | _ => None
        end
  end.

(** Under the table's mutex: every other slot of that peer is hidden and closed. *)
Definition evicted (p : peer_t) : peer_t :=
  mkPeer (p_in_use p) (p_fd p) (p_peer_id p) false (p_inbound p) (p_host p) (p_port p) (p_last_seen_ms p)
    (closing (p_out p)) (p_shut p || (0 <=? p_fd p)).
Definition hello_evict (n : ac_net_t) (i : nat) (a : ac_addr_t) : ac_net_t :=
  set_peers n (imap (λ j p,
    if (j =? i)%nat then p
    else if negb (p_in_use p) || negb (p_peer_id_known p) then p
    else if ac_addr_eq (p_peer_id p) a then evicted p else p) (n_peers n)).

(** After the mutex was released: the slot takes its identity. *)
Definition hello_install (n : ac_net_t) (i : nat) (h : hello_t) (now : Z) : ac_net_t :=
  match n_peers n !! i with
  | None => n
  | Some p =>
      put_peer n i (mkPeer (p_in_use p) (p_fd p) (hl_peer_id h) true (p_inbound p)
        (if bool_decide (hl_host h = []) then p_host p else hl_host h) (hl_port h) now (p_out p) (p_shut p))
  end.

(** The handshake of slot [i]: the two steps in one thread, when no other thread comes in
    between; [hello_evict] and [hello_install] are steps of their own in [net_step]. *)
Definition reader_hello (n : ac_net_t) (i : nat) (frame : option (Z * list byte)) (now : Z) : ac_net_t :=
  match hello_check n frame with
  | None => match n_peers n !! i with Some p => put_peer n i (peer_close_fd p) | None => n end
  | Some h => hello_install (hello_evict n i (hl_peer_id h)) i h now
  end.

(** The peers of the gossip that are dialled. *)
Definition dial_targets (n : ac_net_t) (h : hello_t) : list (list byte * Z) :=
  (λ g, (hp_host g, hp_port g)) <$>
  filter (λ g, negb (ac_addr_eq (hp_peer_id g) (pk (n_keypair n))) &&
               negb (ac_addr_eq (hp_peer_id g) (hl_peer_id h)) &&
               negb (bool_decide (hp_host g = []) || (hp_port g =? 0)) = true) (hl_gossip h).
Definition already_dialed (n : ac_net_t) (host : list byte) (port : Z) : bool :=
  existsb (λ p, p_in_use p && negb (p_inbound p) && (0 <=? p_fd p) && (p_port p =? port) && bool_decide (p_host p = host))
    (n_peers n).

(** ** Dispatch

    The callbacks of [ac_net_callbacks_t] act on a world that contains the network;
    [NetWorld] is what the network needs to know of it. *)
Class NetWorld (W : Type) := {
  w_net : W → ac_net_t;
  w_set_net : W → ac_net_t → W
}.
Class NetWorldLaws (W : Type) `{!NetWorld W} : Prop := {
  w_net_set w n : w_net (w_set_net w n) = n;
  w_set_set w n m : w_set_net (w_set_net w n) m = w_set_net w m;
  w_set_same w : w_set_net w (w_net w) = w
}.
Record ac_net_callbacks_t (W : Type) := mkCallbacks {
  on_block_ann : W → list byte → W;
  on_tx_ann : W → list byte → W;
  on_commit_vote : W → list byte → W;
  on_headers_req : W → Z → Z → ac_addr_t → W;
  on_block_req : W → Z → ac_addr_t → W
}.
Arguments on_block_ann {W}.
Arguments on_tx_ann {W}.
Arguments on_commit_vote {W}.
Arguments on_headers_req {W}.
Arguments on_block_req {W}.

Section Dispatch.
Context `{!Sodium} {W : Type} `{!NetWorld W}.

(** A gossiped message goes once to the callback and to everyone but its sender. The check
    and the note that it was seen hold the mutex of the ring each for itself, so the two
    parts are separate steps; [gossip] is their sequence in one thread. *)
Definition gossip_new (w : W) (from : ac_addr_t) (type : Z) (buf : list byte) (cb : W → list byte → W) : W :=
  let n := w_net w in
  let w := w_set_net w (set_dedup n (dedup_remember (n_dedup n) (ac_hash buf))) in
  let w := cb w buf in
  w_set_net w (ac_net_broadcast (w_net w) type buf (Some from)).
Definition gossip (w : W) (from : ac_addr_t) (type : Z) (buf : list byte) (cb : W → list byte → W) : W :=
  if dedup_has (n_dedup (w_net w)) (ac_hash buf) then w else gossip_new w from type buf cb.

(** A message from slot [i]. *)
Definition dispatch_message (cb : ac_net_callbacks_t W) (w : W) (i : nat) (type : Z) (buf : list byte) (now : Z) : W :=
  match n_peers (w_net w) !! i with
  | None => w
  | Some p =>
      let w := w_set_net w (put_peer (w_net w) i (set_seen p now)) in
      let from := p_peer_id p in
      if type =? AC_MSG_BLOCK_ANN then gossip w from AC_MSG_BLOCK_ANN buf (on_block_ann cb)
      else if type =? AC_MSG_TX_ANN then gossip w from AC_MSG_TX_ANN buf (on_tx_ann cb)
      else if type =? AC_MSG_COMMIT_VOTE then gossip w from AC_MSG_COMMIT_VOTE buf (on_commit_vote cb)
      else if type =? AC_MSG_HEADERS_REQ then
        if (length buf <? 12)%nat then w
        else on_headers_req cb w (ac_rd64 (slice buf 0 8)) (ac_rd32 (slice buf 8 4)) from
      else if type =? AC_MSG_BLOCK_REQ then
        if (length buf <? 8)%nat then w else on_block_req cb w (ac_rd64 (slice buf 0 8)) from
      else if type =? AC_MSG_BLOCK_RES then on_block_ann cb w buf
      else if type =? AC_MSG_PING then
        w_set_net w (put_peer (w_net w) i (peer_enqueue (set_seen p now) AC_MSG_PONG buf).2)
      else w
  end.
End Dispatch.
