(* ===== verification/NetFacts.v ===== *)
(** * Properties of the transport

    Frames survive any fragmentation, the ring of seen messages is the window of
    the last 256, queues stay within their bounds, HELLO round-trips and its parser
    is memory safe, and a peer that reconnects is served on its new connection. *)

From S2P Require Import Prelude Common Crypto Text Net.

(** ** Framing *)

(** The bytes a stream still holds, and streams without failures. *)
Definition data (s : list recv_ev) : list byte :=
  s ≫= λ e, match e with RData l => l | _ => [] end.
Definition clean (s : list recv_ev) : Prop :=
  Forall (λ e, match e with RData l => l ≠ [] | REintr => True | RFail => False end) s.

Lemma read_full_clean s n : clean s → (n <= length (data s))%nat →
  ∃ s', read_full s n = (Some (take n (data s)), s') ∧ clean s' ∧ data s' = drop n (data s).
Proof.
  intros Hs. revert n. induction Hs as [|e s He Hs IH]; intros n Hn; destruct n as [|n]; cbn [read_full Nat.eqb].
  - exists []. split; [done|]. split; [constructor|done].
  - simpl in Hn. lia.
  - exists (e :: s). split; [done|]. split; [by constructor|done].
  - destruct e as [l| |]; [|apply (IH (S n) Hn)|done].
    assert (data (RData l :: s) = l ++ data s) as E by done. rewrite E in *. rewrite length_app in Hn.
    destruct (Nat.eqb_spec (length l) 0); [by destruct l|].
    destruct (Nat.ltb_spec (S n) (length l)).
    + eexists. split; [by rewrite take_app_le by lia|]. split.
      * constructor; [|done]. intros Hd%(f_equal length). rewrite length_drop in Hd. simpl in Hd. lia.
      * by rewrite drop_app_le by lia.
    + destruct (IH (S n - length l)%nat) as (s' & -> & Hc & Hd); [lia|].
      exists s'. split; [by rewrite take_app_ge by lia|]. by rewrite Hd, drop_app_ge by lia.
Qed.

(** Whatever is read is a prefix of the data. *)
Lemma read_full_prefix s n l s' : read_full s n = (Some l, s') →
  length l = n ∧ data s = l ++ data s'.
Proof.
  revert n l s'. induction s as [|e s IH]; intros [|n] l s'; cbn [read_full Nat.eqb].
  - by intros [= <- <-].
  - done.
  - by intros [= <- <-].
  - destruct e as [x| |]; [|apply IH|done]. destruct (Nat.eqb_spec (length x) 0); [done|].
    destruct (Nat.ltb_spec (S n) (length x)).
    + intros [= <- <-]. split; [len|]. change (data (RData x :: s)) with (x ++ data s).
      change (data (RData (drop (S n) x) :: s)) with (drop (S n) x ++ data s). by rewrite app_assoc, take_drop.
    + destruct (read_full s (S n - length x)) as [[y|] t] eqn:E; [|done]. intros [= <- <-].
      apply IH in E as [E1 E2]. split; [len|]. change (data (RData x :: s)) with (x ++ data s).
      by rewrite E2, app_assoc.
Qed.

(** Partial and interrupted sends lose and reorder nothing. *)
Lemma write_full_ok evs buf wire rest : write_full evs buf = (true, wire, rest) → wire = buf.
Proof.
  revert buf wire rest. induction evs as [|e evs IH]; intros buf wire rest; destruct buf as [|c buf]; cbn [write_full length Nat.eqb];
    [by intros [= <- <-] | done | by intros [= <- <-] |].
  destruct e as [n| |]; [|apply IH|done].
  destruct (write_full evs _) as [[[] w] r] eqn:E; [|done]. intros [= <- <-].
  apply IH in E as ->. apply take_drop.
Qed.

Definition frame (m : Z * list byte) : list byte := frame_header m.1 (zlen m.2) ++ m.2.
Definition msg_ok (m : Z * list byte) : Prop := is_u8 m.1 ∧ zlen m.2 <= AC_FRAME_MAX_BYTES - 2.

Lemma frame_send_ok evs type payload wire rest :
  frame_send evs type payload = (true, wire, rest) →
  zlen payload <= AC_FRAME_MAX_BYTES - 2 ∧ wire = frame (type, payload).
Proof.
  unfold frame_send. destruct (Z.ltb_spec (AC_FRAME_MAX_BYTES - 2) (zlen payload)); [done|].
  destruct (write_full evs _) as [[[] w1] e1] eqn:E1; [|done]. apply write_full_ok in E1 as ->. cbn [negb].
  destruct (Z.ltb_spec 0 (zlen payload)).
  - destruct (write_full e1 _) as [[[] w2] e2] eqn:E2; [|done]. apply write_full_ok in E2 as ->.
    by intros [= <- <-].
  - intros [= <- <-]. split; [done|]. destruct payload; [|simpl in *; lia]. unfold frame. by rewrite app_nil_r.
Qed.

Lemma frame_header_length t n : length (frame_header t n) = 6%nat.
Proof. unfold frame_header. len. Qed.

Lemma frame_recv_frame s m rest : clean s → msg_ok m → data s = frame m ++ rest →
  ∃ s', frame_recv s = (Some m, s') ∧ clean s' ∧ data s' = rest.
Proof.
  destruct m as [type payload]. intros Hs [Ht Hl] Hd. cbn [fst snd] in *. unfold frame in Hd. cbn [fst snd] in Hd.
  rewrite <- app_assoc in Hd. pose proof (frame_header_length type (zlen payload)) as L6.
  unfold frame_recv. destruct (read_full_clean s 6) as (s1 & -> & Hc1 & Hd1); [done | rewrite Hd; len|].
  rewrite Hd, take_app_length' by done. rewrite Hd, drop_app_length' in Hd1 by done.
  unfold frame_header in *. rewrite take_app_length' by len.
  rewrite ac_rd32_be32. assert (u32 (u32 (zlen payload + 2)) = zlen payload + 2) as -> by warith.
  destruct (Z.ltb_spec (zlen payload + 2) 2); [lia|].
  destruct (Z.ltb_spec AC_FRAME_MAX_BYTES (zlen payload + 2)); [lia|]. cbn [orb].
  assert (∀ i, (i < 2)%nat → at_ (ac_be32 (u32 (zlen payload + 2)) ++ [byte_of AC_FRAME_VERSION; byte_of type]) (4 + i) =
            at_ [byte_of AC_FRAME_VERSION; byte_of type] i) as Hat.
  { intros i Hi. unfold at_. rewrite app_nth2 by len. do 2 f_equal. len. }
  pose proof (Hat 0%nat ltac:(lia)) as H4. pose proof (Hat 1%nat ltac:(lia)) as H5.
  cbn [Nat.add] in H4, H5. rewrite H4, H5.
  replace (at_ [byte_of AC_FRAME_VERSION; byte_of type] 0) with 1 by done. cbn [negb Z.eqb Pos.eqb].
  replace (at_ [byte_of AC_FRAME_VERSION; byte_of type] 1) with type
    by (unfold at_; cbn [nth]; rewrite byte_val_of; warith).
  replace (Z.to_nat (zlen payload + 2 - 2)) with (length payload) by lia.
  destruct (Nat.ltb_spec 0 (length payload)).
  - destruct (read_full_clean s1 (length payload)) as (s2 & -> & Hc2 & Hd2); [done | rewrite Hd1; len|].
    exists s2. rewrite Hd1, take_app_length. split; [done|]. split; [done|]. by rewrite Hd2, Hd1, drop_app_length.
  - destruct payload; [|simpl in *; lia]. by exists s1.
Qed.

(** Messages framed one after the other, as the writer does; frames read one after
    the other, as the reader does. *)
Fixpoint send_all (evs : list send_ev) (ms : list (Z * list byte)) : bool * list byte :=
  match ms with
  | [] => (true, [])
  | m :: ms' =>
      let '(ok, w, evs) := frame_send evs m.1 m.2 in
      if ok then let '(ok', w') := send_all evs ms' in (ok', w ++ w') else (false, w)
  end.
Fixpoint recv_all (s : list recv_ev) (n : nat) : option (list (Z * list byte)) * list recv_ev :=
  match n with
  | O => (Some [], s)
  | S n' =>
      match frame_recv s with
      | (None, s) => (None, s)
      | (Some m, s) => let '(r, s) := recv_all s n' in (cons m <$> r, s)
      end
  end.

Lemma send_all_ok ms evs wire : send_all evs ms = (true, wire) →
  Forall (λ m, zlen m.2 <= AC_FRAME_MAX_BYTES - 2) ms ∧ wire = concat (frame <$> ms).
Proof.
  revert evs wire. induction ms as [|m ms IH]; intros evs wire; cbn [send_all].
  - by intros [= <-].
  - destruct (frame_send evs m.1 m.2) as [[[] w] e] eqn:E; [|done].
    destruct (send_all e ms) as [ok w'] eqn:E'. intros [= -> <-].
    apply frame_send_ok in E as [Hl ->]. apply IH in E' as [Hf ->]. split; [by constructor|]. by destruct m.
Qed.

Lemma recv_all_frames ms s rest : clean s → Forall msg_ok ms → data s = concat (frame <$> ms) ++ rest →
  ∃ s', recv_all s (length ms) = (Some ms, s') ∧ clean s' ∧ data s' = rest.
Proof.
  revert s. induction ms as [|m ms IH]; intros s Hs Hm Hd; [by exists s|]. inversion_clear Hm.
  cbn [fmap list_fmap concat] in Hd. rewrite <- app_assoc in Hd. cbn [recv_all length].
  destruct (frame_recv_frame s m _ Hs ltac:(done) Hd) as (s1 & -> & Hc & Hd1).
  destruct (IH s1 Hc ltac:(done) Hd1) as (s2 & -> & ? & ?). by exists s2.
Qed.

(** Framing is transparent: messages sent one after the other, through sends that take any
    part of what they are offered or are interrupted, and delivered in pieces of any size
    between interruptions, are received as the same messages in the same order, and what
    follows them stays on the socket. *)
Theorem frames_reassemble ms evs wire s rest :
  Forall (λ m, is_u8 m.1) ms → send_all evs ms = (true, wire) →
  clean s → data s = wire ++ rest →
  ∃ s', recv_all s (length ms) = (Some ms, s') ∧ clean s' ∧ data s' = rest.
Proof.
  intros Ht Hsend Hs Hd. apply send_all_ok in Hsend as [Hl ->]. apply recv_all_frames; [done| |done].
  rewrite Forall_forall in Ht, Hl |- *. intros m Hm. split; auto.
Qed.

Lemma frames_reassemble_witness :
  ∃ s', recv_all [RData [x00]; REintr; RData [x00; x00; x04; x01]; RData [x08; x41]; RData [x42; x43]] 1 =
        (Some [(8, [x41; x42])], s') ∧ clean s' ∧ data s' = [x43].
Proof.
  apply (frames_reassemble [(8, [x41; x42])] [SSent 4; SEintr; SSent 9; SSent 1; SSent 0; SSent 1]
           [x00; x00; x00; x04; x01; x08; x41; x42]).
  - repeat constructor; vm_compute; congruence.
  - vm_compute. reflexivity.
  - repeat constructor; discriminate.
  - reflexivity.
Defined.

(** ** The ring of seen messages *)

Definition dedup_new : dedup_t := mkDedup (repeat (zeros 32) AC_DEDUP_CAP) 0 0.

(** The ring after remembering [hs]: entry [j mod 256] holds the [j]-th message for
    the last 256 of them. *)
Record ring_of (hs : list ac_hash_t) (d : dedup_t) : Prop := {
  ro_length : length (d_ring d) = AC_DEDUP_CAP;
  ro_n : d_n d = Nat.min (length hs) AC_DEDUP_CAP;
  ro_pos : d_pos d = (length hs mod AC_DEDUP_CAP)%nat;
  ro_at j : (length hs <= j + AC_DEDUP_CAP)%nat → (j < length hs)%nat →
            d_ring d !! (j mod AC_DEDUP_CAP)%nat = hs !! j
}.

Lemma ring_of_new : ring_of [] dedup_new.
Proof. constructor; try done. simpl. lia. Qed.

Lemma ring_of_remember hs d h : ring_of hs d → ring_of (hs ++ [h]) (dedup_remember d h).
Proof.
  intros [Hl Hn Hp Ha]. assert (AC_DEDUP_CAP ≠ 0%nat) as Hc by lia.
  pose proof (Nat.mod_upper_bound (length hs) AC_DEDUP_CAP Hc) as Hb.
  constructor; cbn [dedup_remember d_ring d_n d_pos]; rewrite ?length_app; cbn [length].
  - by rewrite length_insert.
  - rewrite Hn. destruct (Nat.ltb_spec (Nat.min (length hs) AC_DEDUP_CAP) AC_DEDUP_CAP); lia.
  - rewrite Hp. rewrite Nat.Div0.add_mod_idemp_l. done.
  - intros j H1 H2. rewrite Hp. destruct (decide (j = length hs)) as [-> | Hne].
    + rewrite list_lookup_insert_eq by lia. by rewrite lookup_app_r, Nat.sub_diag by lia.
    + assert ((length hs mod AC_DEDUP_CAP)%nat ≠ (j mod AC_DEDUP_CAP)%nat) as Hm.
      { intros E. pose proof (Nat.div_mod_eq (length hs) AC_DEDUP_CAP). pose proof (Nat.div_mod_eq j AC_DEDUP_CAP). nia. }
      rewrite list_lookup_insert_ne by done. rewrite lookup_app_l by lia. apply Ha; lia.
Qed.

Lemma ring_of_has hs d h : ring_of hs d →
  dedup_has d h = true ↔ h ∈ drop (length hs - AC_DEDUP_CAP) hs.
Proof.
  intros [Hl Hn Hp Ha]. unfold dedup_has. rewrite existsb_exists. setoid_rewrite ac_hash_eq_true.
  split.
  - intros (x & Hx & <-). apply list_elem_of_In, list_elem_of_lookup in Hx as [i Hi].
    apply lookup_take_Some in Hi as [Hi Hlt]. rewrite Hn in Hlt.
    assert (∃ j, (length hs <= j + AC_DEDUP_CAP)%nat ∧ (j < length hs)%nat ∧ (j mod AC_DEDUP_CAP)%nat = i) as (j & H1 & H2 & <-).
    { destruct (decide (length hs <= AC_DEDUP_CAP)%nat).
      - exists i. rewrite Nat.mod_small by lia. lia.
      - exists (length hs - 1 - (length hs - 1 - i) mod AC_DEDUP_CAP)%nat.
        pose proof (Nat.mod_upper_bound (length hs - 1 - i) AC_DEDUP_CAP ltac:(lia)).
        pose proof (Nat.div_mod_eq (length hs - 1 - i) AC_DEDUP_CAP) as E. split; [lia|]. split; [lia|].
        symmetry. apply (Nat.mod_unique _ _ ((length hs - 1 - i) / AC_DEDUP_CAP)); lia. }
    rewrite Ha in Hi by done. apply list_elem_of_lookup. exists (j - (length hs - AC_DEDUP_CAP))%nat.
    rewrite lookup_drop. rewrite <- Hi. f_equal. lia.
  - intros [i Hi]%list_elem_of_lookup. rewrite lookup_drop in Hi.
    pose proof (lookup_lt_Some _ _ _ Hi) as Hlt. set (j := (length hs - AC_DEDUP_CAP + i)%nat) in *.
    exists h. split; [|done]. apply list_elem_of_In, list_elem_of_lookup. exists (j mod AC_DEDUP_CAP)%nat.
    apply lookup_take_Some. split; [rewrite Ha by lia; done|]. rewrite Hn.
    pose proof (Nat.mod_upper_bound j AC_DEDUP_CAP ltac:(lia)).
    destruct (decide (length hs <= AC_DEDUP_CAP)%nat); [rewrite Nat.mod_small by lia|]; lia.
Qed.

Lemma ring_of_run hs : ring_of hs (foldl dedup_remember dedup_new hs).
Proof.
  induction hs as [|h hs IH] using rev_ind; [apply ring_of_new|].
  rewrite foldl_app. by apply ring_of_remember.
Qed.

(** The duplicate filter is a sliding window: after any sequence of remembered messages
    it reports a message exactly when it is among the last 256. *)
Theorem dedup_window hs h :
  dedup_has (foldl dedup_remember dedup_new hs) h = true ↔ h ∈ drop (length hs - AC_DEDUP_CAP) hs.
Proof. apply ring_of_has, ring_of_run. Qed.

(** ** Queues and the peer table *)

Definition msg_bytes (m : Z * list byte) : Z := zlen m.2.

(** The counters are the queue's, and within their limits; what is queued fits a
    frame. *)
Record out_ok (o : outbox_t) : Prop := {
  ok_n : o_n o = zlen (o_msgs o);
  ok_bytes : o_bytes o = sum_with msg_bytes (o_msgs o);
  ok_max_n : o_n o <= AC_OUT_QUEUE_MAX_MSGS;
  ok_max_bytes : o_bytes o <= AC_OUT_QUEUE_MAX_BYTES;
  ok_msgs : Forall (λ m, zlen m.2 <= AC_FRAME_MAX_BYTES - 2) (o_msgs o)
}.

Lemma out_ok_empty : out_ok out_empty.
Proof. by constructor. Qed.
Lemma out_ok_closing o : out_ok o → out_ok (closing o).
Proof. intros []. by constructor. Qed.
Lemma out_ok_drop o : out_ok (out_drop_all_locked o).
Proof. by constructor. Qed.
#[export] Hint Resolve out_ok_empty out_ok_closing out_ok_drop : wf.

Lemma peer_enqueue_cases p type payload :
  (peer_enqueue p type payload = (false, p)) ∨
  (peer_enqueue p type payload = (true, set_out p (mkOut (o_msgs (p_out p) ++ [(type, payload)]) (o_n (p_out p) + 1)
                                     (o_bytes (p_out p) + zlen payload) (o_closing (p_out p)))) ∧
   zlen payload <= AC_FRAME_MAX_BYTES - 2 ∧ o_closing (p_out p) = false ∧
   o_n (p_out p) + 1 <= AC_OUT_QUEUE_MAX_MSGS ∧ o_bytes (p_out p) + zlen payload <= AC_OUT_QUEUE_MAX_BYTES).
Proof.
  unfold peer_enqueue. destruct (Z.ltb_spec (AC_FRAME_MAX_BYTES - 2) (zlen payload)); [by left|].
  destruct (o_closing (p_out p)) eqn:E; [by left|].
  destruct (Z.ltb_spec AC_OUT_QUEUE_MAX_MSGS (o_n (p_out p) + 1)); [by left|].
  destruct (Z.ltb_spec AC_OUT_QUEUE_MAX_BYTES (o_bytes (p_out p) + zlen payload)); [by left|].
  right. by repeat split.
Qed.

Lemma peer_enqueue_out_ok p type payload : out_ok (p_out p) → out_ok (p_out (peer_enqueue p type payload).2).
Proof.
  intros H. destruct (peer_enqueue_cases p type payload) as [-> | (-> & ? & ? & ? & ?)]; [done|].
  destruct H as [Hn Hb ? ? Hm]. constructor; cbn; rewrite ?length_app, ?sum_with_app; cbn; try lia.
  - unfold msg_bytes at 2. cbn. lia.
  - apply Forall_app. split; [done|]. by repeat constructor.
Qed.

Lemma send_one_out_ok p type payload : out_ok (p_out p) → out_ok (p_out (send_one p type payload).2).
Proof.
  intros H%(peer_enqueue_out_ok p type payload). unfold send_one.
  destruct (peer_enqueue p type payload) as [[] q]; [done|]. by destruct (_ <=? _).
Qed.

Lemma writer_turn_out_ok p evs : out_ok (p_out p) → out_ok (p_out (writer_turn p evs).1.2).
Proof.
  intros H. unfold writer_turn. destruct (o_closing (p_out p)); [done|].
  destruct (o_msgs (p_out p)) as [|m ms] eqn:E; [done|].
  assert (out_ok (mkOut ms (o_n (p_out p) - 1) (o_bytes (p_out p) - zlen m.2) false)) as Hq.
  { destruct H as [Hn Hb H1 H2 Hm]. rewrite E in *. cbn in *. inversion_clear Hm.
    unfold msg_bytes at 1 in Hb. constructor; cbn; [lia | lia | lia | lia | done]. }
  destruct (_ <? _); [done|]. destruct (frame_send _ _ _) as [[[] ?] ?]; done.
Qed.
#[export] Hint Resolve peer_enqueue_out_ok send_one_out_ok writer_turn_out_ok : wf.

Record net_ok (n : ac_net_t) : Prop := {
  no_peers_n : length (n_peers n) = AC_MAX_PEERS;
  no_out : Forall (λ p, out_ok (p_out p)) (n_peers n);
  no_ring : ∃ hs, ring_of hs (n_dedup n)
}.

Lemma net_ok_new cid kp port host : net_ok (ac_net_new cid kp port host).
Proof.
  constructor; cbn; [done | | exists []; apply ring_of_new].
  repeat (constructor; [apply out_ok_empty|]). constructor.
Qed.

Lemma net_ok_put n i p : net_ok n → out_ok (p_out p) → net_ok (put_peer n i p).
Proof. intros [] Hp. constructor; cbn; [by rewrite length_insert | by apply Forall_insert | done]. Qed.

Lemma net_ok_fmap n (f : peer_t → peer_t) : net_ok n → (∀ p, out_ok (p_out p) → out_ok (p_out (f p))) →
  net_ok (set_peers n (f <$> n_peers n)).
Proof.
  intros [Hl Ho Hr] Hf. constructor; cbn; [by rewrite length_fmap | | done].
  apply Forall_fmap. eapply Forall_impl; [done|]. intros p. apply Hf.
Qed.

Lemma net_peer_ok n i p : net_ok n → n_peers n !! i = Some p → out_ok (p_out p).
Proof. intros [_ Ho _] Hi. by eapply Forall_lookup in Ho. Qed.

Lemma broadcast_ok n type payload ex : net_ok n → net_ok (ac_net_broadcast n type payload ex).
Proof.
  intros H. apply (net_ok_fmap n (λ p, if negb (routable p) then p
    else if match ex with Some a => ac_addr_eq (p_peer_id p) a | None => false end then p
    else (send_one p type payload).2)); [done|].
  intros p Hp. destruct (negb _); [done|]. destruct (match ex with Some _ => _ | None => _ end); auto with wf.
Qed.

Lemma send_to_ok n a type payload : net_ok n → net_ok (ac_net_send_to n a type payload).2.
Proof.
  intros H. unfold ac_net_send_to. destruct (route _ _ _) as [i|]; [|done].
  destruct (n_peers n !! i) as [p|] eqn:Hi; [|done].
  pose proof (send_one_out_ok p type payload (net_peer_ok _ _ _ H Hi)) as Ho.
  destruct (send_one p type payload) as [ok q]. by apply net_ok_put.
Qed.

Lemma remember_ok n h : net_ok n → net_ok (set_dedup n (dedup_remember (n_dedup n) h)).
Proof. intros [? ? [hs Hr]]. constructor; cbn; [done | done |]. exists (hs ++ [h]). by apply ring_of_remember. Qed.

Lemma connect_ok n fd inb host port : net_ok n → net_ok (peer_connect n fd inb host port).2.
Proof.
  intros H. unfold peer_connect, peer_alloc. destruct (free_slot _ _); cbn; [|done].
  apply net_ok_put; [|apply out_ok_empty]. apply net_ok_put; [done|apply out_ok_empty].
Qed.

Lemma evict_ok n i a : net_ok n → net_ok (hello_evict n i a).
Proof.
  intros [Hl Ho Hr]. constructor; cbn; [by rewrite length_imap | | done].
  apply Forall_lookup. intros j p. rewrite list_lookup_imap. intros (q & Hq & ->)%fmap_Some.
  eapply Forall_lookup in Ho; [|done]. destruct (_ =? _)%nat; [done|]. destruct (_ || _); [done|].
  destruct (ac_addr_eq _ _); [|done]. cbn. by apply out_ok_closing.
Qed.

Lemma install_ok n i h now : net_ok n → net_ok (hello_install n i h now).
Proof.
  intros H. unfold hello_install. destruct (n_peers n !! i) as [p|] eqn:Hi; [|done].
  apply net_ok_put; [done|]. by apply (net_peer_ok n i p).
Qed.

(** The steps of the transport's threads. *)
Inductive net_step_of (may : hello_t → Prop) (n : ac_net_t) : ac_net_t → Prop :=
  | ns_connect fd inb host port : net_step_of may n (peer_connect n fd inb host port).2
  | ns_evict i a : net_step_of may n (hello_evict n i a)
  | ns_install i h now : may h → net_step_of may n (hello_install n i h now)
  | ns_write i p evs : n_peers n !! i = Some p → net_step_of may n (put_peer n i (writer_turn p evs).1.2)
  | ns_writer_exit i p : n_peers n !! i = Some p → net_step_of may n (put_peer n i (writer_exit p))
  | ns_close i p : n_peers n !! i = Some p → net_step_of may n (put_peer n i (peer_close_fd p))
  | ns_reap : net_step_of may n (reap_dead_peers n)
  | ns_broadcast type payload ex : net_step_of may n (ac_net_broadcast n type payload ex)
  | ns_send a type payload : net_step_of may n (ac_net_send_to n a type payload).2
  | ns_pong i p type payload : n_peers n !! i = Some p → net_step_of may n (put_peer n i (peer_enqueue p type payload).2)
  | ns_seen i p now : n_peers n !! i = Some p → net_step_of may n (put_peer n i (set_seen p now))
  | ns_remember h : net_step_of may n (set_dedup n (dedup_remember (n_dedup n) h)).
(** Any step, and a step that completes no handshake of peer [a]. *)
Abbreviation net_step := (net_step_of (λ _, True)).
Abbreviation quiet_step a := (net_step_of (λ h, hl_peer_id h ≠ a)).
Arguments ns_connect {may}.
Arguments ns_seen {may}.

Lemma net_step_ok n n' : net_step n n' → net_ok n → net_ok n'.
Proof.
  intros [] Hn.
  - by apply connect_ok.
  - by apply evict_ok.
  - by apply install_ok.
  - apply net_ok_put; [done|]. eapply writer_turn_out_ok, net_peer_ok; done.
  - apply net_ok_put; [done|]. apply out_ok_drop.
  - apply net_ok_put; [done|]. pose proof (net_peer_ok _ _ _ Hn H) as Ho. unfold peer_close_fd. by destruct (_ <=? _).
  - apply (net_ok_fmap n reap_slot); [done|]. intros p Hp. unfold reap_slot. destruct (_ && _); [|done].
    cbn. by apply out_ok_closing.
  - by apply broadcast_ok.
  - by apply send_to_ok.
  - apply net_ok_put; [done|]. eapply peer_enqueue_out_ok, net_peer_ok; done.
  - apply net_ok_put; [done|]. by apply (net_peer_ok n i p).
  - by apply remember_ok.
Qed.

(** ** HELLO *)

(** A peer that gossip may name, and what it says of it. *)
Definition advertised (p : peer_t) : Prop :=
  p_in_use p = true ∧ p_peer_id_known p = true ∧ p_host p ≠ [] ∧ p_port p ≠ 0.
#[export] Instance advertised_dec p : Decision (advertised p).
Proof. unfold advertised. apply _. Defined.
Definition hello_peer_of (p : peer_t) : hello_peer_t := mkHelloPeer (p_peer_id p) (p_port p) (p_host p).

(** C strings of the 128-byte host fields, and 16-bit ports. *)
Definition host_wf (h : list byte) : Prop := (x00 ∉ h) ∧ zlen h <= 127.
Record peer_wf (p : peer_t) : Prop := { pw_host : host_wf (p_host p); pw_port : is_u16 (p_port p) }.

Lemma hello_peers_spec l pos cnt : Forall peer_wf l → 0 <= cnt <= 8 → 0 <= pos <= 171 + 162 * cnt →
  hello_peers l pos cnt = hello_entry <$> take (Z.to_nat (8 - cnt)) (filter advertised l).
Proof.
  revert pos cnt. induction l as [|q l IH]; intros pos cnt Hl Hc Hp; [by destruct (Z.to_nat _)|].
  inversion_clear Hl as [|? ? [[_ Hh] _] Hl']. cbn [hello_peers]. rewrite filter_cons.
  destruct (Z.ltb_spec cnt AC_HELLO_PEER_MAX) as [Hlt|]; cbn [negb].
  2:{ by replace (Z.to_nat (8 - cnt)) with O by lia. }
  destruct (p_in_use q) eqn:E1, (p_peer_id_known q) eqn:E2; cbn [negb orb];
    try (rewrite decide_False by (intros (? & ? & _); congruence); by apply IH).
  case_bool_decide as E3; cbn [orb].
  { rewrite decide_False by (intros (_ & _ & ? & _); congruence). by apply IH. }
  destruct (Z.eqb_spec (p_port q) 0) as [E4|E4].
  { rewrite decide_False by (intros (_ & _ & _ & ?); congruence). by apply IH. }
  rewrite decide_True by done.
  destruct (Z.ltb_spec 250 (zlen (p_host q))); [lia|].
  destruct (Z.ltb_spec 1500 (pos + 32 + 2 + 1 + zlen (p_host q) + 32)); [lia|].
  replace (Z.to_nat (8 - cnt)) with (S (Z.to_nat (8 - (cnt + 1)))) by lia. cbn [take fmap list_fmap].
  f_equal. apply IH; [done | lia | lia].
Qed.

Lemma read_at_app pre x suf : read_at (pre ++ x ++ suf) (length pre) (length x) = OK x.
Proof. rewrite read_at_safe by len. by rewrite slice_app_mid. Qed.

(** Reading at a position given by what precedes it. *)
Lemma read_at_here buf pre x suf p n : buf = pre ++ x ++ suf → p = length pre → n = length x → read_at buf p n = OK x.
Proof. intros -> -> ->. apply read_at_app. Qed.

Lemma hello_entry_length p : length (hello_entry p) = (35 + length (p_host p))%nat.
Proof. unfold hello_entry. len. Qed.

Lemma at_byte z : 0 <= z < 256 → at_ [byte_of z] 0 = z.
Proof. intros H. unfold at_. cbn [nth]. rewrite byte_val_of. warith. Qed.

Lemma parse_gossip_entries l pre suf : Forall peer_wf l →
  parse_gossip (pre ++ concat (hello_entry <$> l) ++ suf) (length pre) (length l) = OK (hello_peer_of <$> l).
Proof.
  revert pre. induction l as [|p l IH]; intros pre Hl; [done|].
  inversion_clear Hl as [|? ? [[Hz Hh] Hport] Hl']. cbn [fmap list_fmap concat length parse_gossip].
  set (buf := pre ++ (hello_entry p ++ concat (hello_entry <$> l)) ++ suf).
  assert (buf = pre ++ b (p_peer_id p) ++ ac_be16 (p_port p) ++ [byte_of (zlen (p_host p))] ++ p_host p ++
                concat (hello_entry <$> l) ++ suf) as E.
  { unfold buf, hello_entry. by rewrite <- !app_assoc. }
  assert (length pre + 35 + length (p_host p) <= length buf)%nat as Hb by (rewrite E; len).
  destruct (Nat.ltb_spec (length buf) (length pre + 35)); [lia|].
  rewrite (read_at_here buf pre _ _ _ 32 E eq_refl) by (by rewrite b_length). cbn [mbind outcome_bind].
  erewrite (read_at_here buf (pre ++ b (p_peer_id p)) (ac_be16 (p_port p)) _ (length pre + 32)%nat 2%nat); [| by rewrite E, <- !app_assoc | len | len].
  cbn [mbind outcome_bind].
  erewrite (read_at_here buf (pre ++ b (p_peer_id p) ++ ac_be16 (p_port p)) [byte_of (zlen (p_host p))] _ (length pre + 34)%nat 1%nat);
    [| by rewrite E, <- !app_assoc | len | done].
  cbn [mbind outcome_bind]. rewrite at_byte by lia. rewrite Nat2Z.id.
  destruct (Nat.ltb_spec (length buf) (length pre + 35 + length (p_host p))); [lia|].
  set (pre' := pre ++ b (p_peer_id p) ++ ac_be16 (p_port p) ++ [byte_of (zlen (p_host p))]).
  erewrite (read_at_here buf pre' (p_host p) _ (length pre + 35)%nat (Nat.min (length (p_host p)) 127)); [| by unfold pre'; rewrite E, <- !app_assoc | unfold pre'; len | lia].
  cbn [mbind outcome_bind].
  replace (length pre + 35 + length (p_host p))%nat with (length (pre' ++ p_host p)) by (unfold pre'; len).
  replace buf with ((pre' ++ p_host p) ++ concat (hello_entry <$> l) ++ suf) by (unfold pre'; rewrite E, <- !app_assoc; done).
  rewrite IH by done. cbn [mbind outcome_bind]. unfold hello_peer_of at 2.
  rewrite bytes_of_b, ac_rd16_be16, cstr_id by done.
  replace (u16 (p_port p)) with (p_port p) by warith. done.
Qed.

Lemma parse_gossip_safe buf pos n : safe (parse_gossip buf pos n).
Proof.
  revert pos. induction n as [|n IH]; intros pos; [done|]. cbn [parse_gossip].
  destruct (Nat.ltb_spec (length buf) (pos + 35)); [done|].
  rewrite (read_at_safe buf pos 32), (read_at_safe buf (pos + 32) 2), (read_at_safe buf (pos + 34) 1) by lia.
  cbn [mbind outcome_bind]. destruct (Nat.ltb_spec (length buf) (pos + 35 + Z.to_nat (at_ (slice buf (pos + 34) 1) 0))); [done|].
  rewrite read_at_safe by lia. cbn [mbind outcome_bind]. by apply safe_bind.
Qed.

Lemma Forall_filter_keep {A} (P Q : A → Prop) `{!∀ x, Decision (Q x)} l : Forall P l → Forall P (filter Q l).
Proof. rewrite !Forall_forall. intros Hl x [_ Hx]%list_elem_of_filter. auto. Qed.

(** The payload starts with the node's own description, then the gossip. *)
Definition hello_self (n : ac_net_t) : list byte :=
  ac_be64 (n_chain_id n) ++ b (pk (n_keypair n)) ++ ac_be16 (n_listen_port n) ++
  [byte_of (zlen (n_external_host n))] ++ n_external_host n.
Definition net_wf (n : ac_net_t) : Prop :=
  is_u64 (n_chain_id n) ∧ is_u16 (n_listen_port n) ∧ host_wf (n_external_host n) ∧ Forall peer_wf (n_peers n).

Lemma hello_payload_eq n : net_wf n →
  let es := take 8 (filter advertised (n_peers n)) in
  hello_payload n = hello_self n ++ [byte_of (zlen es)] ++ concat (hello_entry <$> es).
Proof.
  intros (_ & _ & [_ Hh] & Hp). unfold hello_payload.
  replace (Nat.min 250 (Nat.min 127 (length (n_external_host n)))) with (length (n_external_host n)) by lia.
  rewrite firstn_all. fold (hello_self n). rewrite hello_peers_spec; [|done|lia|unfold hello_self; len].
  change (Z.to_nat (8 - 0)) with 8%nat. by rewrite length_fmap.
Qed.

Lemma concat_entries_length l : Forall peer_wf l → zlen (concat (hello_entry <$> l)) <= 162 * zlen l.
Proof.
  induction 1 as [|p l [[_ Hh] _] _ IH]; [done|]. cbn [fmap list_fmap concat length].
  rewrite length_app, hello_entry_length. lia.
Qed.

Lemma parse_hello_safe buf : safe (parse_hello buf).
Proof.
  unfold parse_hello. apply safe_bind; [by destruct (_ <? _)%nat|]. intros _ Hf%fail_if_ok%Nat.ltb_ge.
  rewrite (read_at_safe buf 0 8), (read_at_safe buf 8 32), (read_at_safe buf 40 2), (read_at_safe buf 42 1) by lia.
  cbn [mbind outcome_bind]. apply safe_bind; [by destruct (_ <? _)%nat|]. intros _ Hf2%fail_if_ok%Nat.ltb_ge.
  rewrite (read_at_safe buf 43) by lia. cbn [mbind outcome_bind]. apply safe_bind; [|done].
  destruct (Nat.leb_spec (length buf) (43 + Z.to_nat (at_ (slice buf 42 1) 0))); [done|].
  rewrite (read_at_safe buf _ 1) by lia. cbn [mbind outcome_bind]. apply parse_gossip_safe.
Qed.

(** The fixed part of the payload. *)
Lemma parse_hello_self n k rest : net_wf n → 0 <= k < 256 →
  let h := hello_self n ++ [byte_of k] ++ rest in
  parse_hello h =
    g ← parse_gossip h (length (hello_self n) + 1) (Nat.min (Z.to_nat k) 8);
    OK (mkHello (n_chain_id n) (pk (n_keypair n)) (n_listen_port n) (n_external_host n) g).
Proof.
  intros (Hc & Hport & [Hz Hh] & _) Hk h. set (x := n_external_host n) in *.
  set (p8 := ac_be64 (n_chain_id n)). set (p32 := b (pk (n_keypair n))). set (p2 := ac_be16 (n_listen_port n)).
  assert (h = p8 ++ p32 ++ p2 ++ [byte_of (zlen x)] ++ x ++ [byte_of k] ++ rest) as E
    by (unfold h, hello_self; by rewrite <- !app_assoc).
  assert (length p8 = 8 ∧ length p32 = 32 ∧ length p2 = 2)%nat as (L8 & L32 & L2) by (repeat split; apply b_length || done).
  assert (length (hello_self n) = 43 + length x)%nat as Ls by (unfold hello_self, x; len).
  assert (43 + length x < length h)%nat as Hl by (unfold h; len).
  unfold parse_hello. destruct (Nat.ltb_spec (length h) 43); [lia|]. cbn [fail_if mbind outcome_bind].
  rewrite (read_at_here h [] _ _ 0 8 E eq_refl (eq_sym L8)).
  erewrite (read_at_here h p8 p32 _ 8 32); [|exact E|lia|lia].
  erewrite (read_at_here h (p8 ++ p32) p2 _ 40 2); [|by rewrite E, <- !app_assoc|len|lia].
  erewrite (read_at_here h (p8 ++ p32 ++ p2) [byte_of (zlen x)] _ 42 1); [|by rewrite E, <- !app_assoc|len|done].
  cbn [mbind outcome_bind]. rewrite at_byte, Nat2Z.id by lia.
  destruct (Nat.ltb_spec (length h) (43 + length x)); [lia|]. cbn [fail_if mbind outcome_bind].
  set (pre := p8 ++ p32 ++ p2 ++ [byte_of (zlen x)]).
  erewrite (read_at_here h pre x _ 43); [|unfold pre; by rewrite E, <- !app_assoc|unfold pre; len|lia].
  cbn [mbind outcome_bind]. destruct (Nat.leb_spec (length h) (43 + length x)); [lia|].
  erewrite (read_at_here h (hello_self n) [byte_of k] rest (43 + length x) 1); [|done|lia|done].
  cbn [mbind outcome_bind]. rewrite at_byte by lia. rewrite Ls.
  unfold p8, p32, p2. rewrite ac_rd64_be64, u64_id, bytes_of_b, ac_rd16_be16, cstr_id by done.
  by replace (u16 (n_listen_port n)) with (n_listen_port n) by warith.
Qed.

(** What a node sends, read back. *)
Definition hello_of (n : ac_net_t) : hello_t :=
  mkHello (n_chain_id n) (pk (n_keypair n)) (n_listen_port n) (n_external_host n)
    (hello_peer_of <$> take 8 (filter advertised (n_peers n))).
Lemma parse_hello_payload n : net_wf n →
  zlen (hello_payload n) <= 1500 ∧ parse_hello (hello_payload n) = OK (hello_of n).
Proof.
  intros Hn. rewrite (hello_payload_eq n Hn). unfold hello_of.
  set (es := take 8 (filter advertised (n_peers n))).
  assert (Forall peer_wf es) as He by (apply Forall_take, Forall_filter_keep, Hn).
  assert (length es <= 8)%nat as H8 by (unfold es; len).
  pose proof (concat_entries_length es He) as Hcl. split.
  - destruct Hn as (_ & _ & [_ Hh] & _). unfold hello_self. len.
  - rewrite parse_hello_self by (done || lia). rewrite Nat2Z.id.
    replace (Nat.min (length es) 8) with (length es) by lia.
    pose proof (parse_gossip_entries es (hello_self n ++ [byte_of (zlen es)]) [] He) as Hg.
    rewrite app_nil_r, length_app, <- app_assoc in Hg. cbn [length] in Hg. by rewrite Hg.
Qed.

(** HELLO: parsing any bytes stays inside the buffer; what a node sends fits its
    1500-byte buffer and is parsed back to its chain, key, port and host and to the
    first eight peers it can advertise. *)
Theorem hello_roundtrip n buf :
  net_wf n →
  safe (parse_hello buf) ∧ zlen (hello_payload n) <= 1500 ∧
  parse_hello (hello_payload n) =
    OK (mkHello (n_chain_id n) (pk (n_keypair n)) (n_listen_port n) (n_external_host n)
          (hello_peer_of <$> take 8 (filter advertised (n_peers n)))).
Proof. intros Hn. split; [apply parse_hello_safe | by apply parse_hello_payload]. Qed.

Definition hello_demo : ac_net_t :=
  set_peers (ac_net_new 7 (mkKeypair (bytes_of 32 [x41]) (zeros 64)) 30303 (str "node.example"))
    (mkPeer true 5 (bytes_of 32 [x42]) true false (str "10.0.0.2") 30303 0 out_empty false :: repeat peer_zero 63).
Lemma hello_roundtrip_witness :
  net_wf hello_demo ∧
  parse_hello (hello_payload hello_demo) =
    OK (mkHello 7 (bytes_of 32 [x41]) 30303 (str "node.example") [mkHelloPeer (bytes_of 32 [x42]) 30303 (str "10.0.0.2")]).
Proof.
  assert (net_wf hello_demo) as H.
  { split; [by vm_compute|]. split; [by vm_compute|]. split; [split; [by apply (bool_decide_unpack _); vm_compute|by vm_compute]|].
    repeat (constructor; [constructor; [split; [by apply (bool_decide_unpack _); vm_compute|by vm_compute]|by vm_compute]|]). constructor. }
  split; [exact H|]. destruct (hello_roundtrip hello_demo [] H) as (_ & _ & E). exact E.
Defined.

(** ** Routing after a reconnection *)

Lemma route_spec l a i j p : l !! j = Some p → routable p = true → p_peer_id p = a →
  (∀ k q, l !! k = Some q → k ≠ j → routable q = true → p_peer_id q ≠ a) →
  route l a i = Some (i + j)%nat.
Proof.
  revert i j. induction l as [|q l IH]; intros i j Hj Hr Ha Hu; [done|]. cbn [route].
  destruct j as [|j].
  - injection Hj as ->. rewrite Hr, Ha, ac_addr_eq_refl. cbn [andb]. by rewrite Nat.add_0_r.
  - destruct (routable q && ac_addr_eq (p_peer_id q) a) eqn:E.
    + apply andb_true_iff in E as [E1 E2%ac_addr_eq_true]. by destruct (Hu 0%nat q eq_refl ltac:(lia) E1).
    + rewrite (IH (S i) j Hj Hr Ha); [f_equal; lia|]. intros k q' Hk Hne. apply (Hu (S k)); [done|lia].
Qed.

(** A known slot of peer [a]. *)
Definition known_as (a : ac_addr_t) (p : peer_t) : Prop := p_in_use p = true ∧ p_peer_id_known p = true ∧ p_peer_id p = a.
Definition alone (a : ac_addr_t) (i : nat) (n : ac_net_t) : Prop :=
  ∀ k q, n_peers n !! k = Some q → k ≠ i → ¬ known_as a q.

Lemma send_one_ident p type payload : (send_one p type payload).2.(p_in_use) = p_in_use p ∧
  (send_one p type payload).2.(p_peer_id_known) = p_peer_id_known p ∧ (send_one p type payload).2.(p_peer_id) = p_peer_id p.
Proof. unfold send_one, peer_enqueue. repeat case_match; simplify_eq/=; done. Qed.
Lemma writer_turn_ident p evs : (writer_turn p evs).1.2.(p_in_use) = p_in_use p ∧
  (writer_turn p evs).1.2.(p_peer_id_known) = p_peer_id_known p ∧ (writer_turn p evs).1.2.(p_peer_id) = p_peer_id p.
Proof. unfold writer_turn. repeat case_match; simplify_eq/=; done. Qed.

Lemma alone_put a i n k p p' : n_peers n !! k = Some p → (known_as a p' → known_as a p) → alone a i n → alone a i (put_peer n k p').
Proof.
  intros Hk Hp Ha j q Hj Hne. cbn in Hj. destruct (decide (j = k)) as [-> |Hjk].
  - rewrite list_lookup_insert_eq in Hj by (by eapply lookup_lt_Some). injection Hj as <-. intros Hq. by apply (Ha k p Hk Hne), Hp.
  - rewrite list_lookup_insert_ne in Hj by done. by apply (Ha j).
Qed.
Lemma alone_fmap a i n (f : peer_t → peer_t) : (∀ p, known_as a (f p) → known_as a p) → alone a i n → alone a i (set_peers n (f <$> n_peers n)).
Proof. intros Hf Ha j q Hj Hne. cbn in Hj. apply list_lookup_fmap_Some in Hj as (p & -> & Hp). intros Hq. by apply (Ha j p Hp Hne), Hf. Qed.

(** Nothing but a handshake of [a] gives another slot that identity. *)
Lemma quiet_alone a i n n' : quiet_step a n n' → alone a i n → alone a i n'.
Proof.
  intros Hs Ha. destruct Hs as [fd inb host port|k x|k h now Hq|k p evs Hk|k p Hk|k p Hk| |type payload ex|x type payload|k p type payload Hk|k p now Hk|x].
  - unfold peer_connect, peer_alloc. destruct (free_slot (n_peers n) 0) as [k|]; [|done]. cbn. intros j q Hj Hne. cbn in Hj.
    rewrite list_insert_insert_eq in Hj. apply list_lookup_insert_Some in Hj as [(-> & <- & _)|[_ Hj]]; [by intros (_ & ? & _)|by apply (Ha j)].
  - intros j q Hj Hne. cbn in Hj. rewrite list_lookup_imap in Hj. apply fmap_Some in Hj as (p & Hp & ->). intros Hk'. apply (Ha j p Hp Hne).
    revert Hk'. destruct (j =? k)%nat; [done|]. destruct (_ || _); [done|]. destruct (ac_addr_eq _ _); [|done]. by intros (_ & ? & _).
  - unfold hello_install. destruct (n_peers n !! k) as [p|] eqn:Hk; [|done].
    eapply alone_put; [done| |done]. intros (_ & _ & ?). done.
  - eapply alone_put; [done| |done]. destruct (writer_turn_ident p evs) as (E1 & E2 & E3). unfold known_as. by rewrite E1, E2, E3.
  - by eapply alone_put.
  - eapply alone_put; [done| |done]. unfold peer_close_fd. by destruct (_ <=? _).
  - apply alone_fmap; [|done]. intros p. unfold reap_slot. destruct (_ && _); [|done]. by intros [? _].
  - apply alone_fmap; [|done]. intros p. destruct (negb _); [done|]. destruct (match ex with Some _ => _ | None => _ end); [done|].
    destruct (send_one_ident p type payload) as (E1 & E2 & E3). unfold known_as. by rewrite E1, E2, E3.
  - unfold ac_net_send_to. destruct (route _ _ _) as [k|]; [|done]. destruct (n_peers n !! k) as [p|] eqn:Hk; [|done].
    destruct (send_one_ident p type payload) as (E1 & E2 & E3). destruct (send_one p type payload) as [ok p']. cbn in *.
    eapply alone_put; [done| |done]. unfold known_as. by rewrite E1, E2, E3.
  - eapply alone_put; [done| |done]. unfold known_as, peer_enqueue. by repeat case_match; simplify_eq/=.
  - by eapply alone_put.
  - done.
Qed.
Lemma evict_alone n i a : alone a i (hello_evict n i a).
Proof.
  intros k q Hk Hne. cbn in Hk. rewrite list_lookup_imap in Hk. apply fmap_Some in Hk as (p & Hp & ->).
  destruct (Nat.eqb_spec k i); [done|]. intros (H1 & H2 & H3). revert H1 H2 H3.
  destruct (negb (p_in_use p) || negb (p_peer_id_known p)) eqn:E; [by destruct (p_in_use p), (p_peer_id_known p)|].
  destruct (ac_addr_eq (p_peer_id p) a) eqn:Ea; [done|]. intros _ _ Hx. by apply ac_addr_eq_false in Ea.
Qed.

(** C29. The newest connection wins: when slot [i] has received a valid HELLO, has evicted the
    other slots of that peer, and then, after whatever steps of other threads that complete
    no other handshake of the same peer, takes its identity, messages for the peer are
    queued on slot [i] and on no other, whatever stale slots it had. The eviction leaves the
    slots of other peers alone, and taking the identity all other slots. (With another
    handshake of the peer in between it is different: [interleaved_handshakes_duplicate].) *)
Theorem newest_connection_wins n n1 i frame now h p type payload :
  hello_check n frame = Some h →
  rtc (quiet_step (hl_peer_id h)) (hello_evict n i (hl_peer_id h)) n1 →
  n_peers n1 !! i = Some p → p_in_use p = true → 0 <= p_fd p →
  let n' := hello_install n1 i h now in
  (∃ p', n_peers n' !! i = Some p' ∧ p_peer_id p' = hl_peer_id h ∧ p_out p' = p_out p ∧
    ac_net_send_to n' (hl_peer_id h) type payload =
      ((send_one p' type payload).1, put_peer n' i (send_one p' type payload).2)) ∧
  (∀ j q, j ≠ i → n_peers n !! j = Some q → p_peer_id q ≠ hl_peer_id h → n_peers (hello_evict n i (hl_peer_id h)) !! j = Some q) ∧
  (∀ j, j ≠ i → n_peers n' !! j = n_peers n1 !! j).
Proof.
  intros Hh Hr Hi Hu Hfd n'. unfold n', hello_install. rewrite Hi.
  assert (alone (hl_peer_id h) i n1) as Ha.
  { revert Hr. generalize (evict_alone n i (hl_peer_id h)). generalize (hello_evict n i (hl_peer_id h)). intros x Hx Hr.
    induction Hr as [|x y z Hs _ IH]; [done|]. by apply IH, (quiet_alone _ _ x). }
  assert (i < length (n_peers n1))%nat as Hlt by (by eapply lookup_lt_Some). split; [|split].
  - eexists. split; [cbn; by rewrite list_lookup_insert_eq|]. split; [done|]. split; [done|].
    unfold ac_net_send_to. erewrite (route_spec _ _ 0 i).
    + cbn [Nat.add]. cbn [n_peers put_peer set_peers]. rewrite list_lookup_insert_eq by done. by destruct (send_one _ _ _).
    + cbn. by rewrite list_lookup_insert_eq.
    + unfold routable. cbn. rewrite Hu. cbn. by apply Z.leb_le.
    + done.
    + intros k q Hk Hne Hrt Hid. cbn in Hk. rewrite list_lookup_insert_ne in Hk by done. apply (Ha k q Hk Hne).
      unfold routable in Hrt. apply andb_true_iff in Hrt as [[? ?]%andb_true_iff _]. done.
  - intros j q Hne Hj Hq. cbn. rewrite list_lookup_imap, Hj. cbn. destruct (Nat.eqb_spec j i); [done|]. destruct (_ || _); [done|].
    by rewrite (proj2 (ac_addr_eq_false _ _) Hq).
  - intros j Hne. cbn. by rewrite list_lookup_insert_ne.
Qed.

(** The peer of [hello_demo] has reconnected on slot 1. *)
Definition hello_again : ac_net_t := (peer_connect hello_demo 9 true (str "10.0.0.2") 40000).2.
Definition hello_frame : option (Z * list byte) :=
  Some (AC_MSG_HELLO, hello_payload (ac_net_new 7 (mkKeypair (bytes_of 32 [x42]) (zeros 64)) 30303 [])).
Definition hello_fresh : peer_t := mkPeer true 9 (zeros 32) false true (str "10.0.0.2") 40000 0 out_empty false.
Definition hello_seen : hello_t := mkHello 7 (bytes_of 32 [x42]) 30303 [] [].
Definition hello_between : ac_net_t := ac_net_broadcast (hello_evict hello_again 1 (bytes_of 32 [x42])) AC_MSG_PING [] None.
Lemma newest_connection_wins_witness :
  let n' := hello_install hello_between 1 hello_seen 5 in
  route (n_peers hello_again) (bytes_of 32 [x42]) 0 = Some 0%nat ∧
  ∃ p', n_peers n' !! 1%nat = Some p' ∧ p_peer_id p' = bytes_of 32 [x42] ∧ p_out p' = out_empty ∧
    ac_net_send_to n' (bytes_of 32 [x42]) AC_MSG_PING [x01] =
      ((send_one p' AC_MSG_PING [x01]).1, put_peer n' 1 (send_one p' AC_MSG_PING [x01]).2).
Proof.
  split; [vm_compute; reflexivity|].
  assert (hello_check hello_again hello_frame = Some hello_seen) as Hc
    by (apply (bool_decide_unpack _); by vm_compute).
  apply (newest_connection_wins hello_again hello_between 1 hello_frame 5 hello_seen hello_fresh AC_MSG_PING [x01]);
    [exact Hc | | vm_compute; reflexivity | reflexivity | discriminate].
  apply rtc_once, ns_broadcast.
Defined.

(** Two handshakes of one peer that interleave leave both of its slots routable: the
    second eviction runs before the first slot has its identity, and every broadcast
    is then queued twice for the peer. *)
Definition hello_twice : ac_net_t := (peer_connect (peer_connect (ac_net_new 7 (mkKeypair (zeros 32) (zeros 64)) 1 []) 8 true [] 0).2 9 true [] 0).2.
Lemma interleaved_handshakes_duplicate :
  let a := bytes_of 32 [x42] in
  let n := hello_install (hello_install (hello_evict (hello_evict hello_twice 0 a) 1 a) 0 hello_seen 1) 1 hello_seen 1 in
  length (filter (λ p, routable p && ac_addr_eq (p_peer_id p) a = true) (n_peers n)) = 2%nat ∧
  length (n_peers (ac_net_broadcast n AC_MSG_PING [] None) ≫= λ p, o_msgs (p_out p)) = 2%nat.
Proof. vm_compute. split; reflexivity. Qed.

(** ** Gossip *)

Definition is_gossip (type : Z) : Prop := type = AC_MSG_BLOCK_ANN ∨ type = AC_MSG_TX_ANN ∨ type = AC_MSG_COMMIT_VOTE.

#[export] Instance is_gossip_dec type : Decision (is_gossip type).
Proof. unfold is_gossip. apply _. Defined.

Section Gossip.
Context `{!Sodium} {W : Type} `{!NetWorld W} `{!NetWorldLaws W}.

(** Callbacks leave the ring of seen messages alone. *)
Definition keeps_ring (f : W → list byte → W) : Prop :=
  ∀ w buf, n_dedup (w_net (f w buf)) = n_dedup (w_net w).
Record callbacks_ok (cb : ac_net_callbacks_t W) : Prop := {
  co_block : keeps_ring (on_block_ann cb);
  co_tx : keeps_ring (on_tx_ann cb);
  co_vote : keeps_ring (on_commit_vote cb);
  co_headers w from count a : n_dedup (w_net (on_headers_req cb w from count a)) = n_dedup (w_net w);
  co_request w h a : n_dedup (w_net (on_block_req cb w h a)) = n_dedup (w_net w)
}.

(** A gossiped message enters the ring unless it is there. *)
Lemma gossip_ring w from type buf f : keeps_ring f →
  n_dedup (w_net (gossip w from type buf f)) =
    if dedup_has (n_dedup (w_net w)) (ac_hash buf) then n_dedup (w_net w) else dedup_remember (n_dedup (w_net w)) (ac_hash buf).
Proof.
  intros Hf. unfold gossip, gossip_new. destruct (dedup_has _ _); [done|].
  rewrite w_net_set. cbn [ac_net_broadcast n_dedup set_peers]. by rewrite Hf, w_net_set.
Qed.

Definition gossip_cb (cb : ac_net_callbacks_t W) (type : Z) : W → list byte → W :=
  if type =? AC_MSG_BLOCK_ANN then on_block_ann cb else if type =? AC_MSG_TX_ANN then on_tx_ann cb else on_commit_vote cb.

Lemma dispatch_gossip cb w i p type buf now : is_gossip type → n_peers (w_net w) !! i = Some p →
  dispatch_message cb w i type buf now =
  gossip (w_set_net w (put_peer (w_net w) i (set_seen p now))) (p_peer_id p) type buf (gossip_cb cb type).
Proof. intros Ht Hi. unfold dispatch_message, gossip_cb. rewrite Hi. by destruct Ht as [-> | [-> | ->]]. Qed.

Lemma gossip_cb_ring cb type : callbacks_ok cb → keeps_ring (gossip_cb cb type).
Proof. intros []. unfold gossip_cb. destruct (_ =? _); [done|]. by destruct (_ =? _). Qed.

(** Any message adds at most one entry to the ring. *)
Lemma dispatch_ring cb w i type buf now hs : callbacks_ok cb → ring_of hs (n_dedup (w_net w)) →
  ∃ x, (length x <= 1)%nat ∧ ring_of (hs ++ x) (n_dedup (w_net (dispatch_message cb w i type buf now))).
Proof.
  intros Hcb Hr. pose proof Hcb as [Hb _ _ Hh Hq].
  assert (∀ d, d = n_dedup (w_net w) → ∃ x : list ac_hash_t, (length x <= 1)%nat ∧ ring_of (hs ++ x) d) as H0'.
  { intros d ->. exists []. rewrite app_nil_r. split; [cbn; lia | done]. }
  destruct (n_peers (w_net w) !! i) as [p|] eqn:Hi; [|apply H0'; unfold dispatch_message; by rewrite Hi].
  destruct (decide (is_gossip type)) as [Ht|Ht].
  { rewrite (dispatch_gossip _ _ _ p), gossip_ring by (done || by apply gossip_cb_ring). rewrite w_net_set. cbn [n_dedup put_peer set_peers].
    destruct (dedup_has _ _); [by apply H0'|]. exists [ac_hash buf]. split; [cbn; lia | by apply ring_of_remember]. }
  apply H0'. unfold dispatch_message. rewrite Hi. cbv zeta.
  destruct (Z.eqb_spec type AC_MSG_BLOCK_ANN), (Z.eqb_spec type AC_MSG_TX_ANN), (Z.eqb_spec type AC_MSG_COMMIT_VOTE);
    try (exfalso; apply Ht; unfold is_gossip; tauto).
  destruct (_ =? AC_MSG_HEADERS_REQ); [destruct (_ <? _)%nat; [by rewrite w_net_set | by rewrite Hh, w_net_set]|].
  destruct (_ =? AC_MSG_BLOCK_REQ); [destruct (_ <? _)%nat; [by rewrite w_net_set | by rewrite Hq, w_net_set]|].
  destruct (_ =? AC_MSG_BLOCK_RES); [by rewrite Hb, w_net_set|]. destruct (_ =? AC_MSG_PING); by rewrite !w_net_set.
Qed.

(** A message with the callbacks and clock it finds. *)
Record arrival_t := mkArrival { ar_cb : ac_net_callbacks_t W; ar_slot : nat; ar_type : Z; ar_buf : list byte; ar_now : Z }.
Definition arrive (w : W) (a : arrival_t) : W := dispatch_message (ar_cb a) w (ar_slot a) (ar_type a) (ar_buf a) (ar_now a).

Lemma arrivals_ring l w hs : Forall (λ a, callbacks_ok (ar_cb a)) l → ring_of hs (n_dedup (w_net w)) →
  ∃ x, (length x <= length l)%nat ∧ ring_of (hs ++ x) (n_dedup (w_net (foldl arrive w l))).
Proof.
  intros Hl. revert w hs. induction Hl as [|a l Ha _ IH]; intros w hs Hr; cbn [foldl length].
  { exists []. rewrite app_nil_r. split; [done|done]. }
  destruct (dispatch_ring (ar_cb a) w (ar_slot a) (ar_type a) (ar_buf a) (ar_now a) hs Ha Hr) as (x & Hx & Hr1).
  destruct (IH _ _ Hr1) as (y & Hy & Hr2). exists (x ++ y). rewrite length_app, app_assoc. split; [lia | exact Hr2].
Qed.

(** C28. Gossip is handled at most once: after a new block, transaction or vote announcement
    was dispatched, and with up to 255 messages of any kind from any peers in between, the
    same bytes, from any peer and under any of the three types, reach no callback and are
    not forwarded again; only the sender's last-seen time changes. *)
Theorem gossip_once a w p between j type' now' q :
  let w' := foldl arrive (arrive w a) between in
  Forall (λ x, callbacks_ok (ar_cb x)) (a :: between) → net_ok (w_net w) →
  is_gossip (ar_type a) → n_peers (w_net w) !! ar_slot a = Some p → dedup_has (n_dedup (w_net w)) (ac_hash (ar_buf a)) = false →
  (length between <= 255)%nat →
  is_gossip type' → n_peers (w_net w') !! j = Some q →
  dispatch_message (ar_cb a) w' j type' (ar_buf a) now' = w_set_net w' (put_peer (w_net w') j (set_seen q now')).
Proof.
  intros w' [Hcb Hl]%Forall_cons Hn Ht Hi Hnew Hlen Ht' Hj. rewrite (dispatch_gossip _ _ _ q) by done.
  assert (dedup_has (n_dedup (w_net w')) (ac_hash (ar_buf a)) = true) as Hd.
  { destruct (no_ring _ Hn) as [hs Hr].
    assert (ring_of (hs ++ [ac_hash (ar_buf a)]) (n_dedup (w_net (arrive w a)))) as Hr1.
    { unfold arrive. rewrite (dispatch_gossip _ _ _ p), gossip_ring by (done || by apply gossip_cb_ring). rewrite w_net_set.
      cbn [n_dedup put_peer set_peers]. rewrite Hnew. by apply ring_of_remember. }
    destruct (arrivals_ring between _ _ Hl Hr1) as (x & Hx & Hr2). apply (ring_of_has _ _ _ Hr2).
    rewrite <- app_assoc, drop_app_le by (rewrite !length_app; cbn [length]; lia). set_solver. }
  unfold gossip, gossip_new. rewrite w_net_set. cbn [n_dedup put_peer set_peers]. by rewrite Hd.
Qed.
End Gossip.
