(* ===== verification/Dial.v ===== *)
(** * net.c: connections, from dialling to the end of the reader

    The listener, the connector and the reader thread over the tables of [Net]: how a
    connection comes into being, what it delivers, how it is replaced and when it ends.
    [connect] stands for [getaddrinfo], [socket] and [connect]: the descriptor with the
    way the socket takes writes, or nothing. *)

From S2P Require Import Prelude Common Crypto Text Net NetFacts.

(** ** Dialling *)

Definition strip_brackets (host : list byte) : list byte :=
  let hl := length host in
  if bool_decide (head host = Some x5b) && (2 <? hl)%nat && bool_decide (last host = Some x5d)
  then take (hl - 2) (drop 1 host) else host.
Definition dial_parse (hp : list byte) : option (list byte * Z) :=
  match strrchr hp x3a with
  | None => None
  | Some (host, digits) =>
      if (128 <=? length host)%nat then None
      else
        let port := atoi digits in
        if (port <=? 0) || (65535 <? port) then None else Some (strip_brackets host, port)
  end.

Definition connect_t := list byte → Z → option (Z * list send_ev).

(** Whether it returned 0, the network, and what was written on the new socket. *)
Definition dial_peer (connect : connect_t) (n : ac_net_t) (hp : list byte) : bool * ac_net_t * list byte :=
  match dial_parse hp with
  | None => (false, n, [])
  | Some (host, port) =>
      if already_dialed n host port then (true, n, [])
      else
        match connect host port with
        | None => (false, n, [])
        | Some (fd, evs) =>
            match peer_connect n fd false host port with
            | (None, n) => (false, n, [])
            | (Some _, n) => let '(_, wire, _) := send_hello n evs in (true, n, wire)
            end
        end
  end.

(** One accepted connection of [listen_loop]; without a free slot it is closed at once. *)
Definition listen_accept (n : ac_net_t) (fd : Z) (host : list byte) (port : Z) (evs : list send_ev)
    : ac_net_t * list byte :=
  match peer_connect n fd true (snprintf 128 host) port with
  | (None, n) => (n, [])
  | (Some _, n) => let '(_, wire, _) := send_hello n evs in (n, wire)
  end.

(** ** The connector *)

Definition connector_target (target_outbound seed_n : Z) : Z :=
  let target := if 0 <? target_outbound then target_outbound else 8 in
  if (0 <? seed_n) && (seed_n <? target) then seed_n else target.

Definition dial_seeds (connect : connect_t) (n : ac_net_t) (seeds : list (list byte)) : ac_net_t :=
  foldl (λ n hp, if bool_decide (hp = []) then n else (dial_peer connect n hp).1.2) n seeds.
(** One turn of [connector_loop]. *)
Definition connector_turn (connect : connect_t) (target_outbound : Z) (seeds : list (list byte)) (n : ac_net_t) : ac_net_t :=
  let n := reap_dead_peers n in
  if (Z.of_nat (outbound_count n) <? connector_target target_outbound (zlen seeds)) && (0 <? zlen seeds)
  then dial_seeds connect n seeds else n.

(** ** The reader *)

(** The neighbours of a new neighbour are dialled. *)
Definition host_port (t : list byte * Z) : list byte := snprintf 160 (t.1 ++ x3a :: dec t.2).
Definition dial_gossip (connect : connect_t) (n : ac_net_t) (h : hello_t) : ac_net_t :=
  foldl (λ n t, (dial_peer connect n (host_port t)).1.2) n (dial_targets n h).

Section Reader.
Context `{!Sodium} {W : Type} `{!NetWorld W} (connect : connect_t).

Definition close_slot (w : W) (i : nat) : W :=
  match n_peers (w_net w) !! i with
  | Some p => w_set_net w (put_peer (w_net w) i (peer_close_fd p))
  | None => w
  end.

(** The steady state. Each turn has the callbacks and the clock of its message; the
    loop ends with the turns, when the node stops, or with the stream. *)
Fixpoint reader_messages (turns : list (ac_net_callbacks_t W * Z)) (w : W) (i : nat) (s : list recv_ev) : W :=
  match turns with
  | [] => close_slot w i
  | (cb, now) :: turns =>
      match frame_recv s with
      | (None, _) => close_slot w i
      | (Some (type, buf), s) => reader_messages turns (dispatch_message cb w i type buf now) i s
      end
  end.
(** The handshake as seen by the rest: identity, then the gossiped neighbours. *)
Definition reader_welcome (w : W) (i : nat) (frame : option (Z * list byte)) (h : hello_t) (now : Z) : W :=
  w_set_net w (dial_gossip connect (reader_hello (w_net w) i frame now) h).
Definition reader_loop (turns : list (ac_net_callbacks_t W * Z)) (w : W) (i : nat) (s : list recv_ev) (now : Z) : W :=
  let '(frame, s) := frame_recv s in
  match hello_check (w_net w) frame with
  | None => close_slot w i
  | Some h => reader_messages turns (reader_welcome w i frame h now) i s
  end.
End Reader.

(** ** Stopping *)

(** [ac_net_stop]: sockets shut, writers told to close, threads joined (the reader closed
    its socket, the writer dropped its queue), slots released. *)
Definition stop_slot (p : peer_t) : peer_t :=
  if p_in_use p then
    mkPeer false (-1) (p_peer_id p) (p_peer_id_known p) (p_inbound p) (p_host p) (p_port p) (p_last_seen_ms p)
      (out_drop_all_locked (closing (p_out p))) (p_shut p || (0 <=? p_fd p))
  else p.
Definition ac_net_stop (n : ac_net_t) : ac_net_t := set_peers n (stop_slot <$> n_peers n).

(** ** Addresses *)

Lemma atoi_dec z : 0 <= z < 2 ^ 31 → atoi (dec z) = z.
Proof.
  intros Hz. unfold atoi. pose proof (scan_number_dec [] z [] ltac:(constructor) ltac:(split; lia) eq_refl) as E.
  rewrite app_nil_r in E. cbn [app] in E. rewrite E. rewrite Z.min_r by lia.
  replace (u32 z) with z by warith. destruct (Z.ltb_spec z (2 ^ 31)); [done|lia].
Qed.

Lemma strrchr_none l c : c ∉ l → strrchr l c = None.
Proof.
  induction l as [|d l IH]; intros Hc; [done|]. cbn. rewrite not_elem_of_cons in Hc. destruct Hc as [Hd Hc].
  rewrite IH by done. by rewrite bool_decide_false.
Qed.
Lemma strrchr_last x y c : c ∉ y → strrchr (x ++ c :: y) c = Some (x, y).
Proof.
  intros Hy. induction x as [|d x IH]; cbn; [by rewrite strrchr_none, bool_decide_true | by rewrite IH].
Qed.

(** An address as gossip prints it is the one that is dialled, unless it has brackets. *)
Lemma host_port_dialled host port : zlen host <= 127 → 0 < port <= 65535 → strip_brackets host = host →
  dial_parse (host_port (host, port)) = Some (host, port).
Proof.
  intros Hh Hp Hb. destruct (dec_spec port ltac:(split; lia)) as (Hd & _ & _ & Hl).
  unfold host_port, snprintf. cbn [fst snd]. rewrite take_ge by len.
  unfold dial_parse. rewrite strrchr_last.
  - destruct (Nat.leb_spec 128 (length host)); [lia|]. rewrite atoi_dec by lia. cbv zeta.
    destruct (Z.leb_spec port 0), (Z.ltb_spec 65535 port); try lia. cbn [orb]. by rewrite Hb.
  - intros Hin. rewrite Forall_forall in Hd. by specialize (Hd _ Hin).
Qed.

(** ** Dialling and slots *)

(** Slots that can still be taken. *)
Definition free (n : ac_net_t) : nat := length (filter (λ p, p_in_use p = false) (n_peers n)).
(** Slots in use stay as they are. *)
Definition keeps (n n' : ac_net_t) : Prop :=
  ∀ i p, n_peers n !! i = Some p → p_in_use p = true → n_peers n' !! i = Some p.
#[export] Instance keeps_preorder : PreOrder keeps.
Proof. split; [by intros n i p|]. intros x y z H1 H2 i p Hi Hu. apply H2; [by apply H1 | done]. Qed.

Lemma already_dialed_spec n host port : already_dialed n host port = true ↔
  ∃ i p, n_peers n !! i = Some p ∧ p_in_use p = true ∧ p_inbound p = false ∧ 0 <= p_fd p ∧ p_port p = port ∧ p_host p = host.
Proof.
  unfold already_dialed. rewrite existsb_exists. split.
  - intros (p & Hin & Hp). apply list_elem_of_In, list_elem_of_lookup in Hin as [i Hi]. exists i, p. split; [done|].
    repeat rewrite andb_true_iff in Hp. destruct Hp as ((((H1 & H2) & H3) & H4) & H5).
    apply Z.leb_le in H3. apply Z.eqb_eq in H4. apply bool_decide_eq_true in H5. by destruct (p_inbound p).
  - intros (i & p & Hi & H1 & H2 & H3 & H4 & H5). exists p. split; [apply list_elem_of_In; by eapply list_elem_of_lookup_2|].
    rewrite H1, H2, H4, H5, Z.eqb_refl, bool_decide_true by done. by destruct (Z.leb_spec 0 (p_fd p)); [|lia].
Qed.
Lemma already_dialed_keeps n n' host port : keeps n n' → already_dialed n host port = true → already_dialed n' host port = true.
Proof. rewrite !already_dialed_spec. intros Hk (i & p & Hi & Hu & Hr). exists i, p. split; [by apply Hk | done]. Qed.

Lemma free_slot_spec l i : (∃ j p, free_slot l i = Some (i + j)%nat ∧ l !! j = Some p ∧ p_in_use p = false) ∨
  (free_slot l i = None ∧ Forall (λ p, p_in_use p = true) l).
Proof.
  revert i. induction l as [|p l IH]; intros i; cbn [free_slot]; [by right|].
  destruct (p_in_use p) eqn:E; cbn [negb].
  - destruct (IH (S i)) as [(j & q & -> & Hj & Hq)|[-> Hl]]; [|by right; split; [|constructor]].
    left. exists (S j), q. split; [f_equal; lia | done].
  - left. exists 0%nat, p. split; [f_equal; lia | done].
Qed.

Lemma peer_connect_spec n fd inb host port : (0 < free n)%nat →
  ∃ i, peer_connect n fd inb host port =
         (Some i, put_peer n i (mkPeer true fd (zeros 32) false inb host port 0 out_empty false)) ∧
       (i < length (n_peers n))%nat ∧
       keeps n (peer_connect n fd inb host port).2 ∧ free n = S (free (peer_connect n fd inb host port).2).
Proof.
  intros Hf. unfold peer_connect, peer_alloc. destruct (free_slot_spec (n_peers n) 0) as [(i & p & -> & Hi & Hp)|[_ Hl]].
  - cbn [Nat.add]. exists i. assert (i < length (n_peers n))%nat as Hlt by by apply lookup_lt_Some in Hi.
    unfold put_peer. cbn [n_peers set_peers snd]. rewrite list_insert_insert_eq. split; [done|]. split; [done|]. split.
    + intros j q Hj Hu. cbn. rewrite list_lookup_insert_ne; [done|]. intros ->. congruence.
    + unfold free. cbn. rewrite <- (take_drop_middle _ _ _ Hi) at 1. rewrite insert_take_drop by done.
      rewrite !filter_app, !filter_cons, decide_True, decide_False by done. rewrite !length_app. cbn. lia.
  - exfalso. unfold free in Hf. assert (filter (λ p, p_in_use p = false) (n_peers n) = []) as E; [|by rewrite E in Hf; simpl in Hf; lia].
    clear -Hl. induction Hl as [|p l Hp _ IH]; [done|]. rewrite filter_cons, decide_False by congruence. done.
Qed.

Section Dialling.
Context (connect : connect_t).
(** A descriptor is not negative. *)
Context (connect_fd : ∀ host port fd evs, connect host port = Some (fd, evs) → 0 <= fd).

Lemma dial_peer_spec n hp : (0 < free n)%nat →
  keeps n (dial_peer connect n hp).1.2 ∧ (free n <= S (free (dial_peer connect n hp).1.2))%nat ∧
  (∀ host port, dial_parse hp = Some (host, port) → is_Some (connect host port) →
     already_dialed (dial_peer connect n hp).1.2 host port = true).
Proof.
  intros Hf. unfold dial_peer. destruct (dial_parse hp) as [[host port]|]; [|split; [reflexivity|]; split; [cbn; lia|done]].
  destruct (already_dialed n host port) eqn:Ea.
  { split; [reflexivity|]. split; [cbn; lia|]. by intros ? ? [= <- <-]. }
  destruct (connect host port) as [[fd evs]|] eqn:Ec.
  2:{ split; [reflexivity|]. split; [cbn; lia|]. intros ? ? [= <- <-] [x Hx]. congruence. }
  destruct (peer_connect_spec n fd false host port Hf) as (i & E & Hi & Hk & He). rewrite E in *.
  destruct (send_hello _ _) as [[ok wire] evs']. cbn [fst snd] in *. split; [done|]. split; [lia|].
  intros ? ? [= <- <-] _. apply already_dialed_spec. exists i. eexists. cbn. rewrite list_lookup_insert_eq by done.
  split; [done|]. cbn. pose proof (connect_fd _ _ _ _ Ec). auto.
Qed.

(** Dialling a list of addresses when every one of them could get a slot. *)
Definition dial_all (n : ac_net_t) (hps : list (list byte)) : ac_net_t :=
  foldl (λ n hp, (dial_peer connect n hp).1.2) n hps.
Lemma dial_all_spec hps n : (length hps <= free n)%nat →
  keeps n (dial_all n hps) ∧
  (∀ hp host port, hp ∈ hps → dial_parse hp = Some (host, port) → is_Some (connect host port) →
     already_dialed (dial_all n hps) host port = true).
Proof.
  revert n. induction hps as [|hp hps IH]; intros n Hn; cbn [dial_all foldl length] in *.
  { split; [reflexivity|]. intros hp host port Hin. by apply elem_of_nil in Hin. }
  destruct (dial_peer_spec n hp) as (Hk & Hf & Hd); [lia|].
  destruct (IH (dial_peer connect n hp).1.2) as [Hk' Hd']; [lia|].
  split; [by etrans|]. intros hp' host port [->|Hin]%elem_of_cons Hp Hc; [|by apply Hd' with hp'].
  eapply already_dialed_keeps; [exact Hk'|]. by apply Hd.
Qed.
Lemma dial_seeds_all seeds n : dial_seeds connect n seeds = dial_all n seeds.
Proof.
  unfold dial_seeds, dial_all. revert n. induction seeds as [|hp seeds IH]; intros n; [done|]. cbn [foldl].
  rewrite IH. by case_bool_decide as E; [rewrite E|].
Qed.

Lemma reap_keeps n i p : n_peers n !! i = Some p → p_in_use p = true → 0 <= p_fd p →
  n_peers (reap_dead_peers n) !! i = Some p.
Proof.
  intros Hi Hu Hf. cbn. rewrite list_lookup_fmap, Hi. cbn. unfold reap_slot. rewrite Hu.
  destruct (Z.ltb_spec (p_fd p) 0); [lia|done].
Qed.

(** C26. The connector's promise: a turn that finds fewer outbound connections than wanted, and
    slots for the seeds, ends with a live outbound connection to every seed that answers,
    and disturbs no live connection. *)
Theorem connector_connects target seeds n :
  let n' := connector_turn connect target seeds n in
  Z.of_nat (outbound_count (reap_dead_peers n)) < connector_target target (zlen seeds) →
  (length seeds <= free (reap_dead_peers n))%nat →
  (∀ i p, n_peers n !! i = Some p → p_in_use p = true → 0 <= p_fd p → n_peers n' !! i = Some p) ∧
  (∀ hp host port, hp ∈ seeds → dial_parse hp = Some (host, port) → is_Some (connect host port) →
     already_dialed n' host port = true).
Proof.
  intros n' Ho Hf. unfold n', connector_turn. destruct (Z.ltb_spec (Z.of_nat (outbound_count (reap_dead_peers n)))
    (connector_target target (zlen seeds))); [|lia]. cbn [andb].
  destruct seeds as [|hp seeds].
  { split; [intros i p; apply reap_keeps|]. intros hp host port Hin. by apply elem_of_nil in Hin. }
  destruct (Z.ltb_spec 0 (zlen (hp :: seeds))); [|simpl in *; lia]. rewrite dial_seeds_all.
  destruct (dial_all_spec _ _ Hf) as [Hk Hd]. split; [|exact Hd].
  intros i p Hi Hu Hp. apply Hk; [by apply reap_keeps | done].
Qed.

(** A new neighbour's neighbours become neighbours. *)
Lemma gossip_connects n h g : (length (dial_targets n h) <= free n)%nat →
  g ∈ hl_gossip h → hp_peer_id g ≠ pk (n_keypair n) → hp_peer_id g ≠ hl_peer_id h →
  hp_host g ≠ [] → zlen (hp_host g) <= 127 → strip_brackets (hp_host g) = hp_host g → 0 < hp_port g <= 65535 →
  is_Some (connect (hp_host g) (hp_port g)) →
  already_dialed (dial_gossip connect n h) (hp_host g) (hp_port g) = true.
Proof.
  intros Hf Hg H1 H2 H3 H4 H5 H6 Hc.
  assert (dial_gossip connect n h = dial_all n (host_port <$> dial_targets n h)) as ->.
  { unfold dial_gossip, dial_all. generalize (dial_targets n h) as l. intros l. generalize n as m.
    induction l as [|t l IH]; intros m; [done|]. cbn. by rewrite IH. }
  destruct (dial_all_spec (host_port <$> dial_targets n h) n) as [_ Hd]; [by rewrite length_fmap|].
  apply (Hd (host_port (hp_host g, hp_port g))); [|by apply host_port_dialled | done].
  apply list_elem_of_fmap. eexists. split; [done|]. apply list_elem_of_fmap. exists g. split; [done|].
  apply list_elem_of_filter. split; [|done]. repeat rewrite andb_true_iff, negb_true_iff.
  rewrite bool_decide_false by done. apply ac_addr_eq_false in H1, H2. rewrite H1, H2. destruct (Z.eqb_spec (hp_port g) 0); [lia|done].
Qed.
End Dialling.

(** ** What a connection delivers *)

Section Delivery.
Context `{!Sodium} {W : Type} `{!NetWorld W} (connect : connect_t).

(** The dispatch of a sequence of messages, each in its turn. *)
Definition deliver (w : W) (i : nat) (l : list ((ac_net_callbacks_t W * Z) * (Z * list byte))) : W :=
  foldl (λ w x, dispatch_message x.1.1 w i x.2.1 x.2.2 x.1.2) w l.

Lemma frame_recv_end s : clean s → data s = [] → (frame_recv s).1 = None.
Proof.
  intros Hs Hd. unfold frame_recv. destruct (read_full s 6) as [[l|] s'] eqn:E; [|done].
  apply read_full_prefix in E as [Hl E]. rewrite Hd in E. symmetry in E. apply app_eq_nil in E as [-> _]. done.
Qed.

Lemma reader_messages_all ms turns w i s : clean s → Forall msg_ok ms → data s = concat (frame <$> ms) →
  (length ms < length turns)%nat →
  reader_messages turns w i s = close_slot (deliver w i (zip turns ms)) i.
Proof.
  revert turns w s. induction ms as [|[type buf] ms IH]; intros turns w s Hs Hm Hd Hl;
    destruct turns as [|[cb now] turns]; cbn [length] in Hl; try lia; cbn [reader_messages].
  - pose proof (frame_recv_end s Hs Hd) as E. destruct (frame_recv s) as [r s']. cbn in E. by subst r.
  - apply Forall_cons in Hm as [Hm1 Hm]. destruct (frame_recv_frame s (type, buf) _ Hs Hm1 Hd)
      as (s' & -> & Hs' & Hd'). rewrite IH by (done || lia). done.
Qed.

(** C17. A connection delivers: when a node writes its HELLO and then messages, through
    sends that may be partial and interrupted, the other end, whatever way the stream is
    cut into pieces, learns exactly the identity and neighbours that were sent, dials
    those, dispatches exactly the messages, once each and in order, and closes its slot at
    the end of the stream. *)
Theorem connection_delivers (m : ac_net_t) ms evs wire_hello evs' wire turns (w : W) i s now :
  net_wf m → n_chain_id m = n_chain_id (w_net w) → pk (n_keypair m) ≠ pk (n_keypair (w_net w)) →
  Forall (λ x, is_u8 x.1) ms →
  send_hello m evs = (true, wire_hello, evs') → send_all evs' ms = (true, wire) →
  clean s → data s = wire_hello ++ wire → (length ms < length turns)%nat →
  reader_loop connect turns w i s now =
    close_slot (deliver (reader_welcome connect w i (Some (AC_MSG_HELLO, hello_payload m)) (hello_of m) now) i (zip turns ms)) i.
Proof.
  intros Hm Hc Hk Ht [Hl ->]%frame_send_ok [Hf ->]%send_all_ok Hs Hd Hn.
  destruct (parse_hello_payload m Hm) as [_ Hp].
  destruct (frame_recv_frame s (AC_MSG_HELLO, hello_payload m) (concat (frame <$> ms)) Hs) as (s' & E & Hs' & Hd');
    [split; [by split|done] | done|].
  unfold reader_loop. rewrite E. cbn [hello_check]. rewrite Hp. cbn [hl_chain_id hl_peer_id hello_of].
  apply ac_addr_eq_false in Hk. rewrite Hc, !Z.eqb_refl, Hk. cbn [negb].
  apply reader_messages_all; try done. apply Forall_forall. intros x Hx. rewrite Forall_forall in Ht, Hf. split; auto.
Qed.
End Delivery.

(** ** Stopping *)

Lemma stop_silences n type payload ex :
  Forall (λ p, routable p = false) (n_peers (ac_net_stop n)) ∧
  n_peers (ac_net_broadcast (ac_net_stop n) type payload ex) = n_peers (ac_net_stop n).
Proof.
  assert (∀ p, routable (stop_slot p) = false) as Hs.
  { intros p. unfold stop_slot, routable. by destruct (p_in_use p) eqn:E; [|rewrite E]. }
  cbn. split; [apply Forall_fmap, Forall_true; apply Hs|]. rewrite <- list_fmap_compose. apply list_fmap_ext.
  intros _ p _. cbn. by rewrite Hs.
Qed.

(** ** Witnesses and a divergence *)

#[export] Instance net_alone : NetWorld ac_net_t := { w_net := id; w_set_net := λ _ n, n }.
Definition no_callbacks : ac_net_callbacks_t ac_net_t :=
  mkCallbacks _ (λ n _, n) (λ n _, n) (λ n _, n) (λ n _ _ _, n) (λ n _ _, n).
Definition any_socket : connect_t := λ _ _, Some (11, []).

Definition far_net : ac_net_t := ac_net_new 7 (mkKeypair (bytes_of 32 [x43]) (zeros 64)) 30303 (str "far.example").
Definition near_net : ac_net_t := (peer_connect (ac_net_new 7 (mkKeypair (bytes_of 32 [x41]) (zeros 64)) 30303 []) 9 true (str "10.0.0.3") 40000).2.
Definition far_hello : list byte := frame (AC_MSG_HELLO, hello_payload far_net).
Definition ping_frame : list byte := frame (AC_MSG_PING, [x01]).
(** The HELLO is taken in two sends, and arrives glued to a part of the ping. *)
Definition far_sends : list send_ev := [SSent 3; SEintr; SSent 100; SSent 100; SSent 100; SSent 100].
Definition far_stream : list recv_ev := [RData (far_hello ++ take 2 ping_frame); REintr; RData (drop 2 ping_frame)].

Lemma far_net_wf : net_wf far_net.
Proof.
  split; [by vm_compute|]. split; [by vm_compute|]. split; [split; [by apply (bool_decide_unpack _); vm_compute|by vm_compute]|].
  repeat (constructor; [constructor; [split; [by apply (bool_decide_unpack _); vm_compute|by vm_compute]|by vm_compute]|]). constructor.
Qed.

#[local] Existing Instance toy_sodium.
Lemma connection_delivers_witness :
  let n' := reader_loop any_socket [(no_callbacks, 6); (no_callbacks, 7)] near_net 0 far_stream 5 in
  n' = close_slot (deliver (reader_welcome any_socket near_net 0 (Some (AC_MSG_HELLO, hello_payload far_net)) (hello_of far_net) 5) 0
         [((no_callbacks, 6), (AC_MSG_PING, [x01]))]) 0 ∧
  (λ p, (b (p_peer_id p), p_host p, o_msgs (p_out p), p_fd p, p_last_seen_ms p)) <$> n_peers n' !! 0%nat =
    Some (b (bytes_of 32 [x43]), str "far.example", [(AC_MSG_PONG, [x01])], -1, 6).
Proof.
  split; [|vm_compute; reflexivity].
  apply (connection_delivers any_socket far_net [(AC_MSG_PING, [x01])] far_sends far_hello [SSent 100; SSent 100] ping_frame
    [(no_callbacks, 6); (no_callbacks, 7)] near_net 0 far_stream 5 far_net_wf).
  - vm_compute. reflexivity.
  - vm_compute. discriminate.
  - constructor; [split; [discriminate|reflexivity] | constructor].
  - vm_compute. reflexivity.
  - vm_compute. reflexivity.
  - repeat constructor; discriminate.
  - vm_compute. reflexivity.
  - cbn. lia.
Defined.

(** The connector forgets the address it dialled when the peer's HELLO advertises another
    host: the seed counts as not connected, and while some other seed is down every turn
    opens a new connection to it, whose handshake evicts the live one. *)
Definition two_seeds : list (list byte) := [str "10.0.0.3:30303"; str "10.0.0.9:30303"].
Definition one_answers : connect_t := λ host _, if bool_decide (host = str "10.0.0.3") then Some (11, []) else None.
Definition seed_dialled : ac_net_t := connector_turn one_answers 8 two_seeds (ac_net_new 7 (mkKeypair (bytes_of 32 [x41]) (zeros 64)) 30303 []).
Definition seed_welcomed : ac_net_t := reader_hello seed_dialled 0 (Some (AC_MSG_HELLO, hello_payload far_net)) 5.
Lemma redial_evicts_live_connection :
  let again := connector_turn one_answers 8 two_seeds seed_welcomed in
  let replaced := reader_hello again 1 (Some (AC_MSG_HELLO, hello_payload far_net)) 6 in
  already_dialed seed_dialled (str "10.0.0.3") 30303 = true ∧
  already_dialed seed_welcomed (str "10.0.0.3") 30303 = false ∧
  outbound_count again = 2%nat ∧
  (p_shut <$> n_peers replaced !! 0%nat) = Some true ∧ route (n_peers replaced) (bytes_of 32 [x43]) 0 = Some 1%nat.
Proof. vm_compute. repeat split; reflexivity. Qed.

(** Two seeds, the first of them already connected. *)
Lemma connector_connects_witness :
  already_dialed (connector_turn any_socket 8 two_seeds seed_dialled) (str "10.0.0.3") 30303 = true ∧
  already_dialed (connector_turn any_socket 8 two_seeds seed_dialled) (str "10.0.0.9") 30303 = true.
Proof.
  assert (∀ host port fd evs, any_socket host port = Some (fd, evs) → 0 <= fd) as Hfd by (intros ? ? ? ? [= <- <-]; lia).
  destruct (connector_connects any_socket Hfd 8 two_seeds seed_dialled) as [_ Hd]; [vm_compute; reflexivity | vm_compute; lia|].
  split; [apply (Hd (str "10.0.0.3:30303")) | apply (Hd (str "10.0.0.9:30303"))];
    [left | vm_compute; reflexivity | by eexists | right; left | vm_compute; reflexivity | by eexists].
Defined.
