(* ===== verification/Config.v ===== *)
(** * node.c and main.c: the key file and the genesis file

    Both are read and written whole; the functions here go between the bytes of the
    file and the values. *)

From S2P Require Import Prelude Common Crypto Text Codec State Chain Accept.

(** ** The key file *)

Definition KEY_MAGIC : list byte := str "AGCH:KEY:v1".
Abbreviation KEY_VERSION := 1.

Section KeyFile.
Context `{!Sodium}.

Definition key_bytes (kp : ac_keypair_t) : list byte :=
  KEY_MAGIC ++ [byte_of KEY_VERSION] ++ b (pk kp) ++ b (ac_keypair_seed kp).

(** The checks on an existing file; [None] is -1. *)
Definition key_load (buf : list byte) : option ac_keypair_t :=
  if (length buf <? 76)%nat then None
  else if negb (is_eq (memcmp buf KEY_MAGIC 11)) then None
  else if negb (at_ buf 11 =? KEY_VERSION) then None
  else
    let kp := ac_keypair_from_seed (bytes_of 32 (slice buf 44 32)) in
    if negb (is_eq (memcmp (b (pk kp)) (slice buf 12 32) 32)) then None else Some kp.

(** The pair with whether it was created, and the file afterwards. [seed] is what
    [randombytes_buf] yields. *)
Definition ac_node_keypair_load_or_create (file : option (list byte)) (seed : bytes AC_SEED_SIZE) (write_ok : bool)
    : option (ac_keypair_t * bool) * option (list byte) :=
  match file with
  | Some buf => (match key_load buf with Some kp => Some (kp, false) | None => None end, file)
  | None =>
      let kp := ac_keypair_from_seed seed in
      if write_ok then (Some (kp, true), Some (key_bytes kp)) else (None, None)
  end.
End KeyFile.

(** ** The genesis file *)

Definition is_line_end (c : byte) : bool := bool_decide (c = x0a) || bool_decide (c = x0d) || is_blank c.
Definition trim (s : list byte) : list byte :=
  reverse (skip_while is_line_end (reverse (skip_while is_blank s))).

(** Up to [room] characters, a newline included. *)
Fixpoint fgets (l : list byte) (room : nat) : list byte * list byte :=
  match l, room with
  | c :: l', S r => if bool_decide (c = x0a) then ([c], l') else let '(x, y) := fgets l' r in (c :: x, y)
  | _, _ => ([], l)
  end.

(** [%64s]: white space, then up to 64 other characters. *)
Fixpoint scan_word (l : list byte) (room : nat) : list byte * list byte :=
  match l, room with
  | c :: l', S r => if isspace c then ([], l) else let '(x, y) := scan_word l' r in (c :: x, y)
  | _, _ => ([], l)
  end.
(** [sscanf(s, "account %64s %lu %lu", ...) == 3]. *)
Definition scan_account (s : list byte) : option (list byte * Z * Z) :=
  match scan_word (skip_while isspace (drop 7 s)) 64 with
  | ([], _) => None
  | (hex, s) =>
      match scan_number s with
      | None => None
      | Some (n1, bal, s) =>
          match scan_number s with
          | None => None
          | Some (n2, stk, _) => Some (hex, u64_of_scan n1 bal, u64_of_scan n2 stk)
          end
      end
  end.

(** The value after the equals sign. *)
Definition scan_setting (s : list byte) : option Z :=
  match strchr s x3d with Some (_ :: v) => Some (strtoull v) | _ => None end.

(** One trimmed line; [None] is [goto fail]. *)
Definition genesis_line (g : ac_genesis_t) (s : list byte) : option ac_genesis_t :=
  match s with
  | [] => Some g
  | c :: _ =>
      if bool_decide (c = x23) then Some g
      else if prefix_of (str "chain_id") s then
        v ← scan_setting s; Some (mkGenesis v (g_timestamp_ms g) (g_accounts g))
      else if prefix_of (str "timestamp_ms") s then
        v ← scan_setting s; Some (mkGenesis (g_chain_id g) v (g_accounts g))
      else if prefix_of (str "account") s then
        '(hex, bal, stk) ← scan_account s;
        a ← ac_hex_decode AC_PUBKEY_SIZE hex;
        Some (mkGenesis (g_chain_id g) (g_timestamp_ms g) (g_accounts g ++ [mkGenAcc (bytes_of 32 a) bal stk]))
      else if prefix_of (str "name") s then Some g
      else None
  end.

(** The lines of the file; a file of [n] characters has at most [n] lines. *)
Fixpoint genesis_lines (fuel : nat) (l : list byte) (g : ac_genesis_t) : option ac_genesis_t :=
  match fuel, l with
  | S f, _ :: _ =>
      let '(line, rest) := fgets l 511 in
      g ← genesis_line g (trim (cstr line)); genesis_lines f rest g
  | _, _ => Some g
  end.
Definition ac_node_load_genesis (file : list byte) : option ac_genesis_t :=
  g ← genesis_lines (length file) file (mkGenesis 0 0 []);
  if (g_chain_id g =? 0) || (g_timestamp_ms g =? 0) then None else Some g.

(** ** Writing a genesis file *)

Abbreviation argv_t := (list (list byte)).
(** The value after the first occurrence of an option; [argv] starts with the command. *)
Fixpoint find_opt (l : argv_t) (name : list byte) : option (list byte) :=
  match l with
  | x :: (y :: _) as l' => if bool_decide (x = name) then Some y else find_opt l' name
  | _ => None
  end.
Definition get_opt (argv : argv_t) (name : list byte) : option (list byte) := find_opt (drop 1 argv) name.
Definition has_flag (argv : argv_t) (name : list byte) : bool := bool_decide (name ∈ drop 1 argv).

(** [sscanf(spec, "%127[^:]:%lu:%lu", ...) == 3]. *)
Fixpoint scan_field (l : list byte) (room : nat) : list byte * list byte :=
  match l, room with
  | c :: l', S r => if bool_decide (c = x3a) then ([], l) else let '(x, y) := scan_field l' r in (c :: x, y)
  | _, _ => ([], l)
  end.
Definition scan_spec (s : list byte) : option (list byte * Z * Z) :=
  match scan_field s 127 with
  | (c :: hex, x3a :: s) =>
      match scan_number s with
      | Some (n1, bal, x3a :: s) =>
          match scan_number s with
          | Some (n2, stk, _) => Some (c :: hex, u64_of_scan n1 bal, u64_of_scan n2 stk)
          | None => None
          end
      | _ => None
      end
  | _ => None
  end.

Definition genesis_account_line (a : list byte * Z * Z) : list byte :=
  str "account " ++ a.1.1 ++ str " " ++ dec a.1.2 ++ str " " ++ dec a.2 ++ [x0a].
Definition genesis_prologue (cid ts : Z) : list byte :=
  str "# AgentChain genesis configuration" ++ [x0a] ++
  str "chain_id     = " ++ dec cid ++ [x0a] ++
  str "timestamp_ms = " ++ dec ts ++ [x0a; x0a].
(** The account arguments, up to the first bad one: what is written and whether all
    were good. *)
Fixpoint genesis_specs (l : argv_t) : list byte * bool :=
  match l with
  | x :: (y :: _) as l' =>
      if bool_decide (x = str "--account") then
        match scan_spec y with
        | None => ([], false)
        | Some a => let '(out, ok) := genesis_specs l' in (genesis_account_line a ++ out, ok)
        end
      else genesis_specs l'
  | _ => ([], true)
  end.
(** The exit code and the file written; [open_ok] is whether it can be opened. *)
Definition cmd_genesis (argv : argv_t) (now : Z) (open_ok : bool) : Z * option (list byte) :=
  if has_flag argv (str "--help") || has_flag argv (str "-h") then (0, None)
  else
    match get_opt argv (str "--chain-id"), get_opt argv (str "--out") with
    | Some cid_s, Some _ =>
        let ts := match get_opt argv (str "--timestamp-ms") with Some s => strtoull s | None => now end in
        if negb open_ok then (1, None)
        else
        let '(out, ok) := genesis_specs (drop 1 argv) in
        (if ok then 0 else 2, Some (genesis_prologue (strtoull cid_s) ts ++ out))
    | _, _ => (2, None)
    end.

(** ** Facts *)

Section KeyFacts.
Context `{!Sodium} `{!SodiumLaws _}.

Lemma key_load_bytes seed : key_load (key_bytes (ac_keypair_from_seed seed)) = Some (ac_keypair_from_seed seed).
Proof.
  set (k := ac_keypair_from_seed seed).
  assert (length (key_bytes k) = 76)%nat as Hl by (unfold key_bytes; by rewrite !length_app, !b_length).
  assert (b (ac_keypair_seed k) = b seed) as Hseed by (unfold k; by rewrite ac_keypair_seed_from).
  unfold key_load. rewrite Hl. cbn [Nat.ltb Nat.leb].
  replace (memcmp (key_bytes k) KEY_MAGIC 11) with Eq by done. cbn [is_eq negb].
  replace (at_ (key_bytes k) 11 =? KEY_VERSION) with true by done. cbn [negb].
  pose proof (slice_app_mid (KEY_MAGIC ++ [byte_of 1] ++ b (pk k)) (b (ac_keypair_seed k)) []) as S1.
  pose proof (slice_app_mid (KEY_MAGIC ++ [byte_of 1]) (b (pk k)) (b (ac_keypair_seed k))) as S2.
  replace (length (KEY_MAGIC ++ [byte_of 1] ++ b (pk k))) with 44%nat in S1 by (by rewrite !length_app, b_length).
  rewrite b_length, app_nil_r, <- !app_assoc in S1. rewrite b_length, <- !app_assoc in S2.
  unfold key_bytes. change (length (KEY_MAGIC ++ [byte_of 1])) with 12%nat in S2. rewrite S1, S2, Hseed, bytes_of_b.
  fold k. by rewrite (cmp_refl (λ x y : bytes 32, memcmp (b x) (b y) 32)).
Qed.

(** Keys survive a restart: the file written for a fresh key pair loads to that pair, and
    is then left alone; a file is only ever loaded to a pair whose public key it names. *)
Theorem key_file_roundtrip seed seed' ok file kp :
  let '(r, f) := ac_node_keypair_load_or_create None seed true in
  r = Some (ac_keypair_from_seed seed, true) ∧
  ac_node_keypair_load_or_create f seed' ok = (Some (ac_keypair_from_seed seed, false), f) ∧
  (key_load file = Some kp → b (pk kp) = slice file 12 32 ∧ kp = ac_keypair_from_seed (bytes_of 32 (slice file 44 32))).
Proof.
  cbn [ac_node_keypair_load_or_create]. rewrite key_load_bytes. split; [done|]. split; [done|].
  unfold key_load. destruct (_ <? _)%nat eqn:El; [done|]. destruct (negb _); [done|]. destruct (negb _); [done|].
  destruct (negb _) eqn:E; [done|]. intros [= <-]. split; [|done].
  apply negb_false_iff in E. apply Nat.ltb_ge in El.
  assert (length (slice file 12 32) = 32)%nat as Hs by (apply slice_length; lia).
  rewrite memcmp_lex in E by (done || apply b_length). destruct (lex_cmp _ _) eqn:Ec; [|done|done].
  by apply (cmp_eq lex_cmp) in Ec.
Qed.
End KeyFacts.

Lemma key_file_roundtrip_witness :
  @key_load toy_sodium (key_bytes (@ac_keypair_from_seed toy_sodium (zeros 32))) =
    Some (@ac_keypair_from_seed toy_sodium (zeros 32)).
Proof.
  destruct (@key_file_roundtrip toy_sodium _ (zeros 32) (zeros 32) true [] (mkKeypair (zeros 32) (zeros 64))) as (_ & E & _).
  cbn [ac_node_keypair_load_or_create] in E. destruct (@key_load toy_sodium _); congruence.
Defined.

(** ** Reading back a written genesis file *)

Definition line_text (l : list byte) : Prop := Forall (λ c, c ≠ x0a ∧ c ≠ x00) l.

Lemma fgets_line l rest room : line_text l → (length l < room)%nat →
  fgets (l ++ x0a :: rest) room = (l ++ [x0a], rest).
Proof.
  intros Hl. revert room. induction Hl as [|c l [Hc _] _ IH]; intros [|room] Hr; cbn in *; try lia; [done|].
  rewrite bool_decide_false by done. rewrite IH by lia. done.
Qed.

Lemma trim_line c l d : is_blank c = false → is_line_end d = false → trim (c :: l ++ [d; x0a]) = c :: l ++ [d].
Proof.
  intros Hc Hd. unfold trim. rewrite skip_while_stop by done.
  change (c :: l ++ [d; x0a]) with ((c :: l) ++ [d] ++ [x0a]). rewrite !reverse_app.
  change (reverse [x0a]) with [x0a]. change (reverse [d]) with [d].
  replace (skip_while is_line_end (([x0a] ++ [d]) ++ reverse (c :: l))) with (d :: reverse (c :: l)) by (cbn; by rewrite Hd).
  rewrite reverse_cons, reverse_involutive. done.
Qed.

Lemma genesis_lines_step f l rest g : line_text l → (length l < 511)%nat → (0 < f)%nat →
  genesis_lines f (l ++ x0a :: rest) g = g' ← genesis_line g (trim (l ++ [x0a])); genesis_lines (pred f) rest g'.
Proof.
  intros Hl Hn Hf. destruct f as [|f]; [lia|]. cbn [genesis_lines pred].
  destruct (l ++ x0a :: rest) as [|c x] eqn:E; [by destruct l|]. rewrite <- E.
  rewrite fgets_line by done. rewrite cstr_id; [done|].
  rewrite not_elem_of_app, list_elem_of_singleton. split; [|done]. intros Hz.
  unfold line_text in Hl. rewrite Forall_forall in Hl. by destruct (Hl _ Hz).
Qed.

(** The file as lines. *)
Definition unlines (ls : list (list byte)) : list byte := ls ≫= λ l, l ++ [x0a].
Fixpoint run_lines (ls : list (list byte)) (g : ac_genesis_t) : option ac_genesis_t :=
  match ls with
  | [] => Some g
  | l :: ls' => g ← genesis_line g (trim (l ++ [x0a])); run_lines ls' g
  end.

Lemma genesis_lines_unlines ls f g : Forall (λ l, line_text l ∧ (length l < 511)%nat) ls → (length ls <= f)%nat →
  genesis_lines f (unlines ls) g = run_lines ls g.
Proof.
  intros Hl. revert f g. induction Hl as [|l ls [H1 H2] _ IH]; intros f g Hf; [by destruct f|].
  assert (unlines (l :: ls) = l ++ x0a :: unlines ls) as -> by (unfold unlines; cbn; by rewrite <- app_assoc).
  cbn [length] in Hf. rewrite genesis_lines_step by (done || lia). cbn [run_lines].
  destruct (genesis_line _ _) as [g'|]; [|done]. cbn. apply IH. lia.
Qed.

Lemma hex_line_text l : Forall (λ c, is_hex c = true) l → line_text l.
Proof. intros H. eapply Forall_impl; [done|]. intros c (H1 & H2 & _)%hex_char. done. Qed.
Lemma line_text_app l x : line_text l → line_text x → line_text (l ++ x).
Proof. apply Forall_app_2. Qed.

(** The lines of a genesis file. *)
Definition genesis_account (a : ac_genesis_account_t) : list byte * Z * Z :=
  (ac_hex_encode (b (ga_addr a)), ga_balance a, ga_stake a).
Definition account_text (a : ac_genesis_account_t) : list byte :=
  str "account " ++ ac_hex_encode (b (ga_addr a)) ++ str " " ++ dec (ga_balance a) ++ str " " ++ dec (ga_stake a).
Definition genesis_text (cid ts : Z) (accs : list ac_genesis_account_t) : list (list byte) :=
  [str "# AgentChain genesis configuration"; str "chain_id     = " ++ dec cid; str "timestamp_ms = " ++ dec ts; []] ++
  (account_text <$> accs).
Definition gen_account_wf (a : ac_genesis_account_t) : Prop := is_u64 (ga_balance a) ∧ is_u64 (ga_stake a).

Lemma genesis_text_file cid ts accs :
  genesis_prologue cid ts ++ ((genesis_account <$> accs) ≫= genesis_account_line) = unlines (genesis_text cid ts accs).
Proof.
  unfold genesis_text, unlines. rewrite bind_app. f_equal.
  - unfold genesis_prologue. cbn [mbind list_bind]. by rewrite <- !app_assoc.
  - induction accs as [|a accs IH]; [done|]. cbn [fmap list_fmap mbind list_bind]. f_equal; [|apply IH].
    unfold genesis_account_line, account_text, genesis_account. cbn [fst snd]. by rewrite <- !app_assoc.
Qed.

Lemma genesis_text_lines cid ts accs : is_u64 cid → is_u64 ts → Forall gen_account_wf accs →
  Forall (λ l, line_text l ∧ (length l < 511)%nat) (genesis_text cid ts accs).
Proof.
  intros Hc Ht Ha. pose proof (dec_spec cid Hc) as (_ & _ & _ & Lc). pose proof (dec_spec ts Ht) as (_ & _ & _ & Lt).
  assert (∀ l, bool_decide ((x0a ∉ l) ∧ (x00 ∉ l)) = true → line_text l) as Hlit.
  { intros l [H1 H2]%bool_decide_eq_true. unfold line_text. apply Forall_forall. intros c Hin. split; by intros ->. }
  apply Forall_app. split; [|apply Forall_fmap; eapply Forall_impl; [done|]].
  - constructor; [split; [by apply Hlit | cbn; lia]|].
    constructor; [split; [apply line_text_app; [by apply Hlit | by apply hex_line_text, dec_text] | rewrite length_app; cbn; lia]|].
    constructor; [split; [apply line_text_app; [by apply Hlit | by apply hex_line_text, dec_text] | rewrite length_app; cbn; lia]|].
    constructor; [split; [by apply Hlit | cbn; lia]|constructor].
  - intros a [Hb Hs]. pose proof (dec_spec _ Hb) as (_ & _ & _ & Lb). pose proof (dec_spec _ Hs) as (_ & _ & _ & Ls).
    cbn beta. unfold account_text. split.
    + repeat (apply line_text_app; [solve [by apply Hlit | by apply hex_line_text, hex_text | by apply hex_line_text, dec_text]|]).
      by apply hex_line_text, dec_text.
    + rewrite !length_app, ac_hex_encode_length, b_length. cbn. lia.
Qed.

Lemma hex_not_blank c : is_hex c = true → is_line_end c = false ∧ is_blank c = false.
Proof. destruct c; vm_compute; intros; try congruence; done. Qed.

(** A line that starts and ends with text is trimmed to itself. *)
Lemma trim_text c l x : is_blank c = false → x ≠ [] → Forall (λ c, is_hex c = true) x →
  trim ((c :: l ++ x) ++ [x0a]) = c :: l ++ x.
Proof.
  intros Hc Hx Hh. destruct x as [|d x _] using rev_ind; [done|]. apply Forall_app in Hh as [_ Hh%Forall_inv].
  pose proof (trim_line c (l ++ x) d Hc (proj1 (hex_not_blank d Hh))) as E.
  rewrite <- !app_assoc in E. rewrite <- app_comm_cons, <- !app_assoc. exact E.
Qed.

Lemma scan_word_text l rest room : Forall (λ c, is_hex c = true) l → (length l <= room)%nat →
  scan_word (l ++ x20 :: rest) room = (l, x20 :: rest).
Proof.
  intros Hl. revert room. induction Hl as [|c l Hc _ IH]; intros room Hr; [by destruct room|].
  destruct room as [|room]; [cbn in Hr; lia|]. cbn. destruct (hex_char c Hc) as (_ & _ & _ & _ & -> & _).
  rewrite IH by (cbn in Hr; lia). done.
Qed.

Lemma strchr_skip l c x : (c ∉ l) → strchr (l ++ c :: x) c = Some (c :: x).
Proof.
  induction l as [|d l IH]; cbn; [by rewrite bool_decide_true|]. rewrite not_elem_of_cons. intros [Hd Hl].
  rewrite bool_decide_false by done. auto.
Qed.

Lemma scan_account_text a : gen_account_wf a →
  scan_account (account_text a) = Some (ac_hex_encode (b (ga_addr a)), ga_balance a, ga_stake a).
Proof.
  intros [Hb Hs]. unfold scan_account, account_text. pose proof (hex_text (b (ga_addr a))) as Hh.
  set (h := ac_hex_encode (b (ga_addr a))) in *.
  assert (length h = 64)%nat as Lh by (unfold h; by rewrite ac_hex_encode_length, b_length).
  change (drop 7 (str "account " ++ ?x)) with (x20 :: x).
  replace (skip_while isspace _) with (h ++ x20 :: dec (ga_balance a) ++ str " " ++ dec (ga_stake a)).
  2:{ cbn [skip_while]. destruct h as [|c h']; [done|]. inversion_clear Hh as [|? ? Hc _].
      destruct (hex_char c Hc) as (_ & _ & _ & _ & Hsp & _). cbn. by rewrite Hsp. }
  rewrite scan_word_text by (done || lia). destruct h as [|c h'] eqn:E; [done|]. rewrite <- E.
  pose proof (scan_number_dec [x20] (ga_balance a) (str " " ++ dec (ga_stake a)) ltac:(by repeat constructor) Hb
                ltac:(by apply no_digit_cons)) as S1. cbn [app] in S1. rewrite S1.
  pose proof (scan_number_dec [x20] (ga_stake a) [] ltac:(by repeat constructor) Hs eq_refl) as S2.
  rewrite app_nil_r in S2. cbn [app] in S2. change (str " " ++ dec (ga_stake a)) with (x20 :: dec (ga_stake a)). rewrite S2.
  by rewrite !u64_of_scan_id.
Qed.

Lemma genesis_line_setting name g v : is_u64 v → name = str "chain_id" ∨ name = str "timestamp_ms" →
  ∀ sp, sp = str "     = " ∨ sp = str " = " →
  genesis_line g (trim ((name ++ sp ++ dec v) ++ [x0a])) =
    Some (if bool_decide (name = str "chain_id") then mkGenesis v (g_timestamp_ms g) (g_accounts g)
          else mkGenesis (g_chain_id g) v (g_accounts g)).
Proof.
  intros Hv Hn sp Hsp. pose proof (dec_text v Hv) as Hd. pose proof (dec_spec v Hv) as (_ & Hne & _).
  pose proof (strtoull_dec [x20] v [] ltac:(by repeat constructor) Hv eq_refl) as Hs. rewrite app_nil_r in Hs. cbn [app] in Hs.
  assert (∀ c l, is_blank c = false → trim (((c :: l) ++ sp ++ dec v) ++ [x0a]) = (c :: l) ++ sp ++ dec v) as Ht.
  { intros c l Hc. pose proof (trim_text c (l ++ sp) (dec v) Hc Hne Hd) as E. rewrite <- !app_assoc in E.
    cbn [app] in E |- *. rewrite <- !app_assoc in E |- *. exact E. }
  pose proof (Ht x63 (str "hain_id") eq_refl) as H1. pose proof (Ht x74 (str "imestamp_ms") eq_refl) as H2.
  change (x63 :: str "hain_id") with (str "chain_id") in H1. change (x74 :: str "imestamp_ms") with (str "timestamp_ms") in H2.
  destruct Hn as [-> | ->]; [rewrite H1; rewrite <- Hs at 2 | rewrite H2; rewrite <- Hs at 3];
    destruct Hsp as [-> | ->]; reflexivity.
Qed.

Lemma genesis_line_account g a : gen_account_wf a →
  genesis_line g (trim (account_text a ++ [x0a])) =
    Some (mkGenesis (g_chain_id g) (g_timestamp_ms g) (g_accounts g ++ [a])).
Proof.
  intros Ha. pose proof (scan_account_text a Ha) as Hs. destruct Ha as [Hb Hst].
  pose proof (dec_text _ Hst) as Hd. pose proof (dec_spec _ Hst) as (_ & Hne & _).
  assert (trim (account_text a ++ [x0a]) = account_text a) as ->.
  { unfold account_text at 1 2. set (m := ac_hex_encode (b (ga_addr a)) ++ str " " ++ dec (ga_balance a) ++ str " ").
    pose proof (trim_text x61 (str "ccount " ++ m) (dec (ga_stake a)) eq_refl Hne Hd) as E.
    unfold m in E. rewrite <- ?app_assoc in E. exact E. }
  unfold genesis_line. change (account_text a) with (x61 :: (tail (account_text a))) at 1.
  replace (prefix_of (str "chain_id") (account_text a)) with false by done.
  replace (prefix_of (str "timestamp_ms") (account_text a)) with false by done.
  replace (prefix_of (str "account") (account_text a)) with true by done.
  cbn match. cbn [bool_decide]. rewrite Hs. cbn [mbind option_bind].
  pose proof (ac_hex_decode_encode (b (ga_addr a))) as Hx. rewrite b_length in Hx. rewrite Hx. cbn [mbind option_bind].
  rewrite bytes_of_b. by destruct a.
Qed.

(** The text the tool writes, read by the node. *)
Lemma genesis_loads cid ts accs :
  is_u64 cid → is_u64 ts → cid ≠ 0 → ts ≠ 0 → Forall gen_account_wf accs →
  ac_node_load_genesis (genesis_prologue cid ts ++ ((genesis_account <$> accs) ≫= genesis_account_line)) =
    Some (mkGenesis cid ts accs).
Proof.
  intros Hc Ht Hc0 Ht0 Ha. unfold ac_node_load_genesis. rewrite genesis_text_file.
  assert (∀ ls, length ls <= length (unlines ls))%nat as Hlen.
  { induction ls as [|l ls IH]; [done|]. unfold unlines in *. cbn. rewrite !length_app. cbn. lia. }
  rewrite genesis_lines_unlines by (by apply genesis_text_lines || apply Hlen).
  assert (run_lines (genesis_text cid ts accs) (mkGenesis 0 0 []) = Some (mkGenesis cid ts accs)) as ->.
  { unfold genesis_text. cbn [app run_lines].
    replace (genesis_line (mkGenesis 0 0 []) (trim (str "# AgentChain genesis configuration" ++ [x0a]))) with (Some (mkGenesis 0 0 [])) by done.
    cbn [mbind option_bind].
    pose proof (genesis_line_setting (str "chain_id") (mkGenesis 0 0 []) cid Hc (or_introl eq_refl) (str "     = ") (or_introl eq_refl)) as E1.
    pose proof (genesis_line_setting (str "timestamp_ms") (mkGenesis cid 0 []) ts Ht (or_intror eq_refl) (str " = ") (or_intror eq_refl)) as E2.
    rewrite bool_decide_true in E1 by done. rewrite bool_decide_false in E2 by done. rewrite app_assoc in E1, E2.
    change (str "chain_id" ++ str "     = ") with (str "chain_id     = ") in E1.
    change (str "timestamp_ms" ++ str " = ") with (str "timestamp_ms = ") in E2.
    cbn [g_timestamp_ms g_accounts g_chain_id] in E1, E2. rewrite E1. cbn [mbind option_bind]. rewrite E2. cbn [mbind option_bind].
    replace (genesis_line (mkGenesis cid ts []) (trim ([] ++ [x0a]))) with (Some (mkGenesis cid ts [])) by done.
    cbn [mbind option_bind].
    assert (∀ l pre, Forall gen_account_wf l → run_lines (account_text <$> l) (mkGenesis cid ts pre) = Some (mkGenesis cid ts (pre ++ l))) as Hrun.
    { induction l as [|a l IH]; intros pre Hl; [by rewrite app_nil_r|]. inversion_clear Hl.
      cbn [fmap list_fmap run_lines]. rewrite genesis_line_account by done. cbn [mbind option_bind g_chain_id g_timestamp_ms g_accounts].
      rewrite IH by done. by rewrite <- app_assoc. }
    exact (Hrun accs [] Ha). }
  cbn [mbind option_bind g_chain_id g_timestamp_ms].
  destruct (Z.eqb_spec cid 0), (Z.eqb_spec ts 0); done.
Qed.

(** ** The tool *)

Lemma scan_field_app x y room : x3a ∉ x → (length x <= room)%nat → scan_field (x ++ x3a :: y) room = (x, x3a :: y).
Proof.
  revert room. induction x as [|c x IH]; intros room Hx Hl; [by destruct room|]. destruct room as [|room]; [cbn in Hl; lia|].
  rewrite not_elem_of_cons in Hx. destruct Hx as [Hc Hx]. cbn. rewrite bool_decide_false by done.
  by rewrite IH by (done || cbn in Hl; lia).
Qed.

(** An account as given on the command line. *)
Definition account_spec (a : ac_genesis_account_t) : list byte :=
  ac_hex_encode (b (ga_addr a)) ++ x3a :: dec (ga_balance a) ++ x3a :: dec (ga_stake a).
Lemma scan_account_spec a : gen_account_wf a → scan_spec (account_spec a) = Some (genesis_account a).
Proof.
  intros [Hb Hs]. pose proof (hex_text (b (ga_addr a))) as Hh. pose proof (ac_hex_encode_length (b (ga_addr a))) as Hl.
  rewrite b_length in Hl. unfold scan_spec, account_spec. rewrite scan_field_app; [| |lia].
  2:{ intros Hin. rewrite Forall_forall in Hh. by specialize (Hh _ Hin). }
  destruct (ac_hex_encode (b (ga_addr a))) as [|c h] eqn:E; [done|].
  pose proof (scan_number_dec [] (ga_balance a) (x3a :: dec (ga_stake a)) ltac:(constructor) Hb eq_refl) as E1.
  pose proof (scan_number_dec [] (ga_stake a) [] ltac:(constructor) Hs eq_refl) as E2. rewrite app_nil_r in E2.
  cbn [app] in E1, E2. rewrite E1, E2, !u64_of_scan_id by done. unfold genesis_account. by rewrite E.
Qed.

(** A command line of the tool. *)
Definition genesis_args (cid ts : Z) (path : list byte) (accs : list ac_genesis_account_t) : argv_t :=
  [str "genesis"; str "--chain-id"; dec cid; str "--timestamp-ms"; dec ts; str "--out"; path] ++
  (accs ≫= λ a, [str "--account"; account_spec a]).
(** Text that is not taken for an option. *)
Definition not_option (x : list byte) : Prop := head x ≠ Some x2d.
Lemma not_option_ne x s : not_option x → head (str s) = Some x2d → x ≠ str s.
Proof. intros Hx Hs ->. done. Qed.
Lemma dec_not_option z : is_u64 z → not_option (dec z).
Proof. intros Hz. destruct (dec_first z Hz) as (c & l & -> & Hc). intros [= ->]. done. Qed.
Lemma spec_not_option a : not_option (account_spec a).
Proof.
  unfold account_spec. pose proof (hex_text (b (ga_addr a))) as Hh. pose proof (ac_hex_encode_length (b (ga_addr a))) as Hl.
  rewrite b_length in Hl. destruct (ac_hex_encode _) as [|c h]; [done|]. intros [= ->]. by apply Forall_inv in Hh.
Qed.

Lemma find_opt_here x y l : find_opt (x :: y :: l) x = Some y.
Proof. cbn. by rewrite bool_decide_true. Qed.
Lemma find_opt_skip x y l s : x ≠ s → find_opt (x :: y :: l) s = find_opt (y :: l) s.
Proof. intros Hx. change (find_opt (x :: y :: l) s) with (if bool_decide (x = s) then Some y else find_opt (y :: l) s). by rewrite bool_decide_false. Qed.
Lemma genesis_specs_skip x l : x ≠ str "--account" → genesis_specs (x :: l) = genesis_specs l.
Proof.
  intros Hx. destruct l as [|y l]; [done|].
  change (genesis_specs (x :: y :: l)) with
    (if bool_decide (x = str "--account") then
       match scan_spec y with None => ([], false) | Some a => let '(out, ok) := genesis_specs (y :: l) in (genesis_account_line a ++ out, ok) end
     else genesis_specs (y :: l)).
  by rewrite bool_decide_false.
Qed.
Lemma genesis_specs_account y l : genesis_specs (str "--account" :: y :: l) =
  match scan_spec y with None => ([], false) | Some a => let '(out, ok) := genesis_specs (y :: l) in (genesis_account_line a ++ out, ok) end.
Proof. done. Qed.

Lemma genesis_specs_accounts accs : Forall gen_account_wf accs →
  genesis_specs (accs ≫= λ a, [str "--account"; account_spec a]) = ((genesis_account <$> accs) ≫= genesis_account_line, true).
Proof.
  intros Ha. induction Ha as [|a accs Ha _ IH]; [done|]. rewrite bind_cons, fmap_cons, bind_cons. cbn [app].
  rewrite genesis_specs_account, scan_account_spec, genesis_specs_skip, IH; [done| |done].
  apply not_option_ne; [apply spec_not_option | done].
Qed.

Lemma genesis_args_flag cid ts path accs s : is_u64 cid → is_u64 ts → not_option path → head (str s) = Some x2d →
  str s ∉ [str "--chain-id"; str "--timestamp-ms"; str "--out"; str "--account"] →
  has_flag (genesis_args cid ts path accs) (str s) = false.
Proof.
  intros Hc Ht Hp Hs Hn. unfold has_flag, genesis_args. cbn [app drop]. apply bool_decide_false. intros Hin.
  repeat rewrite elem_of_cons in Hin. repeat rewrite elem_of_cons in Hn.
  pose proof (not_option_ne _ s (dec_not_option cid Hc) Hs). pose proof (not_option_ne _ s (dec_not_option ts Ht) Hs).
  pose proof (not_option_ne _ s Hp Hs). destruct Hin as [?|[?|[?|[?|[?|[?|Hin]]]]]]; [tauto|congruence|tauto|congruence|tauto|congruence|].
  apply list_elem_of_bind in Hin as (a & Hin & _). repeat rewrite elem_of_cons in Hin.
  pose proof (not_option_ne _ s (spec_not_option a) Hs). destruct Hin as [?|[?|Hin]]; [tauto|congruence|by apply elem_of_nil in Hin].
Qed.

(** The genesis tool and the node agree: for any non-zero chain id and time, accounts
    and output path given on its command line, the tool exits with 0 and the file it writes
    is read by the node as exactly that chain id, time and list of accounts. *)
Theorem genesis_file_roundtrip cid ts path accs now :
  is_u64 cid → is_u64 ts → cid ≠ 0 → ts ≠ 0 → not_option path → Forall gen_account_wf accs →
  ∃ file, cmd_genesis (genesis_args cid ts path accs) now true = (0, Some file) ∧
    ac_node_load_genesis file = Some (mkGenesis cid ts accs).
Proof.
  intros Hc Ht Hc0 Ht0 Hp Ha. eexists. split; [|by apply (genesis_loads cid ts accs)].
  unfold cmd_genesis. rewrite !genesis_args_flag by (done || by apply (bool_decide_unpack _); vm_compute). cbn [orb].
  unfold get_opt, genesis_args. cbn [app drop].
  pose proof (strtoull_dec [] cid [] ltac:(constructor) Hc eq_refl) as Ec. pose proof (strtoull_dec [] ts [] ltac:(constructor) Ht eq_refl) as Et.
  rewrite app_nil_r in Ec, Et. cbn [app] in Ec, Et.
  pose proof (λ s, not_option_ne _ s (dec_not_option cid Hc)) as Nc. pose proof (λ s, not_option_ne _ s (dec_not_option ts Ht)) as Nt.
  pose proof (λ s, not_option_ne _ s Hp) as Np.
  rewrite find_opt_here, !(find_opt_skip (str "--chain-id")), !(find_opt_skip (dec cid)), (find_opt_here (str "--timestamp-ms")),
    (find_opt_skip (str "--timestamp-ms")), (find_opt_skip (dec ts)), find_opt_here, Ec, Et by (done || by apply Nc || by apply Nt).
  cbn [negb]. rewrite !genesis_specs_skip by (done || by apply Nc || by apply Nt || by apply Np).
  by rewrite genesis_specs_accounts.
Qed.

(** The genesis of the main network, as embedded in [mainnet.h]. *)
Definition AC_MAINNET_GENESIS : list byte :=
  str "# AgentChain genesis configuration" ++ [x0a] ++
  str "chain_id     = 1" ++ [x0a] ++
  str "timestamp_ms = 1779397200000" ++ [x0a] ++ [x0a] ++
  str "account 4bfe9fb5ea49f00bf3c78fb9e979223ee5fa630743befc5c1f5686ac923bf79a 39997000000000 1000000000" ++ [x0a] ++
  str "account 69f02a87d94d8e1ba76ea4ee374b5358ea4782d6f4249fbd8731e9b4ac863a9e 500000000 500000000" ++ [x0a] ++
  str "account 89dfe243a931659dd4f0d71b68110711262af7dcb58a053a9e9135ea454fa4fd 500000000 500000000" ++ [x0a].
Definition mainnet_account (hex : list byte) (balance stake : Z) : ac_genesis_account_t :=
  mkGenAcc (bytes_of 32 (default [] (ac_hex_decode 32 hex))) balance stake.
Definition mainnet_accounts : list ac_genesis_account_t :=
  [mainnet_account (str "4bfe9fb5ea49f00bf3c78fb9e979223ee5fa630743befc5c1f5686ac923bf79a") 39997000000000 1000000000;
   mainnet_account (str "69f02a87d94d8e1ba76ea4ee374b5358ea4782d6f4249fbd8731e9b4ac863a9e") 500000000 500000000;
   mainnet_account (str "89dfe243a931659dd4f0d71b68110711262af7dcb58a053a9e9135ea454fa4fd") 500000000 500000000].

(** The embedded text is what the tool writes for those accounts, so it is read as them. *)
Lemma genesis_file_roundtrip_witness :
  cmd_genesis (genesis_args 1 1779397200000 (str "genesis.txt") mainnet_accounts) 0 true = (0, Some AC_MAINNET_GENESIS) ∧
  ac_node_load_genesis AC_MAINNET_GENESIS = Some (mkGenesis 1 1779397200000 mainnet_accounts).
Proof.
  destruct (genesis_file_roundtrip 1 1779397200000 (str "genesis.txt") mainnet_accounts 0) as (file & E & L);
    [by split | by split | done | done | discriminate | repeat constructor; by vm_compute|].
  assert (cmd_genesis (genesis_args 1 1779397200000 (str "genesis.txt") mainnet_accounts) 0 true = (0, Some AC_MAINNET_GENESIS)) as E'
    by (vm_compute; reflexivity).
  split; [exact E'|]. rewrite E in E'. injection E' as <-. exact L.
Defined.
