(* ===== verification/Platform.v ===== *)
(** * common.c, portable.h, crypto.c: clock, sleeping, logging and random numbers

    The thin layer over the operating system, with what its calls return as inputs: the
    millisecond clock, the two versions of sleeping, the log on standard error and the
    wrappers of the random generator. *)

From S2P Require Import Prelude Common Crypto Cursor Codec SortedArray State Apply Mempool Econ Chain Accept Ledger Consensus ConsensusFacts Slots Text Net Config.

(** ** Time *)

(** [clock_gettime]: seconds and nanoseconds, or a failure. *)
Definition timespec_t : Type := Z * Z.
Definition timespec_ok (ts : timespec_t) : Prop := 0 <= ts.1 ∧ 0 <= ts.2 < 1000000000.
Definition ac_now_ms (ts : option timespec_t) : Z :=
  match ts with
  | None => 0
  | Some (sec, nsec) => (u64 sec ⊗ 1000) ⊕ u64 (Z.quot nsec 1000000)
  end.

(** What [nanosleep] is asked for. *)
Definition ac_os_sleep_ms (ms : Z) : timespec_t := (ms / 1000, (ms mod 1000) * 1000000).
(** The Windows version: a 32-bit argument. *)
Definition ac_os_sleep_ms_win32 (ms : Z) : Z := u32 ms.
Definition ac_sleep_ms (ms : Z) : timespec_t := ac_os_sleep_ms ms.

Definition nanos (ts : timespec_t) : Z := ts.1 * 1000000000 + ts.2.

(** The clock rounds down to the millisecond, so it never runs backwards when the
    system's does not; it is 0 only when the call fails or in the first millisecond. *)
Lemma ac_now_ms_spec ts : timespec_ok ts → nanos ts < U64 * 1000000 → ac_now_ms (Some ts) = nanos ts / 1000000.
Proof.
  destruct ts as [sec nsec]. unfold timespec_ok, nanos, ac_now_ms. cbn [fst snd]. intros [Hs Hn] Hu.
  assert (sec < U64 / 1000 + 1) as Hs' by (apply Z.lt_succ_r, Z.div_le_lower_bound; lia).
  rewrite Z.quot_div_nonneg by lia. pose proof (Z.div_mod nsec 1000000 ltac:(lia)). pose proof (Z.mod_pos_bound nsec 1000000 ltac:(lia)).
  assert ((sec * 1000000000 + nsec) / 1000000 = sec * 1000 + nsec / 1000000) as E.
  { replace (sec * 1000000000 + nsec) with (nsec + sec * 1000 * 1000000) by lia. rewrite Z.div_add by lia. lia. }
  assert ((sec * 1000000000 + nsec) / 1000000 < U64) by (apply Z.div_lt_upper_bound; lia).
  rewrite E in *. assert (0 <= nsec / 1000000) by (apply Z.div_pos; lia).
  rewrite (u64_id sec), (u64_id (nsec / 1000000)), (u64_id (sec * 1000)), u64_id by (unfold is_u64; lia). done.
Qed.
Lemma ac_now_ms_mono ts ts' : timespec_ok ts → timespec_ok ts' → nanos ts <= nanos ts' → nanos ts' < U64 * 1000000 →
  ac_now_ms (Some ts) <= ac_now_ms (Some ts').
Proof. intros H1 H2 Hle Hu. rewrite !ac_now_ms_spec by (done || lia). apply Z.div_le_mono; lia. Qed.

(** The request is valid for [nanosleep] and exact. *)
Lemma ac_sleep_ms_spec ms : is_u64 ms → timespec_ok (ac_sleep_ms ms) ∧ nanos (ac_sleep_ms ms) = ms * 1000000.
Proof.
  intros Hm. unfold ac_sleep_ms, ac_os_sleep_ms, timespec_ok, nanos. cbn [fst snd].
  pose proof (Z.div_mod ms 1000 ltac:(lia)). pose proof (Z.mod_pos_bound ms 1000 ltac:(lia)).
  assert (0 <= ms / 1000) by (apply Z.div_pos; unfold is_u64 in Hm; lia). lia.
Qed.
Lemma sleep_win32_spec ms : is_u64 ms → (ac_os_sleep_ms_win32 ms = ms ↔ ms < U32).
Proof. intros Hm. unfold ac_os_sleep_ms_win32. split; intros H; warith. Qed.

(** Before a genesis 50 days ahead the Windows version wakes up 49.7 days early, and the
    timer, which does not read the clock against the genesis again, begins with a slot
    number near 2^64 / 2000. *)
Lemma win32_wakes_before_genesis :
  let genesis := 1779397200000 in let now := genesis - 50 * 86400000 in
  ac_os_sleep_ms_win32 (align_genesis genesis now) < 86400000 ∧
  9000000000000000 < (align_slot genesis (now + ac_os_sleep_ms_win32 (align_genesis genesis now))).1.
Proof. vm_compute. split; reflexivity. Qed.

(** ** The log *)

Inductive ac_log_level_t := AC_LOG_ERROR | AC_LOG_WARN | AC_LOG_INFO | AC_LOG_DEBUG.
Definition level_num (l : ac_log_level_t) : Z :=
  match l with AC_LOG_ERROR => 0 | AC_LOG_WARN => 1 | AC_LOG_INFO => 2 | AC_LOG_DEBUG => 3 end.
Definition LEVEL_NAME (l : ac_log_level_t) : list byte :=
  match l with AC_LOG_ERROR => str "ERROR" | AC_LOG_WARN => str "WARN " | AC_LOG_INFO => str "INFO " | AC_LOG_DEBUG => str "DEBUG" end.
Definition LEVEL_COLOR (l : ac_log_level_t) : list byte :=
  x1b :: match l with AC_LOG_ERROR => str "[31m" | AC_LOG_WARN => str "[33m" | AC_LOG_INFO => str "[32m" | AC_LOG_DEBUG => str "[36m" end.

(** [%03ld] and [%-7s]. *)
Definition dec3 (z : Z) : list byte := replicate (3 - length (dec z)) x30 ++ dec z.
Definition left7 (l : list byte) : list byte := l ++ replicate (7 - length l) x20.

(** A call: its level, the time as formatted with the nanoseconds, module and message. *)
Record log_call := mkCall { lc_level : ac_log_level_t; lc_time : list byte; lc_nsec : Z; lc_module : list byte; lc_msg : list byte }.
Definition log_record (color : bool) (c : log_call) : list byte :=
  (if color then LEVEL_COLOR (lc_level c) else []) ++
  lc_time c ++ str "." ++ dec3 (Z.quot (lc_nsec c) 1000000) ++ str " " ++ LEVEL_NAME (lc_level c) ++ str " " ++
  (if color then x1b :: str "[0m" else []) ++
  str "[" ++ left7 (lc_module c) ++ str "] " ++ lc_msg c ++ [x0a].
(** What one call writes; the mutex makes it one piece. *)
Definition ac_log (color : bool) (LOG_LEVEL : ac_log_level_t) (c : log_call) : list byte :=
  if level_num LOG_LEVEL <? level_num (lc_level c) then [] else log_record color c.
Definition ac_log_init (level : ac_log_level_t) : ac_log_level_t := level.
(** The level of the node command. *)
Definition node_log_level (verbose : bool) : ac_log_level_t := ac_log_init (if verbose then AC_LOG_DEBUG else AC_LOG_INFO).

(** The calls a level lets through, and what a run of calls leaves on standard error. *)
Definition shown (level : ac_log_level_t) (l : list log_call) : list log_call :=
  filter (λ c, level_num (lc_level c) <= level_num level) l.
Lemma ac_log_shown color level l : concat (ac_log color level <$> l) = concat (log_record color <$> shown level l).
Proof.
  induction l as [|c l IH]; [done|]. unfold shown in *. rewrite filter_cons. cbn [fmap list_fmap concat]. rewrite IH. unfold ac_log.
  destruct (Z.ltb_spec (level_num level) (level_num (lc_level c))); case_decide; (lia || done).
Qed.
(** Raising the level only adds records, and keeps their order. *)
Lemma shown_mono level level' l : level_num level <= level_num level' → sublist (shown level l) (shown level' l).
Proof.
  intros Hl. induction l as [|c l IH]; [done|]. unfold shown in *. rewrite !filter_cons.
  repeat case_decide; [by constructor|lia|by constructor|done].
Qed.

Definition lines (l : list byte) : nat := length (filter (λ c, c = x0a) l).
Lemma lines_app l k : lines (l ++ k) = (lines l + lines k)%nat.
Proof. unfold lines. by rewrite filter_app, length_app. Qed.
Lemma lines_none l : x0a ∉ l → lines l = 0%nat.
Proof.
  unfold lines. induction l as [|c l IH]; [done|]. rewrite filter_cons. intros [Hc Hl]%not_elem_of_cons.
  rewrite decide_False by congruence. by apply IH.
Qed.
Lemma lines_dec z : is_u64 z → lines (dec z) = 0%nat.
Proof.
  intros Hz. apply lines_none. destruct (dec_spec z Hz) as [Hd _]. rewrite Forall_forall in Hd. intros Hin%Hd. done.
Qed.
Lemma lines_replicate n c : c ≠ x0a → lines (replicate n c) = 0%nat.
Proof. intros Hc. apply lines_none. intros [E _]%elem_of_replicate. congruence. Qed.

(** One record, one line, when nothing printed into it has a line break. *)
Lemma log_record_line color c : x0a ∉ lc_time c → x0a ∉ lc_module c → 0 <= lc_nsec c < 1000000000 →
  lines (log_record color c) = (1 + lines (lc_msg c))%nat.
Proof.
  intros Ht Hm Hn. assert (is_u64 (Z.quot (lc_nsec c) 1000000)) as Hq.
  { rewrite Z.quot_div_nonneg by lia. split; [apply Z.div_pos; lia|]. apply Z.div_lt_upper_bound; [lia|].
    apply Z.lt_trans with 1000000000; [lia | by vm_compute]. }
  unfold log_record, dec3, left7. rewrite !lines_app, (lines_none _ Ht), (lines_none _ Hm), (lines_dec _ Hq), !lines_replicate by done.
  generalize (lines (lc_msg c)). intros n. destruct color, (lc_level c); (etransitivity; [|exact (Nat.add_comm n 1)]); reflexivity.
Qed.

(** ** Random numbers *)

Section Random.
Context `{!Sodium}.

(** [sodium_init] returns -1, 0, or 1 when it was called before. *)
Definition ac_crypto_init (rc : Z) : Z := if rc <? 0 then -1 else 0.
(** [random] is what [randombytes_buf] put into the buffer. *)
Definition ac_random_bytes (random : list byte) : list byte := random.
Definition ac_random_u64 (random : list byte) : Z := ac_rd64 random.
Fixpoint ac_secure_zero (p : list byte) (n : nat) : list byte :=
  match n, p with
  | S n, _ :: p => x00 :: ac_secure_zero p n
  | _, _ => p
  end.
(** The key pair, and what is left in the seed's buffer. *)
Definition ac_keypair_random (random : bytes AC_SEED_SIZE) : ac_keypair_t * list byte :=
  (ac_keypair_from_seed random, ac_secure_zero (b random) AC_SEED_SIZE).

(** Every 64-bit number comes from exactly one content of the buffer, so it is as evenly
    distributed as the bytes are. *)
Lemma ac_random_u64_even v : is_u64 v → ∃ r, length r = 8%nat ∧ ac_random_u64 r = v ∧ ∀ r', length r' = 8%nat → ac_random_u64 r' = v → r' = r.
Proof.
  intros Hv. exists (ac_be64 v). unfold ac_random_u64. split; [apply ac_be64_length|]. split.
  - rewrite ac_rd64_be64. by apply u64_id.
  - intros r Hr <-. by rewrite ac_be64_rd64.
Qed.

Lemma ac_secure_zero_spec p n : (n <= length p)%nat → ac_secure_zero p n = replicate n x00 ++ drop n p.
Proof.
  revert p. induction n as [|n IH]; intros p Hn; [by destruct p|]. destruct p as [|c p]; cbn in *; [lia|]. f_equal. apply IH. lia.
Qed.
(** A new key file is made from a random pair; no copy of the seed stays behind. *)
Lemma ac_keypair_random_spec random write_ok :
  ac_node_keypair_load_or_create None random write_ok =
    (if write_ok then (Some ((ac_keypair_random random).1, true), Some (key_bytes (ac_keypair_random random).1)) else (None, None)) ∧
  (ac_keypair_random random).2 = replicate 32 x00.
Proof.
  split; [done|]. unfold ac_keypair_random. cbn [snd]. pose proof (b_length random) as Hl.
  rewrite ac_secure_zero_spec, drop_ge by lia. apply app_nil_r.
Qed.
End Random.
