(* ===== verification/Node.v ===== *)
(** * node.c: the node, where network, consensus and chain meet

    [ac_node_start] hands each component callbacks into the others. The state is the
    network and the consensus engine; the chain and the pool are the ones the engine
    holds, shared by pointer in the code. What the engine broadcasts during a call is
    queued for the peers in the same order. *)

From S2P Require Import Prelude Common Crypto Cursor Codec SortedArray State Apply Mempool Econ Chain Accept Ledger Consensus ConsensusFacts Text Net NetFacts.

Record ac_node_t := mkNode { nd_net : ac_net_t; nd_cs : ac_consensus_t }.

Definition set_net (n : ac_node_t) (x : ac_net_t) : ac_node_t := mkNode x (nd_cs n).
Definition set_cs (n : ac_node_t) (x : ac_consensus_t) : ac_node_t := mkNode (nd_net n) x.

#[export] Instance node_world : NetWorld ac_node_t := { w_net := nd_net; w_set_net := set_net }.
#[export] Instance node_world_laws : NetWorldLaws ac_node_t.
Proof. split; [done|done|by intros []]. Qed.

(** What a callback reads of the outside: the clock reads and file results of the
    engine, and the clock of [ac_chain_current_slot] in [on_tx_ann_cb]. *)
Record nenv_t := mkNEnv { ne_cs : cenv_t; ne_now : Z }.

Section Node.
Context `{!Sodium} `{!LongDouble}.

(** [consensus_broadcast_cb] on each message, in order. *)
Definition consensus_broadcast_cb (x : ac_net_t) (m : Z * list byte) : ac_net_t := ac_net_broadcast x m.1 m.2 None.
(** The engine moved to [cs]; what it sent on the way goes out. *)
Definition run_consensus (n : ac_node_t) (cs : ac_consensus_t) : ac_node_t :=
  mkNode (foldl consensus_broadcast_cb (nd_net n) (drop (length (cs_sent (nd_cs n))) (cs_sent cs))) cs.

Definition on_block_ann_cb (env : nenv_t) (n : ac_node_t) (payload : list byte) : ac_node_t :=
  run_consensus n (ac_consensus_handle_block (nd_cs n) payload (ne_cs env)).
Definition on_commit_vote_cb (env : nenv_t) (n : ac_node_t) (payload : list byte) : ac_node_t :=
  run_consensus n (ac_consensus_handle_vote (nd_cs n) payload (ne_cs env)).

(** The pool's verdict is ignored. *)
Definition on_tx_ann_cb (env : nenv_t) (n : ac_node_t) (payload : list byte) : ac_node_t :=
  match ac_tx_decode payload with
  | None => n
  | Some t =>
      let cs := nd_cs n in
      let slot := ac_chain_current_slot (cs_chain cs) (ne_now env) in
      set_cs n (set_mempool cs (ac_mempool_add (cs_mempool cs) (c_state (cs_chain cs)) t slot).2)
  end.

(** Blocks [from], [from + 1], ..., [count] of them, as far as they can be read. *)
Fixpoint serve_blocks (c : ac_chain_t) (x : ac_net_t) (from : Z) (count : nat) (peer_id : ac_addr_t) : ac_net_t :=
  match count with
  | O => x
  | S count' =>
      let x :=
        match ac_chain_get_block_by_height c from with
        | None => x
        | Some k =>
            match ac_block_encode k with
            | Some enc => (ac_net_send_to x peer_id AC_MSG_BLOCK_RES enc).2
            | None => x
            end
        end in
      serve_blocks c x (from ⊕ 1) count' peer_id
  end.
Definition on_headers_req_cb (n : ac_node_t) (from_height count : Z) (peer_id : ac_addr_t) : ac_node_t :=
  if count =? 0 then n
  else
    let count := if 256 <? count then 256 else count in
    let c := cs_chain (nd_cs n) in
    let tip := c_height c in
    if tip <? from_height then n
    else
      let count := if (tip ⊕ 1) <? (from_height ⊕ count) then u32 ((tip ⊕ 1) ⊖ from_height) else count in
      set_net n (serve_blocks c (nd_net n) from_height (Z.to_nat count) peer_id).
Definition on_block_req_cb (n : ac_node_t) (height : Z) (peer_id : ac_addr_t) : ac_node_t :=
  on_headers_req_cb n height 1 peer_id.

Definition rpc_broadcast_tx_cb (n : ac_node_t) (tx_bytes : list byte) : ac_node_t :=
  set_net n (ac_net_broadcast (nd_net n) AC_MSG_TX_ANN tx_bytes None).

(** The callbacks [ac_node_start] installs, for one message. *)
Definition node_callbacks (env : nenv_t) : ac_net_callbacks_t ac_node_t :=
  mkCallbacks ac_node_t (on_block_ann_cb env) (on_tx_ann_cb env) (on_commit_vote_cb env) on_headers_req_cb on_block_req_cb.
Definition node_message (env : nenv_t) (n : ac_node_t) (i : nat) (type : Z) (buf : list byte) : ac_node_t :=
  dispatch_message (node_callbacks env) n i type buf (ne_now env).

(** [ac_node_start] once the key and the genesis are read: a chain opened from the data
    directory, an empty pool, a fresh engine and network. *)
Definition ac_node_start (f : files_t) (g : option ac_genesis_t) (kp : ac_keypair_t) (validator : bool)
    (port : Z) (external_host : list byte) (env : env_t) : option ac_node_t :=
  c ← ac_chain_open f g env;
  Some (mkNode (ac_net_new (c_chain_id c) kp port external_host)
               (ac_consensus_new c (ac_mempool_new (c_chain_id c)) kp true validator)).
End Node.
