(* ===== verification/Rpc.v ===== *)
(** * rpc.c: the JSON-RPC server

    The request as it arrives on the socket, the dispatch by method and the twelve
    handlers, each a function from the node to the response text and the node
    afterwards. Buffers keep their sizes: text that would not fit is cut the way
    [snprintf] cuts it. *)

From S2P Require Import Prelude Common Crypto Text Codec State Mempool Econ Chain Accept Consensus Net Node.

(** The characters of a request that [buf] takes. *)
Abbreviation RPC_BUF := 65535.

Section Rpc.
Context `{!Sodium}.

(** ** Responses *)

Definition CRLF : list byte := [x0d; x0a].
(** [%d]. *)
Definition dec_int (z : Z) : list byte := if z <? 0 then x2d :: dec (- z) else dec z.

Definition http_header (status len : Z) : list byte :=
  snprintf 256
    (str "HTTP/1.1 " ++ dec status ++ str " " ++ (if status =? 200 then str "OK" else str "Error") ++ CRLF ++
     str "Server: AgentChain-Engine" ++ CRLF ++
     str "Content-Type: application/json" ++ CRLF ++
     str "Content-Length: " ++ dec len ++ CRLF ++
     str "Connection: close" ++ CRLF ++ CRLF).
Definition send_response (status : Z) (body : list byte) : list byte := http_header status (zlen body) ++ body.

Definition send_rpc_result (id result : list byte) : list byte :=
  send_response 200 (snprintf (length result + 128)
    (jstr "{'jsonrpc':'2.0','id':" ++ (if bool_decide (id = []) then str "null" else id) ++
     jstr ",'result':" ++ result ++ str "}")).
Definition send_rpc_error (id : list byte) (code : Z) (msg : list byte) : list byte :=
  send_response 200 (snprintf 1024
    (jstr "{'jsonrpc':'2.0','id':" ++ (if bool_decide (id = []) then str "null" else id) ++
     jstr ",'error':{'code':" ++ dec_int code ++ jstr ",'message':'" ++ msg ++ jstr "'}}")).

(** ** Text built piece by piece

    [out] and [pos] of the list handlers: [pos] grows by what [snprintf] would have
    written. *)
Definition put (need : Z) (o : list byte * Z) (piece : list byte) : list byte * Z :=
  (o.1 ++ snprintf (Z.to_nat (need - o.2)) piece, o.2 + zlen piece).
(** The loop over the entries; [None] is a [continue]. *)
Fixpoint list_loop (need slack : Z) (l : list (option (list byte))) (first : bool) (o : list byte * Z) : list byte * Z :=
  match l with
  | [] => o
  | e :: l' =>
      if (0 <? o.2) && (o.2 + slack <? need) then
        list_loop need slack l' false
          (match e with
           | Some x => put need o ((if first then [] else str ",") ++ x)
           | None => o
           end)
      else o
  end.
Definition close_list (need : Z) (o : list byte * Z) : list byte :=
  (if (0 <? o.2) && (o.2 + 2 <? need) then put need o (str "]}") else o).1.
Definition json_list (need slack : Z) (head : list byte) (l : list (option (list byte))) : list byte :=
  close_list need (list_loop need slack l true (put need ([], 0) head)).

(** ** Handlers *)

Definition chain_of (n : ac_node_t) : ac_chain_t := cs_chain (nd_cs n).
Definition set_node_chain (n : ac_node_t) (c : ac_chain_t) : ac_node_t := set_cs n (set_chain (nd_cs n) c).

Definition handle_chain_info (n : ac_node_t) (id : list byte) : list byte :=
  let c := chain_of n in
  send_rpc_result id (snprintf 512
    (jstr "{'chain_id':" ++ dec (c_chain_id c) ++ jstr ",'height':" ++ dec (c_height c) ++
     jstr ",'tip_hash':'" ++ ac_hex_encode (b (c_tip_hash c)) ++ jstr "','base_fee':" ++ dec (c_base_fee c) ++
     jstr ",'genesis_timestamp_ms':" ++ dec (c_genesis_timestamp_ms c) ++ str "}")).

Definition handle_account_get (n : ac_node_t) (id params : list byte) : list byte :=
  match json_string params (str "address") 256 with
  | None => send_rpc_error id (-32602) (str "missing address")
  | Some addr_hex =>
      match ac_hex_decode AC_PUBKEY_SIZE addr_hex with
      | None => send_rpc_error id (-32602) (str "bad address hex")
      | Some a =>
          let acc := (ac_state_get (c_state (chain_of n)) (bytes_of 32 a)).2 in
          send_rpc_result id (snprintf 256
            (jstr "{'balance':" ++ dec (balance acc) ++ jstr ",'nonce':" ++ dec (nonce acc) ++
             jstr ",'stake':" ++ dec (stake acc) ++ jstr ",'unbond_at':" ++ dec (unbond_at acc) ++ str "}"))
      end
  end.

Definition handle_name_lookup (n : ac_node_t) (id params : list byte) : list byte :=
  match json_string params (str "name") 64 with
  | None => send_rpc_error id (-32602) (str "missing name")
  | Some name =>
      match ac_state_name_lookup (c_state (chain_of n)) name with
      | None => send_rpc_result id (str "null")
      | Some a => send_rpc_result id (snprintf 128 (jstr "{'address':'" ++ ac_hex_encode (b a) ++ jstr "'}"))
      end
  end.

Definition handle_tx_submit (n : ac_node_t) (id params : list byte) (now : Z) : list byte * ac_node_t :=
  match json_string params (str "tx_hex") 4096 with
  | None => (send_rpc_error id (-32602) (str "missing tx_hex"), n)
  | Some hex =>
      let bin_len := (length hex / 2)%nat in
      if AC_TX_MAX_BYTES <? Z.of_nat bin_len then (send_rpc_error id (-32602) (str "tx too large"), n)
      else
        match ac_hex_decode bin_len hex with
        | None => (send_rpc_error id (-32602) (str "bad hex"), n)
        | Some bin =>
            match ac_tx_decode bin with
            | None => (send_rpc_error id (-32602) (str "tx decode failed"), n)
            | Some t =>
                let cs := nd_cs n in
                let slot := ac_chain_current_slot (cs_chain cs) now in
                let '(rs, mp) := ac_mempool_add (cs_mempool cs) (c_state (cs_chain cs)) t slot in
                let n := set_cs n (set_mempool cs mp) in
                match rs with
                | AC_MP_ACCEPTED =>
                    let n := rpc_broadcast_tx_cb n bin in
                    (send_rpc_result id (snprintf 128 (jstr "{'hash':'" ++ ac_hex_encode (b (ac_tx_hash t)) ++ jstr "'}")), n)
                | _ => (send_rpc_error id (-32000) (str (ac_mp_result_str rs)), n)
                end
            end
        end
  end.

Definition handle_mempool_size (n : ac_node_t) (id : list byte) : list byte :=
  send_rpc_result id (snprintf 32
    (jstr "{'size':" ++ dec (Z.of_nat (ac_mempool_size (cs_mempool (nd_cs n)))) ++ str "}")).

Definition handle_block_get (n : ac_node_t) (id params : list byte) : list byte :=
  match json_uint64 params (str "height") with
  | None => send_rpc_error id (-32602) (str "missing height")
  | Some h =>
      match ac_chain_get_header_by_height (chain_of n) h with
      | None => send_rpc_error id (-32004) (str "block not found")
      | Some hdr =>
          send_rpc_result id (snprintf 1024
            (jstr "{'height':" ++ dec (h_height hdr) ++ jstr ",'slot':" ++ dec (h_slot hdr) ++
             jstr ",'timestamp_ms':" ++ dec (h_timestamp_ms hdr) ++
             jstr ",'parent_hash':'" ++ ac_hex_encode (b (h_parent_hash hdr)) ++
             jstr "','state_root':'" ++ ac_hex_encode (b (h_state_root hdr)) ++
             jstr "','tx_root':'" ++ ac_hex_encode (b (h_tx_root hdr)) ++
             jstr "','proposer':'" ++ ac_hex_encode (b (h_proposer hdr)) ++
             jstr "','base_fee':" ++ dec (h_base_fee hdr) ++ jstr ",'gas_used':" ++ dec (h_gas_used hdr) ++
             jstr ",'gas_limit':" ++ dec (h_gas_limit hdr) ++ jstr ",'tx_count':" ++ dec (h_tx_count hdr) ++ str "}"))
      end
  end.

Definition handle_tx_get (n : ac_node_t) (id params : list byte) : list byte * ac_node_t :=
  match json_string params (str "hash") 65 with
  | None => (send_rpc_error id (-32602) (str "missing hash"), n)
  | Some hex =>
      match ac_hex_decode AC_HASH_SIZE hex with
      | None => (send_rpc_error id (-32602) (str "bad hex"), n)
      | Some th =>
          let '(r, c) := ac_chain_tx_find (chain_of n) (bytes_of 32 th) in
          let n := set_node_chain n c in
          match r with
          | None => (send_rpc_error id (-32004) (str "tx not found"), n)
          | Some (height, idx) =>
              match ac_chain_get_block_by_height c height with
              | None => (send_rpc_error id (-32004) (str "block missing"), n)
              | Some k =>
                  match txs k !! Z.to_nat idx with
                  | None => (send_rpc_error id (-32004) (str "tx index out of range"), n)
                  | Some t =>
                      (send_rpc_result id (snprintf (length (tx_body t) * 2 + length (tx_memo t) * 2 + 1024)
                        (jstr "{'hash':'" ++ hex ++ jstr "','height':" ++ dec height ++
                         jstr ",'slot':" ++ dec (h_slot (header k)) ++ jstr ",'tx_index':" ++ dec idx ++
                         jstr ",'timestamp_ms':" ++ dec (h_timestamp_ms (header k)) ++
                         jstr ",'version':" ++ dec (tx_version t) ++ jstr ",'chain_id':" ++ dec (tx_chain_id t) ++
                         jstr ",'kind':" ++ dec (tx_kind t) ++
                         jstr ",'sender':'" ++ ac_hex_encode (b (tx_sender t)) ++ jstr "','nonce':" ++ dec (tx_nonce t) ++
                         jstr ",'gas_limit':" ++ dec (tx_gas_limit t) ++ jstr ",'tip':" ++ dec (tx_tip t) ++
                         jstr ",'valid_until':" ++ dec (tx_valid_until t) ++
                         jstr ",'body_hex':'" ++ ac_hex_encode (tx_body t) ++
                         jstr "','memo_hex':'" ++ ac_hex_encode (tx_memo t) ++ jstr "'}")), n)
                  end
              end
          end
      end
  end.

Definition block_full_head (k : ac_block_t) : list byte :=
  let hdr := header k in
  jstr "{'height':" ++ dec (h_height hdr) ++ jstr ",'hash':'" ++ ac_hex_encode (b (ac_block_hash hdr)) ++
  jstr "','slot':" ++ dec (h_slot hdr) ++ jstr ",'timestamp_ms':" ++ dec (h_timestamp_ms hdr) ++
  jstr ",'parent_hash':'" ++ ac_hex_encode (b (h_parent_hash hdr)) ++
  jstr "','state_root':'" ++ ac_hex_encode (b (h_state_root hdr)) ++
  jstr "','tx_root':'" ++ ac_hex_encode (b (h_tx_root hdr)) ++
  jstr "','proposer':'" ++ ac_hex_encode (b (h_proposer hdr)) ++
  jstr "','base_fee':" ++ dec (h_base_fee hdr) ++ jstr ",'gas_used':" ++ dec (h_gas_used hdr) ++
  jstr ",'gas_limit':" ++ dec (h_gas_limit hdr) ++ jstr ",'tx_count':" ++ dec (h_tx_count hdr) ++
  jstr ",'tx_hashes':[".
Definition quoted_hash (t : ac_tx_t) : list byte := [DQ] ++ ac_hex_encode (b (ac_tx_hash t)) ++ [DQ].
Definition handle_block_get_full (n : ac_node_t) (id params : list byte) : list byte :=
  match json_uint64 params (str "height") with
  | None => send_rpc_error id (-32602) (str "missing height")
  | Some h =>
      match ac_chain_get_block_by_height (chain_of n) h with
      | None => send_rpc_error id (-32004) (str "block not found")
      | Some k =>
          send_rpc_result id
            (json_list (1024 + zlen (txs k) * 68) 80 (block_full_head k) ((Some ∘ quoted_hash) <$> txs k))
      end
  end.

Definition limit_param (params : list byte) : nat :=
  let l := default 0 (json_uint64 params (str "limit")) in
  let l := if l =? 0 then 100 else l in
  Z.to_nat (if 1000 <? l then 1000 else l).

Definition validator_entry (a : ac_account_t) : list byte :=
  jstr "{'address':'" ++ ac_hex_encode (b (addr a)) ++ jstr "','stake':" ++ dec (stake a) ++
  jstr ",'balance':" ++ dec (balance a) ++ jstr ",'nonce':" ++ dec (nonce a) ++ str "}".
Definition handle_validators_list (n : ac_node_t) (id params : list byte) : list byte :=
  let c := chain_of n in
  let arr := ac_chain_top_validators c (limit_param params) in
  send_rpc_result id
    (json_list (256 + zlen arr * 200) 200
      (jstr "{'total_active':" ++ dec (ac_chain_active_count c) ++
       jstr ",'total_sqrt_stake':" ++ dec (ac_chain_total_sqrt_stake c) ++ jstr ",'validators':[")
      ((Some ∘ validator_entry) <$> arr)).

Definition account_entry (a : ac_account_t) : list byte :=
  jstr "{'address':'" ++ ac_hex_encode (b (addr a)) ++ jstr "','balance':" ++ dec (balance a) ++
  jstr ",'stake':" ++ dec (stake a) ++ jstr ",'nonce':" ++ dec (nonce a) ++ str "}".
Definition handle_accounts_top (n : ac_node_t) (id params : list byte) : list byte :=
  let c := chain_of n in
  let arr := ac_chain_top_accounts_by_balance c (limit_param params) in
  send_rpc_result id
    (json_list (256 + zlen arr * 220) 220
      (jstr "{'total_accounts':" ++ dec (Z.of_nat (ac_state_count (c_state c))) ++ jstr ",'accounts':[")
      ((Some ∘ account_entry) <$> arr)).

Definition address_tx_entry (c : ac_chain_t) (e : ac_addr_tx_entry_t) : option (list byte) :=
  k ← ac_chain_get_block_by_height c (at_height e);
  t ← txs k !! Z.to_nat (at_tx_idx e);
  Some (jstr "{'hash':'" ++ ac_hex_encode (b (ac_tx_hash t)) ++ jstr "','height':" ++ dec (at_height e) ++
        jstr ",'tx_index':" ++ dec (at_tx_idx e) ++ jstr ",'role':" ++ dec (at_role e) ++
        jstr ",'timestamp_ms':" ++ dec (h_timestamp_ms (header k)) ++ jstr ",'kind':" ++ dec (tx_kind t) ++
        jstr ",'sender':'" ++ ac_hex_encode (b (tx_sender t)) ++ jstr "','nonce':" ++ dec (tx_nonce t) ++ str "}").
Definition handle_address_txs (n : ac_node_t) (id params : list byte) : list byte * ac_node_t :=
  match json_string params (str "address") 256 with
  | None => (send_rpc_error id (-32602) (str "missing address"), n)
  | Some addr_hex =>
      match ac_hex_decode AC_PUBKEY_SIZE addr_hex with
      | None => (send_rpc_error id (-32602) (str "bad address hex"), n)
      | Some a =>
          let '(entries, c) := ac_chain_addr_txs (chain_of n) (bytes_of 32 a) (limit_param params) in
          (send_rpc_result id
             (json_list (256 + zlen entries * 320) 320
               (jstr "{'count':" ++ dec (zlen entries) ++ jstr ",'txs':[") (address_tx_entry c <$> entries)),
           set_node_chain n c)
      end
  end.

(** The loop of [ac_net_each_peer] with [peer_acc_cb]: text, position and count. *)
Definition peer_entry (p : peer_t) : list byte :=
  jstr "{'pubkey':'" ++ ac_hex_encode (b (p_peer_id p)) ++ jstr "','host':'" ++ p_host p ++
  jstr "','port':" ++ dec (p_port p) ++ jstr ",'inbound':" ++ (if p_inbound p then str "true" else str "false") ++ str "}".
Fixpoint peers_loop (cap : Z) (l : list peer_t) (count : nat) (o : list byte * Z) : list byte * Z :=
  match l with
  | [] => o
  | p :: l' =>
      if negb (p_in_use p) || negb (p_peer_id_known p) then peers_loop cap l' count o
      else if cap <=? o.2 + 250 then o
      else peers_loop cap l' (S count) (put cap o ((if (count =? 0)%nat then [] else str ",") ++ peer_entry p))
  end.
(** [ac_net_self_info]: the advertised host. *)
Definition self_host (x : ac_net_t) (listen_host : list byte) : list byte :=
  let h := if bool_decide (n_external_host x = []) then listen_host else n_external_host x in
  snprintf 128 (if bool_decide (h = []) then str "0.0.0.0" else h).
Definition handle_peers_list (n : ac_node_t) (id listen_host : list byte) : list byte :=
  let x := nd_net n in
  let o := put 8192 ([], 0)
    (jstr "{'connected':" ++ dec (Z.of_nat (ac_net_peer_count x)) ++
     jstr ",'node':{'pubkey':'" ++ ac_hex_encode (b (pk (n_keypair x))) ++ jstr "','host':'" ++ self_host x listen_host ++
     jstr "','port':" ++ dec (n_listen_port x) ++ jstr ",'self':true},'peers':[") in
  let o := peers_loop 8192 (n_peers x) 0 o in
  send_rpc_result id (if o.2 + 2 <? 8192 then put 8192 o (str "]}") else o).1.

(** ** The request *)

Definition buf_room (buf : list byte) : nat := Z.to_nat (RPC_BUF - zlen buf).

(** The first loop: where the headers end, the buffer, what is left on the socket. *)
Fixpoint read_head (s : list recv_ev) (buf : list byte) : option nat * list byte * list recv_ev :=
  match s with
  | RData (c :: l) :: s' =>
      let buf' := buf ++ take (buf_room buf) (c :: l) in
      let s'' := if (buf_room buf <? length (c :: l))%nat then RData (drop (buf_room buf) (c :: l)) :: s' else s' in
      match strstr (cstr buf') (CRLF ++ CRLF) with
      | Some rest => (Some (length (cstr buf') - length rest + 4)%nat, buf', s'')
      | None => if zlen buf' <? RPC_BUF then read_head s' buf' else (None, buf', s'')
      end
  | _ :: s' => (None, buf, s')
  | [] => (None, buf, [])
  end.

Definition tolower (c : byte) : byte :=
  if (65 <=? byte_val c) && (byte_val c <=? 90) then byte_of (byte_val c + 32) else c.
(** The scan for the length of the body, line by line; [fuel] bounds the lines. *)
Fixpoint content_length (fuel : nat) (t : list byte) : Z :=
  match fuel with
  | O => 0
  | S f =>
      match strstr t CRLF with
      | None => 0
      | Some eol =>
          let llen := (length t - length eol)%nat in
          if (15 <=? llen)%nat && (llen <? 64)%nat && bool_decide (tolower <$> take 15 t = str "content-length:")
          then strtoull (drop 15 t)
          else content_length f (drop 2 eol)
      end
  end.

(** The second loop: until [want] bytes are there. *)
Fixpoint read_body (s : list recv_ev) (buf : list byte) (want : Z) : list byte :=
  if (zlen buf <? want) && (zlen buf <? RPC_BUF) then
    match s with
    | RData (c :: l) :: s' => read_body s' (buf ++ take (buf_room buf) (c :: l)) want
    | _ => buf
    end
  else buf.

(** The raw text after the id's key, up to a comma or a brace. *)
Definition id_literal (body : list byte) : list byte :=
  match strstr body (jstr "'id'") with
  | None => str "null"
  | Some p =>
      let p := skip_while is_sep (drop 4 p) in
      let l := take 31 (take_while (λ c, negb (bool_decide (c = x2c) || bool_decide (c = x7d))) p) in
      reverse (skip_while is_blank (reverse l))
  end.

(** The dispatch on a body. *)
Definition rpc_dispatch (n : ac_node_t) (body listen_host : list byte) (now : Z) : list byte * ac_node_t :=
  match json_string body (str "method") 64 with
  | None => (send_rpc_error (str "null") (-32600) (str "missing method"), n)
  | Some method =>
      let id := id_literal body in
      let params := default body (strstr body (jstr "'params'")) in
      let m s := bool_decide (method = str s) in
      if m "chain_info"%string then (handle_chain_info n id, n)
      else if m "account_get"%string then (handle_account_get n id params, n)
      else if m "name_lookup"%string then (handle_name_lookup n id params, n)
      else if m "tx_submit"%string then handle_tx_submit n id params now
      else if m "mempool_size"%string then (handle_mempool_size n id, n)
      else if m "block_get"%string then (handle_block_get n id params, n)
      else if m "block_get_full"%string then (handle_block_get_full n id params, n)
      else if m "tx_get"%string then handle_tx_get n id params
      else if m "validators_list"%string then (handle_validators_list n id params, n)
      else if m "accounts_top"%string then (handle_accounts_top n id params, n)
      else if m "peers_list"%string then (handle_peers_list n id listen_host, n)
      else if m "address_txs"%string then handle_address_txs n id params
      else (send_rpc_error id (-32601) (str "method not found"), n)
  end.

(** A connection: what it is answered, and the node afterwards. *)
Definition handle_client (n : ac_node_t) (s : list recv_ev) (listen_host : list byte) (now : Z) : list byte * ac_node_t :=
  match read_head s [] with
  | (None, _, _) => (send_response 400 (jstr "{'error':'bad request'}"), n)
  | (Some header_end, buf, s) =>
      let want := Z.of_nat header_end ⊕ content_length (length buf) (cstr buf) in
      let buf := read_body s buf want in
      if negb (prefix_of (str "POST") buf) then (send_response 405 (jstr "{'error':'method not allowed'}"), n)
      else rpc_dispatch n (cstr (drop header_end buf)) listen_host now
  end.
End Rpc.
