(* ===== verification/NodeFacts.v ===== *)
(** * The node as a whole: safety, serving blocks, catching up *)

From S2P Require Import Prelude Common Crypto Cursor Codec SortedArray State Apply Mempool Econ Chain Accept Ledger Consensus ConsensusFacts Text Net NetFacts Node Rpc.

Section NodeSafety.
Context `{!Sodium} `{!LongDouble}.

(** ** Callbacks and the network's invariant *)

Lemma broadcasts_ok l x : net_ok x → net_ok (foldl consensus_broadcast_cb x l) ∧
  n_dedup (foldl consensus_broadcast_cb x l) = n_dedup x.
Proof.
  revert x. induction l as [|m l IH]; intros x Hx; [done|]. cbn [foldl].
  destruct (IH (consensus_broadcast_cb x m)) as [H1 H2]; [by apply broadcast_ok|]. by rewrite H2.
Qed.

Lemma broadcasts_ring l x : n_dedup (foldl consensus_broadcast_cb x l) = n_dedup x.
Proof. revert x. induction l as [|m l IH]; intros x; [done|]. cbn [foldl]. by rewrite IH. Qed.

Lemma send_to_ring x a type payload : n_dedup (ac_net_send_to x a type payload).2 = n_dedup x.
Proof. unfold ac_net_send_to. destruct (route _ _ _); [|done]. destruct (_ !! _); [|done]. by destruct (send_one _ _ _). Qed.
Lemma serve_blocks_ring c x from count a : n_dedup (serve_blocks c x from count a) = n_dedup x.
Proof.
  revert x from. induction count as [|count IH]; intros x from; [done|]. cbn [serve_blocks]. rewrite IH.
  destruct (ac_chain_get_block_by_height _ _); [|done]. destruct (ac_block_encode _); [apply send_to_ring | done].
Qed.
Lemma headers_req_ring n from count a : n_dedup (nd_net (on_headers_req_cb n from count a)) = n_dedup (nd_net n).
Proof.
  unfold on_headers_req_cb. destruct (count =? 0); [done|]. cbv zeta. destruct (_ <? from); [done|]. apply serve_blocks_ring.
Qed.

(** What the interface of the network asks of its callbacks, the node's callbacks give. *)
Lemma node_callbacks_ok env : callbacks_ok (node_callbacks env).
Proof.
  constructor; [intros n buf; apply broadcasts_ring| |intros n buf; apply broadcasts_ring|intros; apply headers_req_ring..].
  intros n buf. cbn. unfold on_tx_ann_cb. by destruct (ac_tx_decode buf).
Qed.

Lemma serve_blocks_ok c x from count a : net_ok x → net_ok (serve_blocks c x from count a).
Proof.
  revert x from. induction count as [|count IH]; intros x from Hx; [done|]. cbn [serve_blocks]. apply IH.
  destruct (ac_chain_get_block_by_height _ _); [|done]. destruct (ac_block_encode _); [by apply send_to_ok | done].
Qed.

(** ** The invariant *)

Record node_ok (n : ac_node_t) : Prop := {
  nk_net : net_ok (nd_net n);
  nk_cs : cs_ok (nd_cs n)
}.

(** A callback keeps the invariant and moves the chain only by calls of chain.h. *)
Record node_adv (io : bool) (n n' : ac_node_t) : Prop := {
  na_ok : node_ok n';
  na_run : rtc (chain_step io) (cs_chain (nd_cs n)) (cs_chain (nd_cs n'))
}.
Lemma node_adv_refl io n : node_ok n → node_adv io n n.
Proof. intros. by constructor. Qed.
Lemma node_adv_trans io n1 n2 n3 : node_adv io n1 n2 → node_adv io n2 n3 → node_adv io n1 n3.
Proof. intros [_ R1] [H2 R2]. constructor; [done|]. by etrans. Qed.

Lemma node_adv_run io n cs : node_ok n → cs_adv io (nd_cs n) cs → node_adv io n (run_consensus n cs).
Proof. intros [Hn _] [Hc Hr]. constructor; [|done]. constructor; [by apply broadcasts_ok | done]. Qed.
Lemma node_ok_net n x : node_ok n → net_ok x → node_ok (set_net n x).
Proof. by intros []. Qed.
Lemma node_adv_net io n x : node_ok n → net_ok x → node_adv io n (set_net n x).
Proof. intros. constructor; [by apply node_ok_net | done]. Qed.
Lemma node_adv_cs io n cs : node_ok n → cs_step io (nd_cs n) cs → node_adv io n (set_cs n cs).
Proof. intros [Hn Hc] Hs. destruct (cs_step_adv _ _ _ Hs Hc). by constructor. Qed.

Lemma headers_req_adv io n from count a : node_ok n → node_adv io n (on_headers_req_cb n from count a).
Proof.
  intros Hn. pose proof (node_adv_refl io n Hn) as Hr. unfold on_headers_req_cb. destruct (count =? 0); [done|]. cbv zeta.
  destruct (_ <? from); [done|]. apply node_adv_net, serve_blocks_ok; [done|apply Hn].
Qed.
Lemma tx_ann_adv io env n buf : node_ok n → node_adv io n (on_tx_ann_cb env n buf).
Proof.
  intros Hn. unfold on_tx_ann_cb. destruct (ac_tx_decode buf) as [t|] eqn:E; [|by apply node_adv_refl].
  apply ac_tx_decode_inv in E as [_ Ht]. apply node_adv_cs; [done|]. by apply cs_add.
Qed.
Lemma block_ann_adv io env n buf : node_ok n → chain_fits (cs_chain (nd_cs n)) → io_ok io (ne_cs env) →
  node_adv io n (on_block_ann_cb env n buf).
Proof. intros Hn Hf Hio. apply node_adv_run; [done|]. apply handle_block_adv; [apply Hn | done..]. Qed.
Lemma commit_vote_adv io env n buf : node_ok n → chain_fits (cs_chain (nd_cs n)) → io_ok io (ne_cs env) →
  node_adv io n (on_commit_vote_cb env n buf).
Proof. intros Hn Hf Hio. apply node_adv_run; [done|]. apply handle_vote_adv; [apply Hn | done..]. Qed.

Lemma gossip_adv io n from type buf (cb : ac_node_t → list byte → ac_node_t) :
  node_ok n → chain_fits (cs_chain (nd_cs n)) →
  (∀ m, node_ok m → chain_fits (cs_chain (nd_cs m)) → node_adv io m (cb m buf)) →
  node_adv io n (gossip n from type buf cb).
Proof.
  intros Hn Hf Hcb. unfold gossip, gossip_new. destruct (dedup_has _ _); [by apply node_adv_refl|]. cbn [w_net w_set_net node_world].
  match goal with |- context [cb ?m buf] => assert (node_adv io n m) as H1; [|pose proof (Hcb m (na_ok _ _ _ H1)) as H2] end.
  { apply node_adv_net; [done|]. apply remember_ok, Hn. }
  specialize (H2 Hf). eapply node_adv_trans; [exact H1|]. eapply node_adv_trans; [exact H2|].
  apply node_adv_net; [apply H2|]. apply broadcast_ok, nk_net, H2.
Qed.

Lemma node_message_adv io env n i type buf : node_ok n → chain_fits (cs_chain (nd_cs n)) → io_ok io (ne_cs env) →
  node_adv io n (node_message env n i type buf).
Proof.
  intros Hn Hf Hio. unfold node_message, dispatch_message. cbn [w_net w_set_net node_world].
  destruct (n_peers (nd_net n) !! i) as [p|] eqn:Hi; [|by apply node_adv_refl]. cbv zeta.
  pose proof (net_step_ok _ _ (ns_seen _ i p (ne_now env) Hi) (nk_net n Hn)) as Hs.
  pose proof (node_adv_net io n _ Hn Hs) as H1. eapply node_adv_trans; [exact H1|]. set (n1 := set_net n _) in *.
  pose proof (na_ok _ _ _ H1) as Hn1. pose proof (node_adv_refl io n1 Hn1) as Hr.
  assert (chain_fits (cs_chain (nd_cs n1))) as Hf1 by done.
  destruct (type =? AC_MSG_BLOCK_ANN); [apply gossip_adv; [done..|]; intros; by apply block_ann_adv|].
  destruct (type =? AC_MSG_TX_ANN); [apply gossip_adv; [done..|]; intros; by apply tx_ann_adv|].
  destruct (type =? AC_MSG_COMMIT_VOTE); [apply gossip_adv; [done..|]; intros; by apply commit_vote_adv|].
  destruct (type =? AC_MSG_HEADERS_REQ); [destruct (_ <? _)%nat; [done | by apply headers_req_adv]|].
  destruct (type =? AC_MSG_BLOCK_REQ); [destruct (_ <? _)%nat; [done | by apply headers_req_adv]|].
  destruct (type =? AC_MSG_BLOCK_RES); [by apply block_ann_adv|].
  destruct (type =? AC_MSG_PING); [|done].
  apply node_adv_net, net_ok_put; [done..|]. apply peer_enqueue_out_ok. exact (net_peer_ok _ _ _ (nk_net n Hn) Hi).
Qed.

(** ** Clients *)

Lemma node_adv_chain io n c : node_ok n → chain_step io (chain_of n) c → node_adv io n (set_node_chain n c).
Proof.
  intros [Hn Hc] Hs. constructor; [|by apply rtc_once]. constructor; [done|]. apply cs_ok_chain; [done|].
  eapply step_ledger; [done|apply Hc].
Qed.

Lemma tx_submit_adv io n id params now : node_ok n → node_adv io n (handle_tx_submit n id params now).2.
Proof.
  intros Hn. pose proof (node_adv_refl io n Hn) as Hr. unfold handle_tx_submit. destruct (json_string _ _ _) as [hex|]; [|done]. cbv zeta.
  destruct (_ <? _); [done|]. destruct (ac_hex_decode _ _) as [bin|]; [|done].
  destruct (ac_tx_decode bin) as [t|] eqn:E; [|done]. apply ac_tx_decode_inv in E as [_ Ht].
  pose proof (node_adv_cs io n _ Hn (cs_add io _ t (ac_chain_current_slot (chain_of n) now) Ht)) as Ha. unfold chain_of in Ha.
  destruct (ac_mempool_add _ _ _ _) as [rs mp]. destruct rs; try exact Ha.
  eapply node_adv_trans; [exact Ha|]. apply node_adv_net, broadcast_ok; [apply Ha | apply nk_net, Ha].
Qed.
Lemma tx_get_adv io n id params : node_ok n → node_adv io n (handle_tx_get n id params).2.
Proof.
  intros Hn. pose proof (node_adv_refl io n Hn) as Hr. unfold handle_tx_get. destruct (json_string _ _ _) as [hex|]; [|done].
  destruct (ac_hex_decode _ _) as [h|]; [|done].
  pose proof (node_adv_chain io n _ Hn (step_find io _ (bytes_of 32 h))) as Hc.
  destruct (ac_chain_tx_find _ _) as [[[height idx]|] c]; [|exact Hc]. cbv zeta.
  destruct (ac_chain_get_block_by_height _ _); [|exact Hc]. destruct (txs _ !! _); exact Hc.
Qed.
Lemma address_txs_adv io n id params : node_ok n → node_adv io n (handle_address_txs n id params).2.
Proof.
  intros Hn. pose proof (node_adv_refl io n Hn) as Hr. unfold handle_address_txs. destruct (json_string _ _ _) as [hex|]; [|done].
  destruct (ac_hex_decode _ _) as [a|]; [|done].
  pose proof (node_adv_chain io n _ Hn (step_addr io _ (bytes_of 32 a) (limit_param params))) as Hc.
  destruct (ac_chain_addr_txs _ _ _) as [l c]. exact Hc.
Qed.
(** Whatever arrives on a client's connection. *)
Lemma handle_client_adv io n s lh now : node_ok n → node_adv io n (handle_client n s lh now).2.
Proof.
  intros Hn. pose proof (node_adv_refl io n Hn) as Hr. unfold handle_client. destruct (read_head s []) as [[[he|] buf] s']; [|done]. cbv zeta.
  destruct (negb _); [done|]. unfold rpc_dispatch. destruct (json_string _ _ _) as [m|]; [|done]. cbv zeta.
  repeat (case_match; [first [done | by apply tx_submit_adv | by apply tx_get_adv | by apply address_txs_adv]|]). done.
Qed.

(** ** Reachable nodes

    A step is a message of any type with any payload from any slot, a step of the
    engine's timer, a connection of an RPC client with whatever it sends, or a step of
    the transport's threads. *)
Inductive node_step (io : bool) (n : ac_node_t) : ac_node_t → Prop :=
  | nd_message env i type buf : chain_fits (cs_chain (nd_cs n)) → io_ok io (ne_cs env) →
      node_step io n (node_message env n i type buf)
  | nd_timer cs : cs_step io (nd_cs n) cs → node_step io n (run_consensus n cs)
  | nd_client s listen_host now : node_step io n (handle_client n s listen_host now).2
  | nd_transport x : net_step (nd_net n) x → node_step io n (set_net n x).

(** Started on an empty data directory with genesis [g], or on the directory of an
    earlier run without write failures, whose chain began with [g]. *)
Inductive node_started (g : ac_genesis_t) : ac_node_t → Prop :=
  | nd_fresh f kp v port host env n : f_meta f = None →
      ac_node_start f (Some g) kp v port host env = Some n → node_started g n
  | nd_again c g' kp v port host env n : reachable_from true g c → chain_fits c →
      ac_node_start (c_files c) g' kp v port host env = Some n → node_started g n.
Definition node_reachable (io : bool) (g : ac_genesis_t) (n : ac_node_t) : Prop :=
  ∃ n0, node_started g n0 ∧ rtc (node_step io) n0 n.

Lemma node_started_chain g n : genesis_wf g → node_started g n → node_ok n ∧ reachable_from true g (cs_chain (nd_cs n)).
Proof.
  intros Hg.
  assert (∀ c kp v port host, reachable_from true g c →
    node_ok (mkNode (ac_net_new (c_chain_id c) kp port host) (ac_consensus_new c (ac_mempool_new (c_chain_id c)) kp true v)) ∧
    reachable_from true g c) as Hst.
  { intros c kp v port host Hc. split; [|done]. constructor; [apply net_ok_new | apply cs_ok_new; [|done]].
    by eapply reachable_from_ok. }
  intros [f kp v port host env m Hm E|c g' kp v port host env m Hr Hf E]; unfold ac_node_start in E;
    destruct (ac_chain_open _ _ _) as [d|] eqn:Eo; cbn in E; try done; injection E as <-; apply Hst.
  - by eapply reach_genesis.
  - by eapply reach_restart.
Qed.

Lemma node_step_adv io n n' : node_step io n n' → node_ok n → node_adv io n n'.
Proof.
  intros [env i type buf Hf Hio|cs Hs|s lh now|x Hx] Hn.
  - by apply node_message_adv.
  - apply node_adv_run; [done|]. eapply cs_step_adv; [done|apply Hn].
  - by apply handle_client_adv.
  - apply node_adv_net; [done|]. eapply net_step_ok; [done|apply Hn].
Qed.

Lemma node_reachable_ok io g n : genesis_wf g → node_reachable io g n → node_ok n.
Proof.
  intros Hg (n0 & Hst & Hr). apply (node_started_chain g) in Hst as [Hst _]; [|done]. induction Hr as [|x y z Hs _ IH]; [done|].
  apply IH. by eapply node_step_adv.
Qed.

(** A node whose file writes succeed holds a chain of its genesis that the calls of
    chain.h and restarts can reach: the refinement that carries every theorem on
    reachable chains to nodes. *)
Lemma node_chain_reached g n : genesis_wf g → node_reachable true g n → reachable_from true g (cs_chain (nd_cs n)).
Proof.
  intros Hg (n0 & Hst & Hr). apply (node_started_chain g) in Hst as [Hok Hst]; [|done].
  induction Hr as [|x y z Hs _ IH]; [done|]. destruct (node_step_adv _ _ _ Hs Hok) as [Hy Hrun]. apply IH; [done|].
  clear -Hrun Hst. induction Hrun as [|c1 c2 c3 H1 _ IH]; [done|]. apply IH. by eapply reach_step.
Qed.

End NodeSafety.

(** ** Witnesses: a node with two peers, on the two-validator chain *)

#[local] Existing Instance toy_sodium.
#[local] Existing Instance x87.

Definition duo_nenv : nenv_t := mkNEnv duo_env 9000.
Definition duo_started : ac_node_t :=
  mkNode (ac_net_new 7 demo_kp 30303 []) (ac_consensus_new duo_chain (ac_mempool_new 7) demo_kp true true).
Definition duo_peer (i : Z) : peer_t := mkPeer true (5 + i) (addr_of i) true true (str "10.0.0.2") 30303 0 out_empty false.
Definition duo_node : ac_node_t :=
  set_net duo_started (put_peer (put_peer (nd_net duo_started) 0 (duo_peer 1)) 1 (duo_peer 2)).

Lemma duo_node_started : ac_node_start no_files (Some duo_genesis) demo_kp true 30303 [] demo_env = Some duo_started.
Proof. by vm_compute. Qed.
Lemma duo_started_ok : node_started duo_genesis duo_started.
Proof. exact (nd_fresh duo_genesis no_files _ _ _ _ _ _ eq_refl duo_node_started). Qed.

Definition duo_connected : ac_node_t := set_net duo_started (peer_connect (nd_net duo_started) 5 true (str "10.0.0.2") 40000).2.
Definition duo_heard : ac_node_t := node_message duo_nenv duo_connected 0 AC_MSG_BLOCK_ANN (wire (duo_block 3)).

Lemma duo_net_ok : net_ok (nd_net duo_node).
Proof. apply net_ok_put; [apply net_ok_put; [apply net_ok_new|]|]; apply out_ok_empty. Qed.

(** A transaction announcement is repeated by the second peer after a ping: only its
    last-seen time changes. *)
Definition duo_arrival (i : nat) (type : Z) (buf : list byte) : arrival_t := mkArrival (node_callbacks duo_nenv) i type buf 9000.
Definition duo_tx : ac_node_t := foldl arrive (arrive duo_node (duo_arrival 0 AC_MSG_TX_ANN [x01])) [duo_arrival 1 AC_MSG_PING []].
Lemma gossip_once_witness :
  ∃ q, n_peers (nd_net duo_tx) !! 1%nat = Some q ∧
    node_message duo_nenv duo_tx 1 AC_MSG_TX_ANN [x01] =
      set_net duo_tx (put_peer (nd_net duo_tx) 1 (set_seen q 9000)).
Proof.
  assert (1 < length (n_peers (nd_net duo_tx)))%nat as Hl by (vm_compute; lia).
  destruct (lookup_lt_is_Some_2 _ _ Hl) as [q Hq]. exists q. split; [exact Hq|].
  change (dispatch_message (ar_cb (duo_arrival 0 AC_MSG_TX_ANN [x01])) duo_tx 1 AC_MSG_TX_ANN (ar_buf (duo_arrival 0 AC_MSG_TX_ANN [x01])) 9000 =
    w_set_net duo_tx (put_peer (w_net duo_tx) 1 (set_seen q 9000))).
  apply (gossip_once (duo_arrival 0 AC_MSG_TX_ANN [x01]) duo_node (duo_peer 1) [duo_arrival 1 AC_MSG_PING []] 1 AC_MSG_TX_ANN 9000 q).
  - repeat constructor; apply node_callbacks_ok.
  - exact duo_net_ok.
  - right. left. reflexivity.
  - reflexivity.
  - vm_compute. reflexivity.
  - cbn. lia.
  - right. left. reflexivity.
  - exact Hq.
Defined.

(** Seen messages are remembered by payload only, and an announcement is remembered and
    forwarded before it is decoded: a peer that announces the bytes of a proposal as a
    transaction makes this node, and those it forwards to, ignore the proposal. *)
Lemma announcement_suppressed :
  let proposal := wire (duo_block 3) in
  let poisoned := node_message duo_nenv duo_node 0 AC_MSG_TX_ANN proposal in
  pending_find (nd_cs (node_message duo_nenv duo_node 1 AC_MSG_BLOCK_ANN proposal)) (ac_block_hash (header (duo_block 3))) = Some 0%nat ∧
  pending_find (nd_cs (node_message duo_nenv poisoned 1 AC_MSG_BLOCK_ANN proposal)) (ac_block_hash (header (duo_block 3))) = None ∧
  (o_msgs ∘ p_out <$> n_peers (nd_net poisoned) !! 1%nat) = Some [(AC_MSG_TX_ANN, proposal)].
Proof. vm_compute. repeat split; reflexivity. Qed.

(** A vote that arrives before the block it is for is dropped, and remembered: when its
    sender repeats it after the block came, as the vote phase does on purpose, the copy is
    taken for an old message. In the other order the same vote counts. *)
Lemma early_vote_lost :
  let block (n : ac_node_t) := node_message duo_nenv n 1 AC_MSG_BLOCK_ANN (wire (duo_block 3)) in
  let vote (n : ac_node_t) := node_message duo_nenv n 1 AC_MSG_COMMIT_VOTE (rival_vote 3) in
  length (pn_signers (entry0 (nd_cs (vote (block duo_node))))) = 1%nat ∧
  length (pn_signers (entry0 (nd_cs (vote (block (vote duo_node)))))) = 0%nat.
Proof. vm_compute. split; reflexivity. Qed.

(** Two readers that receive the same announcement at once may both pass the check before
    either has noted it: then it is handled twice, and each forwards it to the peer it came
    from for the other. One after the other, only the first forwards it. *)
Lemma gossip_race :
  let copy (n : ac_node_t) (i : nat) := gossip_new n (default (zeros 32) (p_peer_id <$> n_peers (nd_net n) !! i))
    AC_MSG_TX_ANN [x01] (on_tx_ann (node_callbacks duo_nenv)) in
  let queues (n : ac_node_t) := (λ p, length (o_msgs (p_out p))) <$> take 2 (n_peers (nd_net n)) in
  dedup_has (n_dedup (nd_net duo_node)) (ac_hash [x01]) = false ∧
  queues (copy (copy duo_node 0%nat) 1%nat) = [1; 1]%nat ∧
  queues (node_message duo_nenv (node_message duo_nenv duo_node 0 AC_MSG_TX_ANN [x01]) 1 AC_MSG_TX_ANN [x01]) = [0; 1]%nat.
Proof. vm_compute. repeat split; reflexivity. Qed.
