(* ===== verification/Replicas.v ===== *)
(** * Nodes of one network: agreement and accountability

    The agreement theorem of [Agreement], for running nodes: the chain under a node
    moves by calls of chain.h only ([node_chain_reached]), so whatever peers, clients and
    timers do to two nodes of one genesis, and however often they restart, they disagree
    only where a validator has voted twice. *)

From S2P Require Import Prelude Common Crypto Cursor Codec SortedArray State Apply Mempool Econ Chain Accept Ledger Agreement Consensus ConsensusFacts Text Net NetFacts Node Rpc NodeFacts.

Section Replicas.
Context `{!Sodium} `{!LongDouble}.

(** C2. Agreement with accountability: take two nodes started with the same genesis, on empty
    directories or on those of earlier runs, that received whatever messages from whatever
    peers and clients, interleaved with their timers in any way, and whose file writes
    succeed. At every height both have reached they hold the same block, up to the
    certificate; at equal heights they have the same state and tip. Or else, at the first
    height where they differ, a validator active in their common state has valid votes in
    both certificates, and these two votes are evidence with which an admitted slash
    transaction takes the validator's whole stake, on any state where it has some. It is
    assumed that hashes do not collide between the two chains, that certificates repeat
    no signer (which the code does not check) and that the supply fits 64 bits. *)
Theorem nodes_agree g n1 n2 :
  genesis_wf g → node_reachable true g n1 → node_reachable true g n2 →
  let c1 := cs_chain (nd_cs n1) in let c2 := cs_chain (nd_cs n2) in
  fork_assumptions g c1 c2 →
  (same_blocks c1 c2 (Z.min (c_height c1) (c_height c2)) ∧
   (c_height c1 = c_height c2 → c_state c1 = c_state c2 ∧ c_tip_hash c1 = c_tip_hash c2)) ∨
  ∃ h k1 k2 x y, 1 <= h <= Z.min (c_height c1) (c_height c2) ∧ same_blocks c1 c2 (h - 1) ∧
    block_read c1 h = Some k1 ∧ block_read c2 h = Some k2 ∧ x ∈ signers k1 ∧ y ∈ signers k2 ∧
    cs_signer x = cs_signer y ∧ AC_MIN_STAKE_UCRD <= stake (view (state_at g c1 (h - 1)) (cs_signer x)) ∧
    ∀ s t slot bf, state_wf s → tx_wf t → tx_kind t = AC_TX_SLASH_EVIDENCE →
      ac_body_slash_encode AC_TX_BODY_MAX
        (evidence h (cs_signer x) (ac_block_hash (header k1)) (ac_block_hash (header k2)) (cs_sig x) (cs_sig y)) = Some (tx_body t) →
      tx_sender t ≠ cs_signer x → stake (view s (cs_signer x)) ≠ 0 → (ac_state_apply_tx s t slot bf).1.1 ≠ -1 →
      (ac_state_apply_tx s t slot bf).1.1 = 0 ∧ stake (view (ac_state_apply_tx s t slot bf).1.2 (cs_signer x)) = 0.
Proof.
  intros Hg R1 R2 c1 c2 HF. pose proof (node_chain_reached g n1 Hg R1) as Q1. pose proof (node_chain_reached g n2 Hg R2) as Q2.
  destruct (no_fork_unless_equivocation g c1 c2 Hg Q1 Q2 HF) as [?|(h & Hh & Hsb & k1 & k2 & x & y & E1 & E2 & Est & Hx & Hy & Exy & Heq)];
    [by left|right].
  exists h, k1, k2, x, y. split; [done|]. split; [done|]. split; [done|]. split; [done|]. split; [done|]. split; [done|].
  split; [done|]. split; [apply Heq|]. intros s t slot bf Hs Ht Hk Henc Hsnd Hst Hrc.
  destruct (rp_finalised _ _ (reachable_replica g c1 Hg Q1) h k1) as [Eh [_ Hk1 _ _ _]]; [lia|done|].
  pose proof (wf_h_height _ (wf_header _ Hk1)) as Hu. rewrite Eh in Hu.
  pose proof (equivocation_slashed _ s t slot bf h _ _ _ _ _ Heq Hu Hs Ht Hk Henc Hsnd Hst Hrc) as Hsl.
  destruct (ac_state_apply_tx s t slot bf) as [[rc s'] r]. cbn [fst snd]. by destruct Hsl as (-> & -> & _).
Qed.
End Replicas.

(** ** Witness: a validator that signs two blocks *)

#[local] Existing Instance toy_sodium.
#[local] Existing Instance x87.

Definition late_cenv : cenv_t := mkCEnv 90000 90000 90000 90000 (mkEnv 90000 true true true).
Definition late_nenv : nenv_t := mkNEnv late_cenv 90000.
(** The other block of height 1, with the vote of the same validator. *)
Definition other_block : ac_block_t :=
  sign_block demo_chain [demo_kp] (default demo_unsigned (ac_chain_build_block demo_chain 4 demo_kp []).1).
Definition solo_started : ac_node_t :=
  mkNode (ac_net_new 7 demo_kp 30303 []) (ac_consensus_new demo_chain (ac_mempool_new 7) demo_kp true false).
Definition solo_connected : ac_node_t :=
  set_net solo_started (peer_connect (nd_net solo_started) 5 true (str "10.0.0.2") 40000).2.
(** A node that heard of [k]. *)
Definition solo_heard (k : ac_block_t) : ac_node_t := node_message late_nenv solo_connected 0 AC_MSG_BLOCK_ANN (wire k).

Lemma solo_reachable k : node_reachable true demo_genesis (solo_heard k).
Proof.
  exists solo_started. split.
  - apply (nd_fresh demo_genesis no_files demo_kp false 30303 [] demo_env); [reflexivity|]. vm_compute. reflexivity.
  - eapply rtc_l; [apply nd_transport, ns_connect|]. apply rtc_once, nd_message; [exact demo_fits | intros _; reflexivity].
Qed.

Definition fork1 : ac_chain_t := cs_chain (nd_cs (solo_heard demo_block)).
Definition fork2 : ac_chain_t := cs_chain (nd_cs (solo_heard other_block)).

Lemma fork_heights : c_height fork1 = 1 ∧ c_height fork2 = 1.
Proof. vm_compute. split; reflexivity. Qed.

(** What the two nodes stored. *)
Definition stored_at (c : ac_chain_t) (h : Z) : ac_block_t := default zero_block (block_read c h).
Definition stored_keys (c : ac_chain_t) : list Z := (map_to_list (f_blocks (c_files c))).*1.
Lemma fork_keys : stored_keys fork1 = [1; 0] ∧ stored_keys fork2 = [1; 0].
Proof. vm_compute. split; reflexivity. Qed.
Lemma read_stored c h k : block_read c h = Some k → k = stored_at c h ∧ h ∈ stored_keys c.
Proof.
  intros E. unfold stored_at. rewrite E. split; [done|]. unfold block_read in E.
  destruct (f_blocks (c_files c) !! h) as [buf|] eqn:Eb; [|done].
  apply list_elem_of_fmap. exists (h, buf). split; [done|]. by apply elem_of_map_to_list.
Qed.
Lemma fork_genesis : block_read fork1 0 = block_read fork2 0.
Proof.
  unfold block_read. assert (f_blocks (c_files fork1) !! 0 = f_blocks (c_files fork2) !! 0) as -> by (vm_compute; reflexivity).
  reflexivity.
Qed.
Lemma fork_differ :
  b (ac_block_hash (header (stored_at fork1 1))) ≠ b (ac_block_hash (header (stored_at fork2 1))) ∧
  b (ac_block_tx_root (txs (stored_at fork1 1))) ≠ b (ac_block_tx_root (txs (stored_at fork2 1))) ∧
  length (signers (stored_at fork1 1)) = 1%nat ∧ length (signers (stored_at fork2 1)) = 1%nat.
Proof. vm_compute. repeat split; discriminate. Qed.

Lemma fork_assumed : fork_assumptions demo_genesis fork1 fork2.
Proof.
  destruct fork_keys as [K1 K2], fork_heights as [T1 T2], fork_differ as (D1 & D2 & D3 & D4).
  assert (∀ A (l : list A), length l = 1%nat → NoDup l) as Hone.
  { intros A [|x [|y l]]; [discriminate| |discriminate]. intros _. apply NoDup_singleton. }
  assert (∀ h k1 k2, block_read fork1 h = Some k1 → block_read fork2 h = Some k2 →
    k1 = k2 ∨ k1 = stored_at fork1 1 ∧ k2 = stored_at fork2 1) as Hcase.
  { intros h k1 k2 E1 E2. pose proof (proj2 (read_stored _ _ _ E1)) as Hk. rewrite K1 in Hk.
    apply elem_of_cons in Hk as [-> | Hk].
    - right. split; [exact (proj1 (read_stored _ _ _ E1)) | exact (proj1 (read_stored _ _ _ E2))].
    - apply list_elem_of_singleton in Hk as ->. left. rewrite fork_genesis in E1. rewrite E1 in E2. by injection E2. }
  constructor.
  - intros h k1 k2 E1 E2 Eh. destruct (Hcase h k1 k2 E1 E2) as [-> | [-> ->]]; [reflexivity|].
    destruct D1. exact (f_equal b Eh).
  - intros h k1 k2 E1 E2 Eh. destruct (Hcase h k1 k2 E1 E2) as [-> | [-> ->]]; [reflexivity|].
    destruct D2. exact (f_equal b Eh).
  - intros h k. rewrite T1. intros Hh E. assert (h = 1) as -> by lia. destruct (read_stored _ _ _ E) as [-> _].
    apply Hone. rewrite length_fmap. exact D3.
  - intros h k. rewrite T2. intros Hh E. assert (h = 1) as -> by lia. destruct (read_stored _ _ _ E) as [-> _].
    apply Hone. rewrite length_fmap. exact D4.
  - intros h. rewrite T1. intros Hh. assert (h = 0) as -> by lia. vm_compute. reflexivity.
Qed.

(** The two nodes forked at height 1, and the theorem points at the validator. *)
Lemma nodes_agree_witness :
  c_height fork1 = 1 ∧ c_height fork2 = 1 ∧
  ∃ k1 k2 x y, block_read fork1 1 = Some k1 ∧ block_read fork2 1 = Some k2 ∧
    x ∈ signers k1 ∧ y ∈ signers k2 ∧ cs_signer x = cs_signer y.
Proof.
  destruct fork_heights as [T1 T2]. split; [exact T1|]. split; [exact T2|].
  destruct (nodes_agree demo_genesis (solo_heard demo_block) (solo_heard other_block) demo_genesis_wf
    (solo_reachable demo_block) (solo_reachable other_block) fork_assumed)
    as [[Hsb _]|(h & k1 & k2 & x & y & Hh & _ & E1 & E2 & Hx & Hy & Exy & _)].
  - destruct (Hsb 1) as (k1 & k2 & E1 & E2 & Ehd & _).
    + fold fork1 fork2. rewrite T1, T2. lia.
    + destruct fork_differ as [D1 _]. destruct D1.
      pose proof (proj1 (read_stored fork1 1 k1 E1)) as S1. pose proof (proj1 (read_stored fork2 1 k2 E2)) as S2.
      rewrite <- S1, <- S2, Ehd. reflexivity.
  - fold fork1 fork2 in Hh, E1, E2. rewrite T1, T2 in Hh. assert (h = 1) as -> by lia. exists k1, k2, x, y. auto.
Defined.
