(* ===== verification/Boot.v ===== *)
(** * main.c and node.c: from the command line to a running node

    The options of [agentchain node], the files a first run creates, and the start of the
    node with its key and genesis read from them. Text files are the
    store of [Files]; the chain's own files are those of [Chain]. *)

From S2P Require Import Prelude Common Crypto Cursor Codec SortedArray State Apply Mempool Econ Chain Accept Ledger Consensus ConsensusFacts Text Files Net NetFacts Dial Config Node Rpc NodeFacts.

(** ** Configuration *)

Record ac_node_config_t := mkNodeCfg {
  cf_data_dir : list byte;
  cf_genesis_path : list byte;
  cf_listen_host : list byte;
  cf_listen_port : Z;
  cf_rpc_host : list byte;
  cf_rpc_port : Z;
  cf_external_host : list byte;
  cf_seed_peers : list (list byte);
  cf_validator : bool
}.

(** The environment variables looked at, and whether the build is the Windows one. *)
Record vars_t := mkVars { v_win32 : bool; v_HOME : option (list byte); v_USERPROFILE : option (list byte) }.
Definition home_dir (v : vars_t) : list byte :=
  let h := v_HOME v in
  let h := if v_win32 v then match h with Some (_ :: _) => h | _ => v_USERPROFILE v end else h in
  match h with Some (c :: h) => c :: h | _ => str "." end.
Definition default_data_dir (v : vars_t) (cap : nat) : list byte := snprintf cap (home_dir v ++ str "/.agentchain").
Definition default_key_path (v : vars_t) (cap : nat) : list byte := snprintf cap (home_dir v ++ str "/.agentchain/node.key").

Definition AC_MAINNET_SEEDS : list byte :=
  str "34.61.207.49:30303," ++ str "18.192.176.100:30303," ++ str "16.171.43.222:30303".

(** [strtok] at commas: the non-empty pieces. *)
Definition is_comma (c : byte) : bool := bool_decide (c = x2c).
Fixpoint tokens (l cur : list byte) : list (list byte) :=
  match l with
  | [] => match cur with [] => [] | _ => [cur] end
  | c :: l' =>
      if is_comma c then match cur with [] => tokens l' [] | _ => cur :: tokens l' [] end
      else tokens l' (cur ++ [c])
  end.
Definition seed_list (s : list byte) : list (list byte) :=
  skip_while (λ c, bool_decide (c = x20)) <$> tokens s [].

Definition write_embedded_mainnet_genesis (fs : fs_t) (path : list byte) : fs_t := fs_write fs path AC_MAINNET_GENESIS.

(** The start of [cmd_node]: an exit code or a configuration, and the text files. The
    genesis is written when there is no file; [write_ok] is whether that succeeds. *)
Definition node_config (argv : argv_t) (vars : vars_t) (fs : fs_t) (write_ok : bool)
    : (Z + ac_node_config_t) * fs_t :=
  if has_flag argv (str "--help") || has_flag argv (str "-h") then (inl 0, fs)
  else
    let dd := default (default_data_dir vars 1024) (get_opt argv (str "--data-dir")) in
    let gen_path := ac_join_path 1024 dd (str "genesis.txt") in
    let missing := match get_opt argv (str "--genesis") with
                   | Some _ => false | None => negb (ac_file_exists fs gen_path) end in
    if missing && negb write_ok then (inl 1, fs)
    else
      let fs := if missing then write_embedded_mainnet_genesis fs gen_path else fs in
      let gen := default gen_path (get_opt argv (str "--genesis")) in
      let port o d := u16 (match get_opt argv (str o) with Some s => atoi s | None => d end) in
      (inr (mkNodeCfg (take 511 dd) (take 511 gen)
              (take 63 (default (str "0.0.0.0") (get_opt argv (str "--host")))) (port "--port"%string 30303)
              (take 63 (default (str "127.0.0.1") (get_opt argv (str "--rpc-host")))) (port "--rpc-port"%string 30304)
              (take 127 (default [] (get_opt argv (str "--external-host"))))
              (seed_list (match get_opt argv (str "--seeds") with Some (c :: s) => c :: s | _ => AC_MAINNET_SEEDS end))
              (has_flag argv (str "--validator"))), fs).

Section Boot.
Context `{!Sodium} `{!LongDouble}.

(** [ac_node_start] whole, with the key and the genesis read from their files; [seed] is
    what the random generator would give for a new key. *)
Definition ac_node_boot (cfg : ac_node_config_t) (fs : fs_t) (files : files_t) (seed : bytes AC_SEED_SIZE)
    (key_write_ok : bool) (env : env_t) : option ac_node_t * fs_t :=
  let keypath := ac_join_path 1024 (cf_data_dir cfg) (str "node.key") in
  match ac_node_keypair_load_or_create (fs keypath) seed key_write_ok with
  | (None, _) => (None, fs)
  | (Some (kp, _), key) =>
      let fs := match key with Some text => fs_write fs keypath text | None => fs end in
      let gen := if bool_decide (cf_genesis_path cfg = []) then None
                 else text ← fs (cf_genesis_path cfg); ac_node_load_genesis text in
      (ac_node_start files gen kp (cf_validator cfg) (cf_listen_port cfg) (cf_external_host cfg) env, fs)
  end.
End Boot.

(** ** [main] *)

Inductive command := do_version | do_node | do_keygen | do_pubkey | do_genesis | do_send | do_bond | do_unbond
  | do_balance | do_info | do_usage.
(** The command run with [argv + 1], or the exit code. *)
Definition main (argv : argv_t) : Z + command * argv_t :=
  match argv with
  | _ :: cmd :: _ =>
      let rest := drop 1 argv in
      let named s := bool_decide (cmd = str s) in
      if named "version"%string || named "--version"%string then inr (do_version, rest)
      else if named "node"%string then inr (do_node, rest)
      else if named "keygen"%string then inr (do_keygen, rest)
      else if named "pubkey"%string then inr (do_pubkey, rest)
      else if named "genesis"%string then inr (do_genesis, rest)
      else if named "send"%string then inr (do_send, rest)
      else if named "bond"%string then inr (do_bond, rest)
      else if named "stake"%string then inr (do_bond, rest)
      else if named "unbond"%string then inr (do_unbond, rest)
      else if named "balance"%string then inr (do_balance, rest)
      else if named "info"%string then inr (do_info, rest)
      else if named "--help"%string || named "-h"%string || named "help"%string then inr (do_usage, rest)
      else inl 2
  | _ => inl 2
  end.

(** ** Seeds *)

Lemma tokens_app l cur rest : Forall (λ c, is_comma c = false) l → tokens (l ++ rest) cur = tokens rest (cur ++ l).
Proof.
  intros Hl. revert cur. induction Hl as [|c l Hc _ IH]; intros cur; cbn [app tokens]; [by rewrite app_nil_r|].
  rewrite Hc, IH, <- app_assoc. done.
Qed.

(** A seed as it may stand in the list. *)
Definition seed_text (s : list byte) : Prop := s ≠ [] ∧ head s ≠ Some x20 ∧ Forall (λ c, is_comma c = false) s.
Fixpoint comma_join (l : list (list byte)) : list byte :=
  match l with [] => [] | [s] => s | s :: l' => s ++ x2c :: comma_join l' end.

(** Seeds joined by commas are read back. *)
Lemma seed_list_join l : Forall seed_text l → seed_list (comma_join l) = l.
Proof.
  assert (∀ s, seed_text s → skip_while (λ c, bool_decide (c = x20)) s = s) as Hskip.
  { intros [|c s] (Hne & Hh & _); [done|]. cbn. case_bool_decide as E; [by subst c|done]. }
  intros Hl. unfold seed_list. induction Hl as [|s l Hs Hl IH]; [done|]. pose proof (Hskip s Hs) as Es. destruct Hs as (Hne & _ & Hc).
  destruct l as [|s' l].
  - cbn [comma_join]. rewrite <- (app_nil_r s) at 1. rewrite tokens_app by done. cbn. destruct s; [done|]. cbn [app fmap list_fmap] in *. by rewrite Es.
  - change (comma_join (s :: s' :: l)) with (s ++ x2c :: comma_join (s' :: l)).
    rewrite tokens_app by done. cbn [app tokens]. change (is_comma x2c) with true. cbn iota.
    destruct s as [|c s]; [done|]. by rewrite fmap_cons, Es, IH.
Qed.

(** ** The first run *)

Section FirstRun.
Context `{!Sodium} `{!LongDouble}.

(** With working writes a genesis opens, to its accounts. *)
Lemma genesis_opens f g env : genesis_wf g → f_meta f = None → writes_ok env = true →
  ∃ c, ac_chain_open f (Some g) env = Some c ∧ c_state c = genesis_state g ∧ c_chain_id c = g_chain_id g ∧
    c_genesis_timestamp_ms c = g_timestamp_ms g ∧ c_height c = 0.
Proof.
  intros [Hci Hts Hacc] Hm Hw. unfold writes_ok in Hw. apply andb_true_iff in Hw as [[Hb Hst]%andb_true_iff Hme].
  unfold ac_chain_open, chain_apply_genesis. rewrite Hm.
  match goal with |- context [genesis_accounts ?d (g_accounts g)] =>
    pose proof (genesis_accounts_state (g_accounts g) d) as Es;
    destruct (genesis_accounts_spec (g_accounts g) d) as (s & lv & E & Hs & Hid); [|done|] end.
  { apply ac_state_set_wf; [|by constructor]. constructor; try done; constructor. }
  rewrite E in *. cbn [c_state set_live set_state chain_calloc] in Es. change (s = genesis_state g) in Es.
  unfold block_write. rewrite ac_block_encode_bytes by by apply genesis_block_wf.
  rewrite Hb. cbn [negb]. rewrite meta_save_total, Hme. cbn [negb].
  unfold state_save. cbn [c_state set_files set_tip set_live set_state]. rewrite ac_state_serialize_bytes by done.
  rewrite Hst. eexists. split; [done|]. unfold tx_index_rebuild. cbn. auto.
Qed.
End FirstRun.

Definition mainnet_genesis : ac_genesis_t := mkGenesis 1 1779397200000 mainnet_accounts.

Lemma mainnet_loads : ac_node_load_genesis AC_MAINNET_GENESIS = Some mainnet_genesis.
Proof.
  replace AC_MAINNET_GENESIS with
    (genesis_prologue 1 1779397200000 ++ ((genesis_account <$> mainnet_accounts) ≫= genesis_account_line)) by by vm_compute.
  apply genesis_loads; try done. repeat constructor; by vm_compute.
Qed.
Lemma mainnet_wf : genesis_wf mainnet_genesis.
Proof. constructor; [by vm_compute..|]. repeat constructor; by vm_compute. Qed.
Lemma mainnet_supply : supply (genesis_state mainnet_genesis) = 100000000 * 1000000.
Proof. by vm_compute. Qed.
Lemma mainnet_balances : Forall (λ a, balance (view (genesis_state mainnet_genesis) (ga_addr a)) = ga_balance a ∧
  stake (view (genesis_state mainnet_genesis) (ga_addr a)) = ga_stake a) mainnet_accounts.
Proof. repeat constructor; by vm_compute. Qed.

(** The files of a first run with default options. *)
Definition run_dir (home : list byte) : list byte := home ++ str "/.agentchain".
Definition run_genesis (home : list byte) : list byte := run_dir home ++ str "/genesis.txt".
Definition run_key (home : list byte) : list byte := run_dir home ++ str "/node.key".
Definition run_cfg (home : list byte) : ac_node_config_t :=
  mkNodeCfg (run_dir home) (run_genesis home) (str "0.0.0.0") 30303 (str "127.0.0.1") 30304 []
    [str "34.61.207.49:30303"; str "18.192.176.100:30303"; str "16.171.43.222:30303"] false.

Lemma run_paths_differ home : run_key home ≠ run_genesis home.
Proof. unfold run_key, run_genesis. intros E%app_inv_head. done. Qed.
Lemma run_dir_length home : length (run_dir home) = (length home + 12)%nat.
Proof. unfold run_dir. rewrite length_app. done. Qed.

(** The key of the node is where the other commands look by default. *)
Lemma run_key_default v home : home_dir v = home → (length home <= 400)%nat → default_key_path v 1024 = run_key home.
Proof.
  intros Hv Hl. unfold default_key_path. rewrite Hv.
  replace (home ++ str "/.agentchain/node.key") with (run_key home) by (unfold run_key, run_dir; by rewrite <- app_assoc).
  apply snprintf_fits. unfold run_key. rewrite length_app, run_dir_length. cbn. lia.
Qed.

Lemma run_config v home fs : home_dir v = home → (length home <= 400)%nat → fs (run_genesis home) = None →
  node_config [str "node"] v fs true = (inr (run_cfg home), fs_write fs (run_genesis home) AC_MAINNET_GENESIS).
Proof.
  intros Hv Hl Hg. pose proof (run_dir_length home) as Ld. unfold node_config.
  assert (∀ s, has_flag [str "node"] s = false) as Hf by (intros s; apply bool_decide_false, not_elem_of_nil).
  rewrite !Hf. cbn [orb]. change (get_opt [str "node"]) with (λ _ : list byte, @None (list byte)). cbv beta iota zeta.
  cbn [default from_option]. unfold default_data_dir. rewrite Hv.
  change (home ++ str "/.agentchain") with (run_dir home). rewrite (snprintf_fits 1024 (run_dir home)) by lia.
  unfold ac_join_path. change (run_dir home ++ x2f :: str "genesis.txt") with (run_genesis home).
  assert (length (run_genesis home) = length home + 24)%nat as Lg by (unfold run_genesis; rewrite length_app, Ld; cbn; lia).
  rewrite snprintf_fits by lia. unfold ac_file_exists. rewrite Hg, bool_decide_false by by intros [].
  cbn [negb andb]. rewrite !take_ge by lia. unfold run_cfg. repeat f_equal.
Qed.

Section Joining.
Context `{!Sodium} `{!SodiumLaws _} `{!LongDouble}.

(** A boot whose key file is absent, or holds the key of [seed0]. *)
Lemma boot_spec home fs files seed seed0 env :
  (length home <= 400)%nat → fs (run_genesis home) = Some AC_MAINNET_GENESIS →
  (fs (run_key home) = None ∧ seed0 = seed) ∨ fs (run_key home) = Some (key_bytes (ac_keypair_from_seed seed0)) →
  ac_node_boot (run_cfg home) fs files seed true env =
    (ac_node_start files (Some mainnet_genesis) (ac_keypair_from_seed seed0) false 30303 [] env,
     fs_write fs (run_key home) (key_bytes (ac_keypair_from_seed seed0))).
Proof.
  intros Hl Hg Hk. pose proof (run_dir_length home) as Ld. unfold ac_node_boot. cbn [run_cfg cf_data_dir cf_genesis_path cf_validator cf_listen_port cf_external_host].
  unfold ac_join_path. change (run_dir home ++ x2f :: str "node.key") with (run_key home).
  assert (length (run_key home) = length home + 21)%nat as Lk by (unfold run_key; rewrite length_app, Ld; cbn; lia).
  rewrite snprintf_fits by lia.
  assert (∃ created, ac_node_keypair_load_or_create (fs (run_key home)) seed true =
    (Some (ac_keypair_from_seed seed0, created), Some (key_bytes (ac_keypair_from_seed seed0)))) as [created ->].
  { destruct Hk as [[-> ->] | ->]; unfold ac_node_keypair_load_or_create; [by eexists|]. rewrite key_load_bytes. by eexists. }
  cbv zeta beta iota. rewrite bool_decide_false by (unfold run_genesis, run_dir; intros E%(f_equal length); rewrite !length_app in E; cbn in E; lia).
  rewrite fs_write_other by (intros E; by apply (run_paths_differ home)). rewrite Hg. cbn [mbind option_bind].
  by rewrite mainnet_loads.
Qed.

(** C16. Joining: [agentchain node] without options, in a home without files, writes the
    embedded genesis, creates a key and starts a node on the main network: chain 1 at height
    0, with the three accounts of the genesis and a supply of exactly 100 million CRD with
    the reward pool; the seeds it will dial parse; the key is where the wallet commands look
    for it by default. Started again from its files it has the same identity, tip and state,
    whatever the random generator would have given. *)
Theorem first_run_joins_mainnet vars fs files seed seed' env env' :
  let home := home_dir vars in
  (length home <= 400)%nat → fs (run_genesis home) = None → fs (run_key home) = None →
  f_meta files = None → writes_ok env = true →
  ∃ cfg fs1 n fs2, node_config [str "node"] vars fs true = (inr cfg, fs1) ∧
    ac_node_boot cfg fs1 files seed true env = (Some n, fs2) ∧
    let c := cs_chain (nd_cs n) in
    node_started mainnet_genesis n ∧ c_chain_id c = 1 ∧ c_height c = 0 ∧ supply (c_state c) = 100000000 * 1000000 ∧
    Forall (λ a, balance (view (c_state c) (ga_addr a)) = ga_balance a ∧ stake (view (c_state c) (ga_addr a)) = ga_stake a) mainnet_accounts ∧
    Forall (λ hp, is_Some (dial_parse hp)) (cf_seed_peers cfg) ∧
    fs2 (default_key_path vars 1024) = Some (key_bytes (n_keypair (nd_net n))) ∧
    ∃ n', (ac_node_boot cfg fs2 (c_files c) seed' true env').1 = Some n' ∧
      n_keypair (nd_net n') = n_keypair (nd_net n) ∧ same_tip c (cs_chain (nd_cs n')).
Proof.
  intros home Hl Hg Hk Hm Hw. pose proof (run_paths_differ home) as Hd.
  destruct (genesis_opens files mainnet_genesis env mainnet_wf Hm Hw) as (c & Ho & Es & Eci & _ & Eh).
  destruct (genesis_ok files mainnet_genesis env c mainnet_wf Hm Ho) as [Hlk _].
  set (kp := ac_keypair_from_seed seed). set (fs1 := fs_write fs (run_genesis home) AC_MAINNET_GENESIS).
  set (fs2 := fs_write fs1 (run_key home) (key_bytes kp)).
  assert (fs1 (run_key home) = None) as K1 by (unfold fs1; by rewrite fs_write_other).
  assert (fs1 (run_genesis home) = Some AC_MAINNET_GENESIS) as G1 by apply fs_write_here.
  assert (fs2 (run_key home) = Some (key_bytes kp)) as K2 by apply fs_write_here.
  assert (fs2 (run_genesis home) = Some AC_MAINNET_GENESIS) as G2
    by (unfold fs2; rewrite fs_write_other by (intros E; by apply Hd); done).
  pose proof (boot_spec home fs1 files seed seed env Hl G1 (or_introl (conj K1 eq_refl))) as B1.
  pose proof (boot_spec home fs2 (c_files c) seed' seed env' Hl G2 (or_intror K2)) as B2.
  assert (ac_node_start files (Some mainnet_genesis) kp false 30303 [] env =
    Some (mkNode (ac_net_new (c_chain_id c) kp 30303 []) (ac_consensus_new c (ac_mempool_new (c_chain_id c)) kp true false))) as St
    by (unfold ac_node_start; by rewrite Ho).
  fold kp in B1, B2. rewrite St in B1. eexists _, fs1, _, fs2.
  split; [by apply run_config|]. split; [exact B1|]. cbn [nd_cs nd_net n_keypair ac_net_new cs_chain ac_consensus_new]. cbv zeta.
  split; [by eapply nd_fresh; [apply Hm | exact St]|].
  split; [done|]. split; [done|]. rewrite Es. split; [apply mainnet_supply|].
  split; [exact mainnet_balances|].
  split; [repeat constructor; vm_compute; eexists; reflexivity|]. split.
  { by rewrite (run_key_default vars home). }
  assert (chain_fits c) as Hf by (constructor; rewrite Es; [rewrite <- Es; apply Hlk | by vm_compute..]).
  destruct (reachable_from_ok true _ _ mainnet_wf (reach_genesis true _ files env c Hm Ho)) as [HL Hst].
  destruct (reopen_spec c (Some mainnet_genesis) env' HL (Hst eq_refl) Hf) as (d & Hod & Ht & _).
  rewrite B2. unfold ac_node_start. rewrite Hod. cbn [mbind option_bind fst]. eexists. split; [done|]. split; [done|]. exact Ht.
Qed.
End Joining.

#[local] Existing Instance toy_sodium.
#[local] Existing Instance x87.

Lemma first_run_joins_mainnet_witness :
  ∃ cfg fs1 n fs2, node_config [str "node"] (mkVars false (Some (str "/root")) None) (λ _, None) true = (inr cfg, fs1) ∧
    ac_node_boot cfg fs1 no_files (bytes_of 32 [x01]) true demo_env = (Some n, fs2) ∧
    c_chain_id (cs_chain (nd_cs n)) = 1.
Proof.
  destruct (first_run_joins_mainnet (mkVars false (Some (str "/root")) None) (λ _, None) no_files (bytes_of 32 [x01]) (bytes_of 32 [x02]) demo_env demo_env)
    as (cfg & fs1 & n & fs2 & E1 & E2 & _ & E3 & _); [vm_compute; lia | reflexivity | reflexivity | reflexivity | reflexivity|].
  exists cfg, fs1, n, fs2. split; [exact E1|]. split; [exact E2|]. exact E3.
Defined.

(** A port out of range is taken modulo 2^16 without a word. *)
Lemma port_wraps :
  cf_listen_port <$> (match (node_config [str "node"; str "--port"; str "70000"] (mkVars false None None) (λ _, None) true).1 with inr c => Some c | inl _ => None end)
    = Some 4464.
Proof. vm_compute. reflexivity. Qed.
