(* ===== verification/Sync.v ===== *)
(** * Catching up: serving blocks and adopting them

    A node that sees a block beyond its next height asks for the gap; a peer answers
    with its stored blocks; the node adopts them one by one. *)

From S2P Require Import Prelude Common Crypto Cursor Codec SortedArray State Apply Mempool Econ Chain Accept Ledger Consensus ConsensusFacts Text Net NetFacts Node NodeFacts.

(** ** Queueing several messages *)

Definition queued (o : outbox_t) (l : list (Z * list byte)) : outbox_t :=
  mkOut (o_msgs o ++ l) (o_n o + zlen l) (o_bytes o + sum_with msg_bytes l) (o_closing o).
(** A queue that takes all of [l]. *)
Record room (o : outbox_t) (l : list (Z * list byte)) : Prop := {
  rm_open : o_closing o = false;
  rm_n : o_n o + zlen l <= AC_OUT_QUEUE_MAX_MSGS;
  rm_bytes : o_bytes o + sum_with msg_bytes l <= AC_OUT_QUEUE_MAX_BYTES;
  rm_msgs : Forall (λ m, msg_bytes m <= AC_FRAME_MAX_BYTES - 2) l
}.

Lemma msgs_bytes_nonneg l : 0 <= sum_with msg_bytes l.
Proof. apply sum_with_nonneg. intros m _. unfold msg_bytes. lia. Qed.

Lemma queued_nil o : queued o [] = o.
Proof. destruct o. unfold queued. cbn. by rewrite app_nil_r, !Z.add_0_r. Qed.
Lemma queued_app o l k : queued (queued o l) k = queued o (l ++ k).
Proof. unfold queued. cbn. rewrite sum_with_app, length_app, app_assoc. f_equal; lia. Qed.
Lemma room_cons o m l : room o (m :: l) → room o [m] ∧ room (queued o [m]) l.
Proof.
  intros [H1 H2 H3 H4]. pose proof (msgs_bytes_nonneg l). inversion_clear H4. cbn in H2, H3.
  split; constructor; cbn; try done; try lia; auto.
Qed.

Lemma send_one_room p m : room (p_out p) [m] → send_one p m.1 m.2 = (true, set_out p (queued (p_out p) [m])).
Proof.
  intros [H1 H2 H3 H4%Forall_inv]. unfold send_one, peer_enqueue, queued. cbn in *. unfold msg_bytes in *.
  destruct (Z.ltb_spec (4194304 - 2) (zlen m.2)); [lia|]. rewrite H1.
  destruct (Z.ltb_spec 2048 (o_n (p_out p) + 1)); [lia|].
  destruct (Z.ltb_spec 4194304 (o_bytes (p_out p) + zlen m.2)); [lia|]. rewrite Z.add_0_r. by destruct m.
Qed.

Lemma route_found l a j i : route l a j = Some i → ∃ p, (j <= i)%nat ∧ l !! (i - j)%nat = Some p ∧ routable p = true ∧ p_peer_id p = a.
Proof.
  revert j. induction l as [|q l IH]; intros j; [done|]. cbn [route]. destruct (_ && _) eqn:E.
  - intros [= <-]. apply andb_true_iff in E as [E1 E2%ac_addr_eq_true]. exists q. by rewrite Nat.sub_diag.
  - intros (p & Hle & Hp & Hr)%IH. exists p. replace (i - j)%nat with (S (i - S j)) by lia. split; [lia|done].
Qed.
Lemma route_set_out l a j i p o : l !! i = Some p → route (<[i := set_out p o]> l) a j = route l a j.
Proof.
  revert i j. induction l as [|q l IH]; intros i j Hi; [done|].
  destruct i as [|i]; cbn in *; [by injection Hi as -> | by rewrite IH].
Qed.

Lemma route_set_seen l a j i p t : l !! i = Some p → route (<[i := set_seen p t]> l) a j = route l a j.
Proof.
  revert i j. induction l as [|q l IH]; intros i j Hi; [done|].
  destruct i as [|i]; cbn in *; [by injection Hi as -> | by rewrite IH].
Qed.

Definition send_msgs (x : ac_net_t) (a : ac_addr_t) (l : list (Z * list byte)) : ac_net_t :=
  foldl (λ x m, (ac_net_send_to x a m.1 m.2).2) x l.

Lemma set_out_same p : set_out p (p_out p) = p.
Proof. by destruct p. Qed.

Lemma send_msgs_room l x a i p : route (n_peers x) a 0 = Some i → n_peers x !! i = Some p → room (p_out p) l →
  send_msgs x a l = put_peer x i (set_out p (queued (p_out p) l)).
Proof.
  revert x p. induction l as [|m l IH]; intros x p Hr Hi Hroom.
  - rewrite queued_nil, set_out_same. unfold send_msgs, put_peer. cbn. rewrite list_insert_id by done. by destruct x.
  - destruct (room_cons _ _ _ Hroom) as [H1 H2]. unfold send_msgs. cbn [foldl]. unfold ac_net_send_to at 2.
    rewrite Hr, Hi, (send_one_room p m H1). cbn [snd]. set (p' := set_out p (queued (p_out p) [m])).
    fold (send_msgs (put_peer x i p') a l). rewrite (IH _ p').
    + unfold p', put_peer. cbn. by rewrite list_insert_insert_eq, queued_app.
    + unfold p', put_peer. cbn [n_peers set_peers]. by rewrite route_set_out.
    + cbn. rewrite list_lookup_insert_eq; [done|]. by eapply lookup_lt_Some.
    + done.
Qed.

Lemma queue_nothing n i p : n_peers (nd_net n) !! i = Some p →
  set_net n (put_peer (nd_net n) i (set_out p (queued (p_out p) []))) = n.
Proof.
  intros Hi. rewrite queued_nil, set_out_same. unfold put_peer. rewrite list_insert_id by done. by destruct n as [[] ?].
Qed.

(** ** Serving *)

Section Serving.
Context `{!Sodium} `{!LongDouble}.

(** The stored blocks at heights [from], [from + 1], ... *)
Fixpoint blocks_at (rd : Z → option ac_block_t) (from : Z) (n : nat) : option (list ac_block_t) :=
  match n with
  | O => Some []
  | S n' => k ← rd from; l ← blocks_at rd (from + 1) n'; Some (k :: l)
  end.
Definition block_res (k : ac_block_t) : Z * list byte := (AC_MSG_BLOCK_RES, block_bytes k).

Lemma block_read_wf c h k : block_read c h = Some k → block_wf k.
Proof.
  unfold block_read. destruct (_ !! h) as [buf|]; [|done]. destruct (ac_block_decode buf) as [[k' m]| |] eqn:E; [|done|done].
  intros [= <-]. by apply ac_block_decode_inv in E as [? _].
Qed.

Lemma blocks_at_total c from n : ledger_ok c → 0 <= from → from + Z.of_nat n <= c_height c + 1 →
  ∃ ks, blocks_at (block_read c) from n = Some ks ∧ length ks = n ∧ Forall block_wf ks.
Proof.
  intros [_ _ L]. revert from. induction n as [|n IH]; intros from H1 H2; [by exists []|]. cbn [blocks_at].
  destruct (lk_read _ _ _ _ L from) as (k & Hk & _); [lia|]. rewrite Hk. cbn.
  destruct (IH (from + 1)) as (ks & -> & Hl & Hw); [lia|lia|]. cbn. exists (k :: ks). split; [done|].
  cbn. split; [by f_equal|]. constructor; [by eapply block_read_wf | done].
Qed.

Lemma serve_blocks_spec c n x from a ks : 0 <= from → from + Z.of_nat n <= c_height c + 1 → c_height c + 1 < U64 →
  blocks_at (block_read c) from n = Some ks →
  serve_blocks c x from n a = send_msgs x a (block_res <$> ks).
Proof.
  revert x from ks. induction n as [|n IH]; intros x from ks H1 H2 H3; cbn [blocks_at]; [by intros [= <-]|].
  destruct (block_read c from) as [k|] eqn:Ek; [|done]. cbn.
  destruct (blocks_at _ _ _) as [l|] eqn:El; [|done]. intros [= <-]. cbn [serve_blocks].
  unfold ac_chain_get_block_by_height. rewrite (proj2 (Z.ltb_ge _ _)) by lia. rewrite Ek.
  rewrite ac_block_encode_bytes by (by eapply block_read_wf). replace (from ⊕ 1) with (from + 1) by (unfold U64 in *; warith).
  by rewrite (IH _ _ l) by (done || lia).
Qed.

(** How many blocks a request gets. *)
Definition served (tip from count : Z) : nat := Z.to_nat (Z.min (Z.min count 256) (tip + 1 - from)).

Lemma headers_req_serves_aux n from count a i p :
  ledger_ok (cs_chain (nd_cs n)) → c_height (cs_chain (nd_cs n)) + 257 < U64 →
  is_u64 from → is_u32 count →
  route (n_peers (nd_net n)) a 0 = Some i → n_peers (nd_net n) !! i = Some p →
  let c := cs_chain (nd_cs n) in
  ∃ ks, blocks_at (block_read c) from (served (c_height c) from count) = Some ks ∧
    (room (p_out p) (block_res <$> ks) →
     on_headers_req_cb n from count a =
       set_net n (put_peer (nd_net n) i (set_out p (queued (p_out p) (block_res <$> ks))))).
Proof.
  intros HL Hh Hf Hc Hr Hi c. set (m := served _ _ _). unfold is_u64, is_u32 in *.
  pose proof (lk_height _ _ _ _ (lg_linked _ HL)) as H0'. fold c in Hh, H0', HL.
  destruct (decide (count = 0)) as [-> |Hc0].
  { assert (m = 0%nat) as -> by (unfold m, served; lia). exists []. split; [done|]. intros _. by rewrite queue_nothing. }
  destruct (decide (c_height c < from)) as [Hgt|Hle].
  { assert (m = 0%nat) as -> by (unfold m, served; lia). exists []. split; [done|]. intros _. rewrite queue_nothing by done.
    unfold on_headers_req_cb. fold c. by rewrite (proj2 (Z.eqb_neq count 0) Hc0), (proj2 (Z.ltb_lt _ _) Hgt). }
  destruct (blocks_at_total c from m HL) as (ks & Hks & Hlen & _); [lia|unfold m, served; lia|].
  exists ks. split; [done|]. intros Hroom. rewrite <- (send_msgs_room _ _ a) by done.
  rewrite <- (serve_blocks_spec c m (nd_net n) from) by (done || unfold m, served; lia).
  unfold on_headers_req_cb. fold c. rewrite (proj2 (Z.eqb_neq count 0) Hc0), (proj2 (Z.ltb_ge _ _)) by lia.
  set (ct := if 256 <? count then 256 else count).
  assert (ct = Z.min count 256) as Ect by (unfold ct; destruct (Z.ltb_spec 256 count); lia). clearbody ct. subst ct.
  do 2 f_equal. unfold m, served. f_equal.
  assert ((c_height c ⊕ 1) = c_height c + 1) as -> by (unfold U64 in *; warith).
  assert ((from ⊕ Z.min count 256) = from + Z.min count 256) as -> by (unfold U64 in *; warith).
  destruct (Z.ltb_spec (c_height c + 1) (from + Z.min count 256)); [|lia].
  rewrite Z.min_r by lia. unfold U64 in *. warith.
Qed.

Lemma blocks_at_length rd from n ks : blocks_at rd from n = Some ks → length ks = n.
Proof.
  revert from ks. induction n as [|n IH]; intros from ks; cbn; [by intros [= <-]|].
  destruct (rd from); [|done]. cbn. destruct (blocks_at rd _ n) eqn:E; [|done]. intros [= <-]. cbn. f_equal. by eapply IH.
Qed.
Lemma blocks_at_lookup rd from n ks x k : blocks_at rd from n = Some ks → ks !! x = Some k → rd (from + Z.of_nat x) = Some k.
Proof.
  revert from ks x. induction n as [|n IH]; intros from ks x; cbn; [by intros [= <-]|].
  destruct (rd from) eqn:E1; [|done]. cbn. destruct (blocks_at rd _ n) as [l|] eqn:E; [|done]. intros [= <-].
  destruct x as [|x]; cbn; [intros [= <-]; by rewrite Z.add_0_r|]. intros Hx. rewrite <- (IH _ _ x E Hx). f_equal. lia.
Qed.

(** A request for blocks is answered with the stored blocks: for a start at or below the
    tip, the peer's queue gains exactly the blocks of consecutive heights from there on, in
    order and as stored, up to the requested count, 256 and the tip, and nothing else of the
    node changes, provided the queue has room. A start above the tip or a count of zero
    gets nothing. *)
Theorem headers_req_serves n from count a i p :
  ledger_ok (cs_chain (nd_cs n)) → c_height (cs_chain (nd_cs n)) + 257 < U64 →
  is_u64 from → is_u32 count →
  route (n_peers (nd_net n)) a 0 = Some i → n_peers (nd_net n) !! i = Some p →
  let c := cs_chain (nd_cs n) in
  let m := served (c_height c) from count in
  ∃ ks, blocks_at (block_read c) from m = Some ks ∧ length ks = m ∧
    (room (p_out p) (block_res <$> ks) →
     on_headers_req_cb n from count a =
       set_net n (put_peer (nd_net n) i (set_out p (queued (p_out p) (block_res <$> ks))))).
Proof.
  intros HL Hh Hf Hc Hr Hi. cbv zeta. destruct (headers_req_serves_aux n from count a i p) as (ks & Hks & Hq); [done..|].
  exists ks. split; [done|]. split; [by eapply blocks_at_length | done].
Qed.
End Serving.

(** ** Acceptance and the seed cache

    Two chains that differ in the seed cache only accept the same blocks, and still
    differ in the cache only. *)
Section Cache.
Context `{!Sodium} `{!LongDouble}.

Lemma record_signers_cache c l h e s v : record_signers (set_cache c e s v) l h = set_cache (record_signers c l h) e s v.
Proof.
  revert c. induction l as [|x l IH]; intros c; [done|]. cbn [record_signers].
  assert (live_record_signer (set_cache c e s v) (cs_signer x) h = set_cache (live_record_signer c (cs_signer x) h) e s v) as ->.
  { unfold live_record_signer. cbn. destruct (live_update _ _ _); [done|]. by destruct (_ <? _). }
  apply IH.
Qed.
Lemma record_addr_txs_cache c l h i e s v : record_addr_txs (set_cache c e s v) l h i = set_cache (record_addr_txs c l h i) e s v.
Proof.
  revert c i. induction l as [|x l IH]; intros c i; [done|]. cbn [record_addr_txs].
  assert (addr_index_record_tx (set_cache c e s v) x h i = set_cache (addr_index_record_tx c x h i) e s v) as ->; [|apply IH].
  unfold addr_index_record_tx. destruct (_ && _); [|done]. by destruct (negb _).
Qed.
Lemma record_tx_hashes_cache c l h i e s v : record_tx_hashes (set_cache c e s v) l h i = set_cache (record_tx_hashes c l h i) e s v.
Proof. revert c i. induction l as [|x l IH]; intros c i; [done|]. cbn [record_tx_hashes]. apply (IH (tx_index_add c (ac_tx_hash x) h i)). Qed.

Lemma commit_block_cache c k bh env e s v : ∃ e' s' v',
  commit_block (set_cache c e s v) k bh env =
    ((commit_block c k bh env).1, set_cache (commit_block c k bh env).2 e' s' v').
Proof.
  unfold commit_block, block_write, state_save. cbn [c_state c_files set_cache].
  destruct (ac_block_encode k) as [enc|]; [|by exists e, s, v].
  destruct (w_block env); cbn [negb fst snd]; [|by exists e, s, v].
  destruct (ac_state_serialize _) as [st|]; [|by exists e, s, v].
  destruct (w_state env); cbn [negb fst snd]; [|by exists e, s, v].
  rewrite !meta_save_total. destruct (w_meta env); cbn [negb fst snd]; [|by exists e, s, v].
  match goal with |- ∃ _ _ _, (_, set_cache (record_tx_hashes (record_addr_txs (record_signers ?x1 _ _) _ _ _) _ _ _) _ _ _) =
      (_, set_cache (set_cache (record_tx_hashes (record_addr_txs (record_signers ?x0 _ _) _ _ _) _ _ _) _ _ _) _ _ _) =>
    change x1 with (set_cache x0 e s v) end.
  rewrite record_signers_cache, record_addr_txs_cache, record_tx_hashes_cache. by eexists _, _, _.
Qed.
Lemma header_ok_cache c c' h now : cache_only c c' → cache_ok c → header_ok c h now → header_ok c' h now.
Proof.
  intros Hco Hc Hh.
  assert ((validate_proposer_vrf c' h).1 = (validate_proposer_vrf c h).1) as Ev.
  { pose proof (epoch_seed_spec c (ac_epoch_of (h_slot h)) Hc) as (E1 & _).
    pose proof (epoch_seed_spec c' (ac_epoch_of (h_slot h)) (proj2 Hco Hc)) as (E2 & _).
    rewrite (cache_ok_compute c c') in E2 by done. rewrite <- E1 in E2.
    unfold validate_proposer_vrf. replace (c_state c') with (c_state c) by (by destruct Hco as [(? & ? & ? & ->) _]).
    destruct (ac_state_get _ _) as [[] a]; [|done]. cbn [negb]. destruct (_ <? _); [done|].
    destruct (ac_chain_epoch_seed c _) as [s1 d1], (ac_chain_epoch_seed c' _) as [s2 d2]. cbn in E2. subst s2.
    by destruct (ac_vrf_verify _ _ _). }
  destruct Hh. rewrite <- Ev in *. destruct Hco as [(? & ? & ? & ->) _]. by constructor.
Qed.

Lemma accept_cache c c' k env : cache_only c c' → cache_ok c → chain_fits c → block_wf k → 0 <= c_height c →
  (ac_chain_accept_block c k env).1 = AC_ACCEPT_OK →
  (ac_chain_accept_block c' k env).1 = AC_ACCEPT_OK ∧
  cache_only (ac_chain_accept_block c k env).2 (ac_chain_accept_block c' k env).2.
Proof.
  intros Hco Hc Hf Hk Hh Hok. pose proof (proj2 Hco Hc) as Hc'. pose proof (chain_fits_cache _ _ Hco Hf) as Hf'.
  assert (0 <= c_height c') as Hh' by (by destruct Hco as [(? & ? & ? & ->) _]).
  pose proof Hok as (Hho & Hbo & Hw)%accept_iff; [|done..].
  assert ((ac_chain_accept_block c' k env).1 = AC_ACCEPT_OK) as Hok'.
  { apply accept_iff; [done..|]. split; [by eapply header_ok_cache|]. split; [by apply (body_ok_cache c c') | done]. }
  split; [done|]. split.
  - destruct (accept_cases c k env Hf Hk Hh Hc) as [([? _] & _)|(_ & _ & c1 & [(e1 & s1 & v1 & E1) _] & _ & ->)]; [done|].
    destruct (accept_cases c' k env Hf' Hk Hh' Hc') as [([? _] & _)|(_ & _ & c2 & [(e2 & s2 & v2 & E2) _] & _ & ->)]; [done|].
    assert (c2 = set_cache c1 e2 s2 v2) as -> by (rewrite E1, E2; by destruct Hco as [(? & ? & ? & ->) _]).
    destruct (commit_block_cache c1 k (ac_block_hash (header k)) env e2 s2 v2) as (e & s & v & ->). by eexists _, _, _.
  - intros _. destruct (accept_ok_inv c' k env Hf' Hk Hh' Hc' Hok') as (_ & _ & Hcm).
    unfold cache_ok. by rewrite (cm_cache _ _ _ _ Hcm).
Qed.

Lemma quorum_cache c c' l : cache_only c c' → quorum_reached c' l = quorum_reached c l.
Proof. intros [(e & s & v & ->) _]. unfold quorum_reached. by rewrite live_sqrt_stake_cache. Qed.
End Cache.

(** ** Adopting certified blocks *)

Section Adopt.
Context `{!Sodium} `{!LongDouble}.

(** A block the chain accepts, with a certificate that passes the engine's gates, in a
    slot that is over. *)
Record certified (c : ac_chain_t) (k : ac_block_t) (env : cenv_t) : Prop := {
  ce_fits : chain_fits c;
  ce_wf : block_wf k;
  ce_accept : (ac_chain_accept_block c k (e_io env)).1 = AC_ACCEPT_OK;
  ce_quorum : quorum_reached c (signers k) = true;
  ce_behind : (h_slot (header k) ⊕ 1) < ac_chain_current_slot c (t_wall env)
}.

Lemma certified_cache c c' k env : cache_only c c' → cache_ok c → 0 <= c_height c → certified c k env → certified c' k env.
Proof.
  intros Hco Hc Hh [Hf Hw Ha Hq Hb]. constructor; [by eapply chain_fits_cache | done | | by rewrite (quorum_cache c) |].
  - by apply (accept_cache c c').
  - by destruct Hco as [(? & ? & ? & ->) _].
Qed.

Lemma pending_find_none cs h : pending_find cs h = None ↔
  Forall (λ p, pn_occupied p && ac_hash_eq (pn_block_hash p) h = false) (cs_pending cs).
Proof.
  unfold pending_find. pose proof (scan_spec (λ p, pn_occupied p && ac_hash_eq (pn_block_hash p) h) (cs_pending cs) 0) as Hs.
  destruct (scan _ _ _) as [i|]; [|done]. destruct Hs as (l1 & p & l2 & -> & _ & Hp & _). split; [done|].
  rewrite Forall_app, Forall_cons. rewrite Hp. by intros (_ & ? & _).
Qed.

Lemma alloc_index_lt l i old j : alloc_index l i old = Some j → (∀ o, old = Some o → (o.1 < i)%nat) →
  (j < i + length l)%nat.
Proof.
  revert i old. induction l as [|p l IH]; intros i old; cbn.
  - destruct old as [[o t]|]; [|done]. intros [= <-] Ho. specialize (Ho _ eq_refl). cbn in Ho. lia.
  - destruct (negb _); [intros [= <-]; lia|]. intros Hj Ho. apply IH in Hj; [lia|].
    intros o. destruct old as [[o' t]|].
    + specialize (Ho _ eq_refl). cbn in Ho. destruct (_ <? _); intros [= <-]; cbn; lia.
    + intros [= <-]. cbn. lia.
Qed.

Lemma try_commit_certified cs i p env c :
  cs_pending cs !! i = Some p → pn_occupied p = true → pn_committed p = false →
  quorum_reached (cs_chain cs) (pn_signers p) = true →
  (pn_slot p ⊕ 1) < ac_chain_current_slot (cs_chain cs) (t_wall env) →
  ac_chain_accept_block (cs_chain cs) (with_signers (pn_block p) (pn_signers p)) (e_io env) = (AC_ACCEPT_OK, c) →
  let cs' := try_commit cs i env in
  cs_chain cs' = c ∧ ∃ q, cs_pending cs' = <[i := q]> (cs_pending cs) ∧ pn_block_hash q = pn_block_hash p.
Proof.
  intros Hi Ho Hc Hq Hb Ha. cbv zeta. unfold try_commit, try_commit_inner. rewrite Hi, Ho, Hc, Hq. cbn [negb orb].
  rewrite (proj2 (Z.ltb_lt _ _) Hb), Ha. cbn [negb andb].
  destruct (ac_block_encode _); [unfold bcast; cbn; destruct (cs_bcast cs)|]; cbn; (split; [done|]); by eexists.
Qed.

(** What the handler does with a block it has not seen that extends its tip. *)
Lemma handle_next_block cs k env beta : block_wf k → pending_find cs (ac_block_hash (header k)) = None →
  header_ok (cs_chain cs) (header k) (now_ms (e_io env)) →
  let '(seed, c) := ac_chain_epoch_seed (cs_chain cs) (ac_epoch_of (h_slot (header k))) in
  ac_vrf_verify (h_proposer_vrf_proof (header k)) (leader_alpha seed (h_slot (header k))) (h_proposer (header k)) = Some beta →
  let pr := compute_priority beta (ac_isqrt_u64 (stake (ac_state_get (c_state c) (h_proposer (header k))).2)) in
  let '(i, cs1) := stash (set_chain cs c) k (ac_block_hash (header k)) (h_slot (header k)) (signers k) pr (t_alloc env) in
  ac_consensus_handle_block cs (block_bytes k) env = try_commit (note_priority cs1 (h_slot (header k)) pr) i env.
Proof.
  intros Hk Hf Hho. unfold ac_consensus_handle_block.
  pose proof (ac_block_decode_bytes k [] Hk) as E. rewrite app_nil_r in E. rewrite E.
  rewrite (ho_version _ _ _ Hho). cbn [negb Z.eqb Pos.eqb]. rewrite Hf.
  rewrite <- (ho_height _ _ _ Hho), Z.ltb_irrefl, Z.eqb_refl, (proj2 (ac_hash_eq_true _ _) (ho_parent _ _ _ Hho)).
  cbn [negb orb]. rewrite (take_ge (signers k)) by (pose proof (wf_signers_max _ Hk); lia).
  destruct (ac_chain_epoch_seed _ _) as [seed c]. intros ->. cbv zeta. by destruct (stash _ _ _ _ _ _ _).
Qed.

Lemma note_priority_frame cs slot pr : cs_chain (note_priority cs slot pr) = cs_chain cs ∧
  cs_pending (note_priority cs slot pr) = cs_pending cs.
Proof. unfold note_priority, slot_vote_for. by destruct (slot_index _ _ _ _); destruct (is_lt _). Qed.

Lemma handle_certified cs k env : cs_ok cs → certified (cs_chain cs) k env →
  pending_find cs (ac_block_hash (header k)) = None →
  let cs' := ac_consensus_handle_block cs (block_bytes k) env in
  cache_only (ac_chain_accept_block (cs_chain cs) k (e_io env)).2 (cs_chain cs') ∧
  ∀ h, h ≠ ac_block_hash (header k) → pending_find cs h = None → pending_find cs' h = None.
Proof.
  intros Hcs Hce Hfind. pose proof (co_ledger _ Hcs) as HL. pose proof (lk_height _ _ _ _ (lg_linked _ HL)) as Hh.
  pose proof (lg_cache _ HL) as Hcache. destruct (Hce) as [Hf Hk Ha _ _].
  pose proof Ha as (Hho & _ & _)%accept_iff; [|done..].
  pose proof (epoch_seed_cache_only (cs_chain cs) (ac_epoch_of (h_slot (header k)))) as Hco.
  pose proof (ho_proposer _ _ _ Hho) as Hp. unfold validate_proposer_vrf in Hp.
  destruct (ac_state_get _ _) as [[] acc]; [|done]. cbn [negb] in Hp. destruct (_ <? _); [done|].
  assert (∀ beta, _) as Hnext by (intros beta; exact (handle_next_block cs k env beta Hk Hfind Hho)).
  destruct (ac_chain_epoch_seed _ _) as [seed c1]. cbn [snd] in Hco.
  destruct (ac_vrf_verify _ _ _) as [beta|]; [|done]. specialize (Hnext beta eq_refl). cbv zeta in Hnext |- *.
  set (pr := compute_priority _ _) in *. unfold stash, pending_alloc in Hnext. cbn [cs_pending set_chain] in Hnext.
  set (i := default 0%nat _) in *.
  assert (i < length (cs_pending cs))%nat as Hi.
  { unfold i. destruct (alloc_index _ _ _) as [j|] eqn:Ej; cbn; [|rewrite (co_pending_n _ Hcs); lia].
    by apply alloc_index_lt in Ej. }
  set (p := mkPending true false _ _ _ _ _ _ _ _) in Hnext. set (cs1 := note_priority _ _ _) in Hnext.
  assert (cs_chain cs1 = c1 ∧ cs_pending cs1 = <[i := p]> (cs_pending cs)) as [Ec Ep].
  { destruct (note_priority_frame (put_pending (put_pending (set_chain cs c1) i (pending_init true (t_alloc env))) i p)
      (h_slot (header k)) pr) as [E1 E2]. unfold cs1. rewrite E1, E2. cbn. by rewrite list_insert_insert_eq. }
  destruct (certified_cache _ _ k env Hco Hcache Hh Hce) as [_ _ Ha1 Hq1 Hb1].
  destruct (accept_cache _ _ k (e_io env) Hco Hcache Hf Hk Hh Ha) as [_ Hres].
  destruct (try_commit_certified cs1 i p env (ac_chain_accept_block c1 k (e_io env)).2) as (Ech & q & Eq & Eqh);
    [by rewrite Ep, list_lookup_insert_eq | done | done | by rewrite Ec | by rewrite Ec | |].
  { rewrite Ec. change (with_signers (pn_block p) (pn_signers p)) with (mkBlock (header k) (txs k) (signers k)).
    rewrite (surjective_pairing (ac_chain_accept_block c1 _ _)). by destruct k; cbn; rewrite Ha1. }
  rewrite Hnext, Ech. split; [done|]. intros h Hne Hn. apply pending_find_none in Hn. apply pending_find_none.
  rewrite Eq, Ep, list_insert_insert_eq. apply Forall_insert; [done|]. rewrite Eqh. cbn.
  by rewrite (proj2 (ac_hash_eq_false _ _)) by done; rewrite andb_false_r.
Qed.
(** A sequence of blocks, each with the environment it arrives in. *)
Fixpoint accept_all (c : ac_chain_t) (l : list (ac_block_t * cenv_t)) : ac_chain_t :=
  match l with [] => c | (k, env) :: l' => accept_all (ac_chain_accept_block c k (e_io env)).2 l' end.
Fixpoint adoptable (c : ac_chain_t) (l : list (ac_block_t * cenv_t)) : Prop :=
  match l with
  | [] => True
  | (k, env) :: l' => certified c k env ∧ adoptable (ac_chain_accept_block c k (e_io env)).2 l'
  end.

Lemma adoptable_cache l c c' : ledger_ok c → cache_only c c' → adoptable c l →
  adoptable c' l ∧ cache_only (accept_all c l) (accept_all c' l).
Proof.
  revert c c'. induction l as [|[k env] l IH]; intros c c' HL Hco; [done|]. cbn. intros [Hce Had].
  pose proof (lk_height _ _ _ _ (lg_linked _ HL)) as Hh. destruct (Hce) as [Hf Hk Ha _ _].
  destruct (accept_cache c c' k (e_io env) Hco (lg_cache _ HL) Hf Hk Hh Ha) as [_ Hres].
  destruct (IH _ _ (accept_ledger c k (e_io env) HL Hf Hk) Hres Had) as [H1 H2].
  split; [|done]. split; [|done]. by eapply certified_cache; [done|apply HL|..].
Qed.

Lemma accept_all_spec l c : ledger_ok c → adoptable c l →
  ledger_ok (accept_all c l) ∧ c_height (accept_all c l) = c_height c + zlen l ∧
  (∀ h, h <= c_height c → block_read (accept_all c l) h = block_read c h) ∧
  ∀ j m, l !! j = Some m → block_read (accept_all c l) (c_height c + 1 + Z.of_nat j) = Some m.1.
Proof.
  revert c. induction l as [|[k env] l IH]; intros c HL; cbn [adoptable accept_all].
  { intros _. split; [done|]. split; [cbn; lia|]. split; [done|]. by intros []. }
  intros [[Hf Hk Ha _ _] Had]. pose proof (lk_height _ _ _ _ (lg_linked _ HL)) as Hh.
  destruct (accept_ok_inv c k (e_io env) Hf Hk Hh (lg_cache _ HL) Ha) as (Hho & Hbo & Hcm).
  pose proof (ex_height _ _ (checks_extend c k _ HL Hk Hho Hbo)) as Eh.
  destruct (committed_read _ _ _ _ Hk Hcm) as [Hr1 Hr2]. pose proof (cm_height _ _ _ _ Hcm) as Ec.
  destruct (IH _ (accept_ledger c k (e_io env) HL Hf Hk) Had) as (H1 & H2 & H3 & H4).
  rewrite Ec, Eh in *. split; [done|]. split; [cbn; lia|]. split.
  - intros h Hle. rewrite H3 by lia. rewrite Hr2 by lia. done.
  - intros [|j] m; cbn [lookup list_lookup].
    + intros [= <-]. cbn [fst]. rewrite Z.add_0_r, H3 by lia. done.
    + intros Hm. rewrite <- (H4 j m Hm). f_equal. lia.
Qed.

Definition receive (cs : ac_consensus_t) (m : ac_block_t * cenv_t) : ac_consensus_t :=
  ac_consensus_handle_block cs (block_bytes m.1) m.2.
Definition fresh_hashes (cs : ac_consensus_t) (ks : list ac_block_t) : Prop :=
  NoDup ((λ k, ac_block_hash (header k)) <$> ks) ∧ Forall (λ k, pending_find cs (ac_block_hash (header k)) = None) ks.

Lemma receive_step cs k env ks : cs_ok cs → certified (cs_chain cs) k env → fresh_hashes cs (k :: ks) →
  cs_ok (receive cs (k, env)) ∧ fresh_hashes (receive cs (k, env)) ks ∧
  cache_only (ac_chain_accept_block (cs_chain cs) k (e_io env)).2 (cs_chain (receive cs (k, env))).
Proof.
  intros Hcs Hce [[Hnin Hnd]%NoDup_cons [Hk Hks]%Forall_cons]. destruct (handle_certified cs k env Hcs Hce Hk) as [H1 H2].
  split; [apply handle_block_ok; [done|apply Hce]|]. split; [|done]. split; [done|].
  apply Forall_forall. intros k' Hin. rewrite Forall_forall in Hks. apply H2; [|by apply Hks].
  intros Eh. apply Hnin. rewrite <- Eh. by apply (list_elem_of_fmap_2 (λ k, ac_block_hash (header k))).
Qed.

Lemma receive_all l cs : cs_ok cs → adoptable (cs_chain cs) l → fresh_hashes cs l.*1 →
  cache_only (accept_all (cs_chain cs) l) (cs_chain (foldl receive cs l)).
Proof.
  revert cs. induction l as [|[k env] l IH]; intros cs Hcs; [intros; apply cache_only_refl|].
  cbn [adoptable accept_all foldl]. intros [Hce Had] Hfr.
  destruct (receive_step cs k env l.*1 Hcs Hce Hfr) as (H1 & H2 & H3).
  destruct Hce as [Hf Hk _ _ _].
  destruct (adoptable_cache l _ _ (accept_ledger _ k (e_io env) (co_ledger _ Hcs) Hf Hk) H3 Had) as [H4 H5].
  eapply cache_only_trans; [exact H5|]. by apply IH.
Qed.
End Adopt.

(** ** A round of catching up *)

Section Round.
Context `{!Sodium} `{!LongDouble}.

Definition header_request (from count : Z) : list byte := ac_be64 from ++ ac_be32 count.

(** A block from the future makes the engine ask for the gap, and nothing else. *)
Lemma future_block_requests cs k env :
  block_wf k → h_version (header k) = AC_BLOCK_VERSION → pending_find cs (ac_block_hash (header k)) = None →
  0 <= c_height (cs_chain cs) → c_height (cs_chain cs) + 1 < h_height (header k) →
  cs_bcast cs = true → AC_HDRS_REQ_MIN_INTERVAL_MS <= (t_req env ⊖ cs_last_hdrs_req_ms cs) →
  let gap := h_height (header k) - c_height (cs_chain cs) in
  ac_consensus_handle_block cs (block_bytes k) env =
    bcast (set_hdrs_req cs (t_req env) (h_height (header k))) AC_MSG_HEADERS_REQ
      (header_request (c_height (cs_chain cs) + 1) (Z.min (u32 gap) 256)).
Proof.
  intros Hk Hv Hf Hh Hgt Hb Hst gap. pose proof (wf_h_height _ (wf_header _ Hk)) as Hu. unfold is_u64 in Hu.
  unfold ac_consensus_handle_block. pose proof (ac_block_decode_bytes k [] Hk) as E. rewrite app_nil_r in E. rewrite E, Hv, Hf.
  cbn [negb Z.eqb Pos.eqb].
  assert ((c_height (cs_chain cs) ⊕ 1) = c_height (cs_chain cs) + 1) as E1 by (unfold U64 in *; warith).
  rewrite E1, (proj2 (Z.ltb_lt _ _) Hgt). unfold request_headers. rewrite Hb, (proj2 (Z.leb_le _ _) Hst). cbn [orb andb].
  rewrite E1. assert ((h_height (header k) ⊖ c_height (cs_chain cs)) = gap) as -> by (unfold gap, U64 in *; warith).
  unfold header_request. destruct (Z.ltb_spec 256 (u32 gap)); [rewrite Z.min_r by lia | rewrite Z.min_l by lia]; done.
Qed.

(** A gap of 2^32 blocks is asked for as zero blocks. *)
Lemma request_truncates cs k env :
  block_wf k → h_version (header k) = AC_BLOCK_VERSION → pending_find cs (ac_block_hash (header k)) = None →
  0 <= c_height (cs_chain cs) → h_height (header k) = c_height (cs_chain cs) + U32 →
  cs_bcast cs = true → AC_HDRS_REQ_MIN_INTERVAL_MS <= (t_req env ⊖ cs_last_hdrs_req_ms cs) →
  cs_sent (ac_consensus_handle_block cs (block_bytes k) env) =
    cs_sent cs ++ [(AC_MSG_HEADERS_REQ, header_request (c_height (cs_chain cs) + 1) 0)].
Proof.
  intros Hk Hv Hf Hh Hgt Hb Hst. rewrite future_block_requests by (done || (rewrite Hgt; unfold U32; lia)).
  unfold bcast. cbn. rewrite Hb. cbn. do 3 f_equal. rewrite Hgt. f_equal.
  replace (c_height (cs_chain cs) + U32 - c_height (cs_chain cs)) with U32 by lia. done.
Qed.

Lemma header_request_parse from count : is_u64 from → is_u32 count →
  ac_rd64 (slice (header_request from count) 0 8) = from ∧ ac_rd32 (slice (header_request from count) 8 4) = count ∧
  length (header_request from count) = 12%nat.
Proof.
  intros Hf Hc. pose proof (slice_app_mid [] (ac_be64 from) (ac_be32 count)) as S1.
  pose proof (slice_app_mid (ac_be64 from) (ac_be32 count) []) as S2. rewrite app_nil_r in S2. cbn in S1.
  unfold header_request. change (length (ac_be64 from)) with 8%nat in *. change (length (ac_be32 count)) with 4%nat in *.
  rewrite S1, S2, ac_rd64_be64, ac_rd32_be32. split; [by apply u64_id|]. split; [|by rewrite length_app]. unfold is_u32 in Hc. warith.
Qed.

Lemma header_request_message env n i p from count : n_peers (nd_net n) !! i = Some p → is_u64 from → is_u32 count →
  node_message env n i AC_MSG_HEADERS_REQ (header_request from count) =
    on_headers_req_cb (set_net n (put_peer (nd_net n) i (set_seen p (ne_now env)))) from count (p_peer_id p).
Proof.
  intros Hi Hf Hc. destruct (header_request_parse from count Hf Hc) as (E1 & E2 & E3).
  unfold node_message, dispatch_message. cbn [w_net w_set_net node_world]. rewrite Hi, E1, E2, E3. done.
Qed.

Definition cs_of (m : ac_block_t * nenv_t) : ac_block_t * cenv_t := (m.1, ne_cs m.2).
Definition receive_res (j : nat) (n : ac_node_t) (m : ac_block_t * nenv_t) : ac_node_t :=
  node_message m.2 n j AC_MSG_BLOCK_RES (block_bytes m.1).

Lemma receive_res_cs j n m : node_ok n → (j < AC_MAX_PEERS)%nat → nd_cs (receive_res j n m) = receive (nd_cs n) (cs_of m).
Proof.
  intros Hn Hj. unfold receive_res, node_message, dispatch_message. cbn [w_net w_set_net node_world].
  rewrite <- (no_peers_n _ (nk_net n Hn)) in Hj. apply lookup_lt_is_Some_2 in Hj as [p ->]. done.
Qed.

Lemma receive_res_all l j n : node_ok n → (j < AC_MAX_PEERS)%nat → adoptable (cs_chain (nd_cs n)) (cs_of <$> l) →
  fresh_hashes (nd_cs n) l.*1 → nd_cs (foldl (receive_res j) n l) = foldl receive (nd_cs n) (cs_of <$> l).
Proof.
  intros Hn Hj. revert n Hn. induction l as [|m l IH]; intros n Hn; [done|].
  cbn [fmap list_fmap foldl adoptable]. intros [Hce Had] Hfr.
  pose proof (receive_res_cs j n m Hn Hj) as E.
  destruct (receive_step (nd_cs n) m.1 (ne_cs m.2) l.*1 (nk_cs n Hn) Hce Hfr) as (H1 & H2 & H3).
  rewrite <- E. apply IH.
  - by apply (node_message_adv false); [|apply Hce|].
  - rewrite E. by apply (adoptable_cache _ _ _ (accept_ledger _ m.1 (e_io (ne_cs m.2)) (co_ledger _ (nk_cs n Hn)) (ce_fits _ _ _ Hce) (ce_wf _ _ _ Hce)) H3).
  - by rewrite E.
Qed.
(** C8. A node that fell behind catches up in one round. When it hears of a block beyond its
    next height it asks for the gap; a peer that has those blocks, on receiving the request,
    queues them for it, and nothing else; and when they arrive, each being one the node's
    chain accepts with a certificate the engine's gates pass, the node ends that many
    blocks higher, with the blocks of the peer at those heights and its older blocks
    untouched: the chain it would have by accepting them directly, up to the seed cache.
    The gap is below 2^32 (and at most 256 blocks of it are asked for), the rate limit
    allows a request, the peer's queue has room for the blocks, and the node has none of
    them pending. *)
Theorem sync_round (A B : ac_node_t) (k : ac_block_t) (env : cenv_t) (i j : nat) (p : peer_t) (enva : nenv_t)
    (envs : list nenv_t) (ks : list ac_block_t) :
  node_ok A → node_ok B → (j < AC_MAX_PEERS)%nat →
  let cb := cs_chain (nd_cs B) in let ca := cs_chain (nd_cs A) in
  let gap := h_height (header k) - c_height cb in
  let m := served (c_height ca) (c_height cb + 1) gap in
  block_wf k → h_version (header k) = AC_BLOCK_VERSION → pending_find (nd_cs B) (ac_block_hash (header k)) = None →
  1 < gap < U32 → c_height ca + 257 < U64 → cs_bcast (nd_cs B) = true →
  AC_HDRS_REQ_MIN_INTERVAL_MS <= (t_req env ⊖ cs_last_hdrs_req_ms (nd_cs B)) →
  n_peers (nd_net A) !! i = Some p → route (n_peers (nd_net A)) (p_peer_id p) 0 = Some i →
  blocks_at (block_read ca) (c_height cb + 1) m = Some ks → room (p_out p) (block_res <$> ks) →
  length envs = m → adoptable cb (cs_of <$> zip ks envs) → fresh_hashes (nd_cs B) ks →
  let req := header_request (c_height cb + 1) (Z.min gap 256) in
  cs_sent (ac_consensus_handle_block (nd_cs B) (block_bytes k) env) = cs_sent (nd_cs B) ++ [(AC_MSG_HEADERS_REQ, req)] ∧
  node_message enva A i AC_MSG_HEADERS_REQ req =
    set_net A (put_peer (nd_net A) i (set_out (set_seen p (ne_now enva)) (queued (p_out p) (block_res <$> ks)))) ∧
  let cb' := cs_chain (nd_cs (foldl (receive_res j) B (zip ks envs))) in
  cache_only (accept_all cb (cs_of <$> zip ks envs)) cb' ∧
  c_height cb' = c_height cb + Z.of_nat m ∧
  (∀ h, h <= c_height cb → block_read cb' h = block_read cb h) ∧
  (∀ x, (x < m)%nat → block_read cb' (c_height cb + 1 + Z.of_nat x) = block_read ca (c_height cb + 1 + Z.of_nat x)).
Proof.
  intros HA HB Hj cb ca gap m Hk Hv Hf Hgap Hh Hbc Hst Hi Hr Hks Hroom Hlen Had Hfr req.
  pose proof (co_ledger _ (nk_cs B HB)) as HLB. pose proof (co_ledger _ (nk_cs A HA)) as HLA. fold cb in HLB. fold ca in HLA.
  pose proof (lk_height _ _ _ _ (lg_linked _ HLB)) as H0b. pose proof (wf_h_height _ (wf_header _ Hk)) as Hu.
  unfold is_u64 in Hu. assert (u32 gap = gap) as Eg by (unfold U32 in *; warith).
  assert (is_u64 (c_height cb + 1)) as H64 by (unfold is_u64, gap in *; lia).
  assert (is_u32 (Z.min gap 256)) as H32 by (unfold is_u32 in *; lia).
  pose proof (blocks_at_length _ _ _ _ Hks) as Lk.
  assert ((zip ks envs).*1 = ks) as Ez by (apply fst_zip; lia).
  split; [|split].
  - rewrite future_block_requests by (done || fold cb; unfold gap in *; lia). fold cb gap. rewrite Eg.
    unfold bcast. cbn [cs_bcast set_hdrs_req]. by rewrite Hbc.
  - unfold req. rewrite (header_request_message enva A i p) by done.
    set (A' := set_net A _). pose proof (lookup_lt_Some _ _ _ Hi) as Hlt.
    destruct (headers_req_serves_aux A' (c_height cb + 1) (Z.min gap 256) (p_peer_id p) i (set_seen p (ne_now enva)))
      as (ks' & Hks' & E); [done|done|done|done| |by cbn; rewrite list_lookup_insert_eq|].
    { cbn. by rewrite route_set_seen. }
    replace (served (c_height (cs_chain (nd_cs A'))) (c_height cb + 1) (Z.min gap 256)) with m in Hks'
      by (unfold m, served, A'; cbn; fold ca; lia).
    assert (ks' = ks) as -> by (unfold A' in Hks'; cbn in Hks'; fold ca in Hks'; congruence).
    rewrite E by done. unfold A', set_net, put_peer. cbn. by rewrite list_insert_insert_eq.
  - cbv zeta. rewrite receive_res_all by (done || by rewrite Ez).
    assert (fresh_hashes (nd_cs B) (cs_of <$> zip ks envs).*1) as Hfr'.
    { replace ((cs_of <$> zip ks envs).*1) with ((zip ks envs).*1) by (by rewrite <- list_fmap_compose). by rewrite Ez. }
    pose proof (receive_all _ _ (nk_cs B HB) Had Hfr') as Hco.
    destruct (accept_all_spec _ _ HLB Had) as (_ & E1 & E2 & E3). split; [done|].
    destruct Hco as [(e & s & v & ->) _]. fold cb. change (block_read (set_cache ?c e s v)) with (block_read c).
    cbn [c_height set_cache]. rewrite E1, length_fmap, length_zip, Lk, Hlen, Nat.min_id. split; [done|]. split; [done|].
    intros x Hx. destruct (lookup_lt_is_Some_2 ks x) as [kx Hkx]; [lia|].
    destruct (lookup_lt_is_Some_2 envs x) as [ex Hex]; [lia|].
    rewrite (E3 x (cs_of (kx, ex))); [|by rewrite list_lookup_fmap, lookup_zip_with, Hkx, Hex].
    by rewrite (blocks_at_lookup _ _ _ _ x kx Hks Hkx).
Qed.
End Round.

(** ** Witnesses: a node at genesis and a peer two blocks ahead *)

#[local] Existing Instance toy_sodium.
#[local] Existing Instance x87.

Definition late_env : nenv_t := mkNEnv (mkCEnv 90000 90000 90000 90000 (mkEnv 90000 true true true)) 90000.
Definition ahead_block2 : ac_block_t := Eval vm_compute in
  sign_block demo_next [demo_kp] (default demo_unsigned (ac_chain_build_block demo_next 5 demo_kp []).1).
Definition ahead_list : list (ac_block_t * nenv_t) := [(demo_block, late_env); (ahead_block2, late_env)].
Definition ahead_chain : ac_chain_t := accept_all demo_chain (cs_of <$> ahead_list).
Definition ahead_peer : peer_t := mkPeer true 5 (bytes_of 32 [x42]) true true (str "10.0.0.2") 30303 0 out_empty false.
Definition ahead_node : ac_node_t :=
  mkNode (put_peer (ac_net_new 7 demo_kp 30303 []) 0 ahead_peer)
    (ac_consensus_new ahead_chain (ac_mempool_new 7) demo_kp true false).
Definition behind_node : ac_node_t :=
  mkNode (put_peer (ac_net_new 7 rival_kp 30303 []) 0 ahead_peer)
    (ac_consensus_new demo_chain (ac_mempool_new 7) rival_kp true false).

Lemma ahead_block2_wf : block_wf ahead_block2.
Proof. constructor; [constructor; by vm_compute| |by vm_compute..]. vm_compute. constructor. Qed.
Lemma demo_next_fits : chain_fits demo_next.
Proof. constructor; [apply (lg_wf _ (reachable_ledger _ _ (demo_reachable true)))|by vm_compute..]. Qed.
Lemma demo_ledger : ledger_ok demo_chain.
Proof.
  apply (reachable_from_ok true _ _ demo_genesis_wf (demo_chain_reached true)).
Qed.
Lemma late_next : (ac_chain_accept_block demo_chain demo_block (e_io (ne_cs late_env))).2 = demo_next.
Proof. by vm_compute. Qed.
Lemma late_certified1 : certified demo_chain demo_block (ne_cs late_env).
Proof. refine (Build_certified _ _ _ demo_fits demo_block_wf _ _ _); by vm_compute. Qed.
Lemma late_certified2 : certified demo_next ahead_block2 (ne_cs late_env).
Proof. refine (Build_certified _ _ _ demo_next_fits ahead_block2_wf _ _ _); by vm_compute. Qed.
Lemma late_adoptable : adoptable demo_chain (cs_of <$> ahead_list).
Proof. split; [exact late_certified1|]. split; [|exact I]. cbn [fst snd]. rewrite late_next. exact late_certified2. Qed.

Lemma ahead_spec : ledger_ok ahead_chain ∧ c_height ahead_chain = 2 ∧
  blocks_at (block_read ahead_chain) 1 2 = Some [demo_block; ahead_block2].
Proof.
  destruct (accept_all_spec _ _ demo_ledger late_adoptable) as (H1 & H2 & _ & H3). 
  assert (c_height demo_chain = 0) as E0 by (by vm_compute). rewrite E0 in H2, H3.
  split; [exact H1|]. split; [exact H2|]. fold ahead_chain in H3.
  cbn [blocks_at]. change (1 + 1) with 2. pose proof (H3 0%nat _ eq_refl) as E1. pose proof (H3 1%nat _ eq_refl) as E2.
  change (0 + 1 + Z.of_nat 0) with 1 in E1. change (0 + 1 + Z.of_nat 1) with 2 in E2. by rewrite E1, E2.
Qed.
#[local] Opaque ahead_chain.
Lemma ahead_node_ok : node_ok ahead_node.
Proof. constructor; [apply net_ok_put; [apply net_ok_new | apply out_ok_empty] | apply cs_ok_new; [apply ahead_spec | done]]. Qed.
Lemma behind_node_ok : node_ok behind_node.
Proof. constructor; [apply net_ok_put; [apply net_ok_new | apply out_ok_empty] | apply cs_ok_new; [apply demo_ledger | done]]. Qed.
Lemma ahead_room : room (p_out ahead_peer) (block_res <$> [demo_block; ahead_block2]).
Proof. constructor; [done | by vm_compute | by vm_compute|]. repeat constructor; by vm_compute. Qed.

(** Closed goals about bounds and lookups. *)
Ltac bounds := vm_compute; repeat split; try reflexivity; discriminate.

Lemma headers_req_serves_witness :
  on_headers_req_cb ahead_node 1 256 (bytes_of 32 [x42]) =
    set_net ahead_node (put_peer (nd_net ahead_node) 0 (set_out ahead_peer
      (queued out_empty (block_res <$> [demo_block; ahead_block2])))).
Proof.
  destruct ahead_spec as (HL & Hh & Hb).
  destruct (headers_req_serves ahead_node 1 256 (bytes_of 32 [x42]) 0 ahead_peer HL) as (ks & Hks & _ & E).
  - cbn [ahead_node nd_cs cs_chain ac_consensus_new]. rewrite Hh. bounds.
  - bounds.
  - bounds.
  - bounds.
  - bounds.
  - cbn [ahead_node nd_cs cs_chain ac_consensus_new] in Hks. rewrite Hh in Hks.
    change (served 2 1 256) with 2%nat in Hks. rewrite Hb in Hks. injection Hks as <-. apply E, ahead_room.
Defined.

Lemma sync_round_witness :
  c_height (cs_chain (nd_cs behind_node)) = 0 ∧
  c_height (cs_chain (nd_cs (foldl (receive_res 0) behind_node (zip [demo_block; ahead_block2] [late_env; late_env])))) = 2.
Proof.
  destruct ahead_spec as (HL & Hh & Hb).
  assert (c_height (cs_chain (nd_cs behind_node)) = 0) as H0' by (vm_compute; reflexivity). split; [exact H0'|].
  destruct (sync_round ahead_node behind_node ahead_block2 (ne_cs late_env) 0 0 ahead_peer late_env [late_env; late_env]
    [demo_block; ahead_block2] ahead_node_ok behind_node_ok ltac:(lia) ahead_block2_wf) as (_ & _ & _ & E & _).
  - bounds.
  - bounds.
  - rewrite H0'. bounds.
  - cbn [ahead_node nd_cs cs_chain ac_consensus_new]. rewrite Hh. bounds.
  - bounds.
  - bounds.
  - bounds.
  - bounds.
  - rewrite H0'. cbn [ahead_node nd_cs cs_chain ac_consensus_new]. rewrite Hh.
    assert (served 2 (0 + 1) (h_height (header ahead_block2) - 0) = 2%nat) as -> by bounds. exact Hb.
  - exact ahead_room.
  - rewrite H0'. cbn [ahead_node nd_cs cs_chain ac_consensus_new]. rewrite Hh. bounds.
  - exact late_adoptable.
  - split; [apply (bool_decide_unpack _); vm_compute; exact I | repeat constructor; bounds].
  - rewrite E, H0'. cbn [ahead_node nd_cs cs_chain ac_consensus_new]. rewrite Hh. bounds.
Defined.
