(* ===== verification/Round.v ===== *)
(** * A round of consensus

    Validators at the same tip, one of them leader of a slot: it proposes, the others take
    in the proposal, those in the committee vote, the votes reach everybody, the slot is
    sealed. If the committee carries enough stake, every validator ends with the proposed
    block as its new tip. *)

From S2P Require Import Prelude Common Crypto Cursor Codec SortedArray State Apply Mempool Econ Chain Accept Ledger Consensus ConsensusFacts Slots Text Net NetFacts Node NodeFacts Sync.

(** ** Certificates made of valid votes *)

Section Certificates.
Context `{!Sodium} `{!LongDouble}.

Lemma same_tip_refl c : same_tip c c.
Proof. by constructor. Qed.
Lemma same_tip_cache c d d' : same_tip c d → cache_only d d' → same_tip c d'.
Proof. intros [] [(? & ? & ? & ->) _]. by constructor. Qed.
Lemma same_tip_fits c d : same_tip c d → chain_fits c → chain_fits d.
Proof. intros [E ? ? ? ? ? ?] []. by constructor; rewrite E. Qed.
Lemma same_tip_seed c d e : same_tip c d → cache_ok c → cache_ok d →
  (ac_chain_epoch_seed d e).1 = (ac_chain_epoch_seed c e).1.
Proof.
  intros [_ Ec Eh _ _ Eg Eb] Hc Hd. rewrite (proj1 (epoch_seed_spec d e Hd)), (proj1 (epoch_seed_spec c e Hc)).
  by apply compute_epoch_seed_ext.
Qed.
Lemma same_tip_total c d : same_tip c d → ac_chain_total_sqrt_stake d = ac_chain_total_sqrt_stake c.
Proof. intros [E _ _ _ _ _ _]. unfold ac_chain_total_sqrt_stake, ac_chain_each_validator. by rewrite E. Qed.

(** A vote that counts at one node counts at every node at the same tip. *)
Lemma vote_ok_tip c d slot v : same_tip c d → cache_ok c → cache_ok d → vote_ok c slot v → vote_ok d slot v.
Proof.
  intros Hst Hc Hd [H1 H2 H3]. pose proof (st_state _ _ Hst) as Es.
  constructor; rewrite ?Es, ?(same_tip_seed c d), ?(same_tip_total c d) by done; done.
Qed.

(** The vote a signer entry stands for. *)
Definition as_vote (k : ac_block_t) (x : ac_commit_signer_t) : vote_t :=
  mkVote (h_height (header k)) (ac_block_hash (header k)) (cs_signer x) (cs_sig x) (cs_vrf_proof x).
Definition counts (c : ac_chain_t) (k : ac_block_t) (x : ac_commit_signer_t) : Prop :=
  vote_ok c (h_slot (header k)) (as_vote k x).
Definition weight_of (c : ac_chain_t) (a : ac_addr_t) : Z := weight (view (c_state c) a).
Definition signed_weight (c : ac_chain_t) (l : list ac_commit_signer_t) : Z := sum_with (weight_of c) (cs_signer <$> l).

Lemma weight_of_nonneg c a : state_wf (c_state c) → 0 <= weight_of c a.
Proof. intros Hs. apply weight_bound, view_wf, Hs. Qed.
Lemma active_weight c k x : state_wf (c_state c) → counts c k x →
  ac_isqrt_u64 (stake (view (c_state c) (cs_signer x))) = weight_of c (cs_signer x).
Proof.
  intros Hs [_ Ha _]. cbn in Ha. rewrite ac_state_get_spec in Ha by done. cbn in Ha.
  unfold weight_of, weight. rewrite (proj2 (Z.ltb_ge _ _)) by done. apply ac_isqrt_sqrt, view_wf, Hs.
Qed.

(** The two sums over the signers, by the certificate check and by the engine. *)
Lemma commit_loop_counts c k L l acc : state_wf (c_state c) → cache_ok c → zlen L <= AC_COMMITTEE_MAX →
  (∀ x, x ∈ l → cs_signer x ∈ cs_signer <$> L) → Forall (counts c k) l →
  0 <= acc → acc + signed_weight c l < U64 →
  commit_loop (pre_signers (c_state c) L)
    (committee_alpha (compute_epoch_seed c (ac_epoch_of (h_slot (header k)))) (h_slot (header k)))
    (ac_vote_message (h_height (header k)) (ac_block_hash (header k))) (ac_chain_total_sqrt_stake c) l acc
  = Some (acc + signed_weight c l).
Proof.
  intros Hs Hc HL. revert acc. induction l as [|x l IH]; intros acc Hin; [intros; cbn; f_equal; unfold signed_weight; cbn; lia|].
  intros [Hx Hl]%Forall_cons Hacc Hb. unfold signed_weight in *. cbn [fmap list_fmap sum_with] in Hb |- *. cbn [commit_loop].
  pose proof (weight_of_nonneg c (cs_signer x) Hs) as Hw1. assert (0 <= sum_with (weight_of c) (cs_signer <$> l)) as Hw2.
  { apply sum_with_nonneg. intros. by apply weight_of_nonneg. }
  pose proof (active_weight c k x Hs Hx) as Ew. destruct Hx as [H1 H2 (beta & Hv & He)]. cbn [as_vote v_sig v_height v_block_hash v_signer v_proof] in H1, H2, Hv, He.
  rewrite ac_state_get_spec in H2, He by done. cbn [snd] in H2, He. rewrite (proj1 (epoch_seed_spec c _ Hc)) in Hv.
  rewrite pre_stake_lookup_spec by (done || apply Hin; by left). rewrite (proj2 (Z.ltb_ge _ _)), Hv, He, H1 by done. cbn [negb].
  rewrite Ew, u64_id by (unfold is_u64; lia). rewrite IH; [f_equal; lia|intros; apply Hin; by right|done|lia|lia].
Qed.
Lemma commit_sum_counts c k l acc : state_wf (c_state c) → Forall (counts c k) l → 0 <= acc → acc + signed_weight c l < U64 →
  commit_sum (c_state c) l acc = acc + signed_weight c l.
Proof.
  intros Hs. revert acc. induction l as [|x l IH]; intros acc; [intros; unfold signed_weight; cbn; lia|].
  intros [Hx Hl]%Forall_cons Hacc Hb. unfold signed_weight in *. cbn [fmap list_fmap sum_with] in Hb |- *. cbn [commit_sum].
  pose proof (weight_of_nonneg c (cs_signer x) Hs) as Hw1. assert (0 <= sum_with (weight_of c) (cs_signer <$> l)) as Hw2.
  { apply sum_with_nonneg. intros. by apply weight_of_nonneg. }
  pose proof (active_weight c k x Hs Hx) as Ew. destruct Hx as [_ H2 _]. cbn in H2.
  rewrite ac_state_get_spec in H2 |- * by done. cbn [snd] in *. rewrite (proj2 (Z.leb_le _ _)), Ew, u64_id by (done || unfold is_u64; lia).
  rewrite IH; [lia|done|lia|lia].
Qed.

(** The weight that finalises [k]: more than half of all stake, and two thirds of the
    live stake, as it is before the block (for the engine) and after (for the chain). *)
Definition live_or (c : ac_chain_t) (T : Z) : Z := if ac_chain_live_sqrt_stake c =? 0 then T else ac_chain_live_sqrt_stake c.
Record enough (c : ac_chain_t) (k : ac_block_t) (w : Z) : Prop := {
  en_total : total weight (c_state c) < 2 * w;
  en_live : 2 * live_or c (total weight (c_state c)) <= 3 * w;
  en_live_after : 2 * live_or (set_state c (post_state c k)) (total weight (c_state c)) <= 3 * w
}.

Lemma live_sum_nonneg c l sum n : 0 <= sum → 0 <= (live_sum_loop c l sum n).1.
Proof.
  revert sum n. induction l as [|e l IH]; intros sum n Hs; [done|]. cbn [live_sum_loop].
  destruct (negb _); [by apply IH|]. destruct (ac_state_get _ _) as [f a]. destruct (negb f); [by apply IH|].
  destruct (_ <? _); [by apply IH|]. apply IH, Z.mod_pos_bound. lia.
Qed.
Lemma u64_double_le x y : 0 <= x → 2 * x <= 3 * y → 3 * y < U64 → (x ⊗ 2) <= (y ⊗ 3).
Proof. intros H1 H2 H3. rewrite !u64_id by (unfold is_u64; lia). lia. Qed.
Lemma total_weight_nonneg s : state_wf s → 0 <= total weight s.
Proof. apply total_nonneg. intros a Ha. by apply weight_bound. Qed.
Lemma total_sqrt_nonneg c : 0 <= ac_chain_total_sqrt_stake c.
Proof.
  unfold ac_chain_total_sqrt_stake, ac_chain_each_validator.
  assert (∀ l sum, 0 <= sum → 0 <= (each_validator_loop sum_sqrt_stake_cb l sum).2) as Hl; [|by apply Hl].
  induction l as [|a l IH]; intros sum Hs; [done|]. cbn [each_validator_loop].
  destruct (_ <? _); [by apply IH|]. cbn [sum_sqrt_stake_cb fst snd]. apply IH, Z.mod_pos_bound. lia.
Qed.
Lemma live_or_nonneg c T : 0 <= T → 0 <= live_or c T.
Proof.
  intros HT. unfold live_or. destruct (_ =? _); [done|]. unfold ac_chain_live_sqrt_stake.
  pose proof (live_sum_nonneg c (c_live_map c) 0 0 ltac:(lia)) as Hn. destruct (live_sum_loop _ _ _ _) as [sum n]. cbn in *.
  destruct (n =? 0); [apply total_sqrt_nonneg | done].
Qed.

(** Valid votes with enough weight pass the engine's gates and the certificate check. *)
Lemma counts_bound c l : state_wf (c_state c) → supply (c_state c) < U64 → NoDup (cs_signer <$> l) →
  0 <= signed_weight c l <= total weight (c_state c) ∧ 3 * total weight (c_state c) < U64.
Proof.
  intros Hs Hsup Hn. pose proof (weights_of_distinct (c_state c) _ Hs Hn) as Hw. pose proof (weights_bound _ Hs) as Hb.
  change (signed_weight c l <= total weight (c_state c)) in Hw. assert (0 <= signed_weight c l) as H2; [|lia].
  apply sum_with_nonneg. intros a _. by apply weight_of_nonneg.
Qed.
Lemma quorum_complete c k l : state_wf (c_state c) → supply (c_state c) < U64 → Forall (counts c k) l →
  NoDup (cs_signer <$> l) → enough c k (signed_weight c l) → quorum_reached c l = true.
Proof.
  intros Hs Hsup Hl Hn [H1 H2 _]. destruct (counts_bound c l Hs Hsup Hn) as (B1 & B2).
  pose proof (total_weight_nonneg _ Hs) as HT. pose proof (live_or_nonneg c _ HT) as HL.
  unfold quorum_reached. rewrite (total_sqrt_stake_sum c Hs Hsup). fold (live_or c (total weight (c_state c))).
  rewrite (commit_sum_counts c k), Z.add_0_l by (done || lia). cbv zeta.
  rewrite (proj2 (Z.ltb_ge _ _)) by (apply u64_double_le; lia). rewrite (u64_id (signed_weight c l * 2)) by (unfold is_u64; lia).
  rewrite (proj2 (Z.leb_gt _ _)) by lia. rewrite andb_false_r. cbn [negb].
  destruct (Z.eqb_spec (live_or c (total weight (c_state c))) 0) as [E|]; [|done]. exfalso. unfold live_or in E.
  destruct (Z.eqb_spec (ac_chain_live_sqrt_stake c) 0); lia.
Qed.
Lemma post_state_signers c k l : post_state c (with_signers k l) = post_state c k.
Proof. done. Qed.
Lemma certificate_complete c k l : state_wf (c_state c) → cache_ok c → supply (c_state c) < U64 → zlen l <= AC_COMMITTEE_MAX →
  Forall (counts c k) l → NoDup (cs_signer <$> l) → enough c k (signed_weight c l) →
  (check_commit c (with_signers k l)).1 = true.
Proof.
  intros Hs Hc Hsup Hlen Hl Hn [H1 _ H3]. destruct (counts_bound c l Hs Hsup Hn) as (B1 & B2).
  pose proof (total_weight_nonneg _ Hs) as HT. pose proof (live_or_nonneg (set_state c (post_state c k)) _ HT) as HL.
  unfold check_commit. apply validate_commit_valid; [by apply cache_ok_set_state|]. rewrite post_state_signers.
  rewrite (total_sqrt_stake_sum c Hs Hsup). split; [|split; [lia|]].
  { intros E. cbn in E. subst l. cbn in H1. unfold signed_weight in *. cbn in *. lia. }
  exists (signed_weight c l). split; [|split; [by apply u64_double_le; [done| |lia]|rewrite u64_id; [lia|unfold is_u64; lia]]].
  rewrite <- (total_sqrt_stake_sum c Hs Hsup). cbn [with_signers header signers].
  replace (compute_epoch_seed (set_state c (post_state c k)) _) with (compute_epoch_seed c (ac_epoch_of (h_slot (header k))))
    by (by apply compute_epoch_seed_ext).
  rewrite (commit_loop_counts c k); [done|done|done|done|intros x Hx; by apply list_elem_of_fmap_2|done|lia|lia].
Qed.
End Certificates.

(** ** The proposal in a validator's table *)

Section Engine.
Context `{!Sodium} `{!LongDouble}.

Record carries (k : ac_block_t) (cs : ac_consensus_t) (i : nat) (p : pending_t) : Prop := {
  ca_find : pending_find cs (ac_block_hash (header k)) = Some i;
  ca_at : cs_pending cs !! i = Some p;
  ca_occupied : pn_occupied p = true;
  ca_hash : pn_block_hash p = ac_block_hash (header k);
  ca_height : pn_height p = h_height (header k);
  ca_slot : pn_slot p = h_slot (header k);
  ca_block : with_signers (pn_block p) [] = k;
  ca_n : length (cs_pending cs) = AC_PENDING_MAX;
  ca_alone : ∀ j q, j ≠ i → cs_pending cs !! j = Some q → pn_occupied q = true → pn_slot q ≠ h_slot (header k)
}.
(** What no later step changes of an entry. *)
Record same_entry (p q : pending_t) : Prop := {
  se_occupied : pn_occupied q = pn_occupied p;
  se_hash : pn_block_hash q = pn_block_hash p;
  se_height : pn_height q = pn_height p;
  se_slot : pn_slot q = pn_slot p;
  se_block : with_signers (pn_block q) [] = with_signers (pn_block p) []
}.

Lemma same_entry_refl p : same_entry p p.
Proof. by constructor. Qed.
Lemma same_entry_trans p q r : same_entry p q → same_entry q r → same_entry p r.
Proof. intros [] []. constructor; congruence. Qed.
Lemma scan_insert {A} (f : A → bool) l i x y n : l !! i = Some x → f y = f x → scan f (<[i := y]> l) n = scan f l n.
Proof.
  revert i n. induction l as [|z l IH]; intros [|i] n; cbn; [done|done|intros [= ->] ->; done|].
  intros Hi E. destruct (f z); [done|]. by apply IH.
Qed.
Lemma carries_put k cs cs' i p q : carries k cs i p → cs_pending cs' = <[i := q]> (cs_pending cs) → same_entry p q → carries k cs' i q.
Proof.
  intros [H1 H2 H3 H4 H5 H6 H7 H8 H9] E []. constructor; try congruence.
  - unfold pending_find. rewrite E. erewrite scan_insert; [exact H1|done|]. cbn. congruence.
  - rewrite E, list_lookup_insert_eq; [done|]. by eapply lookup_lt_Some.
  - by rewrite E, length_insert.
  - intros j q' Hj. rewrite E, list_lookup_insert_ne by done. by apply H9.
Qed.
Lemma carries_frame k cs cs' i p : carries k cs i p → cs_pending cs' = cs_pending cs → carries k cs' i p.
Proof. intros [] E. constructor; try done; unfold pending_find; rewrite E; done. Qed.

(** The chain [d] is [c] with [k] and some certificate on top. *)
Definition finalised (c : ac_chain_t) (k : ac_block_t) (d : ac_chain_t) : Prop :=
  ∃ sgs c1, block_wf (with_signers k sgs) ∧
    committed (set_state c (post_state c k)) (with_signers k sgs) (ac_block_hash (header k)) c1 ∧ cache_only c1 d.

Lemma finalised_cache c k d d' : finalised c k d → cache_only d d' → finalised c k d'.
Proof. intros (sgs & c1 & H1 & H2 & H3) Hd. exists sgs, c1. split; [done|]. split; [done|]. by eapply cache_only_trans. Qed.

Lemma accept_not_dup c k env : 0 <= c_height c < h_height (header k) → (ac_chain_accept_block c k env).1 ≠ AC_ACCEPT_DUP.
Proof.
  intros Hh. assert (∀ c, (accept_body c k env).1 ≠ AC_ACCEPT_DUP) as Hb.
  { intros d. unfold accept_body, commit_block. repeat (case_match; simplify_eq/=; try done). }
  unfold ac_chain_accept_block. rewrite (proj2 (Z.eqb_neq (h_height (header k)) 0)), (proj2 (Z.leb_gt (h_height (header k)) _)) by lia.
  destruct (validate_proposer_vrf _ _) as [ok c1]. specialize (Hb c1).
  repeat (case_match; simplify_eq/=; try done).
Qed.

(** [c] is the chain before the round, [k] the proposal. *)
Record fits_round (c : ac_chain_t) (k : ac_block_t) : Prop := {
  fr_fits : chain_fits c;
  fr_cache : cache_ok c;
  fr_height : 0 <= c_height c;
  fr_next : h_height (header k) = c_height c + 1;
  fr_block : block_wf k;
  fr_signers : signers k = []
}.
Definition undecided (c : ac_chain_t) (cs : ac_consensus_t) (p : pending_t) : Prop :=
  pn_committed p = false ∧ cache_only c (cs_chain cs).
Definition decided (c : ac_chain_t) (k : ac_block_t) (cs : ac_consensus_t) (p : pending_t) : Prop :=
  pn_committed p = true ∧ finalised c k (cs_chain cs).

Lemma with_signers_any k l : block_wf k → zlen l <= AC_COMMITTEE_MAX → block_wf (with_signers k l).
Proof. intros [] Hl. by constructor. Qed.

(** Acceptance during the round, on a chain whose seed cache may have been filled: the
    block is finalised, or nothing happened. *)
Lemma accept_round c k d l env : fits_round c k → cache_only c d → zlen l <= AC_COMMITTEE_MAX → writes_ok env = true →
  let '(r, d') := ac_chain_accept_block d (with_signers k l) env in
  (r = AC_ACCEPT_OK ∧ finalised c k d' ∨
   r ≠ AC_ACCEPT_OK ∧ r ≠ AC_ACCEPT_DUP ∧ cache_only c d') ∧
  ((ac_chain_accept_block c (with_signers k l) env).1 = AC_ACCEPT_OK → r = AC_ACCEPT_OK).
Proof.
  intros [Hf Hc Hh Hh' Hk Hsg] Hco Hlen Hw. pose proof (with_signers_any k l Hk Hlen) as Hkc.
  pose proof (proj2 Hco Hc) as Hc'. pose proof (chain_fits_cache _ _ Hco Hf) as Hf'.
  assert (c_height d = c_height c) as Eh by (by destruct Hco as [(? & ? & ? & ->) _]).
  pose proof (accept_not_dup d (with_signers k l) env ltac:(cbn; lia)) as Hd.
  pose proof (accept_ok_inv d _ env Hf' Hkc ltac:(lia) Hc') as Hok.
  pose proof (accept_cases d (with_signers k l) env Hf' Hkc ltac:(lia) Hc') as Hcases.
  pose proof (accept_cache c d (with_signers k l) env Hco Hc Hf Hkc ltac:(lia)) as Hsame.
  destruct (ac_chain_accept_block d _ _) as [r d'] eqn:Ea. cbn [fst snd] in *. split; [|intros E; by apply Hsame].
  destruct Hcases as [([] & Hr & _)|(_ & _ & c1 & Hc1 & _ & E)]; [right; split; [done|]; split; [done|]; by eapply cache_only_trans|left].
  pose proof (commit_block_spec c1 _ (ac_block_hash (header k)) env Hkc (committing_wf _ _ _ (cf_state _ Hf') Hkc Hc1)) as Hs.
  rewrite Hw in Hs. cbn [with_signers header] in E. rewrite <- E in Hs. destruct Hs as [Hr _]. cbn in Hr. split; [done|].
  destruct (Hok Hr) as (_ & _ & Hcm). exists l, d'. split; [done|]. split; [|apply cache_only_refl].
  destruct Hco as [(? & ? & ? & ->) _]. by destruct Hcm.
Qed.

(** An attempt to seal leaves the entry undecided or finalises the block; a forced one
    with a certificate that passes finalises it. *)
Lemma try_commit_round c k cs i p force env : fits_round c k → carries k cs i p → undecided c cs p →
  zlen (pn_signers p) <= AC_COMMITTEE_MAX → writes_ok (e_io env) = true →
  let cs' := try_commit_inner cs i force env in
  ∃ q, cs_pending cs' = <[i := q]> (cs_pending cs) ∧ same_entry p q ∧ pn_signers q = pn_signers p ∧
    (undecided c cs' q ∨ decided c k cs' q) ∧
    (force = true → quorum_reached c (pn_signers p) = true →
     (ac_chain_accept_block c (with_signers k (pn_signers p)) (e_io env)).1 = AC_ACCEPT_OK → decided c k cs' q).
Proof.
  intros Hfr Hca [Hcm Hco] Hlen Hw. pose proof (ca_at _ _ _ _ Hca) as Hi. cbv zeta.
  unfold try_commit_inner. rewrite Hi, (ca_occupied _ _ _ _ Hca), Hcm, (quorum_cache c) by done. cbn [negb orb].
  destruct (quorum_reached c _); cbn [negb].
  2: { exists p. rewrite list_insert_id by done. split; [done|]. split; [apply same_entry_refl|]. split; [done|]. split; [by left | done]. }
  match goal with |- context [if ?b then _ else _] => destruct b eqn:Eb end.
  { eexists. split; [done|]. split; [by constructor|]. split; [done|]. split; [by left|]. by intros ->. }
  assert (∀ l, with_signers (pn_block p) l = with_signers k l) as Eks by (intros l; by rewrite <- (ca_block _ _ _ _ Hca)).
  assert (∀ com l rc, same_entry p (sealed p com (with_signers k l) rc)) as Hse.
  { intros com l rc. by constructor. }
  rewrite !Eks. pose proof (accept_round c k (cs_chain cs) (pn_signers p) (e_io env) Hfr Hco Hlen Hw) as Ha.
  destruct (ac_chain_accept_block (cs_chain cs) _ _) as [r d]. destruct Ha as [[[-> Hd]|(H1 & H2 & Hd)] H3].
  - assert (∀ cs' q, cs_chain cs' = d → pn_committed q = true → decided c k cs' q) as Hdec by (intros ? ? E ?; by split; [|rewrite E]).
    destruct (ac_block_encode _); [unfold bcast; cbn; destruct (cs_bcast cs)|];
      (eexists; split; [done|]; split; [apply Hse|]; split; [done|]; split; [right|intros _ _ _]; by apply Hdec).
  - assert (undecided c (put_pending (set_chain cs d) i
      (sealed p false (with_signers k []) (if pn_threshold_reached_ms p =? 0 then t_commit env else pn_threshold_reached_ms p)))
      (sealed p false (with_signers k []) (if pn_threshold_reached_ms p =? 0 then t_commit env else pn_threshold_reached_ms p))) by done.
    destruct r; try done; (eexists; split; [done|]; split; [apply Hse|]; split; [done|]; split; [by left | by intros _ _ ?%H3]).
Qed.

(** ** Gathering votes *)

(** Valid votes of different members of [A]. *)
Record gathered (c : ac_chain_t) (k : ac_block_t) (A : list ac_addr_t) (l : list ac_commit_signer_t) : Prop := {
  ga_counts : Forall (counts c k) l;
  ga_nodup : NoDup (cs_signer <$> l);
  ga_members : ∀ a, a ∈ cs_signer <$> l → a ∈ A
}.
(** The validator has the proposal and all votes of [heard], or has finalised it. *)
Definition progress (c : ac_chain_t) (k : ac_block_t) (A heard : list ac_addr_t) (cs : ac_consensus_t) : Prop :=
  ∃ i p, carries k cs i p ∧
    (undecided c cs p ∧ gathered c k A (pn_signers p) ∧ (∀ a, a ∈ heard → a ∈ cs_signer <$> pn_signers p) ∨
     decided c k cs p).

Lemma signed_by_elem l a : signed_by l a = true ↔ a ∈ cs_signer <$> l.
Proof.
  unfold signed_by. rewrite existsb_exists, list_elem_of_fmap. setoid_rewrite list_elem_of_In. setoid_rewrite ac_addr_eq_true.
  naive_solver.
Qed.
Lemma gathered_length c k A l : (length A <= 256)%nat → gathered c k A l → zlen l <= AC_COMMITTEE_MAX.
Proof.
  intros HA [_ H2 H3]. pose proof (submseteq_length _ _ (NoDup_submseteq _ _ H2 H3)) as Hl. rewrite length_fmap in Hl. lia.
Qed.
Lemma gathered_room c k A l x : (length A <= 256)%nat → gathered c k A l → counts c k x → cs_signer x ∈ A →
  signed_by l (cs_signer x) = false → zlen l < AC_COMMITTEE_MAX ∧ gathered c k A (l ++ [x]).
Proof.
  intros HA [H1 H2 H3] Hx Hm Hs. assert (cs_signer x ∉ cs_signer <$> l) as Hn by (rewrite <- signed_by_elem; congruence).
  assert (NoDup (cs_signer <$> (l ++ [x]))) as Hnd.
  { rewrite fmap_app. apply NoDup_app. split; [done|]. split; [|by apply NoDup_singleton].
    intros a Ha Hax. apply list_elem_of_singleton in Hax as ->. done. }
  assert (∀ a, a ∈ cs_signer <$> (l ++ [x]) → a ∈ A) as Hin.
  { intros a. rewrite fmap_app, elem_of_app. intros [?|Ha]; [by apply H3|]. by apply list_elem_of_singleton in Ha as ->. }
  assert (gathered c k A (l ++ [x])) as Hg by (constructor; [apply Forall_app; split; [done|]; by constructor|done|done]).
  split; [|done]. pose proof (gathered_length _ _ _ _ HA Hg) as Hl. rewrite length_app in Hl. cbn in Hl. lia.
Qed.

Lemma try_commit_done cs i p force env : cs_pending cs !! i = Some p → pn_committed p = true → try_commit_inner cs i force env = cs.
Proof. intros Hi Hc. unfold try_commit_inner. rewrite Hi, Hc. by rewrite orb_true_r. Qed.

Lemma progress_undecided c k A heard cs i p env : fits_round c k → (length A <= 256)%nat → carries k cs i p → undecided c cs p →
  gathered c k A (pn_signers p) → (∀ a, a ∈ heard → a ∈ cs_signer <$> pn_signers p) → writes_ok (e_io env) = true →
  progress c k A heard (try_commit cs i env).
Proof.
  intros Hfr HA Hca Hu Hg Hh Hw.
  destruct (try_commit_round c k cs i p false env Hfr Hca Hu (gathered_length _ _ _ _ HA Hg) Hw) as (q & E & Hse & Es & Hq & _).
  exists i, q. split; [by eapply carries_put|]. destruct Hq as [Hq|Hq]; [left|by right]. by rewrite Es.
Qed.

Lemma progress_vote c k A heard cs x env : fits_round c k → (length A <= 256)%nat → progress c k A heard cs →
  counts c k x → cs_signer x ∈ A → writes_ok (e_io env) = true →
  progress c k A (cs_signer x :: heard) (ac_consensus_handle_vote cs (vote_encode (as_vote k x)) env).
Proof.
  intros Hfr HA (i & p & Hca & Hst) Hx Hm Hw. unfold ac_consensus_handle_vote.
  destruct (vote_wire_roundtrip (as_vote k x)) as (_ & -> & _); [apply (wf_h_height _ (wf_header _ (fr_block _ _ Hfr)))|].
  destruct (Hx) as [H1 H2 (beta & Hv & He)]. rewrite H1. cbn [negb]. change (v_block_hash (as_vote k x)) with (ac_block_hash (header k)).
  rewrite (ca_find _ _ _ _ Hca), (ca_at _ _ _ _ Hca), (ca_slot _ _ _ _ Hca).
  pose proof (epoch_seed_cache_only (cs_chain cs) (ac_epoch_of (h_slot (header k)))) as Hsc.
  destruct Hst as [([Hcm Hco] & Hg & Hh)|[Hcm Hfin]].
  - pose proof (same_tip_cache _ _ _ (same_tip_refl c) Hco) as Htip. pose proof (proj2 Hco (fr_cache _ _ Hfr)) as Hc'.
    pose proof (same_tip_seed _ _ (ac_epoch_of (h_slot (header k))) Htip (fr_cache _ _ Hfr) Hc') as Es.
    pose proof (same_tip_cache _ _ _ Htip Hsc) as Htip'. pose proof (cache_only_trans _ _ _ Hco Hsc) as Hco'.
    rewrite <- Es in Hv. destruct (ac_chain_epoch_seed (cs_chain cs) _) as [seed d]. cbn [fst snd] in *.
    rewrite (same_tip_total c d), (st_state _ _ Htip') by done. rewrite (proj2 (Z.ltb_ge _ _)), Hv, He by done. cbn [negb].
    change (v_signer (as_vote k x)) with (cs_signer x). destruct (signed_by _ _) eqn:Esb.
    + exists i, p. split; [by eapply carries_frame|]. left. split; [by split|]. split; [done|].
      intros a [-> | Ha]%elem_of_cons; [by apply signed_by_elem | by apply Hh].
    + destruct (gathered_room c k A _ x HA Hg Hx Hm Esb) as [Hr Hg']. rewrite (proj2 (Z.ltb_lt _ _)) by done.
      refine (progress_undecided c k A _ _ i (with_pn_signers p (pn_signers p ++ [x])) _ Hfr HA _ _ Hg' _ Hw).
      * eapply carries_put; [exact Hca|cbn; by destruct x|by constructor].
      * by split.
      * cbn [pn_signers with_pn_signers]. rewrite fmap_app. intros a [-> | Ha]%elem_of_cons; apply elem_of_app; [right; by left|left; by apply Hh].
  - destruct (ac_chain_epoch_seed (cs_chain cs) _) as [seed d]. cbn [snd] in Hsc.
    assert (progress c k A (cs_signer x :: heard) (set_chain cs d)) as Hp.
    { exists i, p. split; [by eapply carries_frame|]. right. split; [done|]. by eapply finalised_cache. }
    clear beta Hv He H1 H2. destruct (_ <? _); [done|]. destruct (ac_vrf_verify _ _ _); [|done].
    destruct (committee_eligible _ _ _); cbn [negb]; [|done]. destruct (signed_by _ _); [done|].
    match goal with |- context [put_pending _ i ?q] => assert (same_entry p q ∧ pn_committed q = true) as [Hse Hq] by (by destruct (_ <? _)) end.
    unfold try_commit. erewrite try_commit_done; [|cbn; apply list_lookup_insert_eq; by eapply lookup_lt_Some, Hca|done].
    eexists i, _. split; [by eapply carries_put|]. right. split; [done|]. by eapply finalised_cache.
Qed.

(** Hearing votes, in any order and any number of times. *)
Definition hear_votes (cs : ac_consensus_t) (l : list (list byte * cenv_t)) : ac_consensus_t :=
  foldl (λ cs m, ac_consensus_handle_vote cs m.1 m.2) cs l.

Lemma progress_votes c k A l : fits_round c k → (length A <= 256)%nat → ∀ heard cs, progress c k A heard cs →
  Forall (λ m, writes_ok (e_io m.2) = true ∧ ∃ x, m.1 = vote_encode (as_vote k x) ∧ counts c k x ∧ cs_signer x ∈ A) l →
  ∃ heard', progress c k A heard' (hear_votes cs l) ∧ (∀ a, a ∈ heard → a ∈ heard') ∧
    ∀ m x, m ∈ l → m.1 = vote_encode (as_vote k x) → is_u64 (h_height (header k)) → cs_signer x ∈ heard'.
Proof.
  intros Hfr HA. induction l as [|m l IH]; intros heard cs Hp Hl.
  { exists heard. split; [done|]. split; [done|]. by intros ? ? ?%elem_of_nil. }
  apply Forall_cons in Hl as [(Hw & x & Em & Hx & Hm) Hl]. cbn. rewrite Em.
  destruct (IH _ _ (progress_vote _ _ _ _ _ _ _ Hfr HA Hp Hx Hm Hw) Hl) as (heard' & H1 & H2 & H3). exists heard'. split; [done|]. split.
  { intros a Ha. apply H2. by right. }
  intros m' y [-> | Hin]%elem_of_cons Ey Hu; [|by eapply H3]. rewrite Em in Ey.
  destruct (vote_wire_roundtrip (as_vote k x) Hu) as (_ & Dx & _). destruct (vote_wire_roundtrip (as_vote k y) Hu) as (_ & Dy & _).
  rewrite Ey, Dy in Dx. injection Dx as E _ _. apply H2. rewrite E. by left.
Qed.

(** ** Sealing *)

Lemma seal_round c k A heard cs env : fits_round c k → (length A <= 256)%nat → progress c k A heard cs →
  (∀ j, writes_ok (e_io (env j)) = true) →
  (∀ l j, gathered c k A l → (∀ a, a ∈ heard → a ∈ cs_signer <$> l) →
     quorum_reached c l = true ∧ (ac_chain_accept_block c (with_signers k l) (e_io (env j))).1 = AC_ACCEPT_OK) →
  finalised c k (cs_chain (seal_phase cs (h_slot (header k)) env)).
Proof.
  intros Hfr HA (i & p & Hca & Hst) Hw Hok. unfold seal_phase.
  pose proof (ca_at _ _ _ _ Hca) as Hi. pose proof (lookup_lt_Some _ _ _ Hi) as Hlt. rewrite (ca_n _ _ _ _ Hca) in Hlt.
  assert (∀ cs n j, (∀ j' q, (j <= j')%nat → cs_pending cs !! j' = Some q → pn_occupied q = true → pn_committed q = false →
     pn_slot q ≠ h_slot (header k)) → seal_loop cs (h_slot (header k)) j n env = cs) as Hskip.
  { intros cs' n j Hn. rewrite (seal_loop_skip n cs' _ j env n); [by rewrite Nat.sub_diag|done|].
    intros j' q Hj Hq (H1 & H2 & H3). exfalso. apply (Hn j' q); [lia|done..]. }
  rewrite (seal_loop_skip AC_PENDING_MAX cs _ 0 env i); [|lia|].
  2: { intros j q Hj Hq (H1 & H2 & _). destruct (ca_alone _ _ _ _ Hca j q); [lia|done..]. }
  destruct (AC_PENDING_MAX - i)%nat as [|m] eqn:Em; [lia|]. cbn [seal_loop Nat.add].
  rewrite Hi, (ca_occupied _ _ _ _ Hca), (ca_slot _ _ _ _ Hca), Z.eqb_refl. cbn [negb orb].
  destruct Hst as [([Hcm Hco] & Hg & Hh)|[Hcm Hfin]]; rewrite Hcm.
  - destruct (Hok (pn_signers p) i Hg Hh) as [Hq Ha].
    destruct (try_commit_round c k cs i p true (env i) Hfr Hca (conj Hcm Hco) (gathered_length _ _ _ _ HA Hg) (Hw i)) as (q & E & Hse & _ & _ & Hd).
    destruct (Hd eq_refl Hq Ha) as [_ Hfin]. pose proof (carries_put _ _ _ _ _ _ Hca E Hse) as Hca'.
    rewrite Hskip; [done|]. intros j' q' Hj Hq' Ho _. apply (ca_alone _ _ _ _ Hca' j' q'); [lia|done..].
  - rewrite Hskip; [done|]. intros j' q' Hj Hq' Ho _. apply (ca_alone _ _ _ _ Hca j' q'); [lia|done..].
Qed.
End Engine.

(** ** Voting *)

#[local] Existing Instance priority_cmp_laws.

Section Voting.
Context `{!Sodium} `{!LongDouble} `{!SodiumLaws _}.

Definition seat_alpha (c : ac_chain_t) (slot : Z) : list byte :=
  committee_alpha (ac_chain_epoch_seed c (ac_epoch_of slot)).1 slot.
(** Whether the holder of a key is in the committee of a slot, and its vote for [k]. *)
Definition sits (c : ac_chain_t) (slot : Z) (kp : ac_keypair_t) : bool :=
  let st := stake (ac_state_get (c_state c) (pk kp)).2 in
  (AC_MIN_STAKE_UCRD <=? st) &&
  committee_eligible (ac_rd64 (slice (b (ac_vrf_prove (seat_alpha c slot) kp).2) 0 8)) (ac_isqrt_u64 st) (ac_chain_total_sqrt_stake c).
Definition ballot (c : ac_chain_t) (k : ac_block_t) (kp : ac_keypair_t) : ac_commit_signer_t :=
  mkSigner (pk kp) (ac_sign (ac_vote_message (h_height (header k)) (ac_block_hash (header k))) kp)
    (ac_vrf_prove (seat_alpha c (h_slot (header k))) kp).1.

Lemma seat_tip c d slot : same_tip c d → cache_ok c → cache_ok d → seat_alpha d slot = seat_alpha c slot.
Proof. intros. unfold seat_alpha. by rewrite (same_tip_seed c d). Qed.
Lemma sits_tip c d slot kp : same_tip c d → cache_ok c → cache_ok d → sits d slot kp = sits c slot kp.
Proof. intros Ht Hc Hd. unfold sits. by rewrite (seat_tip c d), (same_tip_total c d), (st_state _ _ Ht) by done. Qed.
Lemma ballot_tip c d k kp : same_tip c d → cache_ok c → cache_ok d → ballot d k kp = ballot c k kp.
Proof. intros Ht Hc Hd. unfold ballot. by rewrite (seat_tip c d). Qed.

Lemma ballot_counts c k seed : let kp := ac_keypair_from_seed seed in
  sits c (h_slot (header k)) kp = true → counts c k (ballot c k kp).
Proof.
  intros kp [Hs He]%andb_true_iff. constructor; cbn [as_vote ballot v_sig v_height v_block_hash v_signer v_proof cs_signer cs_sig cs_vrf_proof].
  - apply ac_verify_sign.
  - by apply Z.leb_le.
  - eexists. split; [apply ac_vrf_complete | exact He].
Qed.

Lemma committee_spec cs slot seed : state_wf (c_state (cs_chain cs)) → cs_kp cs = ac_keypair_from_seed seed → cs_my_addr cs = pk (cs_kp cs) →
  ∃ d, cache_only (cs_chain cs) d ∧ am_i_committee cs slot =
    (if sits (cs_chain cs) slot (cs_kp cs) then Some (ac_vrf_prove (seat_alpha (cs_chain cs) slot) (cs_kp cs)).1 else None, set_chain cs d).
Proof.
  intros Hs Ek Ea. unfold am_i_committee, sits, seat_alpha.
  pose proof (epoch_seed_cache_only (cs_chain cs) (ac_epoch_of slot)) as Hco.
  assert (ac_chain_total_sqrt_stake (ac_chain_epoch_seed (cs_chain cs) (ac_epoch_of slot)).2 = ac_chain_total_sqrt_stake (cs_chain cs)) as Et.
  { by destruct Hco as [(? & ? & ? & ->) _]. }
  rewrite Ea, ac_state_get_spec by done. cbn [snd]. set (st := stake _). destruct (Z.leb_spec AC_MIN_STAKE_UCRD st) as [Hge|Hlt].
  - rewrite bool_decide_true, (proj2 (Z.ltb_ge _ _)) by (done || (unfold st, view in Hge; destruct (acc_map _ !! _); [done|cbn in Hge; lia])).
    cbn [negb orb andb]. destruct (ac_chain_epoch_seed _ _) as [sd d]. cbn [fst snd] in *. exists d. split; [done|].
    cbn [cs_kp set_chain]. rewrite Et. unfold own_beta. rewrite Ek, ac_vrf_complete. cbn [default]. by destruct (committee_eligible _ _ _).
  - rewrite (proj2 (Z.ltb_lt _ _)) by done. rewrite orb_true_r. cbn [andb]. exists (cs_chain cs). split; [apply cache_only_refl|]. by destruct cs.
Qed.

Definition unvoted (slot : Z) (cs : ac_consensus_t) : Prop := ∀ v, v ∈ cs_slot_votes cs → sv_slot v = slot → sv_voted v = false.

(** A validator with its own key that takes part. *)
Record member (cs : ac_consensus_t) : Prop := {
  mb_key : ∃ seed, cs_kp cs = ac_keypair_from_seed seed;
  mb_addr : cs_my_addr cs = pk (cs_kp cs);
  mb_validator : cs_validator cs = true;
  mb_bcast : cs_bcast cs = true
}.
(** It has the proposal, no votes for it, and nothing it would rather vote for. *)
Record proposed (c : ac_chain_t) (k : ac_block_t) (cs : ac_consensus_t) (i : nat) (p : pending_t) : Prop := {
  pp_carries : carries k cs i p;
  pp_undecided : undecided c cs p;
  pp_signers : pn_signers p = [];
  pp_best : ∀ j q, j ≠ i → cs_pending cs !! j = Some q → ConsensusFacts.open_at (h_height (header k)) q = true →
    priority_cmp (pn_priority p) (pn_priority q) = Lt;
  pp_lock : cs_vote_height cs = h_height (header k) → priority_cmp (pn_priority p) (cs_vote_priority cs) = Lt;
  pp_unvoted : unvoted (h_slot (header k)) cs
}.

(** What a call added to the messages for the network. *)
Definition news (type : Z) (cs cs' : ac_consensus_t) : list (list byte) :=
  snd <$> filter (λ m, m.1 = type) (drop (length (cs_sent cs)) (cs_sent cs')).

Lemma news_app type cs cs' l : cs_sent cs' = cs_sent cs ++ l → news type cs cs' = snd <$> filter (λ m, m.1 = type) l.
Proof. intros E. unfold news. by rewrite E, drop_app_length. Qed.

Lemma slot_index_spec l slot i old : (∀ o, old = Some o → (o.1 < i)%nat) →
  match slot_index l slot i old with
  | inl j => ∃ v, (i <= j)%nat ∧ l !! (j - i)%nat = Some v ∧ sv_slot v = slot
  | inr _ => True
  end.
Proof.
  revert i old. induction l as [|v l IH]; intros i old Ho; [done|]. cbn [slot_index].
  destruct (Z.eqb_spec (sv_slot v) slot) as [E|]; [exists v; by rewrite Nat.sub_diag|].
  set (old' := match old with None => _ | Some _ => _ end).
  specialize (IH (S i) old'). destruct (slot_index l slot (S i) old') as [j|j]; [|done].
  destruct IH as (w & Hj & Hw & Es).
  { unfold old'. intros o. destruct old as [[o' t]|]; [|intros [= <-]; cbn; lia].
    specialize (Ho _ eq_refl). cbn in Ho. destruct (_ <? _); intros [= <-]; cbn; lia. }
  exists w. split; [lia|]. split; [|done]. by replace (j - i)%nat with (S (j - S i)) by lia.
Qed.
(** The record of a slot in which the validator has not voted. *)
Lemma slot_vote_unvoted cs slot : unvoted slot cs →
  sv_voted (slot_vote_at (slot_vote_for cs slot).2 (slot_vote_for cs slot).1) = false.
Proof.
  intros Hu. unfold slot_vote_for. pose proof (slot_index_spec (cs_slot_votes cs) slot 0 None) as Hs.
  destruct (slot_index _ _ _ _) as [j|j]; cbn [fst snd]; unfold slot_vote_at.
  - destruct Hs as (v & _ & Hv & Es); [done|]. rewrite Nat.sub_0_r in Hv. rewrite Hv. apply Hu; [by eapply list_elem_of_lookup_2|done].
  - cbn. destruct (decide (j < length (cs_slot_votes cs))%nat).
    + by rewrite list_lookup_insert_eq.
    + by rewrite list_insert_ge, lookup_ge_None_2 by lia.
Qed.
(** Everything but the records of the slots. *)
Lemma slot_vote_frame cs slot : ∃ l, (slot_vote_for cs slot).2 = set_slot_votes cs l.
Proof. unfold slot_vote_for. destruct (slot_index _ _ _ _); cbn; [exists (cs_slot_votes cs); by destruct cs | by eexists]. Qed.

Lemma proposed_best c k cs i p : proposed c k cs i p → best_pending (cs_pending cs) (h_height (header k)) 0 None = Some (i, p).
Proof.
  intros [Hca [Hcm _] _ Hb _ _]. pose proof (ca_at _ _ _ _ Hca) as Hi.
  assert (ConsensusFacts.open_at (h_height (header k)) p = true) as Ho.
  { unfold ConsensusFacts.open_at. by rewrite (ca_occupied _ _ _ _ Hca), Hcm, (ca_height _ _ _ _ Hca), Z.eqb_refl. }
  pose proof (best_pending_spec (cs_pending cs) (h_height (header k)) 0 None) as Hs.
  destruct (best_pending _ _ _ _) as [[j q]|].
  - destruct Hs as ([?|(j' & -> & Hj & Hoq)] & Hmin & _); [done|]. cbn [Nat.add] in *. destruct (decide (j' = i)) as [-> |Hne]; [congruence|].
    exfalso. specialize (Hb j' q Hne Hj Hoq). specialize (Hmin p (list_elem_of_lookup_2 _ _ _ Hi) Ho).
    apply Hmin. by rewrite (cmp_opp priority_cmp), Hb.
  - destruct Hs as [_ Hs]. rewrite Hs in Ho; [done|]. by eapply list_elem_of_lookup_2.
Qed.

Definition my_ballot (c : ac_chain_t) (k : ac_block_t) (kp : ac_keypair_t) : list ac_commit_signer_t :=
  if sits c (h_slot (header k)) kp then [ballot c k kp] else [].
Definition vote_msg (k : ac_block_t) (x : ac_commit_signer_t) : Z * list byte := (AC_MSG_COMMIT_VOTE, vote_encode (as_vote k x)).

Lemma our_vote_round c k cs i p : fits_round c k → member cs → carries k cs i p → undecided c cs p → pn_signers p = [] →
  let cs' := our_vote_now cs i in
  ∃ q, cs_pending cs' = <[i := q]> (cs_pending cs) ∧ same_entry p q ∧ undecided c cs' q ∧
    pn_signers q = my_ballot c k (cs_kp cs) ∧ cs_sent cs' = cs_sent cs ++ (vote_msg k <$> my_ballot c k (cs_kp cs)).
Proof.
  intros Hfr [[seed Ek] Ea _ Hbc] Hca [Hcm Hco] Es cs'. unfold cs', our_vote_now, my_ballot.
  pose proof (same_tip_cache _ _ _ (same_tip_refl c) Hco) as Ht. pose proof (fr_cache _ _ Hfr) as Hc. pose proof (proj2 Hco Hc) as Hc'.
  rewrite (ca_at _ _ _ _ Hca), (ca_slot _ _ _ _ Hca).
  destruct (committee_spec cs (h_slot (header k)) seed) as (d & Hd & ->);
    [rewrite (st_state _ _ Ht); apply (fr_fits _ _ Hfr)|done..|].
  pose proof (cache_only_trans _ _ _ Hco Hd) as Hcd. rewrite (sits_tip c), (seat_tip c) by done. destruct (sits c _ _).
  - cbn [cs_kp cs_my_addr set_chain]. rewrite Es. cbn [signed_by existsb negb andb]. change (zlen [] <? AC_COMMITTEE_MAX) with true. cbn iota.
    rewrite (ca_height _ _ _ _ Hca), (ca_hash _ _ _ _ Hca). cbn [app pn_height pn_block_hash pn_slot pn_priority with_pn_signers].
    match goal with |- context [slot_vote_for ?x ?y] => destruct (slot_vote_frame x y) as [l E]; destruct (slot_vote_for x y) as [j cs1] end.
    cbn [snd] in E. subst cs1. unfold bcast. cbn. rewrite Hbc. cbn. rewrite Ea.
    eexists. split; [done|]. split; [by constructor|]. split; [done|]. split; [done|]. by rewrite (ca_height _ _ _ _ Hca), (ca_hash _ _ _ _ Hca).
  - exists p. cbn. rewrite list_insert_id, app_nil_r by apply Hca. done.
Qed.

Lemma try_commit_sent cs i force env : ∃ l, cs_sent (try_commit_inner cs i force env) = cs_sent cs ++ l ∧ Forall (λ m, m.1 = AC_MSG_BLOCK_ANN) l.
Proof.
  unfold try_commit_inner. destruct (cs_pending cs !! i) as [p|]; [|exists []; by rewrite app_nil_r].
  repeat case_match; try (exists []; by rewrite app_nil_r); unfold bcast; cbn; destruct (cs_bcast cs); cbn;
    try (exists []; by rewrite app_nil_r); eexists; (split; [done|]); by repeat constructor.
Qed.

Lemma progress_ballot c k A cs i p env : fits_round c k → (length A <= 256)%nat → member cs → proposed c k cs i p →
  (sits c (h_slot (header k)) (cs_kp cs) = true → cs_my_addr cs ∈ A) → writes_ok (e_io env) = true →
  let cs' := vote_phase cs (h_slot (header k)) env in
  progress c k A (cs_signer <$> my_ballot c k (cs_kp cs)) cs' ∧
  news AC_MSG_COMMIT_VOTE cs cs' = (λ x, vote_encode (as_vote k x)) <$> my_ballot c k (cs_kp cs).
Proof.
  intros Hfr HA Hm Hp HmA Hw cs'. unfold cs', vote_phase. rewrite (mb_validator _ Hm). cbn [negb].
  pose proof (slot_vote_unvoted cs (h_slot (header k)) (pp_unvoted _ _ _ _ _ Hp)) as Hu.
  destruct (slot_vote_frame cs (h_slot (header k))) as [l E]. destruct (slot_vote_for cs _) as [j cs1]. cbn [fst snd] in *.
  rewrite Hu. subst cs1. cbn [cs_chain cs_pending set_slot_votes cs_vote_height cs_vote_priority].
  pose proof (pp_undecided _ _ _ _ _ Hp) as [Hcm Hco].
  assert (c_height (cs_chain cs) ⊕ 1 = h_height (header k)) as ->.
  { assert (c_height (cs_chain cs) = c_height c) as -> by (by destruct Hco as [(? & ? & ? & ->) _]).
    pose proof (wf_h_height _ (wf_header _ (fr_block _ _ Hfr))) as Hh. rewrite <- (fr_next _ _ Hfr). by apply u64_id. }
  rewrite (proposed_best _ _ _ _ _ Hp).
  assert ((cs_vote_height cs =? h_height (header k)) && negb (is_lt (priority_cmp (pn_priority p) (cs_vote_priority cs))) = false) as ->.
  { destruct (Z.eqb_spec (cs_vote_height cs) (h_height (header k))) as [E|]; [|done]. by rewrite (pp_lock _ _ _ _ _ Hp E). }
  destruct (our_vote_round c k (set_slot_votes cs l) i p Hfr) as (q & Eq & Hse & Hun & Esg & Esent);
    [by destruct Hm|eapply carries_frame; [apply Hp|done]|done|apply Hp|].
  cbn [cs_kp set_slot_votes cs_pending cs_sent] in *. set (cs2 := our_vote_now _ i) in *. set (mine := my_ballot c k (cs_kp cs)) in *.
  assert (gathered c k A mine) as Hg.
  { unfold mine, my_ballot in *. destruct (sits c _ _) eqn:Es; [|by constructor; [constructor|constructor|intros ? ?%elem_of_nil]].
    destruct (mb_key _ Hm) as [seed Ek]. constructor.
    - constructor; [|constructor]. rewrite Ek in Es |- *. by apply ballot_counts.
    - apply NoDup_singleton.
    - cbn. intros a ->%list_elem_of_singleton. rewrite <- (mb_addr _ Hm). by apply HmA. }
  split.
  - refine (progress_undecided c k A _ (set_vote cs2 _ _ _) i q env Hfr HA _ _ _ _ Hw).
    + eapply carries_put; [apply Hp|exact Eq|exact Hse].
    + exact Hun.
    + by rewrite Esg.
    + by rewrite Esg.
  - destruct (try_commit_sent (set_vote cs2 (h_height (header k)) (pn_block_hash p) (pn_priority p)) i false env) as (l' & El & Hl').
    unfold try_commit. rewrite (news_app _ _ _ ((vote_msg k <$> mine) ++ l')).
    2: { rewrite El. cbn. by rewrite Esent, app_assoc. }
    rewrite filter_app. assert (filter (λ m : Z * list byte, m.1 = AC_MSG_COMMIT_VOTE) l' = []) as ->.
    { clear -Hl'. induction Hl' as [|m l' Em _ IH]; [done|]. rewrite filter_cons_False by (rewrite Em; done). done. }
    rewrite app_nil_r. unfold mine, my_ballot. by destruct (sits c _ _).
Qed.
End Voting.

(** ** Proposing *)

Section Proposing.
Context `{!Sodium} `{!LongDouble} `{!SodiumLaws _}.

(** A validator before the proposal [k] of priority [pr]: it has not seen it nor anything
    else of its slot, has not voted in the slot, and knows no open block of lower priority
    for the height, nor has it voted for one. *)
Record ready (k : ac_block_t) (pr : priority_t) (cs : ac_consensus_t) : Prop := {
  rd_ok : cs_ok cs;
  rd_new : pending_find cs (ac_block_hash (header k)) = None;
  rd_slot : ∀ q, q ∈ cs_pending cs → pn_occupied q = true → pn_slot q ≠ h_slot (header k);
  rd_best : ∀ q, q ∈ cs_pending cs → ConsensusFacts.open_at (h_height (header k)) q = true → priority_cmp pr (pn_priority q) = Lt;
  rd_lock : cs_vote_height cs = h_height (header k) → priority_cmp pr (cs_vote_priority cs) = Lt;
  rd_unvoted : unvoted (h_slot (header k)) cs
}.

Lemma scan_insert_found {A} (f : A → bool) l i y n : Forall (λ x, f x = false) l → (i < length l)%nat → f y = true →
  scan f (<[i := y]> l) n = Some (n + i)%nat.
Proof.
  revert i n. induction l as [|x l IH]; intros i n; cbn [length]; [lia|]. intros [Hx Hl]%Forall_cons Hi Hy.
  destruct i as [|i]; cbn; [by rewrite Hy, Nat.add_0_r|]. rewrite Hx, IH by (done || lia). f_equal. lia.
Qed.
Lemma alloc_in_table cs now : cs_ok cs → ((pending_alloc cs now).1 < length (cs_pending cs))%nat.
Proof.
  intros Hcs. unfold pending_alloc. cbn. destruct (alloc_index _ _ _) as [j|] eqn:Ej; cbn; [|rewrite (co_pending_n _ Hcs); lia].
  by apply alloc_index_lt in Ej.
Qed.

Lemma insert_elem {A} (l : list A) i x y : y ∈ <[i := x]> l → y = x ∨ y ∈ l.
Proof.
  intros (j & Hj)%list_elem_of_lookup_1. apply list_lookup_insert_Some in Hj as [(_ & -> & _)|[_ Hj]]; [by left|right].
  by eapply list_elem_of_lookup_2.
Qed.
Lemma unvoted_note cs slot pr : unvoted slot cs → unvoted slot (note_priority cs slot pr).
Proof.
  intros Hu. unfold note_priority. pose proof (slot_vote_unvoted cs slot Hu) as Hv.
  assert (unvoted slot (slot_vote_for cs slot).2) as Hu2.
  { unfold slot_vote_for. destruct (slot_index _ _ _ _); [done|]. intros v. cbn. intros [-> |Hv']%insert_elem; [done|]. by apply Hu. }
  destruct (slot_vote_for cs slot) as [j cs1]. cbn [fst snd] in *. destruct (is_lt _); [|done].
  intros v. cbn. intros [-> |Hin]%insert_elem; [done|]. by apply Hu2.
Qed.
(** Everything but the records of the slots. *)
Lemma note_frame cs slot pr : ∃ l, note_priority cs slot pr = set_slot_votes cs l.
Proof.
  unfold note_priority. destruct (slot_vote_frame cs slot) as [l E]. destruct (slot_vote_for cs slot) as [j cs1]. cbn [snd] in E. subst cs1.
  destruct (is_lt _); by eexists.
Qed.

(** The proposal enters the table. *)
Lemma stash_round c k pr cs d now : ready k pr cs → cache_only c (cs_chain cs) → cache_only (cs_chain cs) d → signers k = [] →
  let '(i, cs1) := stash (set_chain cs d) k (ac_block_hash (header k)) (h_slot (header k)) [] pr now in
  let cs2 := note_priority cs1 (h_slot (header k)) pr in
  (∃ p, proposed c k cs2 i p) ∧ cs_sent cs2 = cs_sent cs ∧ (member cs → member cs2) ∧ cs_kp cs2 = cs_kp cs ∧ cs_my_addr cs2 = cs_my_addr cs ∧
  cs_chain cs2 = d.
Proof.
  intros [Hok Hnew Hslot Hbest Hlock Hun] Hc Hd Hsg. pose proof (alloc_in_table (set_chain cs d) now) as Hi. unfold stash.
  assert (cs_ok (set_chain cs d)) as Hok' by (by apply cs_ok_cache). specialize (Hi Hok'). cbn [pending_alloc fst] in Hi.
  unfold pending_alloc. set (i := default 0%nat _) in *. clearbody i. cbv zeta. set (p := mkPending true _ _ _ _ _ _ _ _ _). set (cs1 := put_pending _ i p).
  destruct (note_frame cs1 (h_slot (header k)) pr) as [l E].
  assert (unvoted (h_slot (header k)) (note_priority cs1 (h_slot (header k)) pr)) as Hun2 by (by apply unvoted_note). rewrite E in *.
  assert (cs_pending cs1 = <[i := p]> (cs_pending cs)) as Ep by (unfold cs1; cbn; by rewrite list_insert_insert_eq).
  split_and!; try done; [|by intros []]. exists p. constructor; try done.
  - constructor; try done.
    + unfold pending_find. cbn [cs_pending set_slot_votes]. rewrite Ep, scan_insert_found; [done|by apply pending_find_none|done|].
      cbn. by apply ac_hash_eq_true.
    + cbn [cs_pending set_slot_votes]. by rewrite Ep, list_lookup_insert_eq.
    + unfold p. cbn. destruct k as [h t sg]. cbn in Hsg. by subst sg.
    + cbn [cs_pending set_slot_votes]. rewrite Ep, length_insert. apply Hok.
    + intros j q Hj. cbn [cs_pending set_slot_votes]. rewrite Ep, list_lookup_insert_ne by done. intros Hq. apply Hslot. by eapply list_elem_of_lookup_2.
  - split; [done|]. by eapply cache_only_trans.
  - intros j q Hj. cbn [cs_pending set_slot_votes]. rewrite Ep, list_lookup_insert_ne by done. intros Hq. apply Hbest. by eapply list_elem_of_lookup_2.
Qed.

Lemma quorum_nil c : 0 < ac_chain_total_sqrt_stake c → quorum_reached c [] = false.
Proof.
  intros Ht. unfold quorum_reached. cbn [commit_sum]. destruct (_ =? 0); [done|]. destruct (_ <? _); [done|].
  rewrite (proj2 (Z.ltb_lt _ _)), (proj2 (Z.leb_le _ _)) by (done || (change (0 ⊗ 2) with 0; lia)). done.
Qed.
Lemma try_commit_empty cs i p env : cs_pending cs !! i = Some p → pn_signers p = [] → 0 < ac_chain_total_sqrt_stake (cs_chain cs) →
  try_commit cs i env = cs.
Proof.
  intros Hi Hs Ht. unfold try_commit, try_commit_inner. rewrite Hi, Hs, quorum_nil by done. by destruct (_ || _).
Qed.

(** The priority every node at the tip computes for a proposal. *)
Definition proposal_priority (c : ac_chain_t) (k : ac_block_t) : priority_t :=
  let h := header k in
  compute_priority
    (default (zeros 32) (ac_vrf_verify (h_proposer_vrf_proof h) (leader_alpha (ac_chain_epoch_seed c (ac_epoch_of (h_slot h))).1 (h_slot h)) (h_proposer h)))
    (ac_isqrt_u64 (stake (ac_state_get (c_state c) (h_proposer h)).2)).
Lemma priority_tip c d k : same_tip c d → cache_ok c → cache_ok d → proposal_priority d k = proposal_priority c k.
Proof. intros Ht Hc Hd. unfold proposal_priority. by rewrite (same_tip_seed c d), (st_state _ _ Ht) by done. Qed.

(** What the first phase leaves. *)
Definition taken_in (k : ac_block_t) (cs cs' : ac_consensus_t) : Prop :=
  (∃ i p, proposed (cs_chain cs) k cs' i p) ∧ member cs' ∧ cs_kp cs' = cs_kp cs ∧ cs_my_addr cs' = cs_my_addr cs.

(** A validator takes in the proposal from the network. *)
Lemma take_in k cs env : member cs → ready k (proposal_priority (cs_chain cs) k) cs → block_wf k → signers k = [] →
  header_ok (cs_chain cs) (header k) (now_ms (e_io env)) → 0 < ac_chain_total_sqrt_stake (cs_chain cs) →
  taken_in k cs (ac_consensus_handle_block cs (block_bytes k) env).
Proof.
  intros Hm Hr Hk Hsg Hho Ht. pose proof (epoch_seed_cache_only (cs_chain cs) (ac_epoch_of (h_slot (header k)))) as Hco.
  pose proof (ho_proposer _ _ _ Hho) as Hp. unfold validate_proposer_vrf in Hp.
  destruct (ac_state_get _ _) as [[] acc] eqn:Eg; [|done]. cbn [negb] in Hp. destruct (_ <? _); [done|].
  assert (∀ beta, _) as Hnext by (intros beta; exact (handle_next_block cs k env beta Hk (rd_new _ _ _ Hr) Hho)).
  assert (c_state (ac_chain_epoch_seed (cs_chain cs) (ac_epoch_of (h_slot (header k)))).2 = c_state (cs_chain cs)) as Es by (by destruct Hco as [(? & ? & ? & ->) _]).
  assert (ac_chain_total_sqrt_stake (ac_chain_epoch_seed (cs_chain cs) (ac_epoch_of (h_slot (header k)))).2 = ac_chain_total_sqrt_stake (cs_chain cs)) as Et
    by (by destruct Hco as [(? & ? & ? & ->) _]).
  unfold proposal_priority in Hr. rewrite Eg in Hr. destruct (ac_chain_epoch_seed _ _) as [seed d]. cbn [fst snd] in *.
  destruct (ac_vrf_verify _ _ _) as [beta|]; [|done]. specialize (Hnext beta eq_refl). cbv zeta in Hnext. cbn [default] in Hr.
  rewrite Es, Eg, Hsg in Hnext. cbn [snd] in Hnext. set (pr := compute_priority _ _) in *.
  pose proof (stash_round (cs_chain cs) k pr cs d (t_alloc env) Hr (cache_only_refl _) Hco Hsg) as Hst.
  destruct (stash _ _ _ _ _ _ _) as [i cs1]. destruct Hst as ((p & Hp') & _ & Hm' & E1 & E2 & E3). rewrite Hnext.
  rewrite (try_commit_empty _ _ p); [|apply Hp'|apply Hp'|by rewrite E3, Et]. split; [by exists i, p|]. split; [by apply Hm'|]. done.
Qed.

(** What a leader's slot produces, and its proposal enters its own table. *)
Lemma leader_spec cs slot lp cs1 : am_i_leader cs slot = (Some lp, cs1) →
  ∃ d, cache_only (cs_chain cs) d ∧ cs1 = set_chain cs d ∧
    lp = (ac_vrf_prove (leader_alpha (ac_chain_epoch_seed (cs_chain cs) (ac_epoch_of slot)).1 slot) (cs_kp cs)).1.
Proof.
  unfold am_i_leader. destruct (ac_state_get _ _) as [has me]. destruct (_ || _); [done|].
  pose proof (epoch_seed_cache_only (cs_chain cs) (ac_epoch_of slot)) as Hco. destruct (ac_chain_epoch_seed _ _) as [seed d]. cbn [fst snd] in *.
  destruct (_ =? 0); [done|]. destruct (_ <? _); [|done]. intros [= <- <-]. by exists d.
Qed.
Lemma slot_build_inv cs slot k lp cs1 : slot_build cs slot = (Some (k, lp), cs1) → cs_ok cs → chain_fits (cs_chain cs) →
  ∃ d d' snap mp, cache_only (cs_chain cs) d ∧ ac_chain_build_block d slot (cs_kp cs) snap = (Some k, d') ∧
    Forall tx_wf snap ∧ zlen snap <= AC_BLOCK_MAX_TXS ∧ cs1 = set_chain (set_mempool cs mp) d' ∧
    lp = (ac_vrf_prove (leader_alpha (ac_chain_epoch_seed (cs_chain cs) (ac_epoch_of slot)).1 slot) (cs_kp cs)).1.
Proof.
  unfold slot_build. destruct (negb _); [done|]. destruct (am_i_leader cs slot) as [[lp'|] cs0] eqn:El; [|done].
  apply leader_spec in El as (d & Hd & -> & ->). intros Hb Hcs Hf. cbn [cs_mempool cs_chain cs_kp set_chain set_mempool] in Hb.
  destruct (snapshot_txs (cs_mempool cs) 256 (co_mempool _ Hcs)) as [H1 H2].
  destruct (ac_chain_build_block d slot (cs_kp cs) _) as [[k'|] d'] eqn:Eb; [|done]. cbn in Hb. injection Hb as -> <- <-.
  eexists d, d', _, _. split; [done|]. split; [exact Eb|]. split; [done|]. split; [lia|]. done.
Qed.

Lemma with_signers_nil k : signers k = [] → with_signers k [] = k.
Proof. destruct k. cbn. by intros ->. Qed.
Lemma with_vrf_same k lp : h_proposer_vrf_proof (header k) = lp → with_vrf k lp = k.
Proof. by intros <-; destruct k as [[]]. Qed.
Lemma proposed_bcast c k cs i p t x : proposed c k cs i p → proposed c k (bcast cs t x) i p.
Proof. unfold bcast. destruct (cs_bcast cs); [|done]. intros [[] [] ? ? ? ?]. by constructor. Qed.

Lemma lead_in cs slot k lp cs1 env : member cs → is_u64 slot → chain_fits (cs_chain cs) →
  slot_build cs slot = (Some (k, lp), cs1) → ready k (proposal_priority (cs_chain cs) k) cs →
  h_proposer (header k) = pk (cs_kp cs) → h_proposer_vrf_proof (header k) = lp →
  0 < ac_chain_total_sqrt_stake (cs_chain cs) →
  taken_in k cs (slot_routine cs slot env) ∧ news AC_MSG_BLOCK_ANN cs (slot_routine cs slot env) = [block_bytes k].
Proof.
  intros Hm Hu Hf Hb Hr Hpk Hlp Ht. pose proof (rd_ok _ _ _ Hr) as Hcs.
  destruct (slot_build_ok false cs slot Hcs Hf Hu) as [Hadv Hkok]. rewrite Hb in Hadv, Hkok. destruct (Hkok k lp eq_refl) as (Hk & Es & Hsg).
  destruct (slot_build_inv _ _ _ _ _ Hb Hcs Hf) as (d & d' & snap & mp & Hd & Hbb & Hsn & _ & -> & _).
  pose proof (lg_cache _ (co_ledger _ Hcs)) as Hc. pose proof (build_block_inv d slot (cs_kp cs) snap k d' (chain_fits_cache _ _ Hd Hf) (proj2 Hd Hc) Hsn Hbb) as Hinv.
  assert (cache_only d d') as Hd'. { cbv zeta in Hinv. destruct (select_txs _ _ _ _ _ _) as [[[? ?] ?] ?]. apply Hinv. } clear Hinv.
  pose proof (cache_only_trans _ _ _ Hd Hd') as Hcd. pose proof (same_tip_cache _ _ _ (same_tip_refl _) Hcd) as Htip.
  unfold slot_routine. rewrite Hb. unfold slot_propose. rewrite (with_vrf_same k lp Hlp). cbn [cs_chain set_chain].
  pose proof (epoch_seed_cache_only d' (ac_epoch_of slot)) as Hs. pose proof (same_tip_seed _ _ (ac_epoch_of slot) Htip Hc (proj2 Hcd Hc)) as Eseed.
  assert (ready k (proposal_priority (cs_chain cs) k) (set_chain (set_mempool cs mp) d')) as Hr'.
  { destruct Hr. constructor; try done. apply Hadv. }
  destruct (ac_chain_epoch_seed d' _) as [sd dd]. cbn [fst snd] in *. cbn [cs_kp set_chain set_mempool cs_my_addr].
  assert (compute_priority (own_beta (cs_kp cs) lp (leader_alpha sd slot)) (ac_isqrt_u64 (stake (ac_state_get (c_state d') (cs_my_addr cs)).2)) =
          proposal_priority (cs_chain cs) k) as ->.
  { unfold proposal_priority, own_beta. by rewrite Es, Hpk, Hlp, Eseed, (mb_addr _ Hm), (st_state _ _ Htip). }
  rewrite (with_signers_nil k Hsg), ac_block_encode_bytes by done.
  pose proof (stash_round (cs_chain cs) k _ _ dd (t_alloc env) Hr' Hcd Hs Hsg) as Hst. rewrite Es in Hst.
  change (set_chain (set_chain (set_mempool cs mp) d') dd) with (set_chain (set_mempool cs mp) dd) in *.
  destruct (stash _ _ _ _ _ _ _) as [i cs2]. destruct Hst as ((p & Hp) & Esent & Hm' & E1 & E2 & E3).
  set (cs3 := note_priority cs2 slot _) in *. pose proof (Hm' ltac:(by destruct Hm)) as Hm3.
  assert (proposed (cs_chain cs) k (bcast cs3 AC_MSG_BLOCK_ANN (block_bytes k)) i p) as Hp' by (by apply proposed_bcast).
  rewrite (try_commit_empty _ _ p).
  - split.
    + split; [by exists i, p|]. unfold bcast. rewrite (mb_bcast _ Hm3). split; [by destruct Hm3|]. done.
    + rewrite (news_app _ _ _ [(AC_MSG_BLOCK_ANN, block_bytes k)]); [done|]. unfold bcast. rewrite (mb_bcast _ Hm3). cbn. by rewrite Esent.
  - apply Hp'.
  - apply Hp'.
  - rewrite bcast_chain, E3. assert (ac_chain_total_sqrt_stake dd = ac_chain_total_sqrt_stake (cs_chain cs)) as ->; [|done].
    apply same_tip_total. by eapply same_tip_cache.
Qed.
End Proposing.

(** ** The round *)

(** What a validator meets: the clock and files during its first phase and its vote phase,
    the votes that reach it, and those of its seal phase. *)
Record inbox_t := mkInbox {
  ib_block : cenv_t; ib_vote : cenv_t; ib_votes : list (list byte * cenv_t); ib_seal : nat → cenv_t }.
Abbreviation validator_t := (ac_consensus_t * inbox_t)%type.

Section Round.
Context `{!Sodium} `{!LongDouble}.

(** First phase: the leader proposes, the others hear what it announced. *)
Definition after_propose (slot : Z) (lead : validator_t) (others : list validator_t) : list validator_t :=
  let lead' := slot_routine lead.1 slot (ib_block lead.2) in
  (lead', lead.2) ::
  ((λ v, (foldl (λ cs m, ac_consensus_handle_block cs m (ib_block v.2)) v.1 (news AC_MSG_BLOCK_ANN lead.1 lead'), v.2)) <$> others).
(** Second phase: the votes a validator sends. *)
Definition voted (slot : Z) (v : validator_t) : ac_consensus_t := vote_phase v.1 slot (ib_vote v.2).
Definition votes_of (slot : Z) (v : validator_t) : list (list byte) := news AC_MSG_COMMIT_VOTE v.1 (voted slot v).
(** Third phase: it hears votes; the slot is sealed. *)
Definition closed (slot : Z) (v : validator_t) : ac_consensus_t :=
  seal_phase (hear_votes (voted slot v) (ib_votes v.2)) slot (ib_seal v.2).
Definition round (slot : Z) (lead : validator_t) (others : list validator_t) : list ac_consensus_t :=
  closed slot <$> after_propose slot lead others.

(** Every validator hears the votes of all others, in any order, as often as it may be,
    and no other votes. *)
Definition all_heard (slot : Z) (l : list validator_t) : Prop :=
  (∀ v m, v ∈ l → m ∈ ib_votes v.2 → ∃ w, w ∈ l ∧ m.1 ∈ votes_of slot w) ∧
  (∀ i j v w m, i ≠ j → l !! i = Some v → l !! j = Some w → m ∈ votes_of slot w → m ∈ (ib_votes v.2).*1).

(** Working files, and a clock that has reached the slot, up to the 1.5 s of tolerance. *)
Definition env_ok (c : ac_chain_t) (slot : Z) (env : cenv_t) : Prop :=
  writes_ok (e_io env) = true ∧ is_u64 (now_ms (e_io env) + 1500) ∧
  c_genesis_timestamp_ms c + slot * AC_SLOT_DURATION_MS <= now_ms (e_io env) + 1500.
Record inbox_ok (c : ac_chain_t) (slot : Z) (ib : inbox_t) : Prop := {
  ik_block : env_ok c slot (ib_block ib);
  ik_vote : env_ok c slot (ib_vote ib);
  ik_votes : Forall (λ m, env_ok c slot m.2) (ib_votes ib);
  ik_seal : ∀ j, env_ok c slot (ib_seal ib j)
}.

Definition committee (c : ac_chain_t) (slot : Z) (l : list validator_t) : list ac_addr_t :=
  (λ v, cs_my_addr v.1) <$> filter (λ v, sits c slot (cs_kp v.1) = true) l.
Definition committee_weight (c : ac_chain_t) (slot : Z) (l : list validator_t) : Z :=
  sum_with (weight_of c) (committee c slot l).

(** The validators at the start of a round in which the first of them leads. *)
Record round_starts (slot : Z) (k : ac_block_t) (lead : validator_t) (others : list validator_t) : Prop := {
  rs_tip : Forall (λ v, same_tip (cs_chain lead.1) (cs_chain v.1)) others;
  rs_member : Forall (λ v, member v.1) (lead :: others);
  rs_ready : Forall (λ v, ready k (proposal_priority (cs_chain lead.1) k) v.1) (lead :: others);
  rs_inbox : Forall (λ v, inbox_ok (cs_chain lead.1) slot v.2) (lead :: others);
  rs_addrs : NoDup ((λ v, cs_my_addr v.1) <$> (lead :: others));
  rs_size : (length (lead :: others) <= 256)%nat
}.
(** The leader's chain, and the block it builds. *)
Record can_lead (slot : Z) (k : ac_block_t) (cs : ac_consensus_t) : Prop := {
  cl_fits : chain_fits (cs_chain cs);
  cl_sane : tip_sane (cs_chain cs);
  cl_supply : supply (c_state (cs_chain cs)) < U64;
  cl_height : c_height (cs_chain cs) + 1 < U64;
  cl_slot : c_last_slot (cs_chain cs) < slot;
  cl_time : c_genesis_timestamp_ms (cs_chain cs) + slot * AC_SLOT_DURATION_MS < 2 ^ 63;
  cl_gas : h_gas_used (header k) <= AC_BLOCK_GAS_LIMIT
}.
End Round.

Section Finality.
Context `{!Sodium} `{!LongDouble} `{!SodiumLaws _}.

(** What the leader built, seen from any validator at its tip. *)
Record valid_at (slot : Z) (k : ac_block_t) (c0 c : ac_chain_t) : Prop := {
  va_round : fits_round c k;
  va_slot : h_slot (header k) = slot;
  va_header : ∀ env, env_ok c0 slot env → header_ok c (header k) (now_ms (e_io env));
  va_accept : ∀ env l, env_ok c0 slot env → zlen l <= AC_COMMITTEE_MAX → (check_commit c (with_signers k l)).1 = true →
    (ac_chain_accept_block c (with_signers k l) (e_io env)).1 = AC_ACCEPT_OK
}.

Lemma tip_sane_cache c d : cache_only c d → tip_sane c → tip_sane d.
Proof. by intros [(? & ? & ? & ->) _]. Qed.
Lemma same_tip_sym c d : same_tip c d → same_tip d c.
Proof. by intros []. Qed.
Lemma same_tip_trans c d e : same_tip c d → same_tip d e → same_tip c e.
Proof. intros [] []. constructor; congruence. Qed.

Lemma built_valid slot k lp cs cs1 c env0 : member cs → cs_ok cs → can_lead slot k cs → slot_build cs slot = (Some (k, lp), cs1) →
  env_ok (cs_chain cs) slot env0 → same_tip (cs_chain cs) c → cache_ok c →
  valid_at slot k (cs_chain cs) c ∧ is_u64 slot ∧ h_proposer (header k) = pk (cs_kp cs) ∧ h_proposer_vrf_proof (header k) = lp.
Proof.
  intros [[seed Ek] _ _ _] Hcs [Hf Hsane Hsup Hh Hsl Htm Hgas] Hb He Ht Hc.
  destruct (slot_build_inv _ _ _ _ _ Hb Hcs Hf) as (d & d' & snap & mp & Hd & Hbb & Hsn & Hlen & _ & ->).
  pose proof (ledger_ok_cache _ _ Hd (co_ledger _ Hcs)) as [Hw Hcd L]. pose proof (chain_fits_cache _ _ Hd Hf) as Hfd.
  pose proof (same_tip_cache _ _ _ (same_tip_refl _) Hd) as Htd. pose proof (same_tip_trans _ _ _ (same_tip_sym _ _ Htd) Ht) as Htc.
  pose proof (cw_last_slot _ Hw) as Hl0. pose proof (cw_genesis_ts _ Hw) as Hg0. unfold is_u64 in Hl0, Hg0.
  pose proof (st_height _ _ Htd) as Eh. pose proof (st_slot _ _ Htd) as Esl. pose proof (st_genesis _ _ Htd) as Eg.
  assert (is_u64 slot) as Hu. { unfold is_u64 in *. lia. }
  assert (∀ env l, env_ok (cs_chain cs) slot env → zlen l <= AC_COMMITTEE_MAX →
    block_wf (with_signers k l) ∧ header_ok c (header k) (now_ms (e_io env)) ∧
    ((check_commit c (with_signers k l)).1 = true → body_ok c (with_signers k l))) as Hbc.
  { intros env l (_ & Hn & Hs) Hl. rewrite Ek in Hbb.
    destruct (built_checks seed slot d d' snap k c l (now_ms (e_io env))) as (H1 & H2 & H3 & _); try done; try lia; try congruence.
    by eapply tip_sane_cache. }
  pose proof (build_block_inv d slot (cs_kp cs) snap k d' Hfd Hcd Hsn Hbb) as Hinv. cbv zeta in Hinv.
  destruct (select_txs _ _ _ _ _ _) as [[[s kept] gas] tips]. destruct Hinv as (_ & _ & Ekk & _).
  destruct (Hbc env0 [] He ltac:(done)) as (Hk0 & Hho & _). assert (signers k = []) as Hsg by (by rewrite Ekk).
  rewrite (with_signers_nil k Hsg) in Hk0. pose proof (same_tip_fits _ _ Ht Hf) as Hfc.
  assert (0 <= c_height c) as Hc0. { rewrite (st_height _ _ Htc). apply (cw_height _ Hw). }
  split; [|split; [done|]; split; [by rewrite Ekk|rewrite Ekk; cbn; by rewrite (same_tip_seed _ _ _ Htd) by (done || apply Hcs)]].
  constructor.
  - constructor; try done. rewrite (ho_height _ _ _ Hho). apply u64_id. rewrite (st_height _ _ Ht). unfold is_u64. rewrite (st_height _ _ Ht) in Hc0. lia.
  - by rewrite Ekk.
  - intros env Henv. apply (Hbc env [] Henv). done.
  - intros env l Henv Hl Hcc. destruct (Hbc env l Henv Hl) as (H1 & H2 & H3). apply accept_iff; try done.
    split; [done|]. split; [by apply H3|apply Henv].
Qed.

(** Votes of the whole committee, and of nobody else, have its weight. *)
Lemma committee_enough slot k lead others c l env : valid_at slot k (cs_chain lead.1) c → same_tip (cs_chain lead.1) c →
  supply (c_state c) < U64 → NoDup (committee (cs_chain lead.1) slot (lead :: others)) → (length (lead :: others) <= 256)%nat →
  enough c k (committee_weight (cs_chain lead.1) slot (lead :: others)) → env_ok (cs_chain lead.1) slot env →
  gathered c k (committee (cs_chain lead.1) slot (lead :: others)) l →
  (∀ a, a ∈ committee (cs_chain lead.1) slot (lead :: others) → a ∈ cs_signer <$> l) →
  quorum_reached c l = true ∧ (ac_chain_accept_block c (with_signers k l) (e_io env)).1 = AC_ACCEPT_OK.
Proof.
  intros Hv Ht Hsup Hnd Hlen Hen Henv Hg Hall. destruct (Hg) as [H1 H2 H3]. pose proof (va_round _ _ _ _ Hv) as Hfr.
  assert (signed_weight c l = committee_weight (cs_chain lead.1) slot (lead :: others)) as Ew.
  { unfold signed_weight, committee_weight. assert (cs_signer <$> l ≡ₚ committee (cs_chain lead.1) slot (lead :: others)) as ->.
    { apply NoDup_Permutation; [done..|]. intros a. split; [apply H3 | apply Hall]. }
    apply sum_with_ext. intros a _. unfold weight_of. by rewrite (st_state _ _ Ht). }
  rewrite <- Ew in Hen. pose proof (cf_state _ (fr_fits _ _ Hfr)) as Hs.
  assert (zlen l <= AC_COMMITTEE_MAX) as Hl.
  { eapply gathered_length; [|done]. unfold committee. rewrite length_fmap.
    pose proof (length_filter (λ v : validator_t, sits (cs_chain lead.1) slot (cs_kp v.1) = true) (lead :: others)). lia. }
  split; [by eapply quorum_complete|]. apply Hv; [done|done|]. apply certificate_complete; try done. apply Hfr.
Qed.

Section OneRound.
Variables (slot : Z) (k : ac_block_t) (lp : ac_vrf_proof_t) (lead : validator_t) (others : list validator_t) (cs1 : ac_consensus_t).
Hypotheses (Hb : slot_build lead.1 slot = (Some (k, lp), cs1)) (Hl : can_lead slot k lead.1) (Hs : round_starts slot k lead others).
Abbreviation c0 := (cs_chain lead.1).
Abbreviation all := (lead :: others).
Abbreviation A := (committee c0 slot all).

Lemma all_valid v : v ∈ all → valid_at slot k c0 (cs_chain v.1) ∧ same_tip c0 (cs_chain v.1) ∧ cache_ok (cs_chain v.1) ∧
  is_u64 slot ∧ h_proposer (header k) = pk (cs_kp lead.1) ∧ h_proposer_vrf_proof (header k) = lp.
Proof.
  intros Hv. destruct Hs as [Htip Hm Hr Hib _ _]. rewrite Forall_forall in Hm, Hr, Hib, Htip. pose proof (list_elem_of_here lead others) as Hld.
  assert (same_tip c0 (cs_chain v.1)) as Ht by (apply elem_of_cons in Hv as [-> |Hv]; [apply same_tip_refl | by apply Htip]).
  pose proof (lg_cache _ (co_ledger _ (rd_ok _ _ _ (Hr v Hv)))) as Hc.
  destruct (built_valid slot k lp lead.1 cs1 (cs_chain v.1) (ib_block lead.2) (Hm lead Hld) (rd_ok _ _ _ (Hr lead Hld)) Hl Hb
    (ik_block _ _ _ (Hib lead Hld)) Ht Hc) as (H1 & H2 & H3 & H4). done.
Qed.
Hypothesis (Hw : Forall (λ v, enough (cs_chain v.1) k (committee_weight c0 slot all)) all).

Lemma tip_total v : v ∈ all → 0 < ac_chain_total_sqrt_stake (cs_chain v.1).
Proof.
  intros Hv. destruct (all_valid v Hv) as (Hva & Ht & _). rewrite Forall_forall in Hw. destruct (Hw v Hv) as [He _ _].
  pose proof (cf_state _ (fr_fits _ _ (va_round _ _ _ _ Hva))) as Hsw.
  rewrite total_sqrt_stake_sum by (done || rewrite (st_state _ _ Ht); apply Hl).
  pose proof (total_weight_nonneg _ Hsw) as Hn. assert (committee_weight c0 slot all <= total weight (c_state (cs_chain v.1))); [|lia].
  rewrite (st_state _ _ Ht). apply (weights_of_distinct (c_state c0)); [rewrite <- (st_state _ _ Ht); done|].
  unfold committee. eapply sublist_NoDup; [apply Hs|]. apply fmap_sublist, sublist_filter.
Qed.

(** The first phase, for everybody. *)
Lemma all_taken_in : Forall2 (λ v v', taken_in k v.1 v'.1 ∧ v'.2 = v.2) all (after_propose slot lead others).
Proof.
  destruct (Hs) as [_ Hm Hr Hib _ _]. rewrite Forall_forall in Hm, Hr, Hib. pose proof (list_elem_of_here lead others) as Hld.
  destruct (all_valid lead Hld) as (Hva & _ & Hc & Hu & Hpk & Hlp).
  destruct (lead_in lead.1 slot k lp cs1 (ib_block lead.2)) as [Hin Hnews]; try done; [by apply Hm|apply Hl|by apply Hr|by apply tip_total|].
  unfold after_propose. rewrite Hnews. constructor; [done|]. apply Forall2_fmap_r, Forall_Forall2_diag, Forall_forall. intros v Hv. split; [|done].
  assert (v ∈ all) as Hv' by (by right). destruct (all_valid v Hv') as (Hvv & Ht & Hcv & _). cbn [fst foldl].
  pose proof (va_round _ _ _ _ Hvv) as Hfr. apply take_in; [by apply Hm| |apply Hfr|apply Hfr|apply Hvv, Hib; done|by apply tip_total].
  rewrite (priority_tip c0) by done. by apply Hr.
Qed.

(** The second phase, for one validator. *)
Lemma committee_size : (length A <= 256)%nat.
Proof.
  unfold committee. rewrite length_fmap. pose proof (length_filter (λ v : validator_t, sits c0 slot (cs_kp v.1) = true) all) as Hf.
  pose proof (rs_size _ _ _ _ Hs). lia.
Qed.
Lemma committee_elem v : v ∈ all → sits c0 slot (cs_kp v.1) = true → cs_my_addr v.1 ∈ A.
Proof. intros Hv Hsit. unfold committee. apply list_elem_of_fmap. exists v. split; [done|]. by apply list_elem_of_filter. Qed.

Lemma one_votes v v' : v ∈ all → taken_in k v.1 v'.1 ∧ v'.2 = v.2 →
  progress (cs_chain v.1) k A (cs_signer <$> my_ballot c0 k (cs_kp v.1)) (voted slot v') ∧
  votes_of slot v' = (λ x, vote_encode (as_vote k x)) <$> my_ballot c0 k (cs_kp v.1).
Proof.
  intros Hv [((i & p & Hp) & Hm & Ek & Ea) E2]. destruct (all_valid v Hv) as (Hva & Ht & Hc & _).
  assert (cache_ok c0) as Hc0 by (apply (all_valid lead); by left). pose proof (va_slot _ _ _ _ Hva) as Esl.
  assert (∀ kp, my_ballot (cs_chain v.1) k kp = my_ballot c0 k kp) as Eb.
  { intros kp. unfold my_ballot. by rewrite (sits_tip c0), (ballot_tip c0) by done. }
  pose proof (rs_inbox _ _ _ _ Hs) as Hib. rewrite Forall_forall in Hib. destruct (Hib v Hv) as [_ [Hwv _] _ _].
  destruct (progress_ballot (cs_chain v.1) k A v'.1 i p (ib_vote v'.2) (va_round _ _ _ _ Hva) committee_size Hm Hp) as [H1 H2].
  - rewrite (sits_tip c0), Ek, Ea, Esl by done. by apply committee_elem.
  - by rewrite E2.
  - rewrite Ek, Eb, Esl in *. done.
Qed.

(** The third phase, for one validator: it has heard the whole committee. *)
Lemma one_closes i v v' : all !! i = Some v → after_propose slot lead others !! i = Some v' →
  all_heard slot (after_propose slot lead others) → finalised (cs_chain v.1) k (cs_chain (closed slot v')).
Proof.
  intros Hi Hi' [Hsound Hcomplete]. pose proof (list_elem_of_lookup_2 _ _ _ Hi) as Hv. pose proof (list_elem_of_lookup_2 _ _ _ Hi') as Hv'.
  pose proof all_taken_in as Hall. pose proof (Forall2_lookup_lr _ _ _ _ _ _ Hall Hi Hi') as Ht'. destruct (one_votes v v' Hv Ht') as [Hp _].
  destruct (all_valid v Hv) as (Hva & Ht & Hc & _). pose proof (va_round _ _ _ _ Hva) as Hfr. pose proof (va_slot _ _ _ _ Hva) as Esl.
  assert (cache_ok c0) as Hc0 by (apply (all_valid lead); by left).
  pose proof (rs_inbox _ _ _ _ Hs) as Hib. pose proof (rs_member _ _ _ _ Hs) as Hmem. rewrite Forall_forall in Hib, Hmem. destruct (Hib v Hv) as [_ _ Hvs Hse].
  destruct Ht' as [_ E2]. rewrite <- E2 in Hvs, Hse. rewrite Forall_forall in Hvs.
  assert (∀ w w' x, w ∈ all → taken_in k w.1 w'.1 ∧ w'.2 = w.2 → x ∈ my_ballot c0 k (cs_kp w.1) →
    counts (cs_chain v.1) k x ∧ cs_signer x ∈ A ∧ cs_signer x = cs_my_addr w.1) as Hballot.
  { intros w w' x Hw' _ Hx. unfold my_ballot in Hx. rewrite Esl in Hx. destruct (sits c0 slot (cs_kp w.1)) eqn:Esit; [|by apply elem_of_nil in Hx].
    apply list_elem_of_singleton in Hx as ->. destruct (Hmem w Hw') as [[seed Ek] Ea _ _]. split; [|split; [|by rewrite Ea]].
    - rewrite <- (ballot_tip c0 (cs_chain v.1)), Ek by done. apply ballot_counts. by rewrite (sits_tip c0), <- Ek, Esl.
    - cbn. rewrite <- Ea. by apply committee_elem. }
  destruct (progress_votes (cs_chain v.1) k A (ib_votes v'.2) Hfr committee_size _ _ Hp) as (heard & Hpr & Hown & Hother).
  { apply Forall_forall. intros m Hm. split; [apply (Hvs m Hm)|]. destruct (Hsound v' m Hv' Hm) as (w' & Hw' & Hmw).
    apply list_elem_of_lookup_1 in Hw' as [j Hj']. destruct (Forall2_lookup_r _ _ _ _ _ Hall Hj') as (w & Hj & Htw).
    pose proof (list_elem_of_lookup_2 _ _ _ Hj) as Hwa. rewrite (proj2 (one_votes w w' Hwa Htw)) in Hmw.
    apply list_elem_of_fmap in Hmw as (x & -> & Hx). exists x. split; [done|]. destruct (Hballot w w' x Hwa Htw Hx) as (? & ? & _). done. }
  assert (∀ a, a ∈ A → a ∈ heard) as Hfull.
  { intros a (w & -> & [Hsit Hwa]%list_elem_of_filter)%list_elem_of_fmap. pose proof Hwa as [j Hj]%list_elem_of_lookup_1.
    destruct (Forall2_lookup_l _ _ _ _ _ Hall Hj) as (w' & Hj' & Htw).
    assert (my_ballot c0 k (cs_kp w.1) = [ballot c0 k (cs_kp w.1)]) as Emb by (unfold my_ballot; by rewrite Esl, Hsit).
    assert (cs_my_addr w.1 = cs_signer (ballot c0 k (cs_kp w.1))) as -> by (apply (Hmem w Hwa)).
    destruct (decide (i = j)) as [<- |Hne].
    - assert (w = v) as -> by congruence. apply Hown. rewrite Emb. by left.
    - assert (vote_encode (as_vote k (ballot c0 k (cs_kp w.1))) ∈ (ib_votes v'.2).*1) as Hin.
      { apply (Hcomplete i j v' w'); try done. rewrite (proj2 (one_votes w w' Hwa Htw)), Emb. by left. }
      apply list_elem_of_fmap in Hin as (m & Em & Hm). eapply Hother; [exact Hm|done|]. apply (wf_h_height _ (wf_header _ (fr_block _ _ Hfr))). }
  rewrite Forall_forall in Hw. unfold closed. rewrite <- Esl at 2.
  eapply (seal_round (cs_chain v.1) k A heard); [done|apply committee_size|done|intros j; apply (Hse j)|].
  intros l j Hg Hh. eapply (committee_enough slot k lead others); try done.
  - rewrite (st_state _ _ Ht). apply Hl.
  - unfold committee. eapply sublist_NoDup; [apply Hs|]. apply fmap_sublist, sublist_filter.
  - apply Hs.
  - by apply Hw.
  - intros a Ha. by apply Hh, Hfull.
Qed.
End OneRound.

End Finality.

(** ** Witness: two validators, the stronger one leads slot 3 *)

#[local] Existing Instance toy_sodium.
#[local] Existing Instance x87.

Definition rival_cs : ac_consensus_t := ac_consensus_new duo_chain (ac_mempool_new 7) rival_kp true true.
Definition silent : inbox_t := mkInbox duo_env duo_env [] (λ _, duo_env).
(** The votes of both reach both. *)
Definition duo_votes : list (list byte) :=
  after_propose 3 (rival_cs, silent) [(duo_cs, silent)] ≫= votes_of 3.
Definition with_votes (ib : inbox_t) (l : list (list byte * cenv_t)) : inbox_t := mkInbox (ib_block ib) (ib_vote ib) l (ib_seal ib).
Definition full : inbox_t := with_votes silent ((λ m, (m, duo_env)) <$> duo_votes).
Definition round_block : ac_block_t := (default (zero_block, zeros 64) (slot_build rival_cs 3).1).1.

Lemma rival_builds : ∃ lp cs', slot_build rival_cs 3 = (Some (round_block, lp), cs').
Proof.
  unfold round_block. assert (bool_decide (is_Some (slot_build rival_cs 3).1) = true) as E by (vm_compute; reflexivity).
  destruct (slot_build rival_cs 3) as [[[k pr]|] cs']; [by exists pr, cs' | discriminate E].
Qed.
Lemma fresh_ready k pr cs c mp kp : cs = ac_consensus_new c mp kp true true → ledger_ok c → mp_entries mp = [] → 0 < h_height (header k) → ready k pr cs.
Proof.
  intros -> HL Hmp Hh. assert (∀ q, q ∈ repeat (pending_init false 0) AC_PENDING_MAX → pn_occupied q = false) as Hq.
  { intros q ->%list_elem_of_In%repeat_spec. done. }
  constructor; [by apply cs_ok_new|done|..].
  - intros q Hin Ho. by rewrite Hq in Ho.
  - intros q Hin Ho. unfold ConsensusFacts.open_at in Ho. by rewrite Hq in Ho.
  - cbn. lia.
  - intros v Hv _. by apply list_elem_of_In, (repeat_spec AC_PENDING_MAX) in Hv as ->.
Qed.
Lemma duo_enough : enough duo_chain round_block (committee_weight duo_chain 3 [(rival_cs, full); (duo_cs, full)]).
Proof. constructor; vm_compute; done. Qed.

Lemma duo_round_starts : round_starts 3 round_block (rival_cs, full) [(duo_cs, full)].
Proof.
  assert (0 < h_height (header round_block)) as Hh by (vm_compute; reflexivity).
  assert (env_ok duo_chain 3 duo_env) as He by (split; [reflexivity|]; split; [vm_compute; split; [discriminate|reflexivity]|vm_compute; discriminate]).
  assert (inbox_ok duo_chain 3 full) as Hi.
  { constructor; [exact He|exact He| |intros j; exact He]. apply Forall_forall. intros m Hm. apply list_elem_of_fmap in Hm as (x & Ex & Hx). rewrite Ex. exact He. }
  constructor.
  - constructor; [|constructor]. apply same_tip_refl.
  - repeat constructor; [exact (ex_intro _ (bytes_of 32 (repeat (byte_of 9) 32)) eq_refl)|exact (ex_intro _ demo_seed eq_refl)].
  - constructor; [|constructor; [|constructor]].
    + exact (fresh_ready _ _ rival_cs duo_chain (ac_mempool_new 7) rival_kp eq_refl duo_ledger eq_refl Hh).
    + exact (fresh_ready _ _ duo_cs duo_chain (ac_mempool_new 7) demo_kp eq_refl duo_ledger eq_refl Hh).
  - constructor; [exact Hi|constructor; [exact Hi|constructor]].
  - apply NoDup_cons. split; [|apply NoDup_singleton]. intros E%list_elem_of_singleton. apply (f_equal b) in E. vm_compute in E. discriminate E.
  - cbn. lia.
Qed.
Lemma duo_can_lead : can_lead 3 round_block rival_cs.
Proof. constructor; [exact duo_fits|by left|vm_compute; reflexivity..|vm_compute; discriminate]. Qed.
(** Two validators that get the votes of both. *)
Lemma heard_by_both slot x y ib env :
  let l := after_propose slot (x, ib) [(y, ib)] ≫= votes_of slot in
  let ib' := with_votes ib ((λ m, (m, env)) <$> l) in all_heard slot (after_propose slot (x, ib') [(y, ib')]).
Proof.
  intros l ib'.
  assert (after_propose slot (x, ib') [(y, ib')] ≫= votes_of slot = l) as E by reflexivity.
  assert (∀ v, v ∈ after_propose slot (x, ib') [(y, ib')] → (ib_votes v.2).*1 = l) as Hib.
  { intros v. unfold after_propose. cbn [fmap list_fmap]. intros [-> |[-> |?%elem_of_nil]%elem_of_cons]%elem_of_cons; [| |done];
      cbn [snd ib' with_votes ib_votes]; rewrite <- list_fmap_compose; apply list_fmap_id. }
  split.
  - intros v m Hv Hm. assert (m.1 ∈ (ib_votes v.2).*1) as Hin by (by apply list_elem_of_fmap_2). rewrite (Hib v Hv), <- E in Hin.
    apply list_elem_of_bind in Hin as (w & H1 & H2). by exists w.
  - intros i j v w m _ Hi Hj Hm. rewrite (Hib v), <- E by (by eapply list_elem_of_lookup_2).
    apply list_elem_of_bind. exists w. split; [done|]. by eapply list_elem_of_lookup_2.
Qed.

Lemma duo_all_enough : Forall (λ v, enough (cs_chain v.1) round_block
    (committee_weight (cs_chain (rival_cs, full).1) 3 [(rival_cs, full); (duo_cs, full)])) [(rival_cs, full); (duo_cs, full)].
Proof. constructor; [exact duo_enough|]. constructor; [exact duo_enough|constructor]. Qed.
Lemma duo_heard : all_heard 3 (after_propose 3 (rival_cs, full) [(duo_cs, full)]).
Proof. exact (heard_by_both 3 rival_cs duo_cs silent duo_env). Qed.

