(* ===== verification/Wallet.v ===== *)
(** * main.c: the command line's RPC client and transactions

    The client side of the JSON-RPC protocol over plain HTTP, and the commands that
    query the chain and submit transactions. The version string is generated by the
    build, so the user agent is an argument; so is what [getenv] and the file system
    answer. A command's result is its exit code and what it prints that depends on
    the response. *)

From S2P Require Import Prelude Common Crypto Text Files Codec State Mempool Econ Chain Accept Consensus Net Node Config Rpc Boot.

(** ** Addresses *)

Definition parse_host_port (hp : list byte) (host_cap : nat) : option (list byte * Z) :=
  match strrchr hp x3a with
  | None => None
  | Some (host, port) =>
      if (host_cap <=? length host)%nat then None
      else let p := atoi port in if (p <=? 0) || (65535 <? p) then None else Some (host, p)
  end.

(** Where [rpc_call] goes: a URL for curl, or a host and a port. *)
Definition until_slash (l : list byte) : list byte := take_while (λ c, negb (bool_decide (c = x2f))) l.
Definition rpc_target (url : list byte) : list byte + list byte * Z :=
  if prefix_of (str "https://") url then inl url
  else
    let url := if prefix_of (str "http://") url then drop 7 url else url in
    let hp := until_slash (snprintf 256 (take 255 url)) in
    inr (default (snprintf 256 (take 255 hp), 30304) (parse_host_port hp 256)).

(** ** The HTTP client *)

(** The 256-byte buffer the request's header is printed into, and the bytes of it handed to
    the first send: as many as [snprintf] returned. *)
Definition request_text (host user_agent : list byte) (len : Z) : list byte :=
  str "POST / HTTP/1.1" ++ CRLF ++ str "Host: " ++ host ++ CRLF ++ str "Content-Type: application/json" ++ CRLF ++
  str "User-Agent: " ++ user_agent ++ CRLF ++ str "Content-Length: " ++ dec len ++ CRLF ++
  str "Connection: close" ++ CRLF ++ CRLF.
Definition http_request (host user_agent body : list byte) : outcome (list byte) :=
  let t := request_text host user_agent (zlen body) in
  read_at (pad 256 (snprintf 256 t)) 0 (length t).

(** What the calls of a connection return: whether it was made, and the two sends. *)
Record post_io := mkPost { po_connected : bool; po_head : send_ev; po_body : send_ev }.
(** One [send]: the bytes taken, however few; [None] is a negative result, which an
    interruption is too. *)
Definition send_once (ev : send_ev) (buf : list byte) : option (list byte) :=
  match ev with SSent n => Some (take n buf) | SEintr | SFail => None end.
(** The two sends, neither repeated: whether both succeeded, and what was sent. *)
Definition post_sends (io : post_io) (head body : list byte) : bool * list byte :=
  match send_once (po_head io) head with
  | None => (false, [])
  | Some x => match send_once (po_body io) body with None => (false, x) | Some y => (true, x ++ y) end
  end.

(** Everything up to the end of the stream or of the buffer. *)
Fixpoint recv_all (s : list recv_ev) (buf : list byte) (cap : Z) : list byte :=
  if zlen buf + 1 <? cap then
    match s with
    | RData (c :: l) :: s' => recv_all s' (buf ++ take (Z.to_nat (cap - 1 - zlen buf)) (c :: l)) cap
    | _ => buf
    end
  else buf.
(** The response without its headers, as the C string the callers read. *)
Definition http_body (resp : list byte) : list byte :=
  match strstr (cstr resp) (CRLF ++ CRLF) with
  | Some p => cstr (drop (length (cstr resp) - length p + 4) resp)
  | None => cstr resp
  end.

(** ** Commands

    [call] is [rpc_call] with the chosen URL: [None] is a negative return. *)
Section Commands.
Context `{!Sodium} {W : Type} (call : W → list byte → option (list byte) * W).

Definition chain_info_request : list byte := jstr "{'jsonrpc':'2.0','id':1,'method':'chain_info'}".
Definition account_request (cap : nat) (address : list byte) : list byte :=
  snprintf cap (jstr "{'jsonrpc':'2.0','id':1,'method':'account_get','params':{'address':'" ++ address ++ jstr "'}}").
Definition submit_request (tx_hex : list byte) : list byte :=
  snprintf (length tx_hex + 256) (jstr "{'jsonrpc':'2.0','id':1,'method':'tx_submit','params':{'tx_hex':'" ++ tx_hex ++ jstr "'}}").

Record tx_submit_opts_t := mkOpts {
  o_rpc : option (list byte); o_key_file : option (list byte);
  o_tip : option (list byte); o_memo : option (list byte); o_valid : option (list byte) }.
Definition parse_submit_opts (argv : argv_t) : tx_submit_opts_t :=
  mkOpts (get_opt argv (str "--rpc")) (get_opt argv (str "--from-key")) (get_opt argv (str "--tip")) (get_opt argv (str "--memo")) (get_opt argv (str "--valid-slots")).

Definition json_u64_or_0 (resp : list byte) (key : string) : Z := default 0 (json_get_uint64 resp (str key)).

(** The transaction [submit_tx] builds, before it is signed. *)
Definition wallet_tx (chain_id genesis_ts nonce : Z) (kp : ac_keypair_t) (opts : tx_submit_opts_t) (kind : Z)
    (body : list byte) (gas_limit now : Z) : ac_tx_t :=
  let current_slot := (now ⊖ genesis_ts) / AC_SLOT_DURATION_MS in
  let valid_window := match o_valid opts with Some s => strtoull s | None => 600 end in
  mkTx AC_TX_VERSION chain_id kind (pk kp) nonce gas_limit
    (match o_tip opts with Some s => strtoull s | None => 0 end)
    (current_slot ⊕ valid_window) body
    (match o_memo opts with Some m => take 512 m | None => [] end) (zeros 64).

(** The exit code with the hash printed, if any. [key] is the key file, if it exists. *)
Definition submit_tx (w : W) (key : option (list byte)) (opts : tx_submit_opts_t) (kind : Z) (body : list byte)
    (gas_limit now : Z) : Z * option (list byte) * W :=
  match key with
  | None => (2, None, w)
  | Some file =>
      match key_load file with
      | None => (1, None, w)
      | Some kp =>
          match call w chain_info_request with
          | (None, w) => (1, None, w)
          | (Some resp, w) =>
              let chain_id := json_u64_or_0 resp "chain_id" in
              let genesis_ts := json_u64_or_0 resp "genesis_timestamp_ms" in
              match call w (account_request 512 (ac_hex_encode (b (pk kp)))) with
              | (None, w) => (1, None, w)
              | (Some resp, w) =>
                  let nonce := json_u64_or_0 resp "nonce" in
                  let tx := wallet_tx chain_id genesis_ts nonce kp opts kind body gas_limit now in
                  if AC_TX_BODY_MAX <? zlen body then (1, None, w)
                  else
                    match ac_tx_sign tx kp with
                    | None => (1, None, w)
                    | Some tx =>
                        match ac_tx_encode AC_TX_MAX_BYTES tx with
                        | None => (1, None, w)
                        | Some bin =>
                            match call w (submit_request (ac_hex_encode bin)) with
                            | (None, w) => (1, None, w)
                            | (Some resp, w) =>
                                match json_get_hex resp (str "hash") 65 with
                                | Some (c :: hash) => (0, Some (c :: hash), w)
                                | _ => (1, None, w)
                                end
                            end
                        end
                    end
              end
          end
      end
  end.

End Commands.

(** The endpoint and the key file of a command: its option or the default. *)
Definition AC_MAINNET_RPC : list byte := str "https://api.agentchain.noesisai.it".
Definition rpc_url (o : option (list byte)) : list byte := default AC_MAINNET_RPC o.
Definition key_file (home : vars_t) (fs : fs_t) (o : option (list byte)) : option (list byte) :=
  fs (default (default_key_path home 1024) o).

Section Submitting.
Context `{!Sodium} {W : Type} (call : list byte → W → list byte → option (list byte) * W).
Context (home : vars_t) (fs : fs_t).

Definition wants_help (argv : argv_t) : bool := has_flag argv (str "--help") || has_flag argv (str "-h").

Definition cmd_send (w : W) (argv : argv_t) (now : Z) : Z * option (list byte) * W :=
  if wants_help argv then (0, None, w)
  else
    match get_opt argv (str "--to"), get_opt argv (str "--amount") with
    | Some to_hex, Some amount_s =>
        match ac_hex_decode AC_PUBKEY_SIZE to_hex with
        | None => (2, None, w)
        | Some r =>
            match ac_body_transfer_encode AC_TX_BODY_MAX (mkBodyTransfer (bytes_of 32 r) (strtoull amount_s)) with
            | None => (1, None, w)
            | Some body =>
                let opts := parse_submit_opts argv in
                submit_tx (call (rpc_url (o_rpc opts))) w (key_file home fs (o_key_file opts)) opts AC_TX_TRANSFER body 1000 now
            end
        end
    | _, _ => (2, None, w)
    end.

Definition cmd_stake (kind : Z) (w : W) (argv : argv_t) (now : Z) : Z * option (list byte) * W :=
  if wants_help argv then (0, None, w)
  else
    match get_opt argv (str "--amount") with
    | None => (2, None, w)
    | Some amount_s =>
        match ac_body_stake_encode AC_TX_BODY_MAX (mkBodyStake (strtoull amount_s)) with
        | None => (1, None, w)
        | Some body =>
            let opts := parse_submit_opts argv in
            submit_tx (call (rpc_url (o_rpc opts))) w (key_file home fs (o_key_file opts)) opts kind body 1000 now
        end
    end.
Definition cmd_bond := cmd_stake AC_TX_STAKE_BOND.
Definition cmd_unbond := cmd_stake AC_TX_STAKE_UNBOND.

(** Balance, nonce, stake and unbonding slot as printed; [None] prints the response. *)
Definition cmd_balance (w : W) (argv : argv_t) : Z * option (Z * Z * Z * Z) * W :=
  if wants_help argv then (0, None, w)
  else
    let address :=
      match get_opt argv (str "--address") with
      | Some a => inr a
      | None =>
          match fs (match get_opt argv (str "--key") with Some k => snprintf 1024 k | None => default_key_path home 1024 end) with
          | None => inl 2
          | Some file => match key_load file with None => inl 1 | Some kp => inr (ac_hex_encode (b (pk kp))) end
          end
      end in
    match address with
    | inl code => (code, None, w)
    | inr a =>
        match call (rpc_url (get_opt argv (str "--rpc"))) w (account_request 256 a) with
        | (None, w) => (1, None, w)
        | (Some resp, w) =>
            (0, (bal ← json_get_uint64 resp (str "balance");
                 non ← json_get_uint64 resp (str "nonce");
                 stk ← json_get_uint64 resp (str "stake");
                 Some (bal, non, stk, json_u64_or_0 resp "unbond_at")), w)
        end
    end.

(** Chain id, height, tip, base fee and genesis time as printed. *)
Definition cmd_info (w : W) (argv : argv_t) : Z * option (Z * Z * list byte * Z * Z) * W :=
  if wants_help argv then (0, None, w)
  else
    match call (rpc_url (get_opt argv (str "--rpc"))) w chain_info_request with
    | (None, w) => (1, None, w)
    | (Some resp, w) =>
        (0, (cid ← json_get_uint64 resp (str "chain_id");
             height ← json_get_uint64 resp (str "height");
             Some (cid, height, default [] (json_get_hex resp (str "tip_hash") 128),
                   json_u64_or_0 resp "base_fee", json_u64_or_0 resp "genesis_timestamp_ms")), w)
    end.
End Submitting.

Section Keys.
Context `{!Sodium} (home : vars_t) (fs : fs_t).

(** The exit code, the address printed and the files afterwards. *)
Definition cmd_keygen (argv : argv_t) (seed : bytes AC_SEED_SIZE) (write_ok : bool) : Z * option (list byte) * fs_t :=
  if wants_help argv then (0, None, fs)
  else
    let out := default (default_key_path home 1024) (get_opt argv (str "--out")) in
    if ac_file_exists fs out then (1, None, fs)
    else
      match ac_node_keypair_load_or_create (fs out) seed write_ok with
      | (Some (kp, _), f) => (0, Some (ac_hex_encode (b (pk kp))), fs_set fs out f)
      | (None, _) => (1, None, fs)
      end.
Definition cmd_pubkey (argv : argv_t) : Z * option (list byte) :=
  if wants_help argv then (0, None)
  else
    let path := match get_opt argv (str "--key"), get_opt argv (str "--data-dir") with
                | Some k, _ => snprintf 1024 k
                | None, Some dd => ac_join_path 1024 dd (str "node.key")
                | None, None => default_key_path home 1024
                end in
    match fs path with
    | None => (1, None)
    | Some buf =>
        match key_load buf with
        | Some kp => (0, Some (ac_hex_encode (b (pk kp))))
        | None => (1, None)
        end
    end.
End Keys.

(** ** The client over a native connection to a node

    Both directions are streams that the kernel cuts into pieces as it likes; [io] is what
    the client's calls return for a request. The server handles what was sent. When a send
    was short the server waits for the rest and the client for an answer, until the client
    is ended: then, as when a call failed, there is none ([None]). *)
Section Native.
Context `{!Sodium} (io : list byte → post_io) (chunk : list byte → list recv_ev).
Context (host user_agent listen_host : list byte) (server_now : Z).

Definition native_call (resp_cap : Z) (n : ac_node_t) (body : list byte) : option (list byte) * ac_node_t :=
  if negb (po_connected (io body)) then (None, n)
  else
    match http_request host user_agent body with
    | OK head =>
        let '(ok, sent) := post_sends (io body) head body in
        let '(resp, n) := handle_client n (chunk sent) listen_host server_now in
        if ok && (length sent =? length (head ++ body))%nat then (Some (http_body (recv_all (chunk resp) [] resp_cap)), n)
        else (None, n)
    | _ => (None, n)
    end.
End Native.

(** [rpc_call] to a node: natively, or through curl for an https URL. *)
Definition rpc_call `{!Sodium} (curl : list byte → ac_node_t → list byte → option (list byte) * ac_node_t)
    (io : list byte → post_io) (chunk : list byte → list recv_ev) (user_agent listen_host : list byte) (server_now resp_cap : Z)
    (url : list byte) (n : ac_node_t) (body : list byte) : option (list byte) * ac_node_t :=
  match rpc_target url with
  | inl url => curl url n body
  | inr (host, _) => native_call io chunk host user_agent listen_host server_now resp_cap n body
  end.
