(* ===== verification/Cli.v ===== *)
(** * main.c: the https client, the usage banner, the help screens and the version

    [https_post_curl] runs curl as a child process: the parent's side over the results of
    its system calls, with the four pipe ends counted. Banner, help and version line are
    texts, with the generated version strings as arguments. *)

From S2P Require Import Prelude Common Crypto Cursor Text Files Codec State Mempool Econ Chain Accept Consensus Net Node Config Rpc Boot Wallet.

(** ** curl *)

(** The ends of the two pipes. *)
Inductive pipe_fd := In0 | In1 | Out0 | Out1.
#[export] Instance pipe_fd_dec : EqDecision pipe_fd.
Proof. solve_decision. Defined.

Inductive wait_status := WExited (code : Z) | WSignaled.
(** The parent's system calls: both [pipe]s and [fork] (does it succeed), the counts of
    [write] and [read], and how the child ended. *)
Record curl_env := mkCurl {
  cu_in_pipe : bool; cu_out_pipe : bool; cu_fork : bool;
  cu_writes : list io_ev; cu_reads : list recv_ev; cu_status : wait_status }.

(** The arguments of the child. *)
Definition curl_argv (user_agent url : list byte) : list (list byte) :=
  [str "curl"; str "-sS"; str "-X"; str "POST"; str "-H"; str "Content-Type: application/json";
   str "-H"; str "User-Agent: " ++ user_agent; str "--max-time"; str "20"; str "--data-binary"; str "@-"; url].

(** The write loop: it ends at the first result that is not positive. What the child
    finds on its standard input. *)
Fixpoint curl_write (evs : list io_ev) (body : list byte) (written : nat) : list byte :=
  if (written <? length body)%nat then
    match evs with
    | IoCount (S n) :: evs => curl_write evs body (written + S n)
    | _ => take written body
    end
  else body.

(** A run: the result ([None] is -1), the child's arguments and input if there was a
    child, and the pipe ends opened and closed, in order. *)
Record curl_run := mkRun {
  cr_result : option (list byte); cr_child : option (list (list byte) * list byte);
  cr_opened : list pipe_fd; cr_closed : list pipe_fd }.
Definition https_post_curl (e : curl_env) (user_agent url body : list byte) (resp_cap : Z) : curl_run :=
  if negb (cu_in_pipe e) then mkRun None None [] []
  else if negb (cu_out_pipe e) then mkRun None None [In0; In1] [In0; In1]
  else if negb (cu_fork e) then mkRun None None [In0; In1; Out0; Out1] [In0; In1; Out0; Out1]
  else
    let input := curl_write (cu_writes e) body 0 in
    let resp := recv_all (cu_reads e) [] resp_cap in
    let failed := match cu_status e with WExited code => negb (code =? 0) | WSignaled => false end in
    mkRun (if failed then None else Some (cstr resp)) (Some (curl_argv user_agent url, input))
      [In0; In1; Out0; Out1] [In0; Out1; In1; Out0].

Lemma curl_write_all evs body n : (n <= length body)%nat →
  Forall (λ e, match e with IoCount m => m ≠ 0%nat | _ => False end) evs →
  (length body <= n + sum_list_with (λ e, match e with IoCount m => m | _ => 0 end) evs)%nat →
  curl_write evs body n = body.
Proof.
  intros Hn He. revert n Hn. induction He as [|e evs He _ IH]; intros n Hn Hl; cbn [curl_write]; destruct (Nat.ltb_spec n (length body)); try done.
  - cbn in Hl. lia.
  - destruct e as [[|m]| |]; try done. cbn in Hl. destruct (decide (n + S m <= length body)%nat); [apply IH; lia|].
    destruct evs; cbn [curl_write]; by rewrite (proj2 (Nat.ltb_ge _ _)) by lia.
Qed.

Lemma recv_all_concat pieces buf cap : Forall (λ p, p ≠ []) pieces → zlen (buf ++ concat pieces) + 1 <= cap →
  recv_all (RData <$> pieces) buf cap = buf ++ concat pieces.
Proof.
  intros Hp. revert buf. induction Hp as [|p pieces Hp _ IH]; intros buf Hc; cbn [fmap list_fmap recv_all concat].
  - rewrite app_nil_r. by destruct (_ <? _).
  - destruct p as [|c p]; [done|]. cbn [concat] in Hc. rewrite app_assoc in Hc |- *. rewrite !length_app in Hc. cbn [length] in Hc.
    destruct (Z.ltb_spec (zlen buf + 1) cap); [|lia]. rewrite take_ge by (cbn [length]; lia). apply IH. rewrite !length_app. cbn [length]. lia.
Qed.

(** The https client: whatever the system calls return, every pipe end it opened is
    closed once and curl, if it ran, had the fixed arguments with the URL as its last one.
    When no call fails, curl reads the whole request however the writes are cut, and the
    caller gets the whole answer however the reads are cut, as long as it fits the buffer. *)
Theorem https_client e user_agent url body cap pieces :
  let r := https_post_curl e user_agent url body cap in
  (cr_closed r ≡ₚ cr_opened r ∧ NoDup (cr_closed r)) ∧
  (∀ args input, cr_child r = Some (args, input) → args = curl_argv user_agent url ∧ last args = Some url) ∧
  (cu_in_pipe e = true → cu_out_pipe e = true → cu_fork e = true → cu_status e = WExited 0 →
   Forall (λ ev, match ev with IoCount m => m ≠ 0%nat | _ => False end) (cu_writes e) →
   (length body <= sum_list_with (λ ev, match ev with IoCount m => m | _ => 0 end) (cu_writes e))%nat →
   cu_reads e = RData <$> pieces → Forall (λ p, p ≠ []) pieces → zlen (concat pieces) + 1 <= cap →
   cr_child r = Some (curl_argv user_agent url, body) ∧ cr_result r = Some (cstr (concat pieces))).
Proof.
  cbv zeta. unfold https_post_curl. split; [|split].
  - destruct (cu_in_pipe e), (cu_out_pipe e), (cu_fork e); cbn; (split; [|apply (bool_decide_unpack _); reflexivity]); try done.
    apply Permutation_skip. transitivity [In1; Out1; Out0]; [apply Permutation_swap | apply Permutation_skip, Permutation_swap].
  - destruct (cu_in_pipe e), (cu_out_pipe e), (cu_fork e); cbn; intros args input [=]. subst. done.
  - intros -> -> -> -> Hw Hl -> Hp Hc. cbn [negb Z.eqb cr_child cr_result]. rewrite curl_write_all by (done || lia).
    by rewrite (recv_all_concat pieces []).
Qed.

(** A child killed by a signal counts as a success: the caller gets what it printed. *)
Lemma curl_killed_is_success e ua url body cap : cu_in_pipe e = true → cu_out_pipe e = true → cu_fork e = true →
  cu_status e = WSignaled → cr_result (https_post_curl e ua url body cap) = Some (cstr (recv_all (cu_reads e) [] cap)).
Proof. unfold https_post_curl. by intros -> -> -> ->. Qed.
(** One interrupted write, and curl posts the part of the request before it. *)
Lemma curl_request_cut e ua url body cap n evs : cu_in_pipe e = true → cu_out_pipe e = true → cu_fork e = true →
  cu_writes e = IoCount (S n) :: IoEintr :: evs → (S n < length body)%nat →
  cr_child (https_post_curl e ua url body cap) = Some (curl_argv ua url, take (S n) body).
Proof.
  unfold https_post_curl. intros -> -> -> -> Hn. cbn [negb cr_child curl_write]. destruct (Nat.ltb_spec 0 (length body)); [|lia].
  cbn [Nat.add]. by rewrite (proj2 (Nat.ltb_lt _ _)) by lia.
Qed.

Definition demo_curl : curl_env := mkCurl true true true [IoCount 3; IoCount 9] [RData (str "{}")] (WExited 0).
Lemma https_client_witness :
  cr_result (https_post_curl demo_curl (str "ua") (str "https://h") (str "0123456789") 100) = Some (str "{}").
Proof.
  destruct (https_client demo_curl (str "ua") (str "https://h") (str "0123456789") 100 [str "{}"]) as (_ & _ & H).
  apply H; try reflexivity; [repeat constructor; discriminate | cbn; lia | repeat constructor; discriminate | vm_compute; discriminate].
Defined.

(** ** The banner *)

Definition NL : list byte := [x0a].
Definition usage_body : list byte :=
  str "Wallet & queries" ++ NL ++
  str "  keygen     Create a new keypair (defaults to ~/.agentchain/node.key)" ++ NL ++
  str "  pubkey     Print your public address (hex)" ++ NL ++
  str "  balance    Look up an account on the chain" ++ NL ++
  str "  info       Print current chain state" ++ NL ++ NL ++
  str "Transactions (signed locally, broadcast via JSON-RPC)" ++ NL ++
  str "  send       Transfer CRD to another address" ++ NL ++
  str "  bond       Bond CRD into stake to become / top-up a validator" ++ NL ++
  str "  unbond     Release stake back to balance" ++ NL ++ NL ++
  str "Operating a node" ++ NL ++
  str "  node       Join the network (sync). Add --validator to propose blocks." ++ NL ++
  str "  genesis    Write a genesis file (advanced; for new testnets)" ++ NL ++ NL ++
  str "  version    Print version and exit" ++ NL ++
  str "  help       Show this banner; 'agentchain <cmd> --help' for details" ++ NL ++ NL ++
  str "Defaults: RPC = " ++ AC_MAINNET_RPC ++ str "   key = ~/.agentchain/node.key   data = ~/.agentchain" ++ NL.
Definition print_usage (version commit argv0 : list byte) : list byte :=
  (str "AgentChain Engine " ++ version ++ str " (" ++ commit ++ str ")") ++ NL ++
  (str "Usage: " ++ argv0 ++ str " <command> [options]") ++ NL ++ NL ++ usage_body.
Abbreviation AGENTCHAIN_PROTOCOL_VERSION := 1.
(** The dash is the three bytes of its UTF-8 form. *)
Definition cmd_version (version commit : list byte) : list byte * Z :=
  (str "AgentChain Engine " ++ version ++ str " (" ++ commit ++ str ") " ++ [xe2; x80; x94] ++ str " protocol v" ++
   dec AGENTCHAIN_PROTOCOL_VERSION ++ NL, 0).

(** The commands a text lists: the first words of the lines that begin with two blanks. *)
Fixpoint split_lines (l cur : list byte) : list (list byte) :=
  match l with
  | [] => [cur]
  | c :: l => if bool_decide (c = x0a) then cur :: split_lines l [] else split_lines l (cur ++ [c])
  end.
Definition listed (text : list byte) : list (list byte) :=
  omap (λ line, match line with
                | x20 :: x20 :: c :: rest => Some (take_while (λ c, negb (isspace c)) (c :: rest))
                | _ => None
                end) (split_lines text []).

(** Lines of a text without line breaks before the rest. *)
Lemma split_lines_app l rest cur : x0a ∉ l → split_lines (l ++ x0a :: rest) cur = (cur ++ l) :: split_lines rest [].
Proof.
  revert cur. induction l as [|c l IH]; intros cur; [intros _; cbn; by rewrite app_nil_r|].
  intros [Hc Hl]%not_elem_of_cons. cbn [app split_lines]. rewrite bool_decide_false by congruence. rewrite IH by done.
  by rewrite <- app_assoc.
Qed.

(** The banner is complete and true: whatever version and program name are printed into
    it, it lists a name for every command of [main], and every name it lists is a command. *)
Lemma usage_lists_commands version commit argv0 : x0a ∉ version → x0a ∉ commit → x0a ∉ argv0 →
  let names := listed (print_usage version commit argv0) in
  Forall (λ name, ∃ c, main [argv0; name] = inr (c, [name])) names ∧
  ∀ c, ∃ name, name ∈ names ∧ main [argv0; name] = inr (c, [name]).
Proof.
  intros Hv Hc Ha. cbv zeta.
  assert (listed (print_usage version commit argv0) =
    (λ s, str s) <$> ["keygen"; "pubkey"; "balance"; "info"; "send"; "bond"; "unbond"; "node"; "genesis"; "version"; "help"]%string) as ->.
  { unfold listed, print_usage, NL. cbn [app]. rewrite !split_lines_app; [vm_compute; reflexivity|..].
    all: rewrite !not_elem_of_app; repeat split; try done; apply (bool_decide_eq_false_1 _); vm_compute; reflexivity. }
  split; [repeat constructor; eexists; reflexivity|]. intros c.
  exists (match c with do_version => str "version" | do_node => str "node" | do_keygen => str "keygen" | do_pubkey => str "pubkey"
    | do_genesis => str "genesis" | do_send => str "send" | do_bond => str "bond" | do_unbond => str "unbond"
    | do_balance => str "balance" | do_info => str "info" | do_usage => str "help" end).
  split; [|by destruct c]. destruct c; apply (bool_decide_unpack _); vm_compute; exact Logic.I.
Qed.

(** ** The help screens *)

(** Each command but [version] prints its screen when [--help] or [-h] is among its
    arguments. The texts are UTF-8, a string here being its bytes. *)
Definition unlines (l : list (list byte)) : list byte := l ≫= (λ line, line ++ NL).
Definition help_keygen : list byte := unlines
  [str "Usage: agentchain keygen [--out FILE]";
   [];
   str "Create a fresh Ed25519 keypair. The private seed is written 0600 to";
   str "the path you choose (default: ~/.agentchain/node.key). The public";
   str "key (= your AgentChain address) is printed on stdout.";
   [];
   str "Existing files are NEVER overwritten — this is a destructive op for";
   str "your wallet. Use `--out` to pick a different path if the default is";
   str "taken."].
Definition help_pubkey : list byte := unlines
  [str "Usage: agentchain pubkey [--key FILE | --data-dir DIR]";
   [];
   str "Print the public address of the key file. With no arguments, reads";
   str "~/.agentchain/node.key."].
Definition help_genesis : list byte := unlines
  [str "Usage: agentchain genesis --chain-id N --out FILE";
   str "                          [--timestamp-ms N] [--account HEX:BAL:STAKE ...]";
   [];
   str "Write a fresh genesis configuration file. Used to bootstrap testnets";
   str "(joining mainnet alpha does not require this — the mainnet alpha";
   str "genesis is embedded in the binary and used automatically when no";
   str "--genesis is passed to `agentchain node`)."].
Definition help_info : list byte := unlines
  [str "Usage: agentchain info [--rpc URL]";
   [];
   str "Print the current chain state (height, tip hash, base fee, …).";
   str "Defaults to " ++ AC_MAINNET_RPC ++ str "."].
Definition help_balance : list byte := unlines
  [str "Usage: agentchain balance [--address HEX] [--rpc URL] [--key FILE]";
   [];
   str "Look up an account's balance, nonce, and bonded stake. With no";
   str "--address, queries your default wallet key (~/.agentchain/node.key).";
   str "Defaults RPC to " ++ AC_MAINNET_RPC ++ str "."].
Definition help_send : list byte := unlines
  [str "Usage: agentchain send --to HEX --amount UCRD";
   str "                       [--from-key FILE] [--rpc URL]";
   str "                       [--tip N] [--memo TEXT] [--valid-slots N]";
   [];
   str "Transfer `amount` µCRD (= amount × 10⁻⁶ CRD) from your wallet to";
   str "the recipient address. Signs locally, broadcasts via JSON-RPC.";
   [];
   str "Defaults: from-key = ~/.agentchain/node.key, rpc = " ++ AC_MAINNET_RPC].
Definition help_bond : list byte := unlines
  [str "Usage: agentchain bond --amount UCRD";
   str "                       [--from-key FILE] [--rpc URL] [--tip N]";
   [];
   str "Bond `amount` micro-CRD from your balance into stake. Once stake ";
   str "reaches " ++ dec AC_MIN_STAKE_UCRD ++ str " uCRD (= 100 CRD), your key becomes eligible for validator";
   str "sortition. You still need to run `agentchain node --validator` to";
   str "actually propose blocks.";
   [];
   str "Until v1.0.13 this command was called `stake`; the old name still";
   str "works as a deprecated alias."].
Definition help_unbond : list byte := unlines
  [str "Usage: agentchain unbond --amount UCRD";
   str "                         [--from-key FILE] [--rpc URL] [--tip N]";
   [];
   str "Release `amount` µCRD from stake back to balance. The protocol";
   str "specifies a 24-hour cooldown (PROTOCOL.md § 5.2); v1.0.x releases";
   str "early — see TECHNICAL-IMPLEMENTATION.md § 9.4."].
Definition help_node : list byte := unlines
  [str "Usage: agentchain node [--validator] [-v]";
   str "                       [--data-dir DIR] [--genesis FILE] [--seeds H:P,…]";
   str "                       [--port N] [--rpc-port N]";
   str "                       [--host BIND] [--rpc-host BIND]";
   str "                       [--external-host H]";
   [];
   str "Run a node. With no arguments this joins AgentChain mainnet alpha:";
   str "  data-dir   ~/.agentchain";
   str "  genesis    embedded mainnet alpha (chain_id=1)";
   str "  seeds      " ++ AC_MAINNET_SEEDS;
   str "  port       30303 (p2p)";
   str "  rpc-port   30304 (loopback only)";
   [];
   str "Add --validator to participate in consensus (requires ≥ " ++ dec AC_MIN_STAKE_UCRD ++ str " µCRD bonded).";
   str "Expose --rpc-host 0.0.0.0 only if you want to serve RPC publicly."].
Definition help_screen (c : command) : option (list byte) :=
  match c with
  | do_keygen => Some help_keygen | do_pubkey => Some help_pubkey | do_genesis => Some help_genesis
  | do_info => Some help_info | do_balance => Some help_balance | do_send => Some help_send
  | do_bond => Some help_bond | do_unbond => Some help_unbond | do_node => Some help_node
  | do_version | do_usage => None
  end.

(** A screen starts with the name by which [main] runs its command. *)
Lemma help_names_command c text : help_screen c = Some text →
  ∃ name rest, text = str "Usage: agentchain " ++ name ++ x20 :: rest ∧
    ∀ argv0 args, main (argv0 :: name :: args) = inr (c, name :: args).
Proof.
  assert (∀ name n, take n text = str "Usage: agentchain " ++ name ++ [x20] →
    ∃ rest, text = str "Usage: agentchain " ++ name ++ x20 :: rest) as Hsplit.
  { intros name n E. exists (drop n text). rewrite <- (take_drop n text) at 1. rewrite E. by rewrite <- !app_assoc. }
  intros Hc. exists (match c with do_keygen => str "keygen" | do_pubkey => str "pubkey" | do_genesis => str "genesis" | do_info => str "info"
    | do_balance => str "balance" | do_send => str "send" | do_bond => str "bond" | do_unbond => str "unbond" | _ => str "node" end).
  destruct c; cbn [help_screen] in Hc; try discriminate Hc; injection Hc as <-.
  all: match goal with |- ∃ rest, _ = _ ++ ?name ++ _ ∧ _ =>
    destruct (Hsplit name (length (str "Usage: agentchain " ++ name ++ [x20]))) as [rest E]; [vm_compute; reflexivity|] end.
  all: exists rest; split; [exact E|]; intros; vm_compute; reflexivity.
Qed.

(** What the screen of [node] says of the defaults is so: run without options, the node
    takes the seeds and the ports printed there, and serves RPC on the loopback only. *)
Lemma help_defaults home fs : ∃ cfg, (node_config [str "node"] home fs true).1 = inr cfg ∧
  cf_rpc_host cfg = str "127.0.0.1" ∧
  ∃ seeds, cf_seed_peers cfg = seed_list seeds ∧
    take 3 (drop 9 (split_lines help_node [])) =
      [str "  seeds      " ++ seeds; str "  port       " ++ dec (cf_listen_port cfg) ++ str " (p2p)";
       str "  rpc-port   " ++ dec (cf_rpc_port cfg) ++ str " (loopback only)"].
Proof.
  unfold node_config. cbn [has_flag get_opt]. rewrite andb_false_r.
  eexists. split; [reflexivity|]. split; [vm_compute; reflexivity|]. exists AC_MAINNET_SEEDS. split; vm_compute; reflexivity.
Qed.
