(* ===== verification/RpcFacts.v ===== *)
(** * The JSON-RPC server and its client: transport and end-to-end theorems *)

From S2P Require Import Prelude Common Crypto Text Codec SortedArray State Apply Mempool Econ Chain Accept Ledger Consensus ConsensusFacts Net NetFacts Node NodeFacts Sync Config Rpc Wallet.

(** ** Text over a stream *)

(** A stream of data only, in pieces of any sizes. *)
Definition pieces (s : list recv_ev) : Prop :=
  Forall (λ e, match e with RData l => l ≠ [] | _ => False end) s.

(** A proper prefix of text and pattern holds no occurrence. *)
Lemma strstr_short p l y z : skips p l = true → l ++ p = y ++ z → z ≠ [] → strstr y p = None.
Proof.
  revert y. induction l as [|c l IH]; intros y Hs E Hz.
  - cbn in E. assert (∀ y, (length y < length p)%nat → strstr y p = None) as Hlen.
    { clear. induction y as [|d y IH]; intros Hy; cbn [strstr].
      - destruct (prefix_of p []) eqn:E; [|done]. apply prefix_of_length in E. cbn in *. lia.
      - destruct (prefix_of p (d :: y)) eqn:E; [apply prefix_of_length in E; lia|]. apply IH. cbn in Hy. lia. }
    apply Hlen. rewrite E, length_app. destruct z; [done|]. cbn. lia.
  - cbn [skips] in Hs. apply andb_true_iff in Hs as [Hc%negb_true_iff Hs].
    destruct y as [|d y]; cbn [strstr].
    + destruct (prefix_of p []) eqn:Ep; [|done]. destruct p; [|done]. by destruct l.
    + injection E as <- E. destruct (prefix_of p (c :: y)) eqn:Ep; [|by apply IH]. exfalso.
      assert (compat p ((c :: l) ++ p) = true) as Ht.
      { cbn [app]. rewrite E. change (c :: y ++ z) with ((c :: y) ++ z). apply prefix_compat.
        revert Ep. generalize (c :: y). clear. revert z. induction p as [|e p IH]; intros z [|f w]; cbn; try done.
        destruct (bool_decide _); [|done]. apply IH. }
      by rewrite (compat_app p (c :: l) p Hc) in Ht.
Qed.

Definition BLANK_LINE : list byte := CRLF ++ CRLF.

Lemma read_head_found s buf H B : pieces s → buf ++ data s = H ++ BLANK_LINE ++ B → skips BLANK_LINE H = true →
  (x00 ∉ H ++ BLANK_LINE ++ B) → zlen (H ++ BLANK_LINE ++ B) <= RPC_BUF → (length buf < length H + 4)%nat →
  ∃ buf' s', read_head s buf = (Some (length H + 4)%nat, buf', s') ∧ pieces s' ∧
    buf' ++ data s' = H ++ BLANK_LINE ++ B ∧ (length H + 4 <= length buf')%nat.
Proof.
  intros Hs. revert buf. induction Hs as [|e s He Hs IH]; intros buf E Hsk H0 Hmax Hlt.
  { cbn in E. rewrite app_nil_r in E. apply (f_equal length) in E. rewrite !length_app in E. cbn in E. lia. }
  destruct e as [[|c l]| |]; [done| |done..]. cbn [read_head].
  change (data (RData (c :: l) :: s)) with ((c :: l) ++ data s) in E. set (x := c :: l) in *.
  assert (length buf + length x <= length (H ++ BLANK_LINE ++ B))%nat as Hl by (rewrite <- E, !length_app; lia).
  assert (take (buf_room buf) x = x) as Ex by (apply take_ge; unfold buf_room; lia).
  rewrite Ex. rewrite (proj2 (Nat.ltb_ge _ _)) by (unfold buf_room; lia).
  rewrite app_assoc in E. set (buf' := buf ++ x) in *.
  assert (cstr buf' = buf') as ->.
  { apply cstr_id. intros Hin. apply H0. rewrite <- E. apply elem_of_app. by left. }
  destruct (decide (length H + 4 <= length buf')%nat) as [Hge|Hlt'].
  - assert (∃ B', buf' = H ++ BLANK_LINE ++ B') as [B' EB].
    { exists (drop (length H + 4) buf'). rewrite <- (take_drop (length H + 4) buf') at 1. rewrite (app_assoc H). f_equal.
      apply (f_equal (take (length H + 4))) in E. rewrite take_app_le in E by done. rewrite E, app_assoc.
      rewrite take_app_le by (rewrite length_app; cbn; lia). apply take_ge. rewrite length_app. cbn. lia. }
    assert (strstr buf' (CRLF ++ CRLF) = Some (BLANK_LINE ++ B')) as -> by (rewrite EB; by apply (strstr_found BLANK_LINE)).
    eexists buf', s. split; [|done]. do 3 f_equal. rewrite EB, !length_app. lia.
  - assert (strstr buf' (CRLF ++ CRLF) = None) as ->.
    { apply (strstr_short BLANK_LINE H buf' (drop (length buf') (H ++ BLANK_LINE))); [done| |].
      - assert (take (length buf') (H ++ BLANK_LINE ++ B) = buf') as Et by (rewrite <- E; apply take_app_length).
        rewrite app_assoc, take_app_le in Et by (rewrite length_app; cbn; lia). rewrite <- Et at 1. by rewrite take_drop.
      - intros Hd%(f_equal length). rewrite length_drop, length_app in Hd. cbn in Hd. lia. }
    rewrite (proj2 (Z.ltb_lt _ _)).
    2:{ rewrite !length_app in Hmax. cbn in Hmax. lia. }
    apply IH; [done..|lia].
Qed.

Lemma read_body_all s buf want : pieces s → zlen (buf ++ data s) <= RPC_BUF → zlen (buf ++ data s) <= want →
  read_body s buf want = buf ++ data s.
Proof.
  intros Hs. revert buf. induction Hs as [|e s He Hs IH]; intros buf H1 H2.
  { cbn. rewrite app_nil_r. by destruct (_ && _). }
  destruct e as [[|c l]| |]; [done| |done..]. change (data (RData (c :: l) :: s)) with ((c :: l) ++ data s) in *.
  assert (length buf + length (c :: l) <= length (buf ++ (c :: l) ++ data s))%nat as Hl by (rewrite !length_app; lia).
  assert (1 <= length (c :: l))%nat as H3 by (cbn; lia). cbn [read_body].
  rewrite (proj2 (Z.ltb_lt _ _)) by lia. rewrite (proj2 (Z.ltb_lt _ _)) by lia. cbn [andb].
  rewrite take_ge by (unfold buf_room; lia). rewrite app_assoc in H1, H2 |- *. by apply IH.
Qed.

(** A line that is not the length is passed over; the length line is read. *)
Lemma content_length_skip f line rest : skips CRLF line = true →
  bool_decide (tolower <$> take 15 (line ++ CRLF ++ rest) = str "content-length:") = false →
  content_length (S f) (line ++ CRLF ++ rest) = content_length f rest.
Proof.
  intros Hs Hb. cbn [content_length]. rewrite strstr_found by done. rewrite Hb, andb_false_r.
  by rewrite drop_app_ge, Nat.sub_diag by done.
Qed.
Lemma content_length_here f v rest : is_u64 v →
  content_length (S f) (str "Content-Length: " ++ dec v ++ CRLF ++ rest) = v.
Proof.
  intros Hv. pose proof (dec_spec v Hv) as (_ & _ & _ & Hl).
  cbn [content_length]. rewrite (app_assoc (str "Content-Length: ")).
  rewrite strstr_found.
  2:{ apply skips_app; [done|]. apply skips_none. intros Hin. pose proof (dec_text v Hv) as Ht.
      rewrite Forall_forall in Ht. pose proof (Ht _ Hin) as H1. by vm_compute in H1. }
  assert (length ((str "Content-Length: " ++ dec v) ++ CRLF ++ rest) - length (CRLF ++ rest) = 16 + length (dec v))%nat as ->
    by (rewrite !length_app; cbn; lia).
  rewrite (proj2 (Nat.leb_le _ _)), (proj2 (Nat.ltb_lt _ _)) by lia. cbn [andb].
  rewrite <- app_assoc. rewrite bool_decide_true by done.
  exact (strtoull_dec [x20] v (CRLF ++ rest) ltac:(by repeat constructor) Hv eq_refl).
Qed.

(** ** A request over a native connection *)

Definition no_nul (l : list byte) : Prop := x00 ∉ l.
(** Text for a header line. *)
Record header_text (l : list byte) : Prop := { ht_nul : no_nul l; ht_cr : x0d ∉ l }.

Lemma no_nul_app l x : no_nul l → no_nul x → no_nul (l ++ x).
Proof. unfold no_nul. rewrite not_elem_of_app. done. Qed.
Lemma no_nul_hex l : Forall (λ c, is_hex c = true) l → no_nul l.
Proof. intros Hl Hin. rewrite Forall_forall in Hl. by destruct (hex_char _ (Hl _ Hin)) as (_ & ? & _). Qed.
Lemma no_nul_dec z : is_u64 z → no_nul (dec z).
Proof. intros Hz. by apply no_nul_hex, dec_text. Qed.
Lemma no_nul_lit l : bool_decide (x00 ∉ l) = true → no_nul l.
Proof. intros H. by apply bool_decide_eq_true in H. Qed.
Ltac no_nul :=
  lazymatch goal with
  | |- no_nul (_ ++ _) => apply no_nul_app; no_nul
  | |- no_nul (dec _) => apply no_nul_dec; assumption
  | |- no_nul (ac_hex_encode _) => apply no_nul_hex, hex_text
  | |- _ => first [assumption | by apply no_nul_lit]
  end.

Definition request_head (host user_agent : list byte) (len : Z) : list byte :=
  str "POST / HTTP/1.1" ++ CRLF ++ (str "Host: " ++ host) ++ CRLF ++ str "Content-Type: application/json" ++ CRLF ++
  (str "User-Agent: " ++ user_agent) ++ CRLF ++ str "Content-Length: " ++ dec len ++ CRLF ++ str "Connection: close".

Lemma request_text_head host ua len : request_text host ua len = request_head host ua len ++ BLANK_LINE.
Proof. unfold request_text, request_head. by rewrite <- !app_assoc. Qed.

Lemma skips_blank l : x0d ∉ l → skips BLANK_LINE l = true.
Proof. apply skips_none. Qed.
Lemma dec_no_cr v : is_u64 v → x0d ∉ dec v.
Proof. intros Hv Hin. pose proof (dec_text v Hv) as Ht. rewrite Forall_forall in Ht. pose proof (Ht _ Hin) as H1. by vm_compute in H1. Qed.

Lemma request_head_skips host ua len : header_text host → header_text ua → is_u64 len →
  skips BLANK_LINE (request_head host ua len) = true.
Proof.
  intros [_ Hh] [_ Hu] Hl.
  assert (request_head host ua len =
    (str "POST / HTTP/1.1" ++ CRLF ++ str "Host: ") ++ host ++
    (CRLF ++ str "Content-Type: application/json" ++ CRLF ++ str "User-Agent: ") ++ ua ++
    (CRLF ++ str "Content-Length: ") ++ dec len ++ CRLF ++ str "Connection: close") as ->
    by (unfold request_head; by rewrite <- !app_assoc).
  apply skips_app; [reflexivity|]. apply skips_app; [by apply skips_blank|].
  apply skips_app; [reflexivity|]. apply skips_app; [by apply skips_blank|].
  apply skips_app; [reflexivity|]. apply skips_app; [by apply skips_blank, dec_no_cr | reflexivity].
Qed.

Lemma request_head_nul host ua len : header_text host → header_text ua → is_u64 len → no_nul (request_head host ua len).
Proof. intros [Hh _] [Hu _] Hl. unfold request_head. no_nul. Qed.

(** The length line is found behind the others. *)
Lemma request_content_length host ua v f rest : header_text host → header_text ua → is_u64 v → (5 <= f)%nat →
  content_length f (request_head host ua v ++ BLANK_LINE ++ rest) = v.
Proof.
  intros [_ Hh] [_ Hu] Hv Hf. destruct f as [|[|[|[|[|f]]]]]; [lia..|]. unfold request_head. rewrite <- !app_assoc.
  assert (∀ l, x0d ∉ l → skips CRLF l = true) as Hsk by (intros; by apply skips_none).
  assert (∀ c l, tolower c ≠ x63 → bool_decide (tolower <$> take 15 (c :: l) = str "content-length:") = false) as Hne.
  { intros c l Hc. apply bool_decide_false. intros E. apply (f_equal head) in E. cbn in E. congruence. }
  rewrite content_length_skip by (by vm_compute || by apply Hne).
  rewrite (app_assoc (str "Host: ") host), content_length_skip;
    [|apply skips_app; [by vm_compute | by apply Hsk] | by apply Hne].
  rewrite content_length_skip by (by vm_compute || by apply bool_decide_false).
  rewrite (app_assoc (str "User-Agent: ") ua), content_length_skip;
    [|apply skips_app; [by vm_compute | by apply Hsk] | by apply Hne].
  by apply content_length_here.
Qed.

(** The connection is made and each send takes all it is given. *)
Definition posts_whole (io : post_io) (body : list byte) : Prop :=
  po_connected io = true ∧ ∀ head, (length head <= 255)%nat → post_sends io head body = (true, head ++ body).

Section Transport.
Context `{!Sodium} (io : list byte → post_io) (chunk : list byte → list recv_ev).
Hypothesis chunk_pieces : ∀ l, pieces (chunk l).
Hypothesis chunk_data : ∀ l, data (chunk l) = l.
Hypothesis io_whole : ∀ body, posts_whole (io body) body.

(** The server reads exactly the body, however the stream is cut. *)
Lemma request_received n host ua body listen_host now :
  header_text host → header_text ua → no_nul body → zlen body <= 60000 →
  zlen (request_text host ua (zlen body)) <= 255 →
  http_request host ua body = OK (request_text host ua (zlen body)) ∧
  handle_client n (chunk (request_text host ua (zlen body) ++ body)) listen_host now = rpc_dispatch n body listen_host now.
Proof.
  intros Hh Hu Hb Hl Hr. assert (is_u64 (zlen body)) as Hv by (unfold is_u64, U64; lia). split.
  - unfold http_request. set (t := request_text _ _ _) in *.
    rewrite (read_at_safe (pad 256 (snprintf 256 t)) 0 (length t)).
    2:{ pose proof (pad_length 256 (snprintf 256 t)) as E%Nat.eqb_eq. rewrite E. lia. }
    f_equal. unfold snprintf, pad, slice. rewrite (take_ge t) by lia.
    rewrite resize_ge by lia. rewrite drop_0. apply take_app_length.
  - rewrite request_text_head in *. rewrite <- app_assoc. set (hd := request_head _ _ _) in *.
    pose proof (request_head_skips host ua (zlen body) Hh Hu Hv) as Hs.
    pose proof (request_head_nul host ua (zlen body) Hh Hu Hv) as H0. fold hd in Hs, H0.
    assert (no_nul (hd ++ BLANK_LINE ++ body)) as Hall
      by (apply no_nul_app; [exact H0|]; apply no_nul_app; [by apply no_nul_lit | done]).
    assert (zlen (hd ++ BLANK_LINE ++ body) <= RPC_BUF) as Hmax.
    { rewrite !length_app in Hr |- *. cbn in Hr |- *. lia. }
    destruct (read_head_found (chunk (hd ++ BLANK_LINE ++ body)) [] hd body) as (buf & s & E & Hp & Hd & Hge);
      [apply chunk_pieces | by rewrite chunk_data | done | done | done | cbn; lia|].
    unfold handle_client. rewrite E.
    assert (∃ rest, buf = hd ++ BLANK_LINE ++ rest) as [rest Er].
    { exists (drop (length hd + 4) buf). rewrite <- (take_drop (length hd + 4) buf) at 1. rewrite (app_assoc hd). f_equal.
      apply (f_equal (take (length hd + 4))) in Hd. rewrite take_app_le in Hd by done. rewrite Hd, app_assoc.
      rewrite take_app_le by (rewrite length_app; cbn; lia). apply take_ge. rewrite length_app. cbn. lia. }
    assert (cstr buf = buf) as -> by (apply cstr_id; intros Hin; apply Hall; rewrite <- Hd; apply elem_of_app; by left).
    assert (content_length (length buf) buf = zlen body) as ->.
    { rewrite Er at 2. apply request_content_length; [done..|].
      assert (15 <= length hd)%nat by (unfold hd, request_head; rewrite length_app; cbn; lia). lia. }
    assert ((Z.of_nat (length hd + 4) ⊕ zlen body) = zlen (hd ++ BLANK_LINE ++ body)) as ->.
    { rewrite !length_app in Hr, Hmax |- *. cbn in Hr, Hmax |- *. unfold U64 in *. warith. }
    cbv zeta. rewrite read_body_all by (done || rewrite Hd; lia). rewrite Hd.
    replace (prefix_of (str "POST") (hd ++ BLANK_LINE ++ body)) with true by done. cbn [negb].
    rewrite app_assoc, drop_app_length' by (rewrite length_app; done). by rewrite cstr_id.
Qed.

Lemma recv_all_all s buf cap : pieces s → zlen (buf ++ data s) + 1 <= cap → recv_all s buf cap = buf ++ data s.
Proof.
  intros Hs. revert buf. induction Hs as [|e s He Hs IH]; intros buf H1.
  { cbn. rewrite app_nil_r. by destruct (_ <? _). }
  destruct e as [[|c l]| |]; [done| |done..]. change (data (RData (c :: l) :: s)) with ((c :: l) ++ data s) in *.
  assert (length buf + length (c :: l) <= length (buf ++ (c :: l) ++ data s))%nat as Hl by (rewrite !length_app; lia).
  assert (1 <= length (c :: l))%nat as H3 by (cbn; lia). cbn [recv_all].
  rewrite (proj2 (Z.ltb_lt _ _)) by lia. rewrite take_ge by lia. rewrite app_assoc in H1 |- *. by apply IH.
Qed.

Definition response_head (len : Z) : list byte :=
  str "HTTP/1.1 200 OK" ++ CRLF ++ str "Server: AgentChain-Engine" ++ CRLF ++ str "Content-Type: application/json" ++ CRLF ++
  str "Content-Length: " ++ dec len ++ CRLF ++ str "Connection: close".
Lemma http_header_head len : is_u64 len → http_header 200 len = response_head len ++ BLANK_LINE.
Proof.
  intros Hl. pose proof (dec_spec len Hl) as (_ & _ & _ & Hd). unfold http_header, snprintf.
  assert (dec 200 = str "200") as -> by (by vm_compute).
  rewrite take_ge; [unfold response_head; by rewrite <- !app_assoc|].
  rewrite !length_app. cbn [length str CRLF]. cbn. lia.
Qed.

Lemma http_body_response body : no_nul body → is_u64 (zlen body) → http_body (send_response 200 body) = body.
Proof.
  intros Hb Hl. unfold send_response, http_body. rewrite http_header_head by done. set (hd := response_head _).
  assert (skips BLANK_LINE hd = true) as Hs.
  { unfold hd, response_head. apply (skips_app _ (str "HTTP/1.1 200 OK" ++ CRLF ++ str "Server: AgentChain-Engine" ++ CRLF ++
      str "Content-Type: application/json" ++ CRLF ++ str "Content-Length: ") (dec (zlen body) ++ CRLF ++ str "Connection: close"));
      [by vm_compute|]. apply skips_app; [by apply skips_blank, dec_no_cr | by vm_compute]. }
  assert (no_nul hd) as H0 by (unfold hd, response_head; no_nul).
  rewrite <- app_assoc. rewrite cstr_id by (apply no_nul_app; [done|]; apply no_nul_app; [by apply no_nul_lit | done]).
  rewrite (strstr_found BLANK_LINE) by done. rewrite !length_app.
  replace (length hd + (length BLANK_LINE + length body) - (length BLANK_LINE + length body) + 4)%nat
    with (length (hd ++ BLANK_LINE)) by (rewrite length_app; cbn; lia).
  rewrite app_assoc, drop_app_length. by apply cstr_id.
Qed.

(** One call: the client gets the body of the server's answer. *)
Lemma native_call_spec host ua listen_host now cap n body payload n' :
  header_text host → header_text ua → no_nul body → zlen body <= 60000 →
  zlen (request_text host ua (zlen body)) <= 255 →
  rpc_dispatch n body listen_host now = (send_response 200 payload, n') →
  no_nul payload → zlen payload + 256 <= cap → cap <= 100000 →
  native_call io chunk host ua listen_host now cap n body = (Some payload, n').
Proof.
  intros Hh Hu Hb Hl Hr Hd Hp Hc Hc'. destruct (request_received n host ua body listen_host now) as [E1 E2]; [done..|].
  unfold native_call. destruct (io_whole body) as [-> Hs]. rewrite E1, Hs by lia. rewrite E2, Hd, Nat.eqb_refl. cbn [negb andb]. assert (is_u64 (zlen payload)) as Hv by (unfold is_u64, U64; lia).
  rewrite recv_all_all; [|apply chunk_pieces|].
  - rewrite chunk_data. cbn [app]. by rewrite http_body_response.
  - rewrite chunk_data. cbn [app]. unfold send_response. rewrite length_app.
    unfold http_header, snprintf. rewrite length_take. lia.
Qed.
End Transport.

(** ** Lists are printed whole *)

Definition comma_each (l : list (list byte)) : list byte := l ≫= λ e, str "," ++ e.
Definition commas (l : list (list byte)) : list byte :=
  match l with [] => [] | x :: l' => x ++ comma_each l' end.

Lemma put_fits need (o x : list byte) : 0 <= need - zlen o → zlen x < need - zlen o → put need (o, zlen o) x = (o ++ x, zlen (o ++ x)).
Proof. intros H0 Hx. unfold put, snprintf. cbn [fst snd]. rewrite take_ge by lia. by rewrite length_app, Nat2Z.inj_add. Qed.

Lemma list_loop_all need slack m (es : list (list byte)) (first : bool) (o : list byte) : Forall (λ e, zlen e + 1 <= m) es → m <= slack → 0 < zlen o →
  zlen o + m * (zlen es - 1) + slack < need ∨ es = [] →
  let o' := o ++ (if first then commas es else comma_each es) in
  list_loop need slack (Some <$> es) first (o, zlen o) = (o', zlen o') ∧ zlen o' <= zlen o + m * zlen es.
Proof.
  revert first o. induction es as [|e es IH]; intros first o Hes Hm Ho Hn o'.
  { unfold o'. destruct first; cbn; rewrite app_nil_r; split; (done || lia). }
  inversion_clear Hes as [|? ? He Hes']. destruct Hn as [Hn|]; [|done]. cbn [length] in Hn.
  set (x := (if first then [] else str ",") ++ e). assert (zlen x <= m) as Hx by (unfold x; rewrite length_app; destruct first; cbn; lia).
  assert (0 <= m) as Hm0 by lia. assert (0 <= m * zlen es) as Hme by nia.
  cbn [fmap list_fmap list_loop snd]. rewrite (proj2 (Z.ltb_lt 0 _)) by done. rewrite (proj2 (Z.ltb_lt _ need)) by lia. cbn [andb].
  fold x. rewrite put_fits by lia.
  destruct (IH false (o ++ x) Hes' Hm) as [E1 E2]; [rewrite length_app; lia| |].
  { destruct es; [by right|]. left. rewrite length_app. cbn [length] in *. lia. }
  assert (o' = (o ++ x) ++ comma_each es) as ->.
  { unfold o', x. destruct first; cbn [commas app]; [by rewrite <- app_assoc|].
    unfold comma_each. cbn [mbind list_bind]. by rewrite <- !app_assoc. }
  rewrite E1. split; [done|]. etrans; [exact E2|]. rewrite length_app. cbn [length]. lia.
Qed.

Lemma json_list_all need slack m (head : list byte) (es : list (list byte)) : Forall (λ e, zlen e + 1 <= m) es → 0 < zlen head → m <= slack →
  zlen head + m * (zlen es - 1) + slack < need ∨ es = [] → zlen head + m * zlen es + 2 < need →
  json_list need slack head (Some <$> es) = head ++ commas es ++ str "]}".
Proof.
  intros Hes Hh Hm Hn Hn2. assert (0 <= m * zlen es) as H0.
  { destruct es as [|e es]; [cbn; lia|]. inversion_clear Hes. nia. }
  unfold json_list. pose proof (put_fits need [] head ltac:(cbn; lia) ltac:(cbn; lia)) as E. cbn [app length] in E. change (Z.of_nat 0) with 0 in E.
  rewrite E. destruct (list_loop_all need slack m es true head Hes Hm Hh Hn) as [E1 E2].
  rewrite E1. unfold close_list. cbn [snd]. set (o := head ++ commas es) in *.
  assert (zlen head <= zlen o) as Ho by (unfold o; rewrite length_app; lia).
  rewrite (proj2 (Z.ltb_lt 0 _)) by lia. rewrite (proj2 (Z.ltb_lt _ need)) by lia. cbn [andb].
  rewrite put_fits by (cbn; lia). unfold o. cbn [fst]. by rewrite <- app_assoc.
Qed.

Section Lists.
Context `{!Sodium}.

Lemma hash_hex_length (x : bytes 32) : zlen (ac_hex_encode (b x)) = 64.
Proof. by rewrite ac_hex_encode_length, b_length. Qed.

Lemma num_length z : is_u64 z → zlen (dec z) <= 20.
Proof. intros Hz. pose proof (dec_spec z Hz) as (_ & _ & _ & ?). lia. Qed.

Lemma block_full_head_length k : header_wf (header k) → 0 < zlen (block_full_head k) <= 900.
Proof.
  intros []. assert (is_u64 (h_tx_count (header k))) as Htc by (unfold is_u64, is_u32, U64, U32 in *; lia).
  pose proof (num_length _ wf_h_height). pose proof (num_length _ wf_h_slot). pose proof (num_length _ wf_h_timestamp).
  pose proof (num_length _ wf_h_base_fee). pose proof (num_length _ wf_h_gas_used). pose proof (num_length _ wf_h_gas_limit).
  pose proof (num_length _ Htc). unfold block_full_head. rewrite !length_app, !ac_hex_encode_length, !b_length. cbn. lia.
Qed.
Lemma account_entry_length a : acc_wf a → zlen (validator_entry a) + 1 <= 180 ∧ zlen (account_entry a) + 1 <= 180.
Proof.
  intros [H1 H2 H3 _]. pose proof (num_length _ H1). pose proof (num_length _ H2). pose proof (num_length _ H3).
  unfold validator_entry, account_entry. rewrite !length_app, !ac_hex_encode_length, !b_length. cbn. lia.
Qed.

Lemma each_validator_u64 fn l x : is_u64 x → (∀ a s q y, is_u64 (fn a s q y).2) → is_u64 (each_validator_loop fn l x).2.
Proof.
  intros Hx Hf. revert x Hx. induction l as [|a l IH]; intros x Hx; [done|]. cbn. destruct (_ <? _); [auto|].
  specialize (Hf (addr a) (stake a) (ac_isqrt_u64 (stake a)) x). destruct (fn _ _ _ _) as [rc y]. cbn in Hf.
  destruct (negb _); [done | auto].
Qed.
Lemma top_accounts_wf c by_balance cap active : state_wf (c_state c) → Forall acc_wf (chain_top_accounts c by_balance cap active).
Proof.
  intros Hs. unfold chain_top_accounts. destruct (_ =? _)%nat; [constructor|]. destruct (_ =? _)%nat; [constructor|].
  apply Forall_take. rewrite (qsort_perm _ _). pose proof (wf_accs _ Hs) as Ha. rewrite Forall_forall in Ha |- *.
  intros a Hin%list_elem_of_In%filter_In. apply Ha, list_elem_of_In, Hin.
Qed.
Lemma top_accounts_count c by_balance cap active : (length (chain_top_accounts c by_balance cap active) <= cap)%nat.
Proof.
  unfold chain_top_accounts. destruct (_ =? _)%nat; [cbn; lia|]. destruct (_ =? _)%nat; [cbn; lia|]. rewrite length_take. lia.
Qed.

(** C39. The listings of the RPC server are complete: whatever the chain holds, the buffers it
    sizes for a block's transaction hashes, the validators and the richest accounts take
    every entry, so the answer is the header, all entries separated by commas, and the
    closing brackets. *)
Theorem rpc_lists_complete n id params :
  chain_wf (chain_of n) → zlen (accounts (c_state (chain_of n))) < U64 →
  let c := chain_of n in
  (∀ h k, json_uint64 params (str "height") = Some h → ac_chain_get_block_by_height c h = Some k →
     handle_block_get_full n id params =
       send_rpc_result id (block_full_head k ++ commas (quoted_hash <$> txs k) ++ str "]}")) ∧
  handle_validators_list n id params =
    send_rpc_result id (jstr "{'total_active':" ++ dec (ac_chain_active_count c) ++ jstr ",'total_sqrt_stake':" ++
      dec (ac_chain_total_sqrt_stake c) ++ jstr ",'validators':[" ++
      commas (validator_entry <$> ac_chain_top_validators c (limit_param params)) ++ str "]}") ∧
  handle_accounts_top n id params =
    send_rpc_result id (jstr "{'total_accounts':" ++ dec (Z.of_nat (ac_state_count (c_state c))) ++ jstr ",'accounts':[" ++
      commas (account_entry <$> ac_chain_top_accounts_by_balance c (limit_param params)) ++ str "]}").
Proof.
  intros Hc Hn c. fold c in Hc, Hn. split_and!.
  - intros h k Eh Ek. unfold handle_block_get_full. rewrite Eh. fold c. rewrite Ek. f_equal.
    assert (block_wf k) as Hk.
    { unfold ac_chain_get_block_by_height in Ek. destruct (_ <? _); [done|]. by eapply block_read_wf. }
    pose proof (block_full_head_length k (wf_header _ Hk)) as [H1 H2]. rewrite list_fmap_compose.
    apply (json_list_all _ _ 67); [|done|lia|left; rewrite length_fmap; lia|rewrite length_fmap; lia].
    apply Forall_fmap, Forall_true. intros t. cbn. unfold quoted_hash. rewrite !length_app, ac_hex_encode_length, b_length. cbn. lia.
  - unfold handle_validators_list. fold c. f_equal. pose proof (top_accounts_wf c false (limit_param params) true (cw_state _ Hc)) as Ha.
    unfold ac_chain_top_validators. set (arr := chain_top_accounts _ _ _ _) in *.
    assert (is_u64 (ac_chain_active_count c)) as U1 by (apply each_validator_u64; [done | intros; apply u64_range]).
    assert (is_u64 (ac_chain_total_sqrt_stake c)) as U2 by (apply each_validator_u64; [done | intros; apply u64_range]).
    pose proof (num_length _ U1). pose proof (num_length _ U2). rewrite list_fmap_compose, (json_list_all _ _ 180).
    + by rewrite <- !app_assoc.
    + apply Forall_fmap. eapply Forall_impl; [exact Ha|]. intros a. by apply account_entry_length.
    + rewrite !length_app. cbn. lia.
    + lia.
    + rewrite length_fmap, !length_app. destruct arr; [by right|]. left. cbn. lia.
    + rewrite length_fmap, !length_app. cbn. lia.
  - unfold handle_accounts_top. fold c. f_equal. pose proof (top_accounts_wf c true (limit_param params) false (cw_state _ Hc)) as Ha.
    unfold ac_chain_top_accounts_by_balance. set (arr := chain_top_accounts _ _ _ _) in *.
    assert (is_u64 (Z.of_nat (ac_state_count (c_state c)))) as U1 by (unfold is_u64, ac_state_count; lia).
    pose proof (num_length _ U1). rewrite list_fmap_compose, (json_list_all _ _ 180).
    + by rewrite <- !app_assoc.
    + apply Forall_fmap. eapply Forall_impl; [exact Ha|]. intros a. by apply account_entry_length.
    + rewrite !length_app. cbn. lia.
    + lia.
    + rewrite length_fmap, !length_app. destruct arr; [by right|]. left. cbn. lia.
    + rewrite length_fmap, !length_app. cbn. lia.
Qed.
End Lists.

#[local] Existing Instance toy_sodium.
#[local] Existing Instance x87.

Definition rpc_node : ac_node_t := mkNode (ac_net_new 7 demo_kp 30303 []) (ac_consensus_new demo_next (ac_mempool_new 7) demo_kp true true).
Lemma rpc_lists_complete_witness :
  handle_block_get_full rpc_node (str "1") (jstr "{'height':1}") =
    send_rpc_result (str "1") (block_full_head demo_block ++ commas (quoted_hash <$> txs demo_block) ++ str "]}").
Proof.
  destruct (rpc_lists_complete rpc_node (str "1") (jstr "{'height':1}")) as (E & _).
  - exact (lg_wf _ (reachable_ledger _ _ (demo_reachable true))).
  - vm_compute. reflexivity.
  - apply (E 1); [vm_compute; reflexivity|].
    assert (c_height demo_next = 1) as Hh by (vm_compute; reflexivity).
    unfold ac_chain_get_block_by_height. change (chain_of rpc_node) with demo_next. rewrite Hh. exact demo_next_read.
Defined.
