(* ===== verification/WalletFacts.v ===== *)
(** * From a wallet to the pool of a node

    The requests of the client as the server reads them, the responses of the server
    as the client reads them, and the transaction that arrives. *)

From S2P Require Import Prelude Common Crypto Text Codec SortedArray State Apply Mempool Econ Chain Accept Ledger Consensus ConsensusFacts Net NetFacts Node NodeFacts Files Config Boot Rpc Wallet RpcFacts.

(** A decimal number has at most twenty digits. *)
Lemma dec_length z : is_u64 z → (length (dec z) <= 20)%nat.
Proof. intros Hz. apply (dec_spec z Hz). Qed.
Lemma hex32_length (x : bytes 32) : length (ac_hex_encode (b x)) = 64%nat.
Proof. by rewrite ac_hex_encode_length, b_length. Qed.
Lemma hex_no_quote l : DQ ∉ ac_hex_encode l.
Proof.
  intros Hin. pose proof (hex_text l) as Hl. rewrite Forall_forall in Hl. by destruct (hex_char _ (Hl _ Hin)) as (_ & _ & ? & _).
Qed.
(** A quoted hash is not a key: the key's closing quote would have to be a hex digit. *)
Lemma compat_quote name h : (DQ ∉ h) → (length name < length h)%nat → compat (name ++ [DQ]) h = false.
Proof.
  revert h. induction name as [|c name IH]; intros [|d h]; cbn; try lia; rewrite not_elem_of_cons; intros [Hd Hh] Hl.
  - by rewrite bool_decide_false.
  - rewrite IH by (done || lia). apply andb_false_r.
Qed.
Lemma skips_quoted name (x : bytes 32) : short_key name → skips (json_pattern name) (DQ :: ac_hex_encode (b x)) = true.
Proof.
  intros Hn. rewrite json_pattern_short by done. cbn [skips]. rewrite skips_hex by apply hex_text.
  cbn [compat]. rewrite bool_decide_true by done. cbn [andb].
  rewrite compat_quote; [done|apply hex_no_quote|]. rewrite hex32_length. unfold short_key in Hn. lia.
Qed.
(** Text the wanted key cannot start in: literals, numbers and hex. *)
Ltac skip_text :=
  lazymatch goal with
  | |- skips _ (_ ++ _) = true => apply skips_app; skip_text
  | |- skips _ (dec _) = true => apply skips_hex, dec_text; assumption
  | |- skips _ (ac_hex_encode _) = true => apply skips_hex, hex_text
  | |- skips _ (DQ :: ac_hex_encode _) = true => apply skips_quoted; unfold short_key; cbn; lia
  | |- _ => reflexivity
  end.

Ltac short := unfold short_key; cbn; lia.

Section WalletFacts.
Context `{!Sodium}.

(** ** Payloads *)

Definition rpc_payload (id result : list byte) : list byte :=
  jstr "{'jsonrpc':'2.0','id':" ++ id ++ jstr ",'result':" ++ result ++ str "}".
Definition error_payload (id : list byte) (code : Z) (msg : list byte) : list byte :=
  jstr "{'jsonrpc':'2.0','id':" ++ id ++ jstr ",'error':{'code':" ++ dec_int code ++ jstr ",'message':'" ++ msg ++ jstr "'}}".

Lemma send_rpc_result_payload id r : id ≠ [] → (length id <= 31)%nat → send_rpc_result id r = send_response 200 (rpc_payload id r).
Proof.
  intros Hid Hl. unfold send_rpc_result, rpc_payload. rewrite bool_decide_false by done. f_equal. unfold snprintf.
  apply take_ge. rewrite !length_app. cbn. lia.
Qed.

Definition info_json (c : ac_chain_t) : list byte :=
  jstr "{'chain_id':" ++ dec (c_chain_id c) ++ jstr ",'height':" ++ dec (c_height c) ++
  jstr ",'tip_hash':'" ++ ac_hex_encode (b (c_tip_hash c)) ++ jstr "','base_fee':" ++ dec (c_base_fee c) ++
  jstr ",'genesis_timestamp_ms':" ++ dec (c_genesis_timestamp_ms c) ++ str "}".
Definition account_json (a : ac_account_t) : list byte :=
  jstr "{'balance':" ++ dec (balance a) ++ jstr ",'nonce':" ++ dec (nonce a) ++
  jstr ",'stake':" ++ dec (stake a) ++ jstr ",'unbond_at':" ++ dec (unbond_at a) ++ str "}".
Definition hash_json (t : ac_tx_t) : list byte := jstr "{'hash':'" ++ ac_hex_encode (b (ac_tx_hash t)) ++ jstr "'}".

(** ** What the server answers *)

(** The three methods the wallet uses, by what the body yields. *)
Lemma dispatch_methods n body lh now m : json_string body (str "method") 64 = Some m →
  let id := id_literal body in
  let params := default body (strstr body (jstr "'params'")) in
  (m = str "chain_info" → rpc_dispatch n body lh now = (handle_chain_info n id, n)) ∧
  (m = str "account_get" → rpc_dispatch n body lh now = (handle_account_get n id params, n)) ∧
  (m = str "tx_submit" → rpc_dispatch n body lh now = handle_tx_submit n id params now).
Proof.
  intros E. unfold rpc_dispatch. rewrite E. split_and!; intros ->.
  - by rewrite bool_decide_true.
  - rewrite bool_decide_false by done. by rewrite bool_decide_true.
  - do 3 (rewrite bool_decide_false by done). by rewrite bool_decide_true.
Qed.

Lemma dispatch_chain_info n lh now : chain_wf (chain_of n) →
  rpc_dispatch n chain_info_request lh now = (send_response 200 (rpc_payload (str "1") (info_json (chain_of n))), n).
Proof.
  intros []. assert (json_string chain_info_request (str "method") 64 = Some (str "chain_info")) as E by (by vm_compute).
  apply (dispatch_methods n _ lh now) in E as [E _]. rewrite E by done.
  assert (id_literal chain_info_request = str "1") as -> by (by vm_compute). unfold handle_chain_info. fold (info_json (chain_of n)). rewrite <- send_rpc_result_payload by (done || cbn; lia).
  do 2 f_equal. apply take_ge. unfold info_json. rewrite !length_app, hex32_length.
  pose proof (dec_length _ cw_chain_id). pose proof (dec_length _ cw_height). pose proof (dec_length _ cw_base_fee).
  pose proof (dec_length _ cw_genesis_ts). cbn. lia.
Qed.

Lemma account_request_text cap a : (64 + 80 < cap)%nat → length a = 64%nat → account_request cap a =
  jstr "{'jsonrpc':'2.0','id':1,'method':'account_get'," ++ jstr "'params':{'address':'" ++ a ++ jstr "'}}".
Proof. intros Hc Ha. unfold account_request, snprintf. rewrite take_ge; [done|]. rewrite !length_app, Ha. cbn. lia. Qed.

Lemma account_get_result n id (a : ac_addr_t) x : state_wf (c_state (chain_of n)) → id ≠ [] → (length id <= 31)%nat →
  handle_account_get n id (jstr "'params':{'address':'" ++ ac_hex_encode (b a) ++ DQ :: x) =
    send_response 200 (rpc_payload id (account_json (view (c_state (chain_of n)) a))).
Proof.
  intros Hs Hid Hl. unfold handle_account_get.
  pose proof (json_string_found (jstr "'params':{") (str "address") (ac_hex_encode (b a)) x 256) as E.
  change (jstr "'params':{" ++ json_pattern (str "address") ++ x3a :: DQ :: ac_hex_encode (b a) ++ DQ :: x) with
    (jstr "'params':{'address':'" ++ ac_hex_encode (b a) ++ DQ :: x) in E.
  rewrite E; [|short|by vm_compute|apply hex_no_quote|rewrite hex32_length; lia].
  pose proof (ac_hex_decode_encode (b a)) as Ed. rewrite b_length in Ed. rewrite Ed, bytes_of_b, ac_state_get_spec by done.
  cbn [snd]. rewrite <- send_rpc_result_payload by done. f_equal. destruct (view_wf (c_state (chain_of n)) a Hs).
  apply take_ge. unfold account_json. rewrite !length_app. pose proof (dec_length _ wf_balance). pose proof (dec_length _ wf_nonce).
  pose proof (dec_length _ wf_stake). pose proof (dec_length _ wf_unbond_at). cbn. lia.
Qed.

Lemma dispatch_account n cap (a : ac_addr_t) lh now : state_wf (c_state (chain_of n)) → (144 < cap)%nat →
  rpc_dispatch n (account_request cap (ac_hex_encode (b a))) lh now =
    (send_response 200 (rpc_payload (str "1") (account_json (view (c_state (chain_of n)) a))), n).
Proof.
  intros Hs Hc. rewrite account_request_text by (lia || apply hex32_length).
  rewrite <- (account_get_result n (str "1") a (jstr "}}")) by (done || cbn; lia).
  match goal with |- rpc_dispatch n ?x lh now = _ => assert (json_string x (str "method") 64 = Some (str "account_get")) as E by reflexivity end.
  apply (dispatch_methods n _ lh now) in E as (_ & E & _). rewrite E by done. reflexivity.
Qed.

Lemma submit_request_text bin : submit_request (ac_hex_encode bin) =
  jstr "{'jsonrpc':'2.0','id':1,'method':'tx_submit'," ++ jstr "'params':{'tx_hex':'" ++ ac_hex_encode bin ++ jstr "'}}".
Proof. unfold submit_request, snprintf. rewrite take_ge; [done|]. rewrite !length_app. cbn. lia. Qed.

(** A submitted transaction reaches the pool, and the answer is its hash or the reason. *)
Lemma dispatch_submit n t lh now : tx_wf t →
  let cs := nd_cs n in
  let r := ac_mempool_add (cs_mempool cs) (c_state (cs_chain cs)) t (ac_chain_current_slot (cs_chain cs) now) in
  let n' := set_cs n (set_mempool cs r.2) in
  rpc_dispatch n (submit_request (ac_hex_encode (tx_bytes t))) lh now =
    match r.1 with
    | AC_MP_ACCEPTED => (send_response 200 (rpc_payload (str "1") (hash_json t)), rpc_broadcast_tx_cb n' (tx_bytes t))
    | rs => (send_response 200 (error_payload (str "1") (-32000) (str (ac_mp_result_str rs))), n')
    end.
Proof.
  intros Ht cs r n'. rewrite submit_request_text. pose proof (tx_size_max t Ht) as Hsz.
  match goal with |- rpc_dispatch n ?x lh now = _ => assert (json_string x (str "method") 64 = Some (str "tx_submit")) as E by reflexivity end.
  apply (dispatch_methods n _ lh now) in E as (_ & _ & E). rewrite E by done. clear E. cbv zeta.
  match goal with |- handle_tx_submit n ?i ?p now = _ => change i with (str "1");
    change p with (jstr "'params':{'tx_hex':'" ++ ac_hex_encode (tx_bytes t) ++ DQ :: jstr "}}") end.
  pose proof (json_string_found (jstr "'params':{") (str "tx_hex") (ac_hex_encode (tx_bytes t)) (jstr "}}") 4096) as E.
  change (jstr "'params':{" ++ json_pattern (str "tx_hex") ++ x3a :: DQ :: ac_hex_encode (tx_bytes t) ++ DQ :: jstr "}}") with
    (jstr "'params':{'tx_hex':'" ++ ac_hex_encode (tx_bytes t) ++ DQ :: jstr "}}") in E.
  unfold handle_tx_submit. rewrite E; [|short|by vm_compute|apply hex_no_quote|].
  2:{ rewrite ac_hex_encode_length, tx_bytes_length. lia. }
  rewrite ac_hex_encode_length, Nat.mul_comm, Nat.div_mul by lia. cbv zeta.
  rewrite (proj2 (Z.ltb_ge _ _)) by (rewrite tx_bytes_length; lia).
  rewrite ac_hex_decode_encode, ac_tx_decode_bytes by done. fold cs r. destruct r as [rs mp] eqn:Er. cbn [fst snd] in *.
  assert (∀ msg, (length msg <= 100)%nat → send_rpc_error (str "1") (-32000) msg = send_response 200 (error_payload (str "1") (-32000) msg)) as Herr.
  { intros msg Hm. unfold send_rpc_error. rewrite bool_decide_false by done. f_equal. apply take_ge. unfold error_payload.
    assert (dec_int (-32000) = str "-32000") as -> by (by vm_compute). rewrite !length_app. cbn. lia. }
  destruct rs; try (rewrite Herr by (cbn; lia); reflexivity).
  rewrite <- send_rpc_result_payload by (done || cbn; lia). do 2 f_equal. apply take_ge. unfold hash_json.
  rewrite !length_app, hex32_length. cbn. lia.
Qed.

(** ** What the client reads *)

Lemma info_read c : chain_wf c → let resp := rpc_payload (str "1") (info_json c) in
  json_get_uint64 resp (str "chain_id") = Some (c_chain_id c) ∧
  json_get_uint64 resp (str "height") = Some (c_height c) ∧
  json_get_hex resp (str "tip_hash") 128 = Some (ac_hex_encode (b (c_tip_hash c))) ∧
  json_get_uint64 resp (str "base_fee") = Some (c_base_fee c) ∧
  json_get_uint64 resp (str "genesis_timestamp_ms") = Some (c_genesis_timestamp_ms c).
Proof.
  intros [_ H1 H2 _ _ H3 H4 _]. cbv zeta.
  set (p1 := jstr "{'jsonrpc':'2.0','id':1,'result':{").
  set (p2 := p1 ++ jstr "'chain_id':" ++ dec (c_chain_id c) ++ str ",").
  set (p3 := p2 ++ jstr "'height':" ++ dec (c_height c) ++ str ",").
  set (p4 := p3 ++ jstr "'tip_hash':" ++ (DQ :: ac_hex_encode (b (c_tip_hash c))) ++ jstr "',").
  set (p5 := p4 ++ jstr "'base_fee':" ++ dec (c_base_fee c) ++ str ",").
  set (resp := rpc_payload _ _).
  assert (resp = p5 ++ jstr "'genesis_timestamp_ms':" ++ dec (c_genesis_timestamp_ms c) ++ str "}}") as E5.
  { unfold resp, rpc_payload, info_json, p5, p4, p3, p2. rewrite <- !app_assoc. reflexivity. }
  assert (resp = p4 ++ jstr "'base_fee':" ++ dec (c_base_fee c) ++ str "," ++ jstr "'genesis_timestamp_ms':" ++ dec (c_genesis_timestamp_ms c) ++ str "}}") as E4
    by (rewrite E5; unfold p5; by rewrite <- !app_assoc).
  assert (∃ x, resp = p3 ++ jstr "'tip_hash':'" ++ ac_hex_encode (b (c_tip_hash c)) ++ DQ :: x) as [x3 E3]
    by (rewrite E4; unfold p4; rewrite <- !app_assoc; by eexists).
  assert (∃ x, resp = p2 ++ jstr "'height':" ++ dec (c_height c) ++ x2c :: x) as [x2 E2]
    by (rewrite E3; unfold p3; rewrite <- !app_assoc; by eexists).
  assert (∃ x, resp = p1 ++ jstr "'chain_id':" ++ dec (c_chain_id c) ++ x2c :: x) as [x1 E1]
    by (rewrite E2; unfold p2; rewrite <- !app_assoc; by eexists).
  clearbody resp. unfold json_get_uint64. split_and!.
  - rewrite E1. apply (json_uint64_found p1 (str "chain_id")); [short|by vm_compute|done|done].
  - rewrite E2. apply (json_uint64_found p2 (str "height")); [short|unfold p2; skip_text|done|done].
  - rewrite E3. etrans; [apply (json_get_hex_found p3 (str "tip_hash")); [short|unfold p3, p2; skip_text|apply hex_text|rewrite hex32_length; lia]|].
    rewrite bool_decide_false; [done|]. intros E%(f_equal length). by rewrite hex32_length in E.
  - rewrite E4. apply (json_uint64_found p4 (str "base_fee")); [short|unfold p4, p3, p2; skip_text|done|done].
  - rewrite E5. apply (json_uint64_found p5 (str "genesis_timestamp_ms")); [short|unfold p5, p4, p3, p2; skip_text|done|done].
Qed.

Lemma account_read a : acc_wf a → let resp := rpc_payload (str "1") (account_json a) in
  json_get_uint64 resp (str "balance") = Some (balance a) ∧
  json_get_uint64 resp (str "nonce") = Some (nonce a) ∧
  json_get_uint64 resp (str "stake") = Some (stake a) ∧
  json_get_uint64 resp (str "unbond_at") = Some (unbond_at a).
Proof.
  intros [H1 H2 H3 H4]. cbv zeta.
  set (p1 := jstr "{'jsonrpc':'2.0','id':1,'result':{").
  set (p2 := p1 ++ jstr "'balance':" ++ dec (balance a) ++ str ",").
  set (p3 := p2 ++ jstr "'nonce':" ++ dec (nonce a) ++ str ",").
  set (p4 := p3 ++ jstr "'stake':" ++ dec (stake a) ++ str ",").
  set (resp := rpc_payload _ _).
  assert (resp = p4 ++ jstr "'unbond_at':" ++ dec (unbond_at a) ++ str "}}") as E4.
  { unfold resp, rpc_payload, account_json, p4, p3, p2. rewrite <- !app_assoc. reflexivity. }
  assert (∃ x, resp = p3 ++ jstr "'stake':" ++ dec (stake a) ++ x2c :: x) as [x3 E3]
    by (rewrite E4; unfold p4; rewrite <- !app_assoc; by eexists).
  assert (∃ x, resp = p2 ++ jstr "'nonce':" ++ dec (nonce a) ++ x2c :: x) as [x2 E2]
    by (rewrite E3; unfold p3; rewrite <- !app_assoc; by eexists).
  assert (∃ x, resp = p1 ++ jstr "'balance':" ++ dec (balance a) ++ x2c :: x) as [x1 E1]
    by (rewrite E2; unfold p2; rewrite <- !app_assoc; by eexists).
  clearbody resp. unfold json_get_uint64. split_and!.
  - rewrite E1. apply (json_uint64_found p1 (str "balance")); [short|reflexivity|done|done].
  - rewrite E2. apply (json_uint64_found p2 (str "nonce")); [short|unfold p2; skip_text|done|done].
  - rewrite E3. apply (json_uint64_found p3 (str "stake")); [short|unfold p3, p2; skip_text|done|done].
  - rewrite E4. apply (json_uint64_found p4 (str "unbond_at")); [short|unfold p4, p3, p2; skip_text|done|done].
Qed.

Lemma hash_read t : json_get_hex (rpc_payload (str "1") (hash_json t)) (str "hash") 65 = Some (ac_hex_encode (b (ac_tx_hash t))).
Proof.
  unfold hash_json. generalize (ac_tx_hash t) as h. intros h.
  pose proof (json_get_hex_found (jstr "{'jsonrpc':'2.0','id':1,'result':{") (str "hash") (ac_hex_encode (b h)) (str "}}") 65) as E.
  rewrite bool_decide_false in E by (intros E'%(f_equal length); by rewrite hex32_length in E').
  assert (rpc_payload (str "1") (jstr "{'hash':'" ++ ac_hex_encode (b h) ++ jstr "'}") =
    jstr "{'jsonrpc':'2.0','id':1,'result':{" ++ json_pattern (str "hash") ++ x3a :: DQ :: ac_hex_encode (b h) ++ DQ :: str "}}") as ->
    by (unfold rpc_payload; rewrite <- !app_assoc; reflexivity).
  apply E; [short|reflexivity|apply hex_text|rewrite hex32_length; lia].
Qed.
Lemma error_read rs : rs ≠ AC_MP_ACCEPTED →
  json_get_hex (error_payload (str "1") (-32000) (str (ac_mp_result_str rs))) (str "hash") 65 = None.
Proof. intros Hr. destruct rs; [done|..]; vm_compute; reflexivity. Qed.

Lemma info_payload_text c : chain_wf c → no_nul (rpc_payload (str "1") (info_json c)) ∧ zlen (rpc_payload (str "1") (info_json c)) <= 400.
Proof.
  intros [_ H1 H2 _ _ H3 H4 _]. split; [unfold rpc_payload, info_json; no_nul|].
  pose proof (dec_length _ H1). pose proof (dec_length _ H2). pose proof (dec_length _ H3). pose proof (dec_length _ H4).
  unfold rpc_payload, info_json. rewrite !length_app, hex32_length. cbn. lia.
Qed.
Lemma account_payload_text a : acc_wf a → no_nul (rpc_payload (str "1") (account_json a)) ∧ zlen (rpc_payload (str "1") (account_json a)) <= 400.
Proof.
  intros [H1 H2 H3 H4]. split; [unfold rpc_payload, account_json; no_nul|].
  pose proof (dec_length _ H1). pose proof (dec_length _ H2). pose proof (dec_length _ H3). pose proof (dec_length _ H4).
  unfold rpc_payload, account_json. rewrite !length_app. cbn. lia.
Qed.
Lemma hash_payload_text t : no_nul (rpc_payload (str "1") (hash_json t)) ∧ zlen (rpc_payload (str "1") (hash_json t)) <= 400.
Proof. split; [unfold rpc_payload, hash_json; no_nul|]. unfold rpc_payload, hash_json. rewrite !length_app, hex32_length. cbn. lia. Qed.
Lemma error_payload_text rs : no_nul (error_payload (str "1") (-32000) (str (ac_mp_result_str rs))) ∧
  zlen (error_payload (str "1") (-32000) (str (ac_mp_result_str rs))) <= 400.
Proof. split; [apply no_nul_lit|]; destruct rs; vm_compute; first [reflexivity | discriminate]. Qed.
End WalletFacts.

(** ** End to end *)

Section EndToEnd.
Context `{!Sodium} `{!SodiumLaws _}.
Context (io : list byte → post_io) (chunk : list byte → list recv_ev) (host ua lh : list byte) (server_now : Z).
Hypothesis chunk_pieces : ∀ l, pieces (chunk l).
Hypothesis chunk_data : ∀ l, data (chunk l) = l.
Hypothesis io_whole : ∀ body, posts_whole (io body) body.
Hypothesis Hhost : header_text host.
Hypothesis Hua : header_text ua.
Hypothesis Hshort : zlen host + zlen ua <= 125.

Abbreviation call := (native_call io chunk host ua lh server_now).

Lemma call_spec cap n body payload n' :
  no_nul body → zlen body <= 60000 → rpc_dispatch n body lh server_now = (send_response 200 payload, n') →
  no_nul payload ∧ zlen payload <= 400 → 1000 <= cap <= 100000 → call cap n body = (Some payload, n').
Proof.
  intros Hb Hl Hd [Hp1 Hp2] Hc. apply native_call_spec; try done; try lia.
  pose proof (dec_length (zlen body) ltac:(unfold is_u64, U64; lia)).
  unfold request_text. rewrite !length_app. cbn. lia.
Qed.

Lemma account_request_nul cap a : no_nul (account_request cap (ac_hex_encode a)) ∧ zlen (account_request cap (ac_hex_encode a)) <= Z.of_nat cap.
Proof.
  unfold account_request, snprintf. split; [|rewrite length_take; lia].
  match goal with |- no_nul (take _ ?l) => assert (no_nul l) as Hl by no_nul; intros Hin; apply Hl; rewrite <- (take_drop (cap - 1) l) end.
  apply elem_of_app. by left.
Qed.

Lemma wallet_tx_wf cid gts non kp opts kind body gas now : is_u64 cid → is_u64 non → is_u8 kind → is_u32 gas → zlen body <= AC_TX_BODY_MAX →
  tx_wf (wallet_tx cid gts non kp opts kind body gas now).
Proof.
  intros H1 H2 H3 H4 H5. constructor; cbn; try done.
  - destruct (o_tip opts); [apply strtoull_range | done].
  - apply u64_range.
  - destruct (o_memo opts); [rewrite length_take; lia | done].
Qed.

(** A submission over the streams, any kind. *)
Lemma submit_spec n seed opts kind body gas now :
  let c := cs_chain (nd_cs n) in
  let kp := ac_keypair_from_seed seed in
  chain_wf c → is_u8 kind → is_u32 gas → zlen body <= AC_TX_BODY_MAX →
  ∃ t, ac_tx_sign (wallet_tx (c_chain_id c) (c_genesis_timestamp_ms c) (nonce (view (c_state c) (pk kp))) kp opts kind body gas now) kp
         = Some t ∧ ac_tx_verify t = true ∧
    let r := ac_mempool_add (cs_mempool (nd_cs n)) (c_state c) t (ac_chain_current_slot c server_now) in
    let n' := set_cs n (set_mempool (nd_cs n) r.2) in
    submit_tx (native_call io chunk host ua lh server_now 8192) n (Some (key_bytes kp)) opts kind body gas now =
      match r.1 with
      | AC_MP_ACCEPTED => (0, Some (ac_hex_encode (b (ac_tx_hash t))), rpc_broadcast_tx_cb n' (tx_bytes t))
      | _ => (1, None, n')
      end.
Proof.
  intros c kp Hc Hk Hg Hb. destruct (view_wf (c_state c) (pk kp) (cw_state _ Hc)) as [Hv1 Hv2 Hv3 Hv4].
  pose proof (wallet_tx_wf (c_chain_id c) (c_genesis_timestamp_ms c) (nonce (view (c_state c) (pk kp))) kp opts kind body gas now
    (cw_chain_id _ Hc) Hv2 Hk Hg Hb) as Ht0.
  set (t0 := wallet_tx _ _ _ _ _ _ _ _ _) in *.
  destruct (ac_tx_sign_spec seed t0 Ht0 eq_refl) as (t & Hs & Hv & _ & _ & Ht). exists t. split; [done|]. split; [done|]. cbv zeta.
  change (ac_keypair_from_seed seed) with kp in Hs.
  assert (call 8192 n chain_info_request = (Some (rpc_payload (str "1") (info_json c)), n)) as C1.
  { apply call_spec; [by apply no_nul_lit | by vm_compute | by apply dispatch_chain_info | by apply info_payload_text | lia]. }
  assert (call 8192 n (account_request 512 (ac_hex_encode (b (pk kp)))) =
    (Some (rpc_payload (str "1") (account_json (view (c_state c) (pk kp)))), n)) as C2.
  { destruct (account_request_nul 512 (b (pk kp))) as [A1 A2].
    apply call_spec; [done | lia | apply dispatch_account; [apply Hc | lia] | apply account_payload_text; by constructor | lia]. }
  assert (no_nul (submit_request (ac_hex_encode (tx_bytes t))) ∧ zlen (submit_request (ac_hex_encode (tx_bytes t))) <= 60000) as [A1 A2].
  { rewrite submit_request_text. split; [no_nul|]. rewrite !length_app, ac_hex_encode_length, tx_bytes_length.
    pose proof (tx_size_max t Ht) as Hz. revert Hz. generalize (tx_size t). intros z Hz. cbn. lia. }
  pose proof (dispatch_submit n t lh server_now Ht) as Hd. cbv zeta in Hd. fold c in Hd.
  destruct (info_read c Hc) as (I1 & _ & _ & _ & I2).
  destruct (account_read (view (c_state c) (pk kp))) as (_ & I3 & _); [by constructor|].
  unfold submit_tx. assert (key_load (key_bytes kp) = Some kp) as -> by apply key_load_bytes. rewrite C1. cbv zeta. rewrite C2.
  unfold json_u64_or_0. rewrite I1, I2, I3. cbn [default from_option id]. fold t0.
  rewrite (proj2 (Z.ltb_ge _ _)) by done. rewrite Hs. rewrite ac_tx_encode_spec by done.
  rewrite fits_ok by (rewrite tx_bytes_length; pose proof (tx_size_max t Ht); lia).
  destruct (ac_mempool_add _ _ _ _) as [rs mp]. cbn [fst snd] in Hd |- *.
  destruct (decide (rs = AC_MP_ACCEPTED)) as [-> |Hne].
  - rewrite (call_spec 8192 _ _ _ _ A1 A2 Hd (hash_payload_text t)) by lia. rewrite hash_read.
    destruct (ac_hex_encode (b (ac_tx_hash t))) eqn:E; [|done]. apply (f_equal length) in E. by rewrite hex32_length in E.
  - pose proof (error_payload_text rs) as He. pose proof (error_read rs Hne) as Hr.
    assert (rpc_dispatch n (submit_request (ac_hex_encode (tx_bytes t))) lh server_now =
      (send_response 200 (error_payload (str "1") (-32000) (str (ac_mp_result_str rs))), set_cs n (set_mempool (nd_cs n) mp))) as Hd'
      by (rewrite Hd; by destruct rs).
    rewrite (call_spec 8192 _ _ _ _ A1 A2 Hd' He) by lia. rewrite Hr. by destruct rs.
Qed.
End EndToEnd.

(** ** The command *)

(** A command line of [send]. *)
Definition send_args (url : list byte) (to : ac_addr_t) (amount : Z) : argv_t :=
  [str "send"; str "--rpc"; url; str "--to"; ac_hex_encode (b to); str "--amount"; dec amount].
Definition transfer_body (to : ac_addr_t) (amount : Z) : list byte := b to ++ ac_be64 amount.
Definition send_opts (url : list byte) : tx_submit_opts_t := mkOpts (Some url) None None None None.

Lemma hex_not_option (x : bytes 32) : not_option (ac_hex_encode (b x)).
Proof.
  pose proof (hex_text (b x)) as Hh. pose proof (hex32_length x) as Hl.
  destruct (ac_hex_encode (b x)) as [|c h]; [done|]. intros [= ->]. by apply Forall_inv in Hh.
Qed.

Section Send.
Context `{!Sodium} {W : Type} (call : list byte → W → list byte → option (list byte) * W).

Lemma cmd_send_args home fs w url to amount now : not_option url → is_u64 amount →
  cmd_send call home fs w (send_args url to amount) now =
    submit_tx (call url) w (fs (default_key_path home 1024)) (send_opts url) AC_TX_TRANSFER (transfer_body to amount) 1000 now.
Proof.
  intros Hu Ha. pose proof (λ s, not_option_ne _ s Hu) as Nu. pose proof (λ s, not_option_ne _ s (hex_not_option to)) as Nh.
  pose proof (λ s, not_option_ne _ s (dec_not_option amount Ha)) as Na.
  assert (∀ s, head (str s) = Some x2d → str s ∉ [str "--rpc"; str "--to"; str "--amount"] → has_flag (send_args url to amount) (str s) = false) as Hflag.
  { intros s Hs Hn. unfold has_flag, send_args. cbn [drop]. apply bool_decide_false. intros Hin. repeat rewrite elem_of_cons in Hin. repeat rewrite elem_of_cons in Hn.
    specialize (Nu s Hs). specialize (Nh s Hs). specialize (Na s Hs).
    destruct Hin as [?|[?|[?|[?|[?|[?|Hin]]]]]]; [tauto|congruence|tauto|congruence|tauto|congruence|by apply elem_of_nil in Hin]. }
  assert (∀ s, head (str s) = Some x2d → str s ∉ [str "--rpc"; str "--to"; str "--amount"] → get_opt (send_args url to amount) (str s) = None) as Hnone.
  { intros s Hs Hn. unfold get_opt, send_args. cbn [drop]. repeat rewrite elem_of_cons in Hn.
    rewrite !find_opt_skip by (solve [by apply Nu | by apply Nh | intros E; apply Hn; rewrite <- E; tauto]). done. }
  assert (get_opt (send_args url to amount) (str "--rpc") = Some url) as E1 by done.
  assert (get_opt (send_args url to amount) (str "--to") = Some (ac_hex_encode (b to))) as E2.
  { unfold get_opt, send_args. cbn [drop]. by rewrite !(find_opt_skip (str "--rpc")), !(find_opt_skip url), find_opt_here by (done || by apply Nu). }
  assert (get_opt (send_args url to amount) (str "--amount") = Some (dec amount)) as E3.
  { unfold get_opt, send_args. cbn [drop].
    by rewrite (find_opt_skip (str "--rpc")), (find_opt_skip url), (find_opt_skip (str "--to")), (find_opt_skip (ac_hex_encode (b to))), find_opt_here
      by (done || by apply Nu || by apply Nh). }
  unfold cmd_send, wants_help. rewrite !Hflag by (done || by apply (bool_decide_unpack _); vm_compute). cbn [orb].
  rewrite E2, E3. pose proof (ac_hex_decode_encode (b to)) as Hx. rewrite b_length in Hx. rewrite Hx, bytes_of_b.
  pose proof (strtoull_dec [] amount [] ltac:(constructor) Ha eq_refl) as Et. rewrite app_nil_r in Et. cbn [app] in Et. rewrite Et.
  rewrite ac_body_transfer_encode_spec, fits_ok by (done || simpl; len). cbn [concat recipient transfer_amount]. rewrite app_nil_r.
  unfold parse_submit_opts. rewrite E1, !Hnone by (done || by apply (bool_decide_unpack _); vm_compute). done.
Qed.
End Send.

(** C12. [agentchain send] delivers: over plain HTTP to a host of moderate length, when
    connecting succeeds and each send takes all it is given, over any cutting of the two byte
    streams into pieces, the requests of the command are read by the server as sent and its
    answers by the client, so that the pool is handed exactly the transfer of the amount to
    the recipient, with the chain's id and the account's next nonce, validly signed by the
    key in the key file; if the pool takes it, it is gossiped as encoded and the command
    prints its hash and exits with 0; otherwise it exits with 1. *)
Theorem wallet_submits `{!Sodium} `{!SodiumLaws _} curl io chunk ua lh server_now home fs n seed url host port to amount now :
  let c := cs_chain (nd_cs n) in
  let kp := ac_keypair_from_seed seed in
  (∀ body, posts_whole (io body) body) → (∀ l, pieces (chunk l)) → (∀ l, data (chunk l) = l) →
  rpc_target url = inr (host, port) → not_option url → header_text host → header_text ua → zlen host + zlen ua <= 125 →
  chain_wf c → is_u64 amount → fs (default_key_path home 1024) = Some (key_bytes kp) →
  ∃ t, ac_tx_sign (wallet_tx (c_chain_id c) (c_genesis_timestamp_ms c) (nonce (view (c_state c) (pk kp))) kp (send_opts url)
                     AC_TX_TRANSFER (transfer_body to amount) 1000 now) kp = Some t ∧
    tx_chain_id t = c_chain_id c ∧ tx_sender t = pk kp ∧ tx_nonce t = nonce (view (c_state c) (pk kp)) ∧
    tx_kind t = AC_TX_TRANSFER ∧ tx_body t = transfer_body to amount ∧ ac_tx_verify t = true ∧
    let r := ac_mempool_add (cs_mempool (nd_cs n)) (c_state c) t (ac_chain_current_slot c server_now) in
    let n' := set_cs n (set_mempool (nd_cs n) r.2) in
    cmd_send (rpc_call curl io chunk ua lh server_now 8192) home fs n (send_args url to amount) now =
      match r.1 with
      | AC_MP_ACCEPTED => (0, Some (ac_hex_encode (b (ac_tx_hash t))), rpc_broadcast_tx_cb n' (tx_bytes t))
      | _ => (1, None, n')
      end.
Proof.
  intros c kp Hio Hp Hd Ht Hu Hh Hua Hl Hc Ha Hk. rewrite cmd_send_args, Hk by done.
  assert (rpc_call curl io chunk ua lh server_now 8192 url = native_call io chunk host ua lh server_now 8192) as -> by (unfold rpc_call; by rewrite Ht).
  destruct (submit_spec io chunk host ua lh server_now Hp Hd Hio Hh Hua Hl n seed (send_opts url) AC_TX_TRANSFER (transfer_body to amount) 1000 now Hc)
    as (t & Hs & Hv & E); [done | done | unfold transfer_body; len|].
  exists t. split; [exact Hs|]. unfold ac_tx_sign in Hs. destruct (ac_tx_signable_bytes _ _); [|done].
  injection Hs as <-. do 5 (split; [reflexivity|]). split; [exact Hv|exact E].
Qed.

(** Without a connection nothing reaches the node, and the exit code is 1. *)
Lemma unreachable_node `{!Sodium} curl io chunk ua lh server_now home fs n kp url host port to amount now :
  (∀ body, po_connected (io body) = false) → rpc_target url = inr (host, port) → not_option url → is_u64 amount →
  fs (default_key_path home 1024) = Some (key_bytes (ac_keypair_from_seed kp)) → SodiumLaws _ →
  cmd_send (rpc_call curl io chunk ua lh server_now 8192) home fs n (send_args url to amount) now = (1, None, n).
Proof.
  intros Hio Ht Hu Ha Hk HL. rewrite cmd_send_args, Hk by done. unfold submit_tx. rewrite key_load_bytes.
  assert (∀ body, rpc_call curl io chunk ua lh server_now 8192 url n body = (None, n)) as ->; [|done].
  intros body. unfold rpc_call, native_call. by rewrite Ht, Hio.
Qed.

(** ** Witness: a transfer submitted to the demonstration chain, byte by byte *)

#[local] Existing Instance toy_sodium.
#[local] Existing Instance x87.

Definition byte_by_byte (l : list byte) : list recv_ev := (λ c, RData [c]) <$> l.
Lemma byte_by_byte_pieces l : pieces (byte_by_byte l).
Proof. apply Forall_fmap, Forall_true. done. Qed.
Lemma byte_by_byte_data l : data (byte_by_byte l) = l.
Proof. induction l as [|c l IH]; [done|]. unfold data, byte_by_byte in *. cbn. by rewrite IH. Qed.

Definition whole_posts (body : list byte) : post_io := mkPost true (SSent 255) (SSent (length body)).
Lemma whole_posts_whole body : posts_whole (whole_posts body) body.
Proof. split; [done|]. intros head Hl. unfold post_sends. cbn. by rewrite !take_ge. Qed.

Definition wallet_node : ac_node_t :=
  mkNode (ac_net_new 7 demo_kp 30303 []) (ac_consensus_new demo_chain (ac_mempool_new 7) demo_kp true true).
Definition no_curl (url : list byte) (n : ac_node_t) (body : list byte) : option (list byte) * ac_node_t := (None, n).
Definition wallet_url : list byte := str "http://127.0.0.1:30304/".
Definition wallet_fs : fs_t := fs_write (λ _, None) (str "/home/a/.agentchain/node.key") (key_bytes demo_kp).
Definition wallet_signed : ac_tx_t :=
  default demo_tx (ac_tx_sign (wallet_tx 7 1000 0 demo_kp (send_opts wallet_url) AC_TX_TRANSFER (transfer_body (addr_of 2) 500) 1000 9000) demo_kp).

Lemma plain_text l : bool_decide ((x00 ∉ l) ∧ (x0d ∉ l)) = true → header_text l.
Proof. by intros [? ?]%bool_decide_eq_true. Qed.

Lemma wallet_submits_witness :
  (cmd_send (rpc_call no_curl whole_posts byte_by_byte (str "AgentChain-Engine/1.1.0") (str "0.0.0.0") 9000 8192) (mkVars false (Some (str "/home/a")) None) wallet_fs
     wallet_node (send_args wallet_url (addr_of 2) 500) 9000).1 =
  (0, Some (ac_hex_encode (b (ac_tx_hash wallet_signed)))).
Proof.
  destruct (wallet_submits no_curl whole_posts byte_by_byte (str "AgentChain-Engine/1.1.0") (str "0.0.0.0") 9000 (mkVars false (Some (str "/home/a")) None) wallet_fs
    wallet_node demo_seed wallet_url (str "127.0.0.1") 30304 (addr_of 2) 500 9000) as (t & Hs & _ & _ & _ & _ & _ & _ & E).
  - exact whole_posts_whole.
  - exact byte_by_byte_pieces.
  - exact byte_by_byte_data.
  - vm_compute. reflexivity.
  - discriminate.
  - exact (plain_text (str "127.0.0.1") eq_refl).
  - exact (plain_text (str "AgentChain-Engine/1.1.0") eq_refl).
  - vm_compute. discriminate.
  - exact demo_chain_wf.
  - split; [discriminate | reflexivity].
  - vm_compute. reflexivity.
  - cbv zeta in E. etrans; [exact (f_equal fst E)|].
    assert (wallet_signed = t) as <-.
    { transitivity (default demo_tx (Some t)); [|reflexivity]. rewrite <- Hs. vm_compute. reflexivity. }
    assert ((ac_mempool_add (cs_mempool (nd_cs wallet_node)) (c_state (cs_chain (nd_cs wallet_node))) wallet_signed
      (ac_chain_current_slot (cs_chain (nd_cs wallet_node)) 9000)).1 = AC_MP_ACCEPTED) as -> by (vm_compute; reflexivity).
    reflexivity.
Defined.

(** A host name long enough makes the client send bytes from beyond its header buffer. *)
Lemma long_host_over_read : http_request (repeat x61 150) (str "AgentChain-Engine/1.1.0") chain_info_request = OOB.
Proof. vm_compute. reflexivity. Qed.

(** A send that takes only part of a request counts as a success, and the rest is never
    sent: server and client wait for each other. *)
Lemma short_send_no_answer :
  native_call (λ _, mkPost true (SSent 255) (SSent 10)) byte_by_byte (str "127.0.0.1") (str "ua") (str "0.0.0.0") 9000 8192
    wallet_node chain_info_request = (None, wallet_node) ∧
  post_sends (mkPost true (SSent 255) (SSent 10)) (str "head") chain_info_request = (true, str "head" ++ take 10 chain_info_request).
Proof. split; vm_compute; reflexivity. Qed.
