(* ===== verification/Loops.v ===== *)
(** * net.c, rpc.c, node.c: the accept, connector and signal loops

    The loops the threads of a node run, over what each turn sees of the outside: the
    value of [running] and what [accept] returned. Every loop ends in the first turn that
    finds [running] false; until then no error ends it. What the loops do to the node are
    steps of [NodeFacts], so its safety theorem covers them. *)

From S2P Require Import Prelude Common Crypto Cursor Codec SortedArray State Apply Mempool Econ Chain Accept Ledger Consensus ConsensusFacts Text Net NetFacts Dial Node Rpc NodeFacts.

(** ** Accepting *)

(** A successful [accept] yields [A]; a failure is EINTR or EAGAIN, or another error. *)
Inductive accept_t (A : Type) := Accepted (a : A) | AcceptAgain | AcceptFailed.
Arguments Accepted {A}.
Arguments AcceptAgain {A}.
Arguments AcceptFailed {A}.

(** One turn: [running] at the head of the loop, the result of [accept], and [running] as
    read after a failure. *)
Record turn_t (A : Type) := mkTurn { tn_running : bool; tn_accept : accept_t A; tn_still : bool }.
Arguments mkTurn {A}.
Arguments tn_running {A}.
Arguments tn_accept {A}.
Arguments tn_still {A}.

(** The control flow the two accept loops share: [serve] on each connection. *)
Fixpoint accept_loop {A S} (serve : S → A → S) (turns : list (turn_t A)) (s : S) : S :=
  match turns with
  | [] => s
  | t :: turns' =>
      if negb (tn_running t) then s
      else
        match tn_accept t with
        | Accepted a => accept_loop serve turns' (serve s a)
        | AcceptAgain => accept_loop serve turns' s
        | AcceptFailed => if negb (tn_still t) then s else accept_loop serve turns' s
        end
  end.

(** The connections of the turns before the loop ends. *)
Fixpoint served {A} (turns : list (turn_t A)) : list A :=
  match turns with
  | [] => []
  | t :: turns' =>
      if negb (tn_running t) then []
      else
        match tn_accept t with
        | Accepted a => a :: served turns'
        | AcceptAgain => served turns'
        | AcceptFailed => if negb (tn_still t) then [] else served turns'
        end
  end.

Lemma accept_loop_served {A S} (serve : S → A → S) turns s : accept_loop serve turns s = foldl serve s (served turns).
Proof.
  revert s. induction turns as [|[[] [a| |] []] turns IH]; intros s; cbn; done.
Qed.
Definition accepted {A} (turns : list (turn_t A)) : list A :=
  omap (λ t, match tn_accept t with Accepted a => Some a | _ => None end) turns.
(** While the program runs no connection is lost, whatever errors [accept] reports. *)
Lemma served_running {A} (turns : list (turn_t A)) : Forall (λ t, tn_running t = true ∧ tn_still t = true) turns →
  served turns = accepted turns.
Proof. unfold accepted. induction 1 as [|[r a st] turns [H1 H2] _ IH]; cbn in *; [done|]. subst. cbn. destruct a; by rewrite IH. Qed.
(** Once [running] is false nothing is served. *)
Lemma served_stops {A} (l : list (turn_t A)) t k : tn_running t = false → served (l ++ t :: k) = served l.
Proof. intros Ht. induction l as [|[[] [a| |] []] l IH]; cbn; rewrite ?Ht; by rewrite ?IH. Qed.

(** ** The listener *)

(** A connection: descriptor, address as printed, port, and how the socket takes the HELLO. *)
Definition conn_t : Type := Z * list byte * Z * list send_ev.
(** The network, and what was written on each accepted socket. *)
Definition listen_serve (s : ac_net_t * list (list byte)) (c : conn_t) : ac_net_t * list (list byte) :=
  let '(fd, host, port, evs) := c in
  let '(n, wire) := listen_accept s.1 fd host port evs in (n, s.2 ++ [wire]).
Definition listen_loop (turns : list (turn_t conn_t)) (n : ac_net_t) : ac_net_t * list (list byte) :=
  accept_loop listen_serve turns (n, []).

(** The slot of an accepted connection before its handshake. *)
Definition inbound_slot (c : conn_t) : peer_t :=
  let '(fd, host, port, _) := c in mkPeer true fd (zeros 32) false true (snprintf 128 host) port 0 out_empty false.
(** What the listener writes on it. *)
Definition hello_wire (n : ac_net_t) (c : conn_t) : list byte := (send_hello n c.2).1.2.

(** A slot without an identity is not announced. *)
Lemma hello_peers_unknown l i p q pos cnt : l !! i = Some p → p_in_use p = false → p_peer_id_known q = false →
  hello_peers (<[i := q]> l) pos cnt = hello_peers l pos cnt.
Proof.
  intros Hi Hp Hq. revert i pos cnt Hi. induction l as [|r l IH]; intros [|i] pos cnt Hi; cbn in Hi; [done..|injection Hi as ->|].
  - cbn. rewrite Hp, Hq. by rewrite orb_true_r.
  - cbn [list_insert hello_peers insert]. change (hello_peers (r :: <[i := q]> l) pos cnt = hello_peers (r :: l) pos cnt). cbn [hello_peers].
    by rewrite !IH.
Qed.
Lemma peer_connect_hello n fd inb host port : hello_payload (peer_connect n fd inb host port).2 = hello_payload n.
Proof.
  unfold peer_connect, peer_alloc. destruct (free_slot_spec (n_peers n) 0) as [(i & p & -> & Hi & Hp)|[-> _]]; [|done].
  cbn [Nat.add snd]. unfold hello_payload, put_peer. cbn [n_peers set_peers n_external_host n_chain_id n_keypair n_listen_port].
  rewrite list_insert_insert_eq. by rewrite (hello_peers_unknown _ i p).
Qed.

Lemma listen_serve_spec s c : (0 < free s.1)%nat →
  keeps s.1 (listen_serve s c).1 ∧ free s.1 = S (free (listen_serve s c).1) ∧
  (∃ i, n_peers (listen_serve s c).1 !! i = Some (inbound_slot c)) ∧
  (listen_serve s c).2 = s.2 ++ [hello_wire s.1 c] ∧ hello_payload (listen_serve s c).1 = hello_payload s.1.
Proof.
  destruct c as [[[fd host] port] evs]. intros Hf. unfold listen_serve, listen_accept, hello_wire.
  pose proof (peer_connect_hello s.1 fd true (snprintf 128 host) port) as Eh.
  destruct (peer_connect_spec s.1 fd true (snprintf 128 host) port Hf) as (i & E & Hi & Hk & He). rewrite E in *. cbn [fst snd] in *.
  unfold send_hello. rewrite Eh. destruct (frame_send evs AC_MSG_HELLO (hello_payload s.1)) as [[ok wire] rest] eqn:Ef. cbn [fst snd].
  split; [done|]. split; [done|]. split; [exists i; cbn; by rewrite list_lookup_insert_eq|]. done.
Qed.

(** C27. The listener's promise: while the node runs, whatever errors [accept] reports in
    between, every connection that comes in gets a slot of its own, live and inbound with
    the address it came from, as long as slots are free (no other thread fills them
    meanwhile); on each the frame of this node's HELLO is written, as far as the socket takes
    it, once and in the order of arrival; no slot in use is disturbed. After the first turn
    that finds [running] false nothing more is accepted. *)
Theorem listener_admits n (lt lt' : list (turn_t conn_t)) stop :
  tn_running stop = false → Forall (λ t, tn_running t = true ∧ tn_still t = true) lt →
  (length (accepted lt) <= free n)%nat →
  let '(n', wires) := listen_loop (lt ++ stop :: lt') n in
  keeps n n' ∧ wires = hello_wire n <$> accepted lt ∧ free n = (length (accepted lt) + free n')%nat ∧
  ∀ c, c ∈ accepted lt → ∃ i, n_peers n' !! i = Some (inbound_slot c).
Proof.
  intros Hstop Hrun. unfold listen_loop. rewrite accept_loop_served, served_stops, served_running by done.
  generalize (accepted lt) as l. intros l Hl.
  assert (∀ s, (length l <= free s.1)%nat → let s' := foldl listen_serve s l in
    keeps s.1 s'.1 ∧ s'.2 = s.2 ++ (hello_wire s.1 <$> l) ∧ free s.1 = (length l + free s'.1)%nat ∧
    ∀ c, c ∈ l → ∃ i, n_peers s'.1 !! i = Some (inbound_slot c)) as Hfold.
  { clear. induction l as [|c l IH]; intros s Hs s'; cbn [length] in *.
    { split; [reflexivity|]. split; [by rewrite app_nil_r|]. split; [done|]. intros c Hc. by apply elem_of_nil in Hc. }
    destruct (listen_serve_spec s c) as (K & F & (i & Hi) & W & Eh); [lia|].
    destruct (IH (listen_serve s c)) as (K' & W' & F' & S'); [lia|]. unfold s'. cbn [foldl]. split; [by etrans|].
    split; [|split; [lia|]].
    - rewrite W', W, <- app_assoc. cbn. do 2 f_equal. apply list_fmap_ext. intros _ x _. unfold hello_wire, send_hello. by rewrite Eh.
    - intros d [-> |Hd]%elem_of_cons; [|by apply S']. exists i. apply K'; [done|]. by destruct c as [[[? ?] ?] ?]. }
  specialize (Hfold (n, []) Hl). destruct (foldl listen_serve (n, []) l) as [n' wires]. exact Hfold.
Qed.

(** ** The connector *)

(** The seeds are tried in order, as long as [running] is seen true before each. *)
Fixpoint dial_while (connect : connect_t) (n : ac_net_t) (seeds : list (list byte)) (running : list bool) : ac_net_t :=
  match seeds, running with
  | hp :: seeds', true :: running' =>
      dial_while connect (if bool_decide (hp = []) then n else (dial_peer connect n hp).1.2) seeds' running'
  | _, _ => n
  end.
(** A turn has the flag at its head, those before each seed, and the outcome of its
    connects; [connector_loop] with the sleeps left out. *)
Fixpoint connector_loop (target_outbound : Z) (seeds : list (list byte)) (turns : list (bool * list bool * connect_t)) (n : ac_net_t) : ac_net_t :=
  match turns with
  | [] => n
  | (running, flags, connect) :: turns' =>
      if negb running then n
      else
        let n := reap_dead_peers n in
        let n := if (Z.of_nat (outbound_count n) <? connector_target target_outbound (zlen seeds)) && (0 <? zlen seeds)
                 then dial_while connect n seeds flags else n in
        connector_loop target_outbound seeds turns' n
  end.

Lemma dial_while_all connect n seeds running : (length seeds <= length running)%nat → Forall (λ b, b = true) running →
  dial_while connect n seeds running = dial_seeds connect n seeds.
Proof.
  intros Hl Hr. revert n seeds Hl. induction Hr as [|x running -> Hr IH]; intros n [|hp seeds] Hl; cbn in *; try done; [lia|].
  apply IH. lia.
Qed.
(** While the program runs, a turn is [connector_turn]. *)
Lemma connector_loop_turns target seeds turns n :
  Forall (λ t, t.1.1 = true ∧ (length seeds <= length t.1.2)%nat ∧ Forall (λ b, b = true) t.1.2) turns →
  connector_loop target seeds turns n = foldl (λ n t, connector_turn t.2 target seeds n) n turns.
Proof.
  intros Ht. revert n. induction Ht as [|[[r fl] cn] turns (H1 & H2 & H3) _ IH]; intros n; cbn in *; [done|]. subst r. cbn.
  rewrite IH. unfold connector_turn. by rewrite dial_while_all.
Qed.

(** ** The RPC server *)

(** What [write_all] puts on the socket; as [write_full] of net.c. *)
Definition write_all (evs : list send_ev) (buf : list byte) : bool * list byte * list send_ev := write_full evs buf.
(** A response is written as header and body, the results unused. *)
Definition put_response (evs : list send_ev) (head body : list byte) : list byte :=
  let '(_, w1, evs) := write_all evs head in
  let '(_, w2, _) := write_all evs body in w1 ++ w2.

Section Rpc.
Context `{!Sodium} `{!LongDouble}.

(** A client: what it sends, and the clock when it is dispatched. Clients are handled one
    at a time, each answered before the next is accepted. *)
Definition client_t : Type := list recv_ev * Z.
Definition rpc_serve (listen_host : list byte) (s : list (list byte) * ac_node_t) (c : client_t) : list (list byte) * ac_node_t :=
  let '(answer, n) := handle_client s.2 c.1 listen_host c.2 in (s.1 ++ [answer], n).
Definition rpc_accept_loop (listen_host : list byte) (turns : list (turn_t client_t)) (n : ac_node_t) : list (list byte) * ac_node_t :=
  accept_loop (rpc_serve listen_host) turns ([], n).
End Rpc.

(** ** Signals *)

(** [ac_node_wait_for_signal]: the flag as polled every 200 ms; how often it slept before
    it saw it set. *)
Fixpoint ac_node_wait_for_signal (flag : list bool) : nat :=
  match flag with
  | false :: flag' => S (ac_node_wait_for_signal flag')
  | _ => O
  end.

(** ** The loops are runs of the node *)

Lemma foldl_steps {S A} (R : S → S → Prop) (f : S → A → S) l s : (∀ s a, rtc R s (f s a)) → rtc R s (foldl f s l).
Proof. intros Hf. revert s. induction l as [|a l IH]; intros s; [done|]. cbn [foldl]. etrans; [apply Hf | apply IH]. Qed.

Lemma listen_accept_step n fd host port evs : rtc net_step n (listen_accept n fd host port evs).1.
Proof.
  unfold listen_accept. pose proof (ns_connect (may := λ _, True) n fd true (snprintf 128 host) port) as Hs.
  destruct (peer_connect _ _ _ _ _) as [[i|] n']; [destruct (send_hello _ _) as [[? ?] ?]|]; by apply rtc_once.
Qed.
Lemma listen_loop_steps turns n : rtc net_step n (listen_loop turns n).1.
Proof.
  unfold listen_loop. rewrite accept_loop_served. set (s := (n, [])). change n with s.1. clearbody s.
  generalize (served turns). intros l. revert s. induction l as [|[[[fd host] port] evs] l IH]; intros s; [done|]. cbn [foldl].
  etrans; [|apply IH]. unfold listen_serve. pose proof (listen_accept_step s.1 fd host port evs) as H.
  by destruct (listen_accept _ _ _ _ _).
Qed.

Lemma dial_step connect n hp : rtc net_step n (dial_peer connect n hp).1.2.
Proof.
  unfold dial_peer. destruct (dial_parse hp) as [[host port]|]; [|done]. destruct (already_dialed _ _ _); [done|].
  destruct (connect host port) as [[fd evs]|]; [|done]. pose proof (ns_connect (may := λ _, True) n fd false host port) as Hs.
  destruct (peer_connect _ _ _ _ _) as [[i|] n']; [destruct (send_hello _ _) as [[? ?] ?]|]; by apply rtc_once.
Qed.
Lemma dial_while_steps connect n seeds running : rtc net_step n (dial_while connect n seeds running).
Proof.
  revert n running. induction seeds as [|hp seeds IH]; intros n [|[] running]; cbn [dial_while]; try done.
  etrans; [|apply IH]. destruct (bool_decide _); [done | apply dial_step].
Qed.
Lemma connector_loop_steps target seeds turns n : rtc net_step n (connector_loop target seeds turns n).
Proof.
  revert n. induction turns as [|[[r fl] cn] turns IH]; intros n; cbn [connector_loop]; [done|]. destruct r; cbn [negb]; [|done].
  etrans; [apply rtc_once, ns_reap|]. etrans; [|apply IH]. destruct (_ && _); [apply dial_while_steps | done].
Qed.

Section Runs.
Context `{!Sodium} `{!LongDouble}.

Lemma transport_steps io n x : rtc net_step (nd_net n) x → rtc (node_step io) n (set_net n x).
Proof.
  intros Hr. remember (nd_net n) as y eqn:Ey. revert n Ey. induction Hr as [y|y y' z Hs _ IH]; intros n ->; [by destruct n|].
  eapply rtc_l; [by apply nd_transport|]. exact (IH (set_net n y') eq_refl).
Qed.

Lemma rpc_loop_steps io host turns n : rtc (node_step io) n (rpc_accept_loop host turns n).2.
Proof.
  unfold rpc_accept_loop. rewrite accept_loop_served. set (s := ([], n)). change n with s.2. clearbody s. clear n.
  generalize (served turns). intros l. revert s. induction l as [|c l IH]; intros s; [done|]. cbn [foldl].
  eapply rtc_l; [|apply IH]. unfold rpc_serve. pose proof (nd_client io s.2 c.1 host c.2) as Hc.
  by destruct (handle_client _ _ _ _).
Qed.

(** One answer per client, in the order they were accepted, each from the node the
    clients before it left. *)
Lemma rpc_answers host l s :
  (foldl (rpc_serve host) s l).1 = s.1 ++ imap (λ i c, (handle_client (foldl (rpc_serve host) s (take i l)).2 c.1 host c.2).1) l.
Proof.
  revert s. induction l as [|c l IH]; intros s; cbn [foldl imap]; [by rewrite app_nil_r|]. rewrite IH.
  assert ((rpc_serve host s c).1 = s.1 ++ [(handle_client s.2 c.1 host c.2).1]) as ->.
  { unfold rpc_serve. by destruct (handle_client _ _ _ _). }
  rewrite <- app_assoc. f_equal.
Qed.

(** The server threads stay within the node's steps: whatever the listener accepts, the
    connector dials and RPC clients send, in any turns and with any errors from [accept],
    the three loops move the node by steps the safety theorem covers. *)
Lemma server_loops io n (lt : list (turn_t conn_t)) target seeds ct host (rt : list (turn_t client_t)) :
  rtc (node_step io) n (set_net n (listen_loop lt (nd_net n)).1) ∧
  rtc (node_step io) n (set_net n (connector_loop target seeds ct (nd_net n))) ∧
  rtc (node_step io) n (rpc_accept_loop host rt n).2.
Proof.
  split; [apply transport_steps, listen_loop_steps|]. split; [apply transport_steps, connector_loop_steps | apply rpc_loop_steps].
Qed.
(** While the node runs RPC clients are answered one for one. *)
Lemma rpc_loop_answers host (rt : list (turn_t client_t)) n : Forall (λ t, tn_running t = true ∧ tn_still t = true) rt →
  length (rpc_accept_loop host rt n).1 = length (accepted rt).
Proof.
  intros Hrun. unfold rpc_accept_loop. rewrite accept_loop_served, served_running, rpc_answers by done. cbn [app fst].
  apply length_imap.
Qed.
End Runs.

(** What a client receives when its socket takes everything. *)
Lemma put_response_ok evs status body e1 e2 w1 w2 :
  write_all evs (http_header status (zlen body)) = (true, w1, e1) → write_all e1 body = (true, w2, e2) →
  put_response evs (http_header status (zlen body)) body = send_response status body.
Proof. unfold put_response, write_all. intros E1 E2. rewrite E1, E2. by apply write_full_ok in E1 as ->, E2 as ->. Qed.

(** ** Witness *)

#[local] Existing Instance toy_sodium.
#[local] Existing Instance x87.

(** Two connections, an error of [accept] between them, and one connection after the stop. *)
Definition arriving (fd : Z) : turn_t conn_t := mkTurn true (Accepted (fd, str "10.0.0.7", 4000 + fd, [SSent 1600; SSent 1600])) true.
Definition two_arrivals : list (turn_t conn_t) := [arriving 7; mkTurn true AcceptFailed true; arriving 8].
Lemma listener_admits_witness :
  let n := ac_net_new 7 demo_kp 30303 [] in
  let n' := (listen_loop (two_arrivals ++ mkTurn false AcceptAgain false :: [arriving 9]) n).1 in
  (∃ i, n_peers n' !! i = Some (inbound_slot (7, str "10.0.0.7", 4007, [SSent 1600; SSent 1600]))) ∧
  (∃ i, n_peers n' !! i = Some (inbound_slot (8, str "10.0.0.7", 4008, [SSent 1600; SSent 1600]))).
Proof.
  intros n n'. pose proof (listener_admits n two_arrivals [arriving 9] (mkTurn false AcceptAgain false) eq_refl) as Hl.
  unfold n'. destruct (listen_loop _ n) as [m wires]. destruct Hl as (_ & _ & _ & Hl);
    [repeat constructor | apply Nat.leb_le; vm_compute; reflexivity|].
  split; apply Hl; [left | right; left].
Defined.
