(* ===== verification/Lifecycle.v ===== *)
(** * node.c, net.c, rpc.c, consensus.c: starting and stopping

    Threads, sockets and heap objects of a node from [ac_node_new] to [ac_node_free].
    The process is a state with a fault for what C leaves undefined: joining a handle that
    was never created or was joined before, closing a descriptor that is not open, freeing
    an object that is not allocated. Each function is the sequence of such calls the code
    makes, on every path; what a thread does while it runs is modelled elsewhere, here only
    what it creates and releases. *)

From S2P Require Import Prelude Common Crypto Codec SortedArray Text Net.

(** ** The process *)

Inductive role := RListen | RConnector | RReader | RWriter | RRpc | RSlot.
Inductive obj := ONode | OChain | OMempool | OCs | ONet | ORpc.
Inductive fault := JoinUnstarted | JoinAgain (t : nat) | CloseBad (fd : nat) | FreeBad (o : obj).

#[export] Instance role_eq_dec : EqDecision role.
Proof. solve_decision. Defined.
#[export] Instance obj_eq_dec : EqDecision obj.
Proof. solve_decision. Defined.

(** Threads not yet joined, open descriptors, allocated objects, and for each object freed
    so far the threads that were not joined at that time. Threads and descriptors have
    names that are not used again. *)
Record os_t := mkOs {
  os_next : nat;
  os_live : list (nat * role);
  os_fds : list nat;
  os_heap : list obj;
  os_freed : list (obj * list (nat * role))
}.
Definition os_init : os_t := mkOs 0 [] [] [] [].

Definition proc (A : Type) : Type := os_t → fault + A * os_t.
Definition ret {A} (a : A) : proc A := λ w, inr (a, w).
Definition pbind {A B} (m : proc A) (k : A → proc B) : proc B := λ w,
  match m w with inl e => inl e | inr (a, w') => k a w' end.
Declare Scope proc_scope.
Notation "'let!' x := m 'in' k" := (pbind m (λ x, k)) (at level 10, x name, m at level 100, k at level 200) : proc_scope.
Notation "'do!' m ; k" := (pbind m (λ _, k)) (at level 10, m at level 100, k at level 200) : proc_scope.
Open Scope proc_scope.

(** A handle in a zeroed structure is [None] until [pthread_create] stores one. *)
Definition handle : Type := option nat.

Definition pthread_create (r : role) (ok : bool) : proc handle := λ w,
  if ok then inr (Some (os_next w), mkOs (S (os_next w)) ((os_next w, r) :: os_live w) (os_fds w) (os_heap w) (os_freed w))
  else inr (None, w).

Fixpoint take_out {A} (f : A → bool) (l : list A) : option (list A) :=
  match l with
  | [] => None
  | x :: l' => if f x then Some l' else cons x <$> take_out f l'
  end.
Definition pthread_join (h : handle) : proc () := λ w,
  match h with
  | None => inl JoinUnstarted
  | Some t =>
      match take_out (λ x, (x.1 =? t)%nat) (os_live w) with
      | Some l => inr ((), mkOs (os_next w) l (os_fds w) (os_heap w) (os_freed w))
      | None => inl (JoinAgain t)
      end
  end.

(** [socket], or [accept] and [connect] on a fresh socket. *)
Definition sock_open (ok : bool) : proc (option nat) := λ w,
  if ok then inr (Some (os_next w), mkOs (S (os_next w)) (os_live w) (os_next w :: os_fds w) (os_heap w) (os_freed w))
  else inr (None, w).
Definition ac_sock_close (fd : nat) : proc () := λ w,
  match take_out (λ x, (x =? fd)%nat) (os_fds w) with
  | Some l => inr ((), mkOs (os_next w) (os_live w) l (os_heap w) (os_freed w))
  | None => inl (CloseBad fd)
  end.

Definition obj_alloc (o : obj) (ok : bool) : proc bool := λ w,
  if ok then inr (true, mkOs (os_next w) (os_live w) (os_fds w) (o :: os_heap w) (os_freed w)) else inr (false, w).
Definition obj_free (o : obj) : proc () := λ w,
  match take_out (λ x, bool_decide (x = o)) (os_heap w) with
  | Some l => inr ((), mkOs (os_next w) (os_live w) (os_fds w) l (os_freed w ++ [(o, os_live w)]))
  | None => inl (FreeBad o)
  end.

(** [if (fd >= 0) { close(fd); fd = -1; }] *)
Definition close_if (fd : option nat) : proc () := match fd with Some fd => ac_sock_close fd | None => ret () end.
(** [if (started) { pthread_join(th); started = false; }]: the flag is the option. *)
Definition join_if (h : handle) : proc () := match h with Some _ => pthread_join h | None => ret () end.

(** ** Network *)

(** A slot: its descriptor, and its threads while the started flags are set. *)
Record slot_r := mkSlot { sl_in_use : bool; sl_fd : option nat; sl_reader : handle; sl_writer : handle }.
Definition slot_free : slot_r := mkSlot false None None None.

Record net_r := mkNetR {
  nr_listen_fd : option nat;
  nr_listen_thread : handle;
  nr_connector_thread : handle;
  nr_running : bool;
  nr_peers : list slot_r
}.
Definition set_slots (n : net_r) (l : list slot_r) : net_r :=
  mkNetR (nr_listen_fd n) (nr_listen_thread n) (nr_connector_thread n) (nr_running n) l.

Record net_env := mkNetEnv { ev_socket : bool; ev_bind : bool; ev_listen : bool; ev_thread1 : bool; ev_thread2 : bool }.

Definition ac_net_new (ok : bool) : proc (option net_r) :=
  let! got := obj_alloc ONet ok in
  ret (if got then Some (mkNetR None None None false (repeat slot_free AC_MAX_PEERS)) else None).

Definition ac_net_start (n : net_r) (e : net_env) : proc (Z * net_r) :=
  let! s := sock_open (ev_socket e) in
  match s with
  | None => ret (-1, n)
  | Some fd =>
      if negb (ev_bind e) then do! ac_sock_close fd; ret (-1, n)
      else if negb (ev_listen e) then do! ac_sock_close fd; ret (-1, n)
      else
        let! t := pthread_create RListen (ev_thread1 e) in
        match t with
        | None => do! ac_sock_close fd;
            ret (-1, mkNetR (Some fd) (nr_listen_thread n) (nr_connector_thread n) false (nr_peers n))
        | Some t =>
            let! c := pthread_create RConnector (ev_thread2 e) in
            match c with
            | None => do! ac_sock_close fd; do! pthread_join (Some t);
                ret (-1, mkNetR (Some fd) (Some t) (nr_connector_thread n) false (nr_peers n))
            | Some c => ret (0, mkNetR (Some fd) (Some t) (Some c) true (nr_peers n))
            end
        end
  end.

(** The body of the last loop of [ac_net_stop]. *)
Definition stop_peer (p : slot_r) : proc slot_r :=
  do! join_if (sl_reader p); do! join_if (sl_writer p);
  if sl_in_use p then do! close_if (sl_fd p); ret slot_free
  else ret (mkSlot (sl_in_use p) (sl_fd p) None None).
Fixpoint stop_peers (l : list slot_r) : proc (list slot_r) :=
  match l with
  | [] => ret []
  | p :: l' => let! p' := stop_peer p in let! l'' := stop_peers l' in ret (p' :: l'')
  end.

Definition ac_net_stop (n : net_r) : proc net_r :=
  do! close_if (nr_listen_fd n);
  do! pthread_join (nr_listen_thread n); do! pthread_join (nr_connector_thread n);
  let! l := stop_peers (nr_peers n) in
  ret (mkNetR None (nr_listen_thread n) (nr_connector_thread n) false l).
Definition ac_net_free (n : net_r) : proc () :=
  if nr_running n then do! ac_net_stop n; obj_free ONet else obj_free ONet.

(** ** What runs in between *)

Fixpoint unused_slot (l : list slot_r) (i : nat) : option nat :=
  match l with [] => None | p :: l' => if sl_in_use p then unused_slot l' (S i) else Some i end.

(** A connection accepted by [listen_loop] or made by [dial_peer]: a slot and two threads,
    either of which may fail to start; without a slot the socket is closed. *)
Definition peer_spawn (n : net_r) (ok_writer ok_reader : bool) : proc net_r :=
  let! s := sock_open true in
  match s, unused_slot (nr_peers n) 0 with
  | Some fd, Some i =>
      let! w := pthread_create RWriter ok_writer in
      let! r := pthread_create RReader ok_reader in
      ret (set_slots n (<[i := mkSlot true (Some fd) r w]> (nr_peers n)))
  | Some fd, None => do! ac_sock_close fd; ret n
  | None, _ => ret n
  end.

(** [peer_close_fd] by the reader, at the end of its loop. *)
Definition reader_exit (n : net_r) (i : nat) : proc net_r :=
  match nr_peers n !! i with
  | Some p => do! close_if (sl_fd p);
      ret (set_slots n (<[i := mkSlot (sl_in_use p) None (sl_reader p) (sl_writer p)]> (nr_peers n)))
  | None => ret n
  end.

(** One slot of [reap_dead_peers]. *)
Definition reap_peer (p : slot_r) : proc slot_r :=
  if sl_in_use p && bool_decide (sl_fd p = None) then
    do! join_if (sl_writer p); do! join_if (sl_reader p);
    ret (if bool_decide (sl_reader p = None) && bool_decide (sl_writer p = None) then p
          else mkSlot false (sl_fd p) None None)
  else ret p.
Fixpoint reap_peers (l : list slot_r) : proc (list slot_r) :=
  match l with
  | [] => ret []
  | p :: l' => let! p' := reap_peer p in let! l'' := reap_peers l' in ret (p' :: l'')
  end.
Definition reap_dead_peers (n : net_r) : proc net_r := let! l := reap_peers (nr_peers n) in ret (set_slots n l).

(** ** RPC server and consensus engine *)

Record rpc_r := mkRpcR { rr_fd : option nat; rr_thread : handle; rr_running : bool }.

Definition ac_rpc_new (ok : bool) : proc (option rpc_r) :=
  let! got := obj_alloc ORpc ok in ret (if got then Some (mkRpcR None None false) else None).
Definition ac_rpc_start (r : rpc_r) (e : net_env) : proc (Z * rpc_r) :=
  let! s := sock_open (ev_socket e) in
  match s with
  | None => ret (-1, r)
  | Some fd =>
      if negb (ev_bind e) then do! ac_sock_close fd; ret (-1, r)
      else if negb (ev_listen e) then do! ac_sock_close fd; ret (-1, r)
      else
        let! t := pthread_create RRpc (ev_thread1 e) in
        match t with
        | None => do! ac_sock_close fd; ret (-1, mkRpcR (Some fd) (rr_thread r) false)
        | Some t => ret (0, mkRpcR (Some fd) (Some t) true)
        end
  end.
Definition ac_rpc_stop (r : rpc_r) : proc rpc_r :=
  do! close_if (rr_fd r); do! pthread_join (rr_thread r); ret (mkRpcR None (rr_thread r) false).
Definition ac_rpc_free (r : rpc_r) : proc () :=
  if rr_running r then do! ac_rpc_stop r; obj_free ORpc else obj_free ORpc.

Record cs_r := mkCsR { cr_thread : handle; cr_running : bool }.

Definition ac_consensus_new (ok : bool) : proc (option cs_r) :=
  let! got := obj_alloc OCs ok in ret (if got then Some (mkCsR None false) else None).
Definition ac_consensus_start (c : cs_r) (ok : bool) : proc (Z * cs_r) :=
  let! t := pthread_create RSlot ok in
  ret (match t with None => (-1, mkCsR (cr_thread c) false) | Some t => (0, mkCsR (Some t) true) end).
Definition ac_consensus_stop (c : cs_r) : proc cs_r :=
  do! pthread_join (cr_thread c); ret (mkCsR (cr_thread c) false).
Definition ac_consensus_free (c : cs_r) : proc () :=
  if cr_running c then do! ac_consensus_stop c; obj_free OCs else obj_free OCs.

(** The chain with its state and index arrays; the pool with its entries. *)
Definition ac_chain_close : proc () := obj_free OChain.
Definition ac_mempool_free : proc () := obj_free OMempool.

(** ** Node *)

(** The pointers of [ac_node_s]; NULL is [false] or [None]. *)
Record node_r := mkNodeR {
  no_chain : bool;
  no_mempool : bool;
  no_net : option net_r;
  no_cs : option cs_r;
  no_rpc : option rpc_r
}.

(** Which calls of the start succeed. *)
Record start_env := mkStartEnv {
  se_crypto : bool; se_net_init : bool; se_mkdir : bool; se_key : bool; se_chain : bool; se_mempool : bool;
  se_cs : bool; se_net : bool; se_net_start : net_env; se_rpc : bool; se_rpc_start : net_env; se_slot_thread : bool }.

Definition ac_node_new (ok : bool) : proc (option node_r) :=
  let! got := obj_alloc ONode ok in ret (if got then Some (mkNodeR false false None None None) else None).
Definition ac_node_free : proc () := obj_free ONode.

(** [if (n->x) { stop; free; n->x = NULL; }] *)
Definition shut {A} (x : option A) (stop : A → proc A) (free : A → proc ()) : proc () :=
  match x with Some a => pbind (stop a) free | None => ret () end.
Definition ac_node_stop (n : node_r) : proc node_r :=
  do! shut (no_rpc n) ac_rpc_stop ac_rpc_free;
  do! shut (no_net n) ac_net_stop ac_net_free;
  do! shut (no_cs n) ac_consensus_stop ac_consensus_free;
  do! (if no_mempool n then ac_mempool_free else ret ());
  do! (if no_chain n then ac_chain_close else ret ());
  ret (mkNodeR false false None None None).

(** [fail:] *)
Definition start_fail (n : node_r) : proc (Z * node_r) := let! n := ac_node_stop n in ret (-1, n).

Definition ac_node_start (n : node_r) (e : start_env) : proc (Z * node_r) :=
  if negb (se_crypto e) || negb (se_net_init e) || negb (se_mkdir e) || negb (se_key e) then ret (-1, n)
  else
    let! ch := obj_alloc OChain (se_chain e) in
    if negb ch then ret (-1, n)
    else
      let! mp := obj_alloc OMempool (se_mempool e) in
      if negb mp then do! ac_chain_close; ret (-1, mkNodeR true false None None None)
      else
        let! cs := ac_consensus_new (se_cs e) in
        match cs with
        | None => start_fail (mkNodeR true true None None None)
        | Some cs =>
            let! net := ac_net_new (se_net e) in
            match net with
            | None => start_fail (mkNodeR true true None (Some cs) None)
            | Some net =>
                let! r := ac_net_start net (se_net_start e) in
                if negb (r.1 =? 0) then start_fail (mkNodeR true true (Some r.2) (Some cs) None)
                else
                  let! rpc := ac_rpc_new (se_rpc e) in
                  match rpc with
                  | None => start_fail (mkNodeR true true (Some r.2) (Some cs) None)
                  | Some rpc =>
                      let! q := ac_rpc_start rpc (se_rpc_start e) in
                      if negb (q.1 =? 0) then start_fail (mkNodeR true true (Some r.2) (Some cs) (Some q.2))
                      else
                        let! s := ac_consensus_start cs (se_slot_thread e) in
                        if negb (s.1 =? 0) then start_fail (mkNodeR true true (Some r.2) (Some s.2) (Some q.2))
                        else ret (0, mkNodeR true true (Some r.2) (Some s.2) (Some q.2))
                  end
            end
        end.

(** The end of [cmd_node]: a node that does not start is freed; one that does runs until a
    signal, then is stopped and freed. *)
Definition node_launch (ok : bool) (e : start_env) : proc (Z * option node_r) :=
  let! x := ac_node_new ok in
  match x with
  | None => ret (1, None)
  | Some n =>
      let! r := ac_node_start n e in
      if negb (r.1 =? 0) then do! ac_node_free; ret (1, None) else ret (0, Some r.2)
  end.
Definition node_shutdown (n : node_r) : proc () := do! ac_node_stop n; ac_node_free.

(** ** Reasoning about calls *)

(** [m] runs from [w] without a fault and ends in [Q]. *)
Definition runs {A} (m : proc A) (w : os_t) (Q : A → os_t → Prop) : Prop :=
  match m w with inr (a, w') => Q a w' | inl _ => False end.

Lemma runs_ret {A} (a : A) w Q : Q a w → runs (ret a) w Q.
Proof. done. Qed.
Lemma runs_bind {A B} (m : proc A) (k : A → proc B) w Q :
  runs m w (λ a w', runs (k a) w' Q) → runs (pbind m k) w Q.
Proof. unfold runs, pbind. by destruct (m w) as [|[a w']]. Qed.
Lemma runs_mono {A} (m : proc A) w (Q Q' : A → os_t → Prop) : runs m w Q → (∀ a w', Q a w' → Q' a w') → runs m w Q'.
Proof. unfold runs. destruct (m w) as [|[a w']]; [done | auto]. Qed.

(** What the process holds: threads [L], descriptors [F], objects [H], and the frees so
    far with the roles that were running then; all up to order. *)
Record holds (w : os_t) (L : list (nat * role)) (F : list nat) (H : list obj) (fr : list (obj * list role)) : Prop := {
  hd_live : os_live w ≡ₚ L;
  hd_fds : os_fds w ≡ₚ F;
  hd_heap : os_heap w ≡ₚ H;
  hd_freed : Forall2 (λ x y, x.1 = y.1 ∧ x.2.*2 ≡ₚ y.2) (os_freed w) fr;
  hd_threads_once : NoDup L.*1;
  hd_fds_once : NoDup F;
  hd_threads_old : Forall (λ x, (x.1 < os_next w)%nat) L;
  hd_fds_old : Forall (λ x, (x < os_next w)%nat) F
}.

Lemma holds_perm w L L' F F' H fr : L ≡ₚ L' → F ≡ₚ F' → holds w L F H fr → holds w L' F' H fr.
Proof.
  intros EL EF []. constructor; try done; [by rewrite <- EL | by rewrite <- EF|..].
  - by rewrite <- EL. - by rewrite <- EF. - by rewrite <- EL. - by rewrite <- EF.
Qed.

Lemma take_out_perm {A} (f : A → bool) l x r : l ≡ₚ x :: r → f x = true → (∀ y, y ∈ r → f y = false) →
  ∃ l', take_out f l = Some l' ∧ l' ≡ₚ r.
Proof.
  revert r. induction l as [|y l IH]; intros r Hp Hx Hr; [by apply Permutation_nil_cons in Hp|]. cbn [take_out].
  destruct (f y) eqn:Ey.
  - eexists. split; [done|]. assert (y = x) as ->.
    { assert (y ∈ x :: r) as [-> | Hy]%elem_of_cons by (rewrite <- Hp; by left); [done|]. by rewrite (Hr y Hy) in Ey. }
    by apply Permutation_cons_inv in Hp.
  - assert (y ∈ r) as (r1 & r2 & ->)%list_elem_of_split.
    { assert (y ∈ x :: r) as [-> | Hy]%elem_of_cons by (rewrite <- Hp; by left); [congruence | done]. }
    destruct (IH (r1 ++ r2)) as (l' & -> & Hl').
    + apply (Permutation_cons_inv (a := y)). rewrite Hp, <- (Permutation_middle r1 r2 y). apply Permutation_swap.
    + done.
    + intros z Hz. apply Hr. rewrite elem_of_app in Hz. rewrite elem_of_app, elem_of_cons. tauto.
    + eexists. split; [done|]. rewrite Hl'. apply Permutation_middle.
Qed.

Lemma runs_create r w L F H fr : holds w L F H fr →
  runs (pthread_create r true) w (λ h w', ∃ t, h = Some t ∧ holds w' ((t, r) :: L) F H fr).
Proof.
  intros [H1 H2 H3 H4 H5 H6 H7 H8]. exists (os_next w). split; [done|]. constructor; cbn; try done.
  - by rewrite H1.
  - constructor; [|done]. intros (x & E & Hx)%list_elem_of_fmap. rewrite Forall_forall in H7. apply H7 in Hx. lia.
  - constructor; [cbn; lia|]. eapply Forall_impl; [exact H7|]. cbn. lia.
  - eapply Forall_impl; [exact H8|]. cbn. lia.
Qed.
Lemma runs_join t r w L F H fr : holds w ((t, r) :: L) F H fr → runs (pthread_join (Some t)) w (λ _ w', holds w' L F H fr).
Proof.
  intros [H1 H2 H3 H4 H5 H6 H7 H8]. unfold runs, pthread_join. cbn in H5. apply NoDup_cons in H5 as [Ht H5].
  destruct (take_out_perm (λ x, (x.1 =? t)%nat) _ _ _ H1) as (l' & -> & Hl').
  - cbn. by rewrite Nat.eqb_refl.
  - intros y Hy. apply Nat.eqb_neq. intros <-. destruct Ht. by apply list_elem_of_fmap_2.
  - apply Forall_cons in H7 as [_ H7]. by constructor.
Qed.
Lemma runs_open w L F H fr : holds w L F H fr →
  runs (sock_open true) w (λ s w', ∃ fd, s = Some fd ∧ holds w' L (fd :: F) H fr).
Proof.
  intros [H1 H2 H3 H4 H5 H6 H7 H8]. exists (os_next w). split; [done|]. constructor; cbn; try done.
  - by rewrite H2.
  - constructor; [|done]. intros Hx. rewrite Forall_forall in H8. apply H8 in Hx. lia.
  - eapply Forall_impl; [exact H7|]. cbn. lia.
  - constructor; [lia|]. eapply Forall_impl; [exact H8|]. cbn. lia.
Qed.
Lemma runs_close fd w L F H fr : holds w L (fd :: F) H fr → runs (ac_sock_close fd) w (λ _ w', holds w' L F H fr).
Proof.
  intros [H1 H2 H3 H4 H5 H6 H7 H8]. unfold runs, ac_sock_close. apply NoDup_cons in H6 as [Ht H6].
  destruct (take_out_perm (λ x, (x =? fd)%nat) _ _ _ H2) as (l' & -> & Hl').
  - apply Nat.eqb_refl.
  - intros y Hy. apply Nat.eqb_neq. by intros ->.
  - apply Forall_cons in H8 as [_ H8]. by constructor.
Qed.
Lemma runs_alloc o w L F H fr : holds w L F H fr → runs (obj_alloc o true) w (λ b w', b = true ∧ holds w' L F (o :: H) fr).
Proof. intros []. split; [done|]. constructor; cbn; try done. by rewrite hd_heap0. Qed.
Lemma runs_free o w L F H fr : holds w L F (o :: H) fr → o ∉ H →
  runs (obj_free o) w (λ _ w', holds w' L F H (fr ++ [(o, L.*2)])).
Proof.
  intros [H1 H2 H3 H4 H5 H6 H7 H8] Ho. unfold runs, obj_free.
  destruct (take_out_perm (λ x, bool_decide (x = o)) _ _ _ H3) as (l' & -> & Hl').
  - by apply bool_decide_eq_true.
  - intros y Hy. apply bool_decide_eq_false. by intros ->.
  - constructor; try done. cbn. apply Forall2_app; [done|]. constructor; [|done]. cbn. split; [done|]. by rewrite H1.
Qed.

(** ** Slots *)

Definition opt_thread (h : handle) (r : role) : list (nat * role) := match h with Some t => [(t, r)] | None => [] end.
Definition slot_threads (p : slot_r) : list (nat * role) := opt_thread (sl_reader p) RReader ++ opt_thread (sl_writer p) RWriter.
Definition slot_fds (p : slot_r) : list nat := option_list (sl_fd p).
(** A slot that is not in use holds nothing. *)
Definition slot_ok (p : slot_r) : Prop := sl_in_use p = false → sl_fd p = None ∧ sl_reader p = None ∧ sl_writer p = None.

Section Slots.
Context (H : list obj) (fr : list (obj * list role)).

Lemma runs_join_if h r w L F : holds w (opt_thread h r ++ L) F H fr → runs (join_if h) w (λ _ w', holds w' L F H fr).
Proof. destruct h as [t|]; cbn; [apply runs_join | intros Hw; exact Hw]. Qed.
Lemma runs_close_if fd w L F : holds w L (option_list fd ++ F) H fr → runs (close_if fd) w (λ _ w', holds w' L F H fr).
Proof. destruct fd as [fd|]; cbn; [apply runs_close | intros Hw; exact Hw]. Qed.

Lemma runs_stop_peer p w L F : slot_ok p → holds w (slot_threads p ++ L) (slot_fds p ++ F) H fr →
  runs (stop_peer p) w (λ p' w', p' = slot_free ∧ holds w' L F H fr).
Proof.
  intros Hp Hw. unfold stop_peer, slot_threads in *. rewrite <- app_assoc in Hw.
  apply runs_bind. eapply runs_mono; [by eapply runs_join_if|]. intros [] w1 H1.
  apply runs_bind. eapply runs_mono; [by eapply runs_join_if|]. intros [] w2 H2. destruct (sl_in_use p) eqn:Eu.
  - apply runs_bind. eapply runs_mono; [by apply runs_close_if|]. intros [] w3 H3. by apply runs_ret.
  - apply runs_ret. destruct (Hp Eu) as (E & _ & _). unfold slot_fds in H2. rewrite E in *. done.
Qed.
Lemma runs_stop_peers l w L F : Forall slot_ok l → holds w ((l ≫= slot_threads) ++ L) ((l ≫= slot_fds) ++ F) H fr →
  runs (stop_peers l) w (λ l' w', l' = repeat slot_free (length l) ∧ holds w' L F H fr).
Proof.
  intros Hl. revert w. induction Hl as [|p l Hp Hl IH]; intros w Hw; [by apply runs_ret|]. cbn in Hw. rewrite <- !app_assoc in Hw.
  cbn [stop_peers]. apply runs_bind. eapply runs_mono; [by apply runs_stop_peer|]. intros p' w1 [-> H1].
  apply runs_bind. eapply runs_mono; [by apply IH|]. intros l' w2 [-> H2]. by apply runs_ret.
Qed.

Lemma runs_reap_peer p w L F : slot_ok p → holds w (slot_threads p ++ L) (slot_fds p ++ F) H fr →
  runs (reap_peer p) w (λ p' w', slot_ok p' ∧ holds w' (slot_threads p' ++ L) (slot_fds p' ++ F) H fr).
Proof.
  intros Hp Hw. unfold reap_peer. destruct (sl_in_use p && _) eqn:Eu; [|by apply runs_ret].
  apply andb_true_iff in Eu as [Eu Efd%bool_decide_eq_true].
  apply runs_bind. eapply runs_mono; [eapply (runs_join_if _ RWriter _ (opt_thread (sl_reader p) RReader ++ L) (slot_fds p ++ F))|].
  { eapply holds_perm; [|reflexivity|exact Hw]. unfold slot_threads. rewrite !app_assoc. by rewrite (Permutation_app_comm (opt_thread _ RReader)). }
  intros [] w1 H1. apply runs_bind. eapply runs_mono; [by eapply runs_join_if|]. intros [] w2 H2. apply runs_ret.
  destruct (bool_decide (sl_reader p = None) && _) eqn:En.
  - apply andb_true_iff in En as [E1%bool_decide_eq_true E2%bool_decide_eq_true]. split; [done|].
    unfold slot_threads. by rewrite E1, E2.
  - split; [done|]. unfold slot_fds in *. rewrite Efd in *. done.
Qed.
Lemma runs_reap_peers l w L F : Forall slot_ok l → holds w ((l ≫= slot_threads) ++ L) ((l ≫= slot_fds) ++ F) H fr →
  runs (reap_peers l) w (λ l' w', Forall slot_ok l' ∧ holds w' ((l' ≫= slot_threads) ++ L) ((l' ≫= slot_fds) ++ F) H fr).
Proof.
  intros Hl. revert w L F. induction Hl as [|p l Hp Hl IH]; intros w L F Hw; [by apply runs_ret|]. cbn in Hw. rewrite <- !app_assoc in Hw.
  cbn [reap_peers]. apply runs_bind. eapply runs_mono; [by apply runs_reap_peer|]. intros p' w1 [Hp' H1].
  apply runs_bind. eapply runs_mono; [apply (IH _ (slot_threads p' ++ L) (slot_fds p' ++ F))|].
  { eapply holds_perm; [| |exact H1]; apply Permutation_app_swap_app. }
  intros l' w2 [Hl' H2]. apply runs_ret. split; [by constructor|]. cbn. rewrite <- !app_assoc.
  eapply holds_perm; [| |exact H2]; apply Permutation_app_swap_app.
Qed.
End Slots.

(** Replacing one slot. *)
Lemma bind_insert {A B} (f : A → list B) l i p q : l !! i = Some p →
  ∃ r, (l ≫= f) ≡ₚ f p ++ r ∧ (<[i := q]> l ≫= f) ≡ₚ f q ++ r.
Proof.
  intros Hi. exists ((take i l ≫= f) ++ (drop (S i) l ≫= f)). pose proof (lookup_lt_Some _ _ _ Hi) as Hlt.
  rewrite <- (take_drop_middle l i p Hi) at 1. rewrite insert_take_drop by done.
  rewrite !bind_app. cbn. by rewrite !(Permutation_app_swap_app (take i l ≫= f)).
Qed.
Lemma unused_slot_spec l i j : unused_slot l i = Some j → (i <= j)%nat ∧ ∃ p, l !! (j - i)%nat = Some p ∧ sl_in_use p = false.
Proof.
  revert i. induction l as [|p l IH]; intros i; cbn [unused_slot]; [done|]. destruct (sl_in_use p) eqn:E.
  - intros (Hij & q & Hq & Hu)%IH. split; [lia|]. exists q. split; [|done]. by replace (j - i)%nat with (S (j - S i))%nat by lia.
  - intros [= <-]. split; [lia|]. exists p. by rewrite Nat.sub_diag.
Qed.

(** ** A running node *)

(** What a started node holds, at any point of its run. *)
Record up_fields := mkUp { up_fd : nat; up_listen : nat; up_conn : nat; up_rfd : nat; up_rpc : nat; up_slot : nat; up_peers : list slot_r }.
Definition up_net (u : up_fields) : net_r := mkNetR (Some (up_fd u)) (Some (up_listen u)) (Some (up_conn u)) true (up_peers u).
Definition up_node (u : up_fields) : node_r :=
  mkNodeR true true (Some (up_net u)) (Some (mkCsR (Some (up_slot u)) true)) (Some (mkRpcR (Some (up_rfd u)) (Some (up_rpc u)) true)).
Definition up_threads (u : up_fields) : list (nat * role) :=
  (up_peers u ≫= slot_threads) ++ [(up_listen u, RListen); (up_conn u, RConnector); (up_rpc u, RRpc); (up_slot u, RSlot)].
Definition up_fds (u : up_fields) : list nat := (up_peers u ≫= slot_fds) ++ [up_fd u; up_rfd u].
Definition up_heap : list obj := [ORpc; ONet; OCs; OMempool; OChain; ONode].
Record up (n : node_r) (w : os_t) (u : up_fields) : Prop := {
  up_is : n = up_node u;
  up_slots : Forall slot_ok (up_peers u);
  up_holds : holds w (up_threads u) (up_fds u) up_heap []
}.

Definition set_up_peers (u : up_fields) (l : list slot_r) : up_fields :=
  mkUp (up_fd u) (up_listen u) (up_conn u) (up_rfd u) (up_rpc u) (up_slot u) l.
Definition set_no_net (n : node_r) (x : net_r) : node_r := mkNodeR (no_chain n) (no_mempool n) (Some x) (no_cs n) (no_rpc n).

(** What a thread of the network does to slots, threads and sockets: a connection arrives
    or is dialled, a reader ends, the connector reaps. *)
Inductive net_op := OpSpawn (ok_writer ok_reader : bool) | OpExit (i : nat) | OpReap.
Definition run_op (x : net_r) (op : net_op) : proc net_r :=
  match op with OpSpawn ow orr => peer_spawn x ow orr | OpExit i => reader_exit x i | OpReap => reap_dead_peers x end.

Lemma runs_create_any r ok w L F H fr : holds w L F H fr →
  runs (pthread_create r ok) w (λ h w', holds w' (opt_thread h r ++ L) F H fr).
Proof.
  destruct ok; [|done]. intros Hw. eapply runs_mono; [by apply runs_create|]. by intros h w' (t & -> & ?).
Qed.

Lemma slot_replace u i p q w L' F' : up_peers u !! i = Some p →
  (∀ L F, L' ≡ₚ slot_threads p ++ L → F' ≡ₚ slot_fds p ++ F →
     holds w (slot_threads q ++ L) (slot_fds q ++ F) up_heap []) →
  L' ≡ₚ up_threads u → F' ≡ₚ up_fds u →
  holds w (up_threads (set_up_peers u (<[i := q]> (up_peers u)))) (up_fds (set_up_peers u (<[i := q]> (up_peers u)))) up_heap [].
Proof.
  intros Hi Hq EL EF. destruct (bind_insert slot_threads _ i p q Hi) as (r1 & E1 & E2), (bind_insert slot_fds _ i p q Hi) as (r2 & E3 & E4).
  unfold up_threads, up_fds in *. cbn. rewrite E1, <- app_assoc in EL. rewrite E3, <- app_assoc in EF.
  eapply holds_perm; [..|exact (Hq _ _ EL EF)]; rewrite app_assoc; [by rewrite <- E2 | by rewrite <- E4].
Qed.

(** None of them faults, and the node stays up. *)
Lemma op_up u w op : up (up_node u) w u →
  runs (run_op (up_net u) op) w (λ x w', ∃ l, x = up_net (set_up_peers u l) ∧ up (up_node (set_up_peers u l)) w' (set_up_peers u l)).
Proof.
  intros [_ Hs Hw]. destruct op as [ow orr|i|]; cbn [run_op].
  - unfold peer_spawn. apply runs_bind. eapply runs_mono; [by apply runs_open|]. intros s w1 (fd & -> & H1). cbn [nr_peers up_net].
    destruct (unused_slot (up_peers u) 0) as [i|] eqn:Ei.
    + apply runs_bind. eapply runs_mono; [by apply runs_create_any|]. intros hw w2 H2.
      apply runs_bind. eapply runs_mono; [apply runs_create_any; exact H2|]. intros hr w3 H3. apply runs_ret.
      eexists. split; [done|]. apply unused_slot_spec in Ei as (_ & p & Hp & Hu). rewrite Nat.sub_0_r in Hp.
      pose proof (Forall_lookup_1 _ _ _ _ Hs Hp Hu) as (P1 & P2 & P3). constructor; [done| |].
      { cbn. apply Forall_insert; [done|]. done. }
      apply (slot_replace u i p _ _ (up_threads u) (up_fds u) Hp); [|done..]. intros L F EL EF.
      unfold slot_threads, slot_fds in EL, EF. rewrite P1 in EF. rewrite P2, P3 in EL. cbn in EL, EF.
      eapply holds_perm; [..|exact H3]; cbn; [unfold slot_threads; cbn; by rewrite <- app_assoc, EL | by rewrite EF].
    + apply runs_bind. eapply runs_mono; [by apply runs_close|]. intros [] w2 H2. apply runs_ret.
      exists (up_peers u). destruct u. by split.
  - unfold reader_exit. cbn [nr_peers up_net]. destruct (up_peers u !! i) as [p|] eqn:Hp.
    2:{ apply runs_ret. exists (up_peers u). destruct u. by split. }
    pose proof (Forall_lookup_1 _ _ _ _ Hs Hp) as Hok.
    destruct (bind_insert slot_fds _ i p slot_free Hp) as (r & E & _).
    apply runs_bind. eapply runs_mono; [apply (runs_close_if up_heap [] _ _ (up_threads u) (r ++ [up_fd u; up_rfd u]))|].
    { eapply holds_perm; [done| |exact Hw]. unfold up_fds. rewrite E, <- app_assoc. done. }
    intros [] w1 H1. apply runs_ret. eexists. split; [done|]. constructor; [done| |].
    { cbn. apply Forall_insert; [done|]. intros Hu. cbn in *. by destruct (Hok Hu). }
    apply (slot_replace u i p _ _ (up_threads u) (up_fds u) Hp); [|done..]. intros L F EL EF. unfold up_fds in EF.
    rewrite E, <- app_assoc in EF. apply Permutation_app_inv_l in EF. cbn. eapply holds_perm; [exact EL|exact EF|exact H1].
  - unfold reap_dead_peers. apply runs_bind. cbn [nr_peers up_net].
    eapply runs_mono; [apply (runs_reap_peers up_heap [] (up_peers u)); [done|exact Hw]|]. intros l w1 [Hl H1]. apply runs_ret.
    exists l. split; [done|]. by constructor.
Qed.

(** ** Starting *)

Definition net_env_ok (e : net_env) : bool := ev_socket e && ev_bind e && ev_listen e && ev_thread1 e && ev_thread2 e.
Definition rpc_env_ok (e : net_env) : bool := ev_socket e && ev_bind e && ev_listen e && ev_thread1 e.
(** Up to the allocation of the engine; from there on. *)
Definition early_ok (e : start_env) : bool :=
  se_crypto e && se_net_init e && se_mkdir e && se_key e && se_chain e && se_mempool e && se_cs e.
Definition late_ok (e : start_env) : bool :=
  se_net e && net_env_ok (se_net_start e) && se_rpc e && rpc_env_ok (se_rpc_start e) && se_slot_thread e.

Definition node_null : node_r := mkNodeR false false None None None.
Definition os_one_node : os_t := mkOs 0 [] [] [ONode] [].

(** The three outcomes of a start. When everything succeeds the node is up. When a step up
    to the engine fails it returns -1 and holds nothing. When a later step fails (a port in
    use, a thread that cannot be created) the clean-up joins threads that were never
    created, or closes a socket twice: the start does not return -1 but faults. *)
Theorem start_outcome e :
  if early_ok e then
    if late_ok e then ∃ u w, ac_node_start node_null e os_one_node = inr ((0, up_node u), w) ∧ up (up_node u) w u
    else ∃ f, ac_node_start node_null e os_one_node = inl f
  else ∃ n w, ac_node_start node_null e os_one_node = inr ((-1, n), w) ∧ os_live w = [] ∧ os_fds w = [] ∧ os_heap w = [ONode].
Proof.
  destruct e as [b1 b2 b3 b4 b5 b6 b7 nt [n1 n2 n3 n4 n5] rp [r1 r2 r3 r4 r5] st].
  destruct b1; [|by eexists _, _]. destruct b2; [|by eexists _, _]. destruct b3; [|by eexists _, _].
  destruct b4; [|by eexists _, _]. destruct b5; [|by eexists _, _]. destruct b6; [|by eexists _, _].
  destruct b7; [|by eexists _, _]. cbn [early_ok se_crypto se_net_init se_mkdir se_key se_chain se_mempool se_cs andb].
  destruct nt; [|by eexists]. destruct n1; [|by eexists]. destruct n2; [|by eexists]. destruct n3; [|by eexists].
  destruct n4; [|by eexists]. destruct n5; [|by eexists]. destruct rp; [|by eexists]. destruct r1; [|by eexists].
  destruct r2; [|by eexists]. destruct r3; [|by eexists]. destruct r4; [|by eexists]. destruct st; [|by eexists].
  cbn [late_ok net_env_ok rpc_env_ok se_net se_net_start se_rpc se_rpc_start se_slot_thread ev_socket ev_bind ev_listen ev_thread1 ev_thread2 andb].
  exists (mkUp 0 1 2 3 4 5 (repeat slot_free AC_MAX_PEERS)),
    (mkOs 6 [(5%nat, RSlot); (4%nat, RRpc); (2%nat, RConnector); (1%nat, RListen)] [3%nat; 0%nat] up_heap []).
  split; [vm_compute; reflexivity|].
  constructor; [done|by repeat constructor|].
  assert (∀ u, up_peers u = repeat slot_free AC_MAX_PEERS →
    up_threads u = [(up_listen u, RListen); (up_conn u, RConnector); (up_rpc u, RRpc); (up_slot u, RSlot)] ∧
    up_fds u = [up_fd u; up_rfd u]) as E by (unfold up_threads, up_fds; intros u ->; vm_compute; split; reflexivity).
  destruct (E (mkUp 0 1 2 3 4 5 (repeat slot_free AC_MAX_PEERS)) eq_refl) as [-> ->].
  constructor; [exact (reverse_Permutation [(1%nat, RListen); (2%nat, RConnector); (4%nat, RRpc); (5%nat, RSlot)]) | exact (reverse_Permutation [0%nat; 3%nat]) | done | done | | |repeat constructor..];
    apply (bool_decide_unpack _); vm_compute; exact I.
Qed.

(** ** Stopping *)

(** One call of a sequence, by its lemma. *)
Ltac call lem H w :=
  apply runs_bind; eapply runs_mono; [eapply lem; exact H|]; clear H; intros [] w H; cbv beta in H.

Lemma runs_rpc_shut fd t w L F H fr : holds w ((t, RRpc) :: L) (fd :: F) (ORpc :: H) fr → ORpc ∉ H →
  runs (shut (Some (mkRpcR (Some fd) (Some t) true)) ac_rpc_stop ac_rpc_free) w (λ _ w', holds w' L F H (fr ++ [(ORpc, L.*2)])).
Proof.
  intros Hw Ho. unfold shut, ac_rpc_stop. cbn [rr_fd rr_thread close_if]. apply runs_bind.
  call runs_close Hw w1. call runs_join Hw w2. apply runs_ret. by apply runs_free.
Qed.
Lemma runs_cs_shut t w L F H fr : holds w ((t, RSlot) :: L) F (OCs :: H) fr → OCs ∉ H →
  runs (shut (Some (mkCsR (Some t) true)) ac_consensus_stop ac_consensus_free) w (λ _ w', holds w' L F H (fr ++ [(OCs, L.*2)])).
Proof.
  intros Hw Ho. unfold shut, ac_consensus_stop. cbn [cr_thread]. apply runs_bind.
  call runs_join Hw w1. apply runs_ret. by apply runs_free.
Qed.
Lemma runs_net_shut u w L F H fr : Forall slot_ok (up_peers u) →
  holds w ((up_listen u, RListen) :: (up_conn u, RConnector) :: (up_peers u ≫= slot_threads) ++ L)
    (up_fd u :: (up_peers u ≫= slot_fds) ++ F) (ONet :: H) fr → ONet ∉ H →
  runs (shut (Some (up_net u)) ac_net_stop ac_net_free) w (λ _ w', holds w' L F H (fr ++ [(ONet, L.*2)])).
Proof.
  intros Hs Hw Ho. unfold shut, ac_net_stop. cbn [nr_listen_fd nr_listen_thread nr_connector_thread nr_peers up_net close_if].
  apply runs_bind. call runs_close Hw w1. call runs_join Hw w2. call runs_join Hw w3. apply runs_bind.
  eapply runs_mono; [by eapply runs_stop_peers|]. intros l w4 [-> Hw4]. apply runs_ret. by apply runs_free.
Qed.

Lemma peer_roles l r : r ∈ (l ≫= slot_threads).*2 → r = RReader ∨ r = RWriter.
Proof.
  induction l as [|p l IH]; cbn; [by intros ?%elem_of_nil|]. rewrite fmap_app. intros [Hr|Hr]%elem_of_app; [|auto].
  unfold slot_threads in Hr. destruct (sl_reader p), (sl_writer p); cbn in Hr; rewrite ?elem_of_cons, ?elem_of_nil in Hr; tauto.
Qed.

(** Stopping a node that is up: everything is joined and closed once, then freed; at each
    free only the listed roles are still running. *)
Lemma stop_up u w : up (up_node u) w u →
  runs (node_shutdown (up_node u)) w (λ _ w', ∃ others, (RRpc ∉ others) ∧
    holds w' [] [] [] [(ORpc, others); (ONet, [RSlot]); (OCs, []); (OMempool, []); (OChain, []); (ONode, [])]).
Proof.
  intros [_ Hs Hw]. set (peers := up_peers u ≫= slot_threads) in *. set (pfds := up_peers u ≫= slot_fds) in *.
  set (rest := (up_listen u, RListen) :: (up_conn u, RConnector) :: peers ++ [(up_slot u, RSlot)]).
  apply (holds_perm _ _ ((up_rpc u, RRpc) :: rest) _ (up_rfd u :: up_fd u :: pfds ++ [])) in Hw.
  2:{ unfold up_threads, rest. fold peers. etrans; [apply Permutation_app_comm|]. rewrite <- (Permutation_cons_append peers). cbn.
      symmetry. exact (Permutation_middle [(up_listen u, RListen); (up_conn u, RConnector)] ((up_slot u, RSlot) :: peers) (up_rpc u, RRpc)). }
  2:{ unfold up_fds. fold pfds. rewrite app_nil_r, (Permutation_app_comm pfds). apply Permutation_swap. }
  apply runs_bind. unfold ac_node_stop. cbn [no_rpc no_net no_cs no_mempool no_chain up_node].
  apply runs_bind. eapply runs_mono; [apply (runs_rpc_shut _ _ _ _ _ _ _ Hw); by apply (bool_decide_unpack _)|]. intros [] w1 H1. cbv beta in H1.
  apply runs_bind. eapply runs_mono; [apply (runs_net_shut u _ _ _ _ _ Hs H1); by apply (bool_decide_unpack _)|]. intros [] w2 H2. cbv beta in H2.
  apply runs_bind. eapply runs_mono; [apply (runs_cs_shut _ _ _ _ _ _ H2); by apply (bool_decide_unpack _)|]. intros [] w3 H3. cbv beta in H3.
  apply runs_bind. eapply runs_mono; [apply (runs_free _ _ _ _ _ _ H3); by apply (bool_decide_unpack _)|]. intros [] w4 H4. cbv beta in H4.
  apply runs_bind. eapply runs_mono; [apply (runs_free _ _ _ _ _ _ H4); by apply (bool_decide_unpack _)|]. intros [] w5 H5. cbv beta in H5.
  apply runs_ret. eapply runs_mono; [apply (runs_free _ _ _ _ _ _ H5); by apply (bool_decide_unpack _)|]. intros [] w6 H6. cbv beta in H6.
  exists rest.*2. split; [|exact H6]. unfold rest. cbn. rewrite fmap_app. intros Hr.
  rewrite !elem_of_cons, elem_of_app in Hr. destruct Hr as [?|[?|[Hr|Hr]]]; [done|done| |by apply list_elem_of_singleton in Hr].
  by apply peer_roles in Hr as [?|?].
Qed.

(** ** The whole life of a node *)

Inductive lc_step : node_r * os_t → node_r * os_t → Prop :=
  | lc_op n w op x x' w' : no_net n = Some x → run_op x op w = inr (x', w') → lc_step (n, w) (set_no_net n x', w').

Lemma lc_run_up n w n' w' u : rtc lc_step (n, w) (n', w') → up n w u → ∃ u', up n' w' u'.
Proof.
  intros Hr. remember (n, w) as a eqn:Ea. remember (n', w') as z eqn:Ez. revert n w u Ea.
  induction Hr as [|a b z Hs _ IH]; intros n w u -> Hu; [injection Ez as -> ->; eauto|].
  inversion Hs as [n0 w0 op x x' w1 Hx Hop]. subst. pose proof (up_is _ _ _ Hu) as ->. injection Hx as <-.
  pose proof (op_up u w op Hu) as Hr. unfold runs in Hr. rewrite Hop in Hr. destruct Hr as (l & -> & Hup).
  by eapply (IH eq_refl); [reflexivity|].
Qed.

(** C18. Clean shutdown: after a start in which every call succeeds, whatever connections
    arrive, are dialled, end and are reaped, with or without their threads starting, no
    operation of the network joins or closes anything it does not hold; and stopping the
    node after any of this joins every thread ever created exactly once, closes every
    socket once and frees every object once: RPC server, network, engine, pool, chain, node,
    in this order. The stop of the network is one step here: nothing is dialled while it
    runs ([dial_during_stop_leaks] is what happens otherwise). When pool and chain are freed no thread is left; when the network is
    freed the slot timer is. *)
Theorem clean_shutdown e :
  early_ok e = true → late_ok e = true →
  ∃ n w, node_launch true e os_init = inr ((0, Some n), w) ∧
  ∀ n' w', rtc lc_step (n, w) (n', w') →
    (∀ op x, no_net n' = Some x → ∃ x' w'', run_op x op w' = inr (x', w'')) ∧
    ∃ w'' others, node_shutdown n' w' = inr ((), w'') ∧
      os_live w'' = [] ∧ os_fds w'' = [] ∧ os_heap w'' = [] ∧ (RRpc ∉ others) ∧
      Forall2 (λ x y, x.1 = y.1 ∧ x.2.*2 ≡ₚ y.2) (os_freed w'')
        [(ORpc, others); (ONet, [RSlot]); (OCs, []); (OMempool, []); (OChain, []); (ONode, [])].
Proof.
  intros He Hl. pose proof (start_outcome e) as Ho. rewrite He, Hl in Ho. destruct Ho as (u & w & Hst & Hup).
  exists (up_node u), w. split; [by unfold node_launch, pbind; cbn; change (mkOs _ _ _ _ _) with os_one_node; fold node_null; rewrite Hst|]. intros n' w' Hrun. destruct (lc_run_up _ _ _ _ u Hrun Hup) as (u' & Hu').
  pose proof (up_is _ _ _ Hu') as ->. split.
  - intros op x [= <-]. pose proof (op_up u' w' op Hu') as Hop. unfold runs in Hop.
    destruct (run_op _ op w') as [|[x' w'']]; [done | eauto].
  - pose proof (stop_up u' w' Hu') as Hstop. unfold runs in Hstop.
    destruct (node_shutdown _ w') as [|[[] w'']]; [done|]. destruct Hstop as (others & Ho & []). exists w'', others.
    split; [done|]. split; [by apply Permutation_nil_r|]. split; [by apply Permutation_nil_r|]. split; [by apply Permutation_nil_r|]. done.
Qed.

(** ** Witness *)

Definition good_net : net_env := mkNetEnv true true true true true.
Definition good_start : start_env := mkStartEnv true true true true true true true true good_net true good_net true.

Definition launched : node_r * os_t :=
  match node_launch true good_start os_init with inr ((_, Some n), w) => (n, w) | _ => (node_null, os_init) end.
Definition do_op (s : node_r * os_t) (op : net_op) : node_r * os_t :=
  match no_net s.1 with
  | Some x => match run_op x op s.2 with inr (x', w') => (set_no_net s.1 x', w') | inl _ => s end
  | None => s
  end.
Lemma do_ops_run l s : rtc lc_step s (foldl do_op s l).
Proof.
  revert s. induction l as [|op l IH]; intros [n w]; [apply rtc_refl|]. cbn [foldl]. etrans; [|apply IH]. unfold do_op. cbn [fst snd].
  destruct (no_net n) as [x|] eqn:Ex; [|apply rtc_refl]. destruct (run_op x op w) as [|[x' w']] eqn:Eo; [apply rtc_refl|].
  eapply rtc_once, lc_op; eassumption.
Qed.

(** Connections, one without a writer, a disconnect, a reap and another disconnect. *)
Definition demo_life : node_r * os_t :=
  foldl do_op launched [OpSpawn true true; OpSpawn false true; OpSpawn true true; OpExit 0; OpReap; OpExit 1].
Lemma clean_shutdown_witness :
  length (os_live (demo_life.2)) = 7%nat ∧
  ∃ w, node_shutdown (demo_life.1) (demo_life.2) = inr ((), w) ∧ os_live w = [] ∧ os_fds w = [] ∧ os_heap w = [].
Proof.
  split; [vm_compute; reflexivity|].
  destruct (clean_shutdown good_start eq_refl eq_refl) as (n & w & E & Hrun).
  assert (launched = (n, w)) as El by (unfold launched; rewrite E; reflexivity).
  destruct (Hrun (demo_life.1) (demo_life.2)) as (_ & w'' & others & E2 & E3 & E4 & E5 & _).
  - rewrite <- El, <- surjective_pairing. apply do_ops_run.
  - exists w''. auto.
Defined.

(** ** Shutdowns that are not clean *)

(** The listen port is taken: [bind] fails, and the clean-up joins a thread that was never
    created. The same for the RPC port; when the connector thread cannot be created, the
    listening socket is closed twice. *)
Lemma port_in_use_faults :
  node_launch true (mkStartEnv true true true true true true true true (mkNetEnv true false true true true) true good_net true) os_init
    = inl JoinUnstarted ∧
  node_launch true (mkStartEnv true true true true true true true true good_net true (mkNetEnv true false true true true) true) os_init
    = inl JoinUnstarted ∧
  node_launch true (mkStartEnv true true true true true true true true (mkNetEnv true true true true false) true good_net true) os_init
    = inl (CloseBad 0).
Proof. vm_compute. repeat split; reflexivity. Qed.

(** [ac_net_stop] while the reader of a slot past [i] is still dialling the peers it was
    told of in a HELLO, which it does without looking at [running]: the new connection can
    take a slot the loop has already passed. *)
Definition stop_with_dial (n : net_r) (i : nat) : proc net_r :=
  do! close_if (nr_listen_fd n);
  do! pthread_join (nr_listen_thread n); do! pthread_join (nr_connector_thread n);
  let! l1 := stop_peers (take i (nr_peers n)) in
  let! n' := peer_spawn (set_slots n (l1 ++ drop i (nr_peers n))) true true in
  let! l2 := stop_peers (drop i (nr_peers n')) in
  ret (mkNetR None (nr_listen_thread n) (nr_connector_thread n) false (take i (nr_peers n') ++ l2)).
Definition two_peers : node_r * os_t := foldl do_op launched [OpSpawn true true; OpSpawn true true].
Lemma dial_during_stop_leaks :
  match no_net (two_peers.1) with
  | Some x =>
      match (let! x' := stop_with_dial x 1 in ac_net_free x') (two_peers.2) with
      | inr (_, w) => (λ y, (y.1, y.2.*2)) <$> os_freed w = [(ONet, [RReader; RWriter; RSlot; RRpc])]
      | inl _ => False
      end
  | None => False
  end.
Proof. vm_compute. reflexivity. Qed.
