(* ===== verification/Locks.v ===== *)
(** * Mutexes: mutual exclusion and the absence of deadlocks

    The threads of a node share a chain, a pool, an engine and a peer table, each behind a
    mutex. Here a thread is reduced to what it does with the mutexes: a skeleton of its
    code with every [pthread_mutex_lock] and [pthread_mutex_unlock], every early return,
    and the calls that may block on something else (sockets, sleeping, joining). Skeletons
    run interleaved, with any number of threads starting at any time. A checker that runs
    once over each skeleton decides a lock order; threads that pass it never deadlock. *)

From S2P Require Import Prelude Net.

(** ** Skeletons *)

Inductive mutex_t := M_cs | M_chain | M_mempool | M_peers | M_out (slot : nat) | M_dedup | M_log.
#[export] Instance mutex_dec : EqDecision mutex_t.
Proof. solve_decision. Defined.

(** [Wait m] is [pthread_cond_wait] with mutex [m]; [Block] any other call that can take
    as long as a peer, a client or another thread likes. *)
Inductive op_t := Lock (m : mutex_t) | Unlock (m : mutex_t) | Wait (m : mutex_t) | Block.
Inductive code := Skip | Op (o : op_t) | Seq (a b : code) | Or (a b : code) | Star (a : code).

Declare Scope lock_scope.
Delimit Scope lock_scope with lock.
Bind Scope lock_scope with code.
Notation "a >> b" := (Seq a b) (at level 60, right associativity) : lock_scope.
Notation "a <|> b" := (Or a b) (at level 70, right associativity) : lock_scope.
Open Scope lock_scope.
Abbreviation lock m := (Op (Lock m)).
Abbreviation unlock m := (Op (Unlock m)).
Abbreviation block := (Op Block).
(** A critical section, something that may be left out, and a loop over the peer slots. *)
Definition crit (m : mutex_t) (a : code) : code := lock m >> a >> unlock m.
Definition may (a : code) : code := Skip <|> a.
Definition each (f : nat → code) : code := foldr (λ i c, f i >> c) Skip (seq 0 AC_MAX_PEERS).

(** ** Threads and their interleavings *)

(** What a thread holds, the innermost first, and what is left of its code. *)
Record thread := mkThread { th_held : list mutex_t; th_code : list code }.
Abbreviation sys := (list thread).

Definition free (s : sys) (m : mutex_t) : Prop := ∀ t, t ∈ s → m ∉ th_held t.

Inductive tstep (s : sys) : thread → thread → Prop :=
  | t_skip h k : tstep s (mkThread h (Skip :: k)) (mkThread h k)
  | t_seq h a b k : tstep s (mkThread h ((a >> b) :: k)) (mkThread h (a :: b :: k))
  | t_left h a b k : tstep s (mkThread h ((a <|> b) :: k)) (mkThread h (a :: k))
  | t_right h a b k : tstep s (mkThread h ((a <|> b) :: k)) (mkThread h (b :: k))
  | t_stop h a k : tstep s (mkThread h (Star a :: k)) (mkThread h k)
  | t_again h a k : tstep s (mkThread h (Star a :: k)) (mkThread h (a :: Star a :: k))
  | t_lock h m k : free s m → tstep s (mkThread h (lock m :: k)) (mkThread (m :: h) k)
  | t_unlock h1 m h2 k : tstep s (mkThread (h1 ++ m :: h2) (unlock m :: k)) (mkThread (h1 ++ h2) k)
  | t_wait h1 m h2 k : tstep s (mkThread (h1 ++ m :: h2) (Op (Wait m) :: k)) (mkThread (h1 ++ h2) (lock m :: k))
  | t_block h k : tstep s (mkThread h (block :: k)) (mkThread h k).

(** A thread moves, or one of the programs starts in a new thread. *)
Inductive sys_step (programs : list code) (s : sys) : sys → Prop :=
  | sys_move i t t' : s !! i = Some t → tstep s t t' → sys_step programs s (<[i := t']> s)
  | sys_spawn p : p ∈ programs → sys_step programs s (s ++ [mkThread [] [p]]).

(** ** The checker *)

Definition rank (m : mutex_t) : nat :=
  match m with M_cs => 0 | M_chain => 1 | M_mempool => 2 | M_peers => 3 | M_out _ => 4 | M_dedup => 5 | M_log => 6 end.

(** What is held after [a], on every path, when [h] is held before it. [ok] says what may
    be held at a blocking call. *)
Fixpoint check (ok : list mutex_t → bool) (h : list mutex_t) (a : code) : option (list mutex_t) :=
  match a with
  | Skip => Some h
  | Op (Lock m) => if forallb (λ x, rank x <? rank m)%nat h then Some (m :: h) else None
  | Op (Unlock m) => match h with x :: h' => if bool_decide (x = m) then Some h' else None | [] => None end
  | Op (Wait m) => if bool_decide (h = [m]) then Some h else None
  | Op Block => if ok h then Some h else None
  | a >> b => h' ← check ok h a; check ok h' b
  | a <|> b => x ← check ok h a; y ← check ok h b; if bool_decide (x = y) then Some x else None
  | Star a => x ← check ok h a; if bool_decide (x = h) then Some h else None
  end.
Fixpoint check_all (ok : list mutex_t → bool) (h : list mutex_t) (k : list code) : option (list mutex_t) :=
  match k with [] => Some h | a :: k => h' ← check ok h a; check_all ok h' k end.

(** A thread in order: what it holds is ordered, and its code ends holding nothing. *)
Record in_order (ok : list mutex_t → bool) (t : thread) : Prop := {
  io_code : check_all ok (th_held t) (th_code t) = Some [];
  io_held : StronglySorted (λ x y, rank y < rank x)%nat (th_held t)
}.

Lemma bind_some {A B} (x : option A) (f : A → option B) y : x ≫= f = Some y ↔ ∃ a, x = Some a ∧ f a = Some y.
Proof. destruct x as [a|]; cbn; naive_solver. Qed.
Lemma forallb_rank m h : forallb (λ x, rank x <? rank m)%nat h = true ↔ Forall (λ x, rank x < rank m)%nat h.
Proof. rewrite forallb_forall, Forall_forall. setoid_rewrite list_elem_of_In. by setoid_rewrite Nat.ltb_lt. Qed.
Lemma ordered_head (x m : mutex_t) h h1 h2 : StronglySorted (λ x y, rank y < rank x)%nat (m :: h) → m :: h = h1 ++ m :: h2 →
  h1 = [] ∧ h = h2.
Proof.
  intros [Hs Hf]%StronglySorted_inv E. destruct h1 as [|y h1]; [by injection E|]. injection E as -> ->.
  rewrite Forall_app, Forall_cons in Hf. destruct Hf as (_ & Hf & _). lia.
Qed.

(** Steps keep a thread in order. *)
Lemma tstep_in_order ok s t t' : tstep s t t' → in_order ok t → in_order ok t'.
Proof.
  intros Hst [Hc Hh]. destruct Hst; cbn in *.
  - by constructor.
  - constructor; [|done]. cbn. apply bind_some in Hc as (h' & (h1 & E1 & E2)%bind_some & Hk). rewrite E1. cbn. by rewrite E2.
  - constructor; [|done]. cbn. apply bind_some in Hc as (h' & (x & E1 & (y & E2 & E)%bind_some)%bind_some & Hk).
    case_bool_decide; [|done]. injection E as ->. by rewrite E1.
  - constructor; [|done]. cbn. apply bind_some in Hc as (h' & (x & E1 & (y & E2 & E)%bind_some)%bind_some & Hk).
    case_bool_decide; [|done]. injection E as ->. subst y. by rewrite E2.
  - constructor; [|done]. cbn. apply bind_some in Hc as (h' & (x & E1 & E)%bind_some & Hk).
    case_bool_decide; [|done]. by injection E as ->.
  - constructor; [|done]. cbn. pose proof Hc as Hc'. apply bind_some in Hc as (h' & (x & E1 & E)%bind_some & Hk).
    case_bool_decide; [|done]. subst x. rewrite E1. exact Hc'.
  - destruct (forallb _ _) eqn:E; [|done]. apply forallb_rank in E. constructor; [done|]. by constructor.
  - destruct (h1 ++ m :: h2) as [|x h] eqn:Eh; [by destruct h1|]. case_bool_decide; [|done]. subst x.
    destruct (ordered_head m m h h1 h2 Hh ltac:(by rewrite Eh)) as [-> ->]. apply StronglySorted_inv in Hh as [Hh _]. by constructor.
  - case_bool_decide as E; [|done]. rewrite E in *. cbn in Hc. destruct h1 as [|y h1]; [|by destruct h1]. injection E as ->.
    constructor; [done | constructor].
  - destruct (ok h); [|done]. by constructor.
Qed.

Lemma in_order_done ok h : in_order ok (mkThread h []) → h = [].
Proof. intros [E _]. by injection E. Qed.

(** What an ordered thread does next: it can move whatever the others hold, or it waits
    for a mutex above all it holds. *)
Lemma in_order_next ok s t : in_order ok t → th_code t ≠ [] →
  (∃ t', tstep s t t') ∨ ∃ m k, th_code t = lock m :: k ∧ Forall (λ x, rank x < rank m)%nat (th_held t).
Proof.
  destruct t as [h [|a k]]; [done|]. intros [Hc Hh] _. cbn in *.
  destruct a as [|[m|m|m|]|a b|a b|a]; try (left; eexists; by constructor).
  - right. exists m, k. split; [done|]. cbn in Hc. destruct (forallb _ _) eqn:E; [|done]. by apply forallb_rank.
  - left. cbn in Hc. destruct h as [|x h]; [done|]. case_bool_decide; [|done]. subst x. eexists. exact (t_unlock s [] m h k).
  - left. cbn in Hc. case_bool_decide; [|done]. subst h. eexists. exact (t_wait s [] m [] k).
Qed.

(** ** Interleavings of threads in order *)

(** No mutex is held twice. *)
Definition exclusive (s : sys) : Prop := NoDup (s ≫= th_held).

Record sys_ok (ok : list mutex_t → bool) (s : sys) : Prop := {
  so_threads : Forall (in_order ok) s;
  so_exclusive : exclusive s
}.

Lemma sys_free s m : free s m ↔ m ∉ s ≫= th_held.
Proof.
  rewrite list_elem_of_bind. split.
  - intros Hf (t & Hm & Ht). by apply (Hf t).
  - intros Hn t Ht Hm. apply Hn. by exists t.
Qed.
Lemma tstep_held s t t' : tstep s t t' →
  sublist (th_held t') (th_held t) ∨ ∃ m, free s m ∧ th_held t' = m :: th_held t.
Proof.
  intros Hst. destruct Hst; cbn; try (by left); [right; eauto|left..].
  all: apply sublist_app; [done|]; by apply sublist_cons.
Qed.
Lemma sys_step_ok ok programs s s' : Forall (λ p, check ok [] p = Some []) programs →
  sys_step programs s s' → sys_ok ok s → sys_ok ok s'.
Proof.
  intros Hp Hs [Ht He]. destruct Hs as [i t t' Hi Hst|p Hin].
  - apply list_elem_of_split_length in Hi as (l1 & l2 & -> & ->). rewrite insert_app_r_alt, Nat.sub_diag by lia. cbn [insert list_insert].
    rewrite Forall_app, Forall_cons in Ht. destruct Ht as (H1 & H2 & H3). pose proof (tstep_in_order ok _ _ _ Hst H2) as H4.
    constructor; [rewrite Forall_app, Forall_cons; done|]. unfold exclusive in *. rewrite bind_app, bind_cons in *.
    destruct (tstep_held _ _ _ Hst) as [Hsub|(m & Hf & ->)].
    + eapply sublist_NoDup; [exact He|]. apply sublist_app; [done|]. by apply sublist_app.
    + apply sys_free in Hf. rewrite bind_app, bind_cons in Hf. cbn [app]. rewrite <- Permutation_middle. by constructor.
  - constructor; [apply Forall_app; split; [done|]; constructor; [|constructor]|].
    + rewrite Forall_forall in Hp. constructor; cbn; [by rewrite Hp | constructor].
    + unfold exclusive in *. rewrite bind_app. cbn. by rewrite app_nil_r.
Qed.
Lemma sys_run_ok ok programs s : Forall (λ p, check ok [] p = Some []) programs →
  rtc (sys_step programs) [] s → sys_ok ok s.
Proof.
  intros Hp Hr. assert (sys_ok ok []) as H0 by (constructor; constructor). revert H0.
  induction Hr as [|x y z Hs _ IH]; [done|]. intros H. by apply IH, (sys_step_ok ok programs x).
Qed.

(** [i] waits for a mutex [j] holds. *)
Definition waits (s : sys) (i j : nat) : Prop :=
  ∃ t u m k, s !! i = Some t ∧ s !! j = Some u ∧ th_code t = lock m :: k ∧ m ∈ th_held u.
Definition can_move (s : sys) (i : nat) : Prop := ∃ t t', s !! i = Some t ∧ tstep s t t'.

Lemma rank_bound m : (rank m <= 6)%nat.
Proof. destruct m; cbn; lia. Qed.
#[export] Instance free_dec s m : Decision (free s m).
Proof. refine (cast_if (decide (m ∉ s ≫= th_held))); abstract (by rewrite sys_free). Defined.

(** Every chain of waiting ends in a thread that can move: along it the ranks of the
    mutexes waited for grow. *)
Lemma waiting_ends ok s i t : sys_ok ok s → s !! i = Some t → th_code t ≠ [] →
  ∃ j, rtc (waits s) i j ∧ can_move s j.
Proof.
  intros [Ho _]. assert (∀ i t, s !! i = Some t → in_order ok t) as Hin by (intros; by eapply (Forall_lookup_1 _ _ _ _ Ho)).
  assert (∀ n i t m k, s !! i = Some t → th_code t = lock m :: k → (7 - rank m <= n)%nat → ∃ j, rtc (waits s) i j ∧ can_move s j) as Hn.
  { clear i t. induction n as [|n IH]; intros i t m k Hi Ec Hr; [pose proof (rank_bound m); lia|].
    destruct (decide (free s m)) as [Hf|Hf].
    - exists i. split; [done|]. destruct t as [h c]. cbn in Ec. subst c. exists (mkThread h (lock m :: k)), (mkThread (m :: h) k). split; [done|]. by constructor.
    - rewrite sys_free in Hf. apply dec_stable, list_elem_of_bind in Hf as (u & Hm & (j & Hj)%list_elem_of_lookup_1).
      assert (waits s i j) as Hw by (by exists t, u, m, k). destruct (th_code u) as [|a k'] eqn:Eu.
      { destruct u as [h c]. cbn in *. subst c. apply Hin, in_order_done in Hj as ->. by apply elem_of_nil in Hm. }
      destruct (in_order_next ok s u (Hin _ _ Hj)) as [[u' Hu]|(m' & k2 & Ec' & Hf)]; [by rewrite Eu| |].
      + exists j. split; [by apply rtc_once|]. by exists u, u'.
      + rewrite Forall_forall in Hf. specialize (Hf m Hm). destruct (IH j u m' k2 Hj Ec' ltac:(lia)) as (j' & Hj' & Hmv).
        exists j'. split; [by eapply rtc_l|done]. }
  intros Hi Hne. destruct (in_order_next ok s t (Hin _ _ Hi) Hne) as [[t' Ht]|(m & k & Ec & _)].
  - exists i. split; [done|]. by exists t, t'.
  - by eapply (Hn 7%nat); [..|lia].
Qed.

(** ** The skeletons of the program

    One definition per function, in the order of its lock operations; a function that
    takes no lock and does not block does not appear. *)

Definition lk_log : code := crit M_log Skip.

(** *** mempool.c *)
Definition lk_mempool_add : code :=
  may (lock M_mempool >> (unlock M_mempool <|> unlock M_mempool <|> unlock M_mempool <|> unlock M_mempool)).
Definition lk_mempool_op : code := crit M_mempool Skip.

(** *** net.c *)
Definition lk_dedup : code := crit M_dedup Skip.
Definition lk_peers : code := crit M_peers Skip.
Definition lk_peer_alloc : code := lock M_peers >> (unlock M_peers <|> unlock M_peers).
(** The returns for a long message, a closing peer, a full queue and two failed
    allocations, and the last one. *)
Definition lk_peer_enqueue (i : nat) : code :=
  may (lock (M_out i) >> (unlock (M_out i) <|> unlock (M_out i) <|> unlock (M_out i) <|> unlock (M_out i) <|> unlock (M_out i))).
Definition lk_close_out (i : nat) : code := crit (M_out i) Skip.
Definition lk_writer_loop (i : nat) : code :=
  Star (lock (M_out i) >> Star (Op (Wait (M_out i))) >> (unlock (M_out i) <|> unlock (M_out i) >> may block)) >> lk_close_out i.
Definition lk_broadcast : code := crit M_peers (each (λ i, may (lk_peer_enqueue i))).
Definition lk_send_to : code := crit M_peers (each (λ i, may (lk_peer_enqueue i))).
Definition lk_send_hello : code := lk_peers >> block.
(** Parsing and deduplication, name resolution and connecting, slot, HELLO. *)
Definition lk_dial_peer : code := may (lk_peers >> may (block >> may (lk_peer_alloc >> may lk_send_hello))).
Definition lk_listen_loop : code :=
  Star (block >> (Skip <|> lk_log >> block <|> lk_peer_alloc >> may lk_send_hello)).
(** A slot: look; wake and join the writer; join the reader; release. *)
Definition lk_reap_dead_peers : code :=
  each (λ i, lk_peers >> may (lk_close_out i >> block) >> may block >> may lk_peers).
Definition lk_connector_loop : code := Star (lk_reap_dead_peers >> lk_peers >> may (Star lk_dial_peer) >> block).
(** Two joins; shut the sockets; wake the writers; join reader and writer of each slot. *)
Definition lk_net_stop : code :=
  block >> block >> lk_peers >> each (λ i, may (lk_close_out i)) >> each (λ i, may block >> may block).

(** *** consensus.c *)
Definition lk_chain : code := crit M_chain Skip.
(** [am_i_leader] and [am_i_committee]. *)
Definition lk_am_i : code := lock M_chain >> (unlock M_chain <|> unlock M_chain).
Definition lk_our_vote_now : code := lk_am_i >> may (lk_log >> may lk_broadcast).
(** The returns without a quorum or in the grace period, and the acceptance. *)
Definition lk_try_commit : code :=
  may (lock M_chain >>
    (unlock M_chain <|> unlock M_chain <|> unlock M_chain <|> unlock M_chain <|> unlock M_chain
     <|> unlock M_chain >> (lk_log >> Star lk_mempool_op >> may lk_broadcast <|> lk_log))).
Definition lk_handle_block : code :=
  lk_log <|> Skip <|>
  lock M_cs >>
    (lk_try_commit >> unlock M_cs
     <|> lock M_chain >>
         (unlock M_chain >> unlock M_cs >> may lk_broadcast
          <|> unlock M_chain >> unlock M_cs
          <|> unlock M_chain >> (unlock M_cs <|> lk_log >> lk_chain >> lk_try_commit >> unlock M_cs))).
Definition lk_handle_vote : code :=
  may (lock M_cs >>
    (unlock M_cs
     <|> lk_chain >> (unlock M_cs <|> unlock M_cs <|> unlock M_cs <|> unlock M_cs <|> lk_try_commit >> unlock M_cs))).
Definition lk_slot_routine : code :=
  may (lk_am_i >> may (lk_mempool_op >> lk_mempool_op >> lk_chain >>
    may (lock M_cs >> lk_chain >> may lk_broadcast >> lk_try_commit >> unlock M_cs >> lk_log))).
Definition lk_vote_phase : code :=
  may (lock M_cs >>
    (unlock M_cs
     <|> lk_chain >> (unlock M_cs <|> may (lk_our_vote_now >> lk_try_commit) >> unlock M_cs
                      <|> lk_our_vote_now >> lk_try_commit >> unlock M_cs))).
Definition lk_seal_phase : code := lock M_cs >> Star lk_try_commit >> unlock M_cs.
Definition lk_slot_loop : code :=
  may block >> may block >>
  Star (lk_slot_routine >> may block >> may (lk_vote_phase >> may block >> may (lk_seal_phase >> may block))).

(** *** node.c *)
Definition lk_on_tx_ann : code := may (crit M_chain lk_mempool_add).
Definition lk_on_headers_req : code := may (lk_chain >> may (Star (lk_chain >> may lk_send_to))).

(** *** net.c: the reader *)
Definition lk_gossip (cb : code) : code := lk_dedup >> may (lk_dedup >> cb >> lk_broadcast).
Definition lk_dispatch_message (i : nat) : code :=
  lk_gossip lk_handle_block <|> lk_gossip lk_on_tx_ann <|> lk_gossip lk_handle_vote <|> may lk_on_headers_req <|> may lk_on_headers_req
  <|> lk_handle_block <|> lk_peer_enqueue i <|> Skip.
(** The first frame and the reasons to hang up; the eviction of older connections; the
    gossiped peers; the messages. *)
Definition lk_reader_loop (i : nat) : code :=
  block >>
  (lk_log <|> lk_log <|> lk_log <|> lk_log
   <|> crit M_peers (each (λ j, may (lk_log >> lk_close_out j))) >> lk_log >> Star lk_dial_peer >>
       Star (block >> may (lk_dispatch_message i)) >> lk_log).

(** *** rpc.c *)
(** A lookup under the chain's lock, and the answer after it. *)
Definition lk_rpc_query : code := block <|> lk_chain >> block.
Definition lk_rpc_list : code := block <|> lock M_chain >> (unlock M_chain >> block <|> unlock M_chain >> block).
Definition lk_rpc_submit : code :=
  block <|> crit M_chain lk_mempool_add >> (block <|> may lk_broadcast >> block).
Definition lk_rpc_mempool_size : code := lk_mempool_op >> block.
(** The answer is sent under the chain's lock. *)
Definition lk_rpc_tx_get : code :=
  block <|> lock M_chain >>
    (unlock M_chain >> block <|> unlock M_chain >> block <|> unlock M_chain >> block <|> unlock M_chain >> block
     <|> unlock M_chain >> block <|> block >> unlock M_chain).
Definition lk_rpc_block_get_full : code :=
  block <|> lock M_chain >> (unlock M_chain >> block <|> unlock M_chain >> block <|> block >> unlock M_chain).
Definition lk_rpc_peers_list : code := block <|> lk_peers >> lk_peers >> block.
Definition lk_handle_client : code :=
  Star block >>
  (block <|> lk_rpc_query <|> lk_rpc_list <|> lk_rpc_submit <|> lk_rpc_mempool_size <|> lk_rpc_tx_get <|> lk_rpc_block_get_full
   <|> lk_rpc_peers_list).
Definition lk_rpc_accept_loop : code := Star (block >> may lk_handle_client).

(** *** node.c: the main thread *)
(** Waiting for a signal, then joining the RPC server, the network, the timer. *)
Definition lk_main : code := Star block >> block >> lk_net_stop >> block.

(** The threads of a node: all but the RPC server, and with it. *)
Definition quiet_programs : list code :=
  lk_main :: lk_slot_loop :: lk_listen_loop :: lk_connector_loop ::
  (lk_writer_loop <$> seq 0 AC_MAX_PEERS) ++ (lk_reader_loop <$> seq 0 AC_MAX_PEERS).
Definition node_programs : list code := lk_rpc_accept_loop :: quiet_programs.

(** What the threads may hold while they block. *)
Definition nothing (h : list mutex_t) : bool := bool_decide (h = []).
Definition chain_at_most (h : list mutex_t) : bool := bool_decide (h = [] ∨ h = [M_chain]).

Lemma node_programs_checked : Forall (λ p, check chain_at_most [] p = Some []) node_programs.
Proof. apply (bool_decide_unpack _). vm_compute. exact I. Qed.
Lemma quiet_programs_checked : Forall (λ p, check nothing [] p = Some []) quiet_programs.
Proof. apply (bool_decide_unpack _). vm_compute. exact I. Qed.

Lemma in_order_uses ok t : in_order ok t →
  (th_code t = [] → th_held t = []) ∧
  (∀ m k, th_code t = unlock m :: k ∨ th_code t = Op (Wait m) :: k → m ∈ th_held t) ∧
  (∀ k, th_code t = block :: k → ok (th_held t) = true).
Proof.
  destruct t as [h c]. intros Hi. pose proof (io_code _ _ Hi) as Hc. cbn in *. split; [|split].
  - intros ->. by eapply in_order_done.
  - intros m k [-> | ->]; cbn in Hc.
    + destruct h as [|x h]; [done|]. case_bool_decide; [|done]. subst x. by left.
    + case_bool_decide; [|done]. subst h. by left.
  - intros k ->. cbn in Hc. by destruct (ok h).
Qed.

(** C19. Mutual exclusion and no deadlock: with any number of the node's threads running, in
    any interleaving, no mutex is held by two threads, none is released or waited on by a
    thread that does not hold it, and no thread ends holding one. Every thread that is not
    done can move, or waits, through however many others that wait in turn, for one that
    can: there is no cycle of threads waiting for each other. In a blocking call (a thread
    in one counts as able to move) a thread holds no mutex at all, the RPC server excepted,
    which may hold the chain's; so what a thread waits for is never a peer, a sleep or the
    end of another thread, but possibly a client of the RPC server. *)
Theorem no_deadlock s :
  rtc (sys_step node_programs) [] s →
  exclusive s ∧
  (∀ t, t ∈ s →
     (th_code t = [] → th_held t = []) ∧
     (∀ m k, th_code t = unlock m :: k ∨ th_code t = Op (Wait m) :: k → m ∈ th_held t) ∧
     (∀ k, th_code t = block :: k → th_held t = [] ∨ th_held t = [M_chain])) ∧
  (∀ i t, s !! i = Some t → th_code t ≠ [] → ∃ j, rtc (waits s) i j ∧ can_move s j) ∧
  (rtc (sys_step quiet_programs) [] s → ∀ t k, t ∈ s → th_code t = block :: k → th_held t = []).
Proof.
  intros Hr. pose proof (sys_run_ok _ _ _ node_programs_checked Hr) as Hok. split; [apply Hok|]. split; [|split].
  - intros t Ht. pose proof (proj1 (Forall_forall _ _) (so_threads _ _ Hok) t Ht) as Hi.
    destruct (in_order_uses _ _ Hi) as (U1 & U2 & U3). split; [done|]. split; [done|]. intros k Hk.
    by apply U3, bool_decide_eq_true_1 in Hk.
  - intros i t. by apply (waiting_ends chain_at_most).
  - intros Hq t k Ht Hk. pose proof (sys_run_ok _ _ _ quiet_programs_checked Hq) as Hqok.
    pose proof (proj1 (Forall_forall _ _) (so_threads _ _ Hqok) t Ht) as Hi.
    by apply (proj2 (proj2 (in_order_uses _ _ Hi))), bool_decide_eq_true_1 in Hk.
Qed.

(** ** Witness, and a client that stalls the node *)

(** The next move of thread [i], [b] choosing between the two of a branch or a loop. *)
Definition move (s : sys) (i : nat) (b : bool) : option sys :=
  t ← s !! i;
  t' ← match th_code t with
       | [] => None
       | Skip :: k => Some (mkThread (th_held t) k)
       | (a >> b) :: k => Some (mkThread (th_held t) (a :: b :: k))
       | (x <|> y) :: k => Some (mkThread (th_held t) ((if b then x else y) :: k))
       | Star a :: k => Some (mkThread (th_held t) (if b then a :: Star a :: k else k))
       | lock m :: k => if decide (free s m) then Some (mkThread (m :: th_held t) k) else None
       | unlock m :: k => match th_held t with x :: h => if decide (x = m) then Some (mkThread h k) else None | [] => None end
       | Op (Wait m) :: k => None
       | block :: k => Some (mkThread (th_held t) k)
       end;
  Some (<[i := t']> s).
Fixpoint moves (s : sys) (i : nat) (bs : list bool) : option sys :=
  match bs with [] => Some s | b :: bs => s' ← move s i b; moves s' i bs end.

Lemma move_step ps s i b s' : move s i b = Some s' → sys_step ps s s'.
Proof.
  unfold move. intros (t & Hi & (t' & Ht & [= <-])%bind_some)%bind_some. apply (sys_move ps s i t t' Hi).
  destruct t as [h [|c k]]; [done|]. cbn in Ht. destruct c as [|[m|m|m|]|x y|x y|x]; try (injection Ht as <-; constructor); try done.
  - destruct (decide _) as [Hf|]; [|done]. injection Ht as <-. by constructor.
  - destruct h as [|x h]; [done|]. destruct (decide _) as [-> |]; [|done]. injection Ht as <-. exact (t_unlock s [] m h k).
  - destruct b; injection Ht as <-; constructor.
  - destruct b; injection Ht as <-; constructor.
Qed.
Lemma moves_run ps s i bs s' : moves s i bs = Some s' → rtc (sys_step ps) s s'.
Proof.
  revert s. induction bs as [|b bs IH]; intros s; cbn; [by intros [= ->]|]. intros (s1 & H1 & H2)%bind_some.
  eapply rtc_l; [by eapply move_step | by apply IH].
Qed.

(** The RPC server answers [tx_get]; the timer thread asks whether it leads. *)
Definition answering : list bool :=
  [true; true; true; false; true; false; false; false; false; false; false; true; false; true; true; false; false; false; false; false; true].
Definition asking : list bool := [true; true; true; true; true; true; true; true; false; true; true].
Definition started : sys := [mkThread [] [lk_rpc_accept_loop]; mkThread [] [lk_slot_loop]].
Definition stalled : option sys := s ← moves started 0 answering; moves s 1 asking.

Lemma started_reached : rtc (sys_step node_programs) [] started.
Proof.
  eapply rtc_l; [apply (sys_spawn _ [] lk_rpc_accept_loop); by left|].
  apply rtc_once. refine (sys_spawn _ [_] lk_slot_loop _). right. right. by left.
Qed.
Lemma stalled_reached s : stalled = Some s → rtc (sys_step node_programs) [] s.
Proof.
  unfold stalled. intros (s1 & H1 & H2)%bind_some. etrans; [exact started_reached|]. etrans; by eapply moves_run.
Qed.
Lemma stalled_shape : ∃ k l s, stalled = Some s ∧ s = [mkThread [M_chain] (block :: k); mkThread [] (lock M_chain :: l)].
Proof. do 3 eexists. vm_compute. split; reflexivity. Qed.

Lemma no_deadlock_witness : ∃ s, stalled = Some s ∧ exclusive s ∧ ∃ j, rtc (waits s) 1%nat j ∧ can_move s j.
Proof.
  destruct stalled_shape as (k & l & s & E & Hs). exists s. destruct (no_deadlock s (stalled_reached s E)) as (H1 & _ & H3 & _).
  split; [exact E|]. split; [exact H1|]. refine (H3 1%nat (mkThread [] (lock M_chain :: l)) _ _); [by rewrite Hs | done].
Defined.

(** [handle_tx_get] and [handle_block_get_full] send their answer before they release the
    chain's lock: while the client does not read it, the timer thread stays where it is,
    whatever the other threads do. *)
Lemma rpc_sends_under_chain_lock : ∃ s,
  rtc (sys_step node_programs) [] s ∧ (∃ k, s !! 0%nat = Some (mkThread [M_chain] (block :: k))) ∧
  waits s 1%nat 0%nat ∧ ∀ s', s' !! 0%nat = s !! 0%nat → s' !! 1%nat = s !! 1%nat → ¬ can_move s' 1%nat.
Proof.
  destruct stalled_shape as (k & l & s & E & ->). eexists. split; [by apply stalled_reached|]. split; [by eexists|]. split.
  { eexists _, _, M_chain, l. repeat split. by left. }
  intros s' H0 H1 (t & t' & Ht & Hst). rewrite H1 in Ht. injection Ht as <-. inversion Hst as [| | | | | |h m k' Hf| | |]; subst.
  apply (Hf (mkThread [M_chain] (block :: k))); [by eapply list_elem_of_lookup_2; rewrite H0|]. by left.
Qed.
